(* ===== verification/_CoqProject ===== *)
-Q . S2P
Prelude.v
GoNum.v
GoStrings.v
Utf8.v
Json.v
JsonFacts.v
Base64.v
Sha256.v
GoTime.v
Http.v
Jwt.v
Respond.v
Threads.v
RateLimit.v
RateQuota.v
Auth.v
Helpers.v
Security.v
Config.v
Pool.v
Model.v
Sql.v
Schema.v
Postgres.v
Memory.v
Repository.v
Typed.v
RepoFacts.v
RepoSpec.v
Service.v
Handlers.v
HandlerSpec.v
Effects.v
Consistency.v
Endpoints.v
Steady.v
Server.v
ChiRef.v
ServerSpec.v
Routing.v
ServerSafety.v
ServerLimit.v
ServerApi.v
ServerHistory.v
ServerOrder.v
ServerErrors.v
ServerPages.v
ServerPath.v
Lifecycle.v
