(* ===== verification/Prelude.v ===== *)
(** * QSGW control plane: a verification development

    QSGW is a quantum-safe API gateway.  Its control plane is a Go service that
    stores gateways, upstreams, routes and threat events in PostgreSQL and serves
    them as JSON over HTTP, behind middleware for authentication, rate limiting,
    CORS, body limits and security headers.  This library models that service:
    [src/control-plane] and [src/shared/go], every Go file of the repository.

    ** The program and the files

    A request goes through the files from the bottom of this list to the top and
    its answer comes back the same way.

    - The Go language and its standard library, as far as the service uses them:
      GoNum.v (64-bit integers, [strconv]), GoStrings.v ([strings],
      [crypto/subtle]), Utf8.v, Json.v with JsonFacts.v ([encoding/json]),
      Base64.v, Sha256.v ([crypto/sha256], [crypto/hmac]), GoTime.v ([time]) and
      Http.v ([net/http]: requests, headers, [ResponseWriter], [MaxBytesReader],
      query strings, contexts).
    - [shared/go/middleware]: Jwt.v and Auth.v (auth.go), RateLimit.v
      (ratelimit.go), Helpers.v (helpers.go, pagination.go), Security.v
      (security.go), and Respond.v (the functions that write JSON answers).
    - [shared/go/database/pool.go]: Pool.v.
    - [control-plane/internal]: Config.v (config), Model.v (model), Repository.v
      (repository), Service.v (service), Handlers.v (handler).
    - [control-plane/cmd/server/main.go]: Server.v, the routers with the [Routes]
      methods of the handlers and the start, and Lifecycle.v, the process from its
      start to its exit.
    - The database the repositories talk to: Sql.v reads their query strings,
      Schema.v is [src/db/migrations/000001_init_schema.up.sql] as data, and
      Postgres.v states the contract of the connection pool.

    The other files hold specifications and proofs: Threads.v is the program logic
    for handlers that run concurrently; RateQuota.v is on the limiter by itself;
    Typed.v, RepoFacts.v and RepoSpec.v are on the repositories, HandlerSpec.v,
    Effects.v, Consistency.v, Endpoints.v and Steady.v on the services and handlers.
    On the whole server, ServerSpec.v carries relations between answers and effects
    through the middleware and the routers, Routing.v finds the handler of a path,
    and ServerSafety.v, ServerLimit.v, ServerApi.v, ServerHistory.v, ServerOrder.v,
    ServerErrors.v, ServerPages.v and ServerPath.v use them.  Memory.v and ChiRef.v are reference instances of the interfaces.

    ** State and effects

    Stateful code is a program, a tree of atomic steps on an application state [S]:
    [M S A] of this file for the code below the handlers, [hio S A] of Http.v for a
    handler, which also writes to its own response writer.  Both are written in
    monadic notation, and an error is a value of [result].  Applied to a state a
    program runs alone; Threads.v interleaves the steps of several.  What is one
    step: a reading of the clock, a new UUID, the critical section of the limiter,
    and one SQL statement, which PostgreSQL runs in a transaction of its own.

    What the code needs of [S] are interfaces:
    a clock ([HasClock]), a source of UUIDs ([HasUuid]), the rate limiter
    ([HasLimiter]), the connection pool ([PgPool]), the router ([Chi]) and the
    UUID syntax ([UuidLib]).  What it relies on are classes of laws beside them:
    [LimiterLaws], [PgLaws] and [FrameLaws] (Postgres.v), [SteadyLaws] (Steady.v),
    [ChiLaws] and [ServerLaws] (Server.v), [PgxPoolLaws] (Pool.v).  The theorems hold for every
    instance; Memory.v and ChiRef.v discharge the laws for an executable one, on
    which the witnesses of the theorems are evaluated.

    [PgLaws] is deliberately weak: any call may fail, a failed write may have taken
    effect, rows without an order come in any order.  It gives a statement its
    meaning only through the parser of Sql.v, so a wrong column order or
    placeholder in a query string of Repository.v breaks the proofs.  Values are stored
    as their column takes them: times to the microsecond, and texts without the spaces
    beyond the length of a VARCHAR ([varchar], Schema.v).

    ** What is shown

    - Tokens (Jwt.v): [validateJWT] accepts exactly the valid tokens of the
      declarative [valid_token]; [CreateJWT] makes tokens that are accepted exactly
      during their lifetime; other algorithms are rejected; a token without [exp]
      never expires.
    - Authentication (Auth.v): [Auth] passes exactly the identity of the relation
      [credentials] on, or answers 401; [RequireRole] behind it; the message of
      every failure; the round trip of a created token.
    - Rate limiting (RateLimit.v, RateQuota.v), for every interleaving of requests
      and cleanup ticks: the quota in any interval, when requests take the lock at
      once and when they wait for it after they read the clock, and that it is
      attained; rejections only when deserved, independence of keys, the memory
      bound, [Retry-After], the middleware with the table before and after it and the
      headers it sets, and the life cycle of the cleanup goroutine.
    - Helpers.v, Security.v, Config.v, Pool.v: pagination bounds, parsing of API
      keys and its round trip from the environment, response headers, the CORS
      policy, body limits, configuration defaults, and that no error leaks a pool.
    - Repositories (RepoSpec.v): each method refines an operation on the list of
      records [entities] of its table.
    - Handlers (HandlerSpec.v): status, JSON and effect on the records, and the
      round trip of POST and GET over HTTP.
    - Types (Typed.v): every call the repositories make is well typed against the
      schema, observed on a pool that records the calls.
    - Concurrency (Threads.v, Effects.v, Consistency.v, ServerSpec.v, ServerSafety.v),
      for every interleaving of any requests: the database follows the abstract
      specification [db_change], at most one change for each request; a request takes
      effect in one step or not at all, as its status tells; a [consistent] database
      stays consistent, its records well formed, its keys unique, its references kept;
      requests other than POST and DELETE, and those that prove no identity, change
      nothing; every response carries the security headers; every request ends after
      at most six steps and waits for no other.  [wp] is the weakest precondition of
      a handler under interference; [pool_adequate] carries it to the schedules of a
      pool of threads, [wp_run] to a handler that runs alone, and [serves] is its
      closure under the middleware and the routers.
    - The endpoints (Endpoints.v, Routing.v, ServerApi.v): [promises] says for each
      of the twelve endpoints which status and JSON answer a request and what it
      does to the database at the same step; the handlers keep the promises, the
      routers take a request to the handler of its path, and so every authenticated
      request gets what its endpoint promises, in every schedule.
    - The order of events (ServerHistory.v, ServerOrder.v): what was answered 201
      stays, and later requests read it; the effects of all requests form one serial
      log, [serialized], which only grows; of creations that compete for a name one
      wins.
    - Errors (ServerErrors.v): every answer but 200, 201 and 204 is [explained] by
      the layer that gives it, its body is one of the messages written in the code,
      and unless it is 500 nothing has been changed.
    - Listings (ServerPages.v): the pages of a walk through the gateways are together
      all of them, each once and in order, when nothing is added meanwhile and no two
      were created at the same moment.
    - The limiter of the server (ServerLimit.v): in every schedule the requests act
      on it as one sequence of events, a request gets 429 exactly when it was
      refused there.
    - The way through the server (ServerPath.v): what a request gets when it runs
      alone and is refused, unauthenticated, or an authenticated creation or
      activation.
    - The process (Lifecycle.v): no exit with code 0 before every request is
      answered, the limiter stopped and the pool closed; no panic; shutdown can
      always complete; and the quota of a client of the process: at most 199 requests
      in a minute, or 298 when requests wait for the limiter's lock.

    ** Bounds and fuel

    Integers that reach 64-bit arithmetic are wrapped where the code can overflow
    ([int64_wrap]) or saturated where the library does ([int64_sat]).  The JSON
    parser takes as fuel twice the length of its input plus two;
    [JsonFacts.parse_value_fuel] shows that more changes nothing.  The SQL parser
    takes the number of tokens, and each round of its one loop consumes one.
    [Itoa] takes 20 digits, which cover 64 bits.  Trimming takes the length of the
    string.  Everything else is structural.

    ** What is not modelled

    Logging ([zap]); the timeouts of [http.Server] and of a request, cancellation,
    and panics of handlers; connections and listeners, of which Lifecycle.v keeps
    the requests accepted; the internals of [chi], [pgx] and [uuid], which are the
    interfaces above, of [chi] the routing of the nine methods it knows and its answers
    404 and 405; escaped paths ([URL.RawPath]); the sharing of pooled
    connections, so a statement never waits for one.  [ToLower] and [EqualFold] are
    exact where the code uses them (GoStrings.v).  The Rust gateway, the Python
    engine and the web front ends are separate programs and are not part of this
    development.

    ** This file

    The result type and the programs [M] with their notations, bytes and strings,
    and the list lemmas and tactics that the other files share. *)

From stdpp Require Export base tactics list strings gmap numbers option.
From Stdlib Require Export ZArith Lia Ascii String.

(** ** Scopes and notations *)

Declare Scope go_scope.
Delimit Scope go_scope with go.
#[global] Open Scope Z_scope.

(** ** Fallible code: the [(value, error)] pairs of Go as a sum *)

Inductive result (A E : Type) : Type :=
| Ok (a : A)
| Err (e : E).
Arguments Ok {A E} _.
Arguments Err {A E} _.

Definition rbind {A B E} (m : result A E) (k : A → result B E) : result B E :=
  match m with
  | Ok a => k a
  | Err e => Err e
  end.

(** [v, err := f(); if err != nil { return e }] *)
Definition or_err {A E} (o : option A) (e : E) : result A E :=
  match o with
  | Some a => Ok a
  | None => Err e
  end.

(** [if cond { return e }] *)
Definition reject_if {E} (cond : bool) (e : E) : result unit E :=
  if cond then Err e else Ok tt.

Notation "'let?' x ':=' e 'in' k" := (rbind e (λ x, k))
  (at level 10, x pattern, e at level 200, k at level 200) : go_scope.
Notation "e ';?' k" := (rbind e (λ _, k))
  (at level 199, right associativity) : go_scope.

Definition is_ok {A E} (r : result A E) : bool :=
  match r with Ok _ => true | Err _ => false end.

(** ** Stateful code: programs of atomic steps

    A program ends with a value or makes one atomic step on the shared state and
    goes on with its answer.  Applied to a state ([run_prog] is a coercion) it runs
    alone, without interruption; Threads.v interleaves the steps of several. *)

Inductive M (S A : Type) : Type :=
| Done (a : A)
| Step (B : Type) (f : S → B * S) (k : B → M S A).
Arguments Done {S A} _.
Arguments Step {S A B} _ _.

Fixpoint run_prog {S A} (m : M S A) (s : S) : A * S :=
  match m with
  | Done a => (a, s)
  | Step f k => let '(b, s') := f s in run_prog (k b) s'
  end.
Coercion run_prog : M >-> Funclass.

Definition mreturn {S A} (a : A) : M S A := Done a.

Fixpoint mseq {S A B} (m : M S A) (k : A → M S B) : M S B :=
  match m with
  | Done a => k a
  | Step f k' => Step f (λ b, mseq (k' b) k)
  end.

(** One atomic step. *)
Definition prim {S A} (f : S → A * S) : M S A := Step f Done.

Notation "'let*' x ':=' e 'in' k" := (mseq e (λ x, k))
  (at level 10, x pattern, e at level 200, k at level 200) : go_scope.
Notation "e ';*' k" := (mseq e (λ _, k))
  (at level 199, right associativity) : go_scope.

Lemma run_mreturn {S A} (a : A) (s : S) : mreturn a s = (a, s).
Proof. done. Qed.

Lemma run_mseq {S A B} (m : M S A) (k : A → M S B) (s : S) :
  mseq m k s = let '(a, s') := m s in k a s'.
Proof. revert s. induction m as [a|C f k' IH]; intros s; [done|]. cbn. destruct (f s) as [b s']. apply IH. Qed.

(** Run the first steps of a program. *)
Ltac run_program := rewrite ?run_mseq; unfold mreturn; cbn [run_prog].

Lemma run_prim {S A} (f : S → A * S) (s : S) : prim f s = f s.
Proof. cbn. by destruct (f s). Qed.

#[global] Open Scope go_scope.

(** ** Strings as byte sequences *)

(** Go's [len(s)]. *)
Definition len (s : string) : Z := Z.of_nat (String.length s).

(** Go's [len] of a slice. *)
Definition len_list {A} (l : list A) : Z := Z.of_nat (List.length l).

(** The value of a byte, 0 to 255. *)
Definition byte_val (c : ascii) : Z := Z.of_N (N_of_ascii c).

(** The byte with value [z mod 256]. *)
Definition byte_of (z : Z) : ascii := ascii_of_N (Z.to_N (z mod 256)).

Fixpoint string_forallb (p : ascii → bool) (s : string) : bool :=
  match s with
  | EmptyString => true
  | String c r => p c && string_forallb p r
  end.

Fixpoint string_take (n : nat) (s : string) : string :=
  match n, s with
  | S m, String c r => String c (string_take m r)
  | _, _ => EmptyString
  end.

(** ** Automation *)

Create HintDb go discriminated.
#[export] Hint Constants Opaque : go.
Create Rewrite HintDb gorw.

(** Case analysis on the boolean comparisons of [Z] and of strings. *)
Ltac bool_to_prop :=
  repeat match goal with
  | H : andb _ _ = true |- _ => apply andb_prop in H; destruct H
  | H : orb _ _ = false |- _ => apply orb_false_iff in H; destruct H
  | H : negb _ = true |- _ => apply negb_true_iff in H
  | H : negb _ = false |- _ => apply negb_false_iff in H
  | H : Z.ltb _ _ = true |- _ => apply Z.ltb_lt in H
  | H : Z.ltb _ _ = false |- _ => apply Z.ltb_ge in H
  | H : Z.leb _ _ = true |- _ => apply Z.leb_le in H
  | H : Z.leb _ _ = false |- _ => apply Z.leb_gt in H
  | H : Z.eqb _ _ = true |- _ => apply Z.eqb_eq in H
  | H : Z.eqb _ _ = false |- _ => apply Z.eqb_neq in H
  | H : String.eqb _ _ = true |- _ => apply String.eqb_eq in H
  | H : String.eqb _ _ = false |- _ => apply String.eqb_neq in H
  | H : Ascii.eqb _ _ = true |- _ => apply Ascii.eqb_eq in H
  | H : Ascii.eqb _ _ = false |- _ => apply Ascii.eqb_neq in H
  end.

(** [lia] with Euclidean division by constants. *)
Ltac div_lia := Z.to_euclidean_division_equations; lia.

(** Split the [if]s and [match]es of the goal on fresh scrutinees. *)
Ltac split_ifs :=
  repeat match goal with
  | |- context [if ?b then _ else _] => destruct b eqn:?
  end.

(** ** Lemmas *)

Lemma rbind_Ok {A B E} (m : result A E) (k : A → result B E) (b : B) :
  rbind m k = Ok b ↔ ∃ a, m = Ok a ∧ k a = Ok b.
Proof. destruct m; naive_solver. Qed.

Lemma or_err_Ok {A E} (o : option A) (e : E) (a : A) :
  or_err o e = Ok a ↔ o = Some a.
Proof. destruct o; naive_solver. Qed.

Lemma reject_if_Ok {E} (b : bool) (e : E) (u : unit) :
  reject_if b e = Ok u ↔ b = false.
Proof. destruct u, b; split; done. Qed.

Lemma byte_val_range (c : ascii) : 0 ≤ byte_val c < 256.
Proof.
  unfold byte_val. pose proof (N_ascii_bounded c). lia.
Qed.

Lemma byte_of_val (c : ascii) : byte_of (byte_val c) = c.
Proof.
  unfold byte_of. rewrite Z.mod_small by apply byte_val_range.
  unfold byte_val. rewrite N2Z.id. apply ascii_N_embedding.
Qed.

Lemma byte_val_of (z : Z) : byte_val (byte_of z) = z mod 256.
Proof.
  unfold byte_val, byte_of. pose proof (Z.mod_pos_bound z 256 ltac:(lia)).
  rewrite N_ascii_embedding by lia. lia.
Qed.

Lemma byte_val_of_small (z : Z) : 0 ≤ z < 256 → byte_val (byte_of z) = z.
Proof. intros. rewrite byte_val_of. by apply Z.mod_small. Qed.

Lemma byte_val_inj (a b : ascii) : byte_val a = byte_val b → a = b.
Proof. intros H. by rewrite <- (byte_of_val a), H, byte_of_val. Qed.

Lemma len_nonneg (s : string) : 0 ≤ len s.
Proof. unfold len. lia. Qed.

Lemma app_cons_string (c : ascii) (s t : string) :
  (String c s ++ t)%string = String c (s ++ t).
Proof. reflexivity. Qed.

Lemma app_nil_string (s : string) : ("" ++ s)%string = s.
Proof. reflexivity. Qed.

Lemma app_string_nil (s : string) : (s ++ "")%string = s.
Proof. induction s as [|c s IH]; [done|]. by rewrite app_cons_string, IH. Qed.

Lemma app_assoc_string (a b c : string) :
  ((a ++ b) ++ c)%string = (a ++ (b ++ c))%string.
Proof. induction a as [|x a IH]; [done|]. by rewrite !app_cons_string, IH. Qed.

Lemma length_app_string (a b : string) :
  String.length (a ++ b) = (String.length a + String.length b)%nat.
Proof. induction a as [|x a IH]; [done|]. rewrite app_cons_string. simpl. by rewrite IH. Qed.

Lemma len_app (a b : string) : len (a ++ b) = len a + len b.
Proof. unfold len. rewrite length_app_string. lia. Qed.

Lemma string_forallb_app (p : ascii → bool) (a b : string) :
  string_forallb p (a ++ b) = string_forallb p a && string_forallb p b.
Proof.
  induction a as [|x a IH]; [done|].
  rewrite app_cons_string. simpl. by rewrite IH, andb_assoc.
Qed.

Lemma string_forallb_impl (p q : ascii → bool) (s : string) :
  (∀ c, p c = true → q c = true) → string_forallb p s = true → string_forallb q s = true.
Proof.
  intros Hpq. induction s as [|c s IH]; [done|]. simpl.
  intros [Hc Hs]%andb_prop. by rewrite (Hpq _ Hc), (IH Hs).
Qed.

Lemma string_take_length (n : nat) (s : string) :
  String.length (string_take n s) = Nat.min n (String.length s).
Proof.
  revert s. induction n as [|n IH]; intros [|c s]; simpl; try done. by rewrite IH.
Qed.

Lemma string_take_ge (n : nat) (s : string) :
  (String.length s ≤ n)%nat → string_take n s = s.
Proof.
  revert s. induction n as [|n IH]; intros [|c s]; simpl; intros; try done; [lia|].
  f_equal. apply IH. lia.
Qed.

Lemma existsb_eqb (x : string) (l : list string) : existsb (String.eqb x) l = true ↔ x ∈ l.
Proof.
  rewrite existsb_exists. split.
  - intros (y & Hy & ->%String.eqb_eq). by apply list_elem_of_In.
  - intros Hx. exists x. rewrite String.eqb_refl. split; [by apply list_elem_of_In|done].
Qed.

Lemma existsb_eqb_false (x : string) (l : list string) : existsb (String.eqb x) l = false ↔ x ∉ l.
Proof. rewrite <- existsb_eqb. by destruct (existsb _ l). Qed.

(** Peel the first step off a successful chain. *)
Tactic Notation "ok_step" ident(H) "as" simple_intropattern(x) simple_intropattern(Hx) :=
  let H' := fresh in
  rename H into H'; apply rbind_Ok in H'; destruct H' as (x & Hx & H).

#[export] Hint Rewrite app_cons_string app_nil_string app_assoc_string @app_string_nil : gorw.
#[export] Hint Resolve byte_val_range len_nonneg : go.

(** Replacing an element leaves the others where they are. *)
Lemma lookup_middle_ne {A} (l k : list A) (x y : A) (i : nat) :
  i ≠ List.length l → (l ++ x :: k)%list !! i = (l ++ y :: k)%list !! i.
Proof.
  intros Hi. destruct (decide (i < List.length l)%nat); [by rewrite !lookup_app_l by lia|].
  rewrite !lookup_app_r by lia. by destruct (i - List.length l)%nat as [|j] eqn:Ej; [lia|].
Qed.

(** Consecutive slices of [n] elements are the list as far as they reach. *)
Lemma concat_slices {A} (n : nat) (l : list A) (pages : list (list A)) :
  (∀ i page, pages !! i = Some page → page = take n (drop (i * n) l)) →
  List.concat pages = take (List.length pages * n) l.
Proof.
  revert l. induction pages as [|page pages IH]; intros l Hp; [done|]. cbn [List.concat List.length Nat.mul].
  rewrite (Hp 0%nat page eq_refl), (IH (drop n l)), <- take_take_drop; [done|].
  intros i page' Hi. rewrite (Hp (S i) page' Hi), drop_drop. done.
Qed.
