(* ===== verification/GoNum.v ===== *)
(** * Machine integers and [strconv]

    Go's [int] and [int64] (both 64 bits on the supported platforms) as [Z]
    with the wrap-around written out, [time.Duration] arithmetic, and the parts
    of [strconv] the services use: [Itoa]/[FormatInt] and [Atoi]/[ParseInt] in
    base 10, with their syntax and range errors. *)

From S2P Require Import Prelude.

Definition int64_min : Z := - 2 ^ 63.
Definition int64_max : Z := 2 ^ 63 - 1.

(** Two's-complement wrap-around to 64 bits. *)
Definition int64_wrap (z : Z) : Z := (z + 2 ^ 63) mod 2 ^ 64 - 2 ^ 63.

(** Saturation, as in [time.Time.Sub]. *)
Definition int64_sat (z : Z) : Z := Z.max int64_min (Z.min int64_max z).

Definition in_int64 (z : Z) : bool := (int64_min <=? z) && (z <=? int64_max).

(** ** Decimal digits *)

Definition digit_char (d : Z) : ascii := byte_of (48 + d).

Definition is_digit (c : ascii) : bool := (48 <=? byte_val c) && (byte_val c <=? 57).

Definition digit_val (c : ascii) : Z := byte_val c - 48.

(** Digits of [n], most significant first, prepended to [acc]. *)
Fixpoint itoa_digits (fuel : nat) (n : Z) (acc : string) : string :=
  match fuel with
  | O => acc
  | S f =>
      let acc' := String (digit_char (n mod 10)) acc in
      if n <? 10 then acc' else itoa_digits f (n / 10) acc'
  end.

(** [strconv.Itoa] and [strconv.FormatInt(_, 10)]; 20 digits cover 64 bits. *)
Definition Itoa (n : Z) : string :=
  if n <? 0 then String "-" (itoa_digits 20 (- n) "") else itoa_digits 20 n "".

Inductive num_error := ErrSyntax | ErrRange.

Fixpoint parse_digits (s : string) (acc : Z) : option Z :=
  match s with
  | EmptyString => Some acc
  | String c r => if is_digit c then parse_digits r (acc * 10 + digit_val c) else None
  end.

(** An unsigned decimal number: at least one digit. *)
Definition parse_udec (s : string) : option Z :=
  match s with EmptyString => None | _ => parse_digits s 0 end.

(** The value [strconv] returns next to the error: 0 on a syntax error, the
    nearest bound on a range error. *)
Definition clamp_int64 (z : Z) : Z * option num_error :=
  if in_int64 z then (z, None) else (int64_sat z, Some ErrRange).

(** [strconv.Atoi] = [strconv.ParseInt(s, 10, 0)] on 64-bit platforms. *)
Definition Atoi (s : string) : Z * option num_error :=
  match s with
  | String "+" r =>
      match parse_udec r with Some n => clamp_int64 n | None => (0, Some ErrSyntax) end
  | String "-" r =>
      match parse_udec r with Some n => clamp_int64 (- n) | None => (0, Some ErrSyntax) end
  | _ =>
      match parse_udec s with Some n => clamp_int64 n | None => (0, Some ErrSyntax) end
  end.

(** [strconv.ParseInt(s, 10, 64)] when only success matters. *)
Definition ParseInt64 (s : string) : option Z :=
  match Atoi s with
  | (n, None) => Some n
  | (_, Some _) => None
  end.

(** ** Lemmas *)

Lemma in_int64_iff (z : Z) : in_int64 z = true ↔ int64_min ≤ z ≤ int64_max.
Proof. unfold in_int64. rewrite andb_true_iff, !Z.leb_le. lia. Qed.

Lemma int64_wrap_id (z : Z) : int64_min ≤ z ≤ int64_max → int64_wrap z = z.
Proof.
  unfold int64_wrap, int64_min, int64_max. intros H.
  rewrite Z.mod_small; lia.
Qed.

Lemma int64_sat_id (z : Z) : int64_min ≤ z ≤ int64_max → int64_sat z = z.
Proof. unfold int64_sat. lia. Qed.

Lemma int64_sat_range (z : Z) : int64_min ≤ int64_sat z ≤ int64_max.
Proof. unfold int64_sat, int64_min, int64_max. lia. Qed.

Lemma digit_char_val (d : Z) : 0 ≤ d < 10 → byte_val (digit_char d) = 48 + d.
Proof. intros. unfold digit_char. apply byte_val_of_small. lia. Qed.

Lemma digit_char_is_digit (d : Z) : 0 ≤ d < 10 → is_digit (digit_char d) = true.
Proof.
  intros H. unfold is_digit. rewrite digit_char_val by done.
  rewrite andb_true_iff, !Z.leb_le. lia.
Qed.

Lemma digit_val_char (d : Z) : 0 ≤ d < 10 → digit_val (digit_char d) = d.
Proof. intros H. unfold digit_val. rewrite digit_char_val by done. lia. Qed.

#[export] Hint Rewrite digit_val_char digit_char_is_digit using lia : gorw.

Lemma mod10_range (n : Z) : 0 ≤ n mod 10 < 10.
Proof. apply Z.mod_pos_bound. lia. Qed.
#[export] Hint Resolve mod10_range : go.

Lemma parse_digits_itoa (f : nat) (n : Z) (acc : string) :
  0 ≤ n < 10 ^ Z.of_nat f →
  parse_digits (itoa_digits f n acc) 0 = parse_digits acc n.
Proof.
  revert n acc. induction f as [|f IH]; intros n acc Hn.
  { replace n with 0 by (change (10 ^ Z.of_nat 0) with 1 in Hn; lia). done. }
  rewrite Nat2Z.inj_succ, Z.pow_succ_r in Hn by lia.
  pose proof (mod10_range n) as Hm.
  cbn [itoa_digits]. destruct (n <? 10) eqn:E; bool_to_prop.
  - cbn [parse_digits]. rewrite digit_char_is_digit, digit_val_char by done.
    rewrite Z.mod_small by lia. done.
  - rewrite IH.
    + cbn [parse_digits]. rewrite digit_char_is_digit, digit_val_char by done.
      f_equal. pose proof (Z.div_mod n 10). lia.
    + split; [apply Z.div_pos; lia|]. apply Z.div_lt_upper_bound; lia.
Qed.

(** Every character of a rendered number is a digit. *)
Lemma itoa_digits_digits (f : nat) (n : Z) (acc : string) :
  string_forallb is_digit acc = true →
  string_forallb is_digit (itoa_digits f n acc) = true.
Proof.
  revert n acc. induction f as [|f IH]; intros n acc Hacc; [done|].
  assert (Hd : string_forallb is_digit (String (digit_char (n mod 10)) acc) = true).
  { simpl. rewrite Hacc, digit_char_is_digit by auto with go. done. }
  cbn [itoa_digits]. destruct (n <? 10); [done|]. by apply IH.
Qed.

Lemma itoa_digits_nonempty (f : nat) (n : Z) (acc : string) :
  ∃ c r, itoa_digits (S f) n acc = String c r ∧ is_digit c = true.
Proof.
  revert n acc. induction f as [|f IH]; intros n acc.
  - eexists _, acc. cbn. destruct (n <? 10); split; try done; apply digit_char_is_digit; auto with go.
  - cbn [itoa_digits]. destruct (n <? 10).
    + eexists _, _. split; [done|]. apply digit_char_is_digit; auto with go.
    + apply IH.
Qed.

(** A positive number has no leading zero. *)
Lemma itoa_digits_head (f : nat) (n : Z) (acc : string) :
  0 < n < 10 ^ Z.of_nat f →
  ∃ d r, itoa_digits f n acc = String (digit_char d) r ∧ 0 < d < 10.
Proof.
  revert n acc. induction f as [|f IH]; intros n acc Hn.
  { change (10 ^ Z.of_nat 0) with 1 in Hn. lia. }
  rewrite Nat2Z.inj_succ, Z.pow_succ_r in Hn by lia.
  cbn [itoa_digits]. destruct (n <? 10) eqn:E; bool_to_prop.
  - eexists _, _. split; [done|]. rewrite Z.mod_small; lia.
  - apply IH. split; [apply Z.div_str_pos; lia|]. apply Z.div_lt_upper_bound; lia.
Qed.

Lemma parse_udec_itoa (n : Z) :
  0 ≤ n < 10 ^ 20 → parse_udec (itoa_digits 20 n "") = Some n.
Proof.
  intros Hn. destruct (itoa_digits_nonempty 19 n "") as (c & r & Heq & Hc).
  unfold parse_udec. rewrite Heq, <- Heq. by apply parse_digits_itoa.
Qed.

Lemma digit_not_sign (c : ascii) : is_digit c = true → c ≠ "+"%char ∧ c ≠ "-"%char.
Proof. split; intros ->; discriminate. Qed.

Lemma Atoi_unsigned (c : ascii) (r : string) :
  is_digit c = true →
  Atoi (String c r) =
    match parse_udec (String c r) with Some n => clamp_int64 n | None => (0, Some ErrSyntax) end.
Proof.
  intros Hc. destruct (digit_not_sign c Hc) as [Hp Hm].
  destruct c as [[] [] [] [] [] [] [] []]; try discriminate Hc; reflexivity.
Qed.

(** [Atoi] reads back what [Itoa] writes, for every 64-bit integer. *)
Lemma Atoi_Itoa (n : Z) : int64_min ≤ n ≤ int64_max → Atoi (Itoa n) = (n, None).
Proof.
  intros Hn. pose proof Hn as Hn'. unfold int64_min, int64_max in Hn'.
  assert (Hc : clamp_int64 n = (n, None)).
  { unfold clamp_int64. by rewrite (proj2 (in_int64_iff n) Hn). }
  unfold Itoa. destruct (n <? 0) eqn:E; bool_to_prop.
  - cbn [Atoi]. rewrite parse_udec_itoa by lia. by rewrite Z.opp_involutive.
  - destruct (itoa_digits_nonempty 19 n "") as (c & r & Heq & Hd).
    rewrite Heq, Atoi_unsigned, <- Heq by done. by rewrite parse_udec_itoa by lia.
Qed.

Lemma ParseInt64_Itoa (n : Z) : int64_min ≤ n ≤ int64_max → ParseInt64 (Itoa n) = Some n.
Proof. intros Hn. unfold ParseInt64. by rewrite Atoi_Itoa. Qed.

(** Whatever the input, the value is a 64-bit integer. *)
Lemma Atoi_range (s : string) : int64_min ≤ (Atoi s).1 ≤ int64_max.
Proof.
  assert (Hc : ∀ z, int64_min ≤ (clamp_int64 z).1 ≤ int64_max).
  { intros z. unfold clamp_int64. destruct (in_int64 z) eqn:E.
    - by apply in_int64_iff in E.
    - apply int64_sat_range. }
  assert (H0 : int64_min ≤ 0 ≤ int64_max) by (unfold int64_min, int64_max; lia).
  assert (Hm : ∀ (o : option Z) (f : Z → Z), int64_min ≤
    (match o with Some n => clamp_int64 (f n) | None => (0, Some ErrSyntax) end).1 ≤ int64_max).
  { intros [n|] f; [apply Hc|apply H0]. }
  unfold Atoi. repeat case_match; try apply Hc; apply H0.
Qed.
