(* ===== verification/GoStrings.v ===== *)
(** * The parts of [strings] and [crypto/subtle] the services use

    [Split], [SplitN], [Join], [ToLower], [EqualFold], [TrimSpace] and
    [ConstantTimeCompare] on byte strings.  Separators are single bytes, the
    only ones the sources pass to [Split] and [SplitN].

    [ToLower] is exact on ASCII and on the two other code points whose lower
    case is ASCII (U+0130 and U+212A); the remaining code points keep their
    bytes, which are not ASCII before nor after, so comparing the result with an
    ASCII constant, as the sources do, is exact.  [EqualFold] is exact when one
    argument is ASCII without [k] and [s], as in its only call. *)

From S2P Require Import Prelude.

(** [strings.Cut] on a byte: the text before and after its first occurrence. *)
Fixpoint Cut (c : ascii) (s : string) : option (string * string) :=
  match s with
  | EmptyString => None
  | String a r =>
      if Ascii.eqb a c then Some (EmptyString, r)
      else match Cut c r with
           | Some (before, after) => Some (String a before, after)
           | None => None
           end
  end.

(** [strings.Split(s, string(c))]. *)
Fixpoint Split (c : ascii) (s : string) : list string :=
  match s with
  | EmptyString => [EmptyString]
  | String a r =>
      if Ascii.eqb a c then EmptyString :: Split c r
      else match Split c r with
           | h :: t => String a h :: t
           | [] => []
           end
  end.

(** [strings.SplitN(s, string(c), n)] for [n > 0]: at most [n] pieces, the last
    one unsplit. *)
Fixpoint SplitN (c : ascii) (s : string) (n : nat) : list string :=
  match n with
  | O => []
  | S O => [s]
  | S m => match Cut c s with
           | Some (before, after) => before :: SplitN c after m
           | None => [s]
           end
  end.

(** [strings.Join]. *)
Fixpoint Join (l : list string) (sep : string) : string :=
  match l with
  | [] => ""
  | [s] => s
  | s :: t => (s ++ sep ++ Join t sep)%string
  end.

Definition ascii_lower (c : ascii) : ascii :=
  if (65 <=? byte_val c) && (byte_val c <=? 90) then byte_of (byte_val c + 32) else c.

Fixpoint ToLower (s : string) : string :=
  match s with
  | EmptyString => EmptyString
  | String "196" (String "176" r) => String "i" (ToLower r)
  | String "226" (String "132" (String "170" r)) => String "k" (ToLower r)
  | String c r => String (ascii_lower c) (ToLower r)
  end.

Fixpoint ascii_lower_all (s : string) : string :=
  match s with
  | EmptyString => EmptyString
  | String c r => String (ascii_lower c) (ascii_lower_all r)
  end.

Definition EqualFold (s t : string) : bool :=
  String.eqb (ascii_lower_all s) (ascii_lower_all t).

(** The encodings of the 25 code points of [unicode.IsSpace]. *)
Definition bytes_to_string (l : list Z) : string :=
  fold_right (λ z s, String (byte_of z) s) "" l.

Definition space_encodings : list string :=
  map bytes_to_string
    ([[9]; [10]; [11]; [12]; [13]; [32]; [0xC2; 0x85]; [0xC2; 0xA0]; [0xE1; 0x9A; 0x80]]
     ++ map (λ z, [0xE2; 0x80; z])
          [0x80; 0x81; 0x82; 0x83; 0x84; 0x85; 0x86; 0x87; 0x88; 0x89; 0x8A; 0xA8; 0xA9; 0xAF]
     ++ [[0xE2; 0x81; 0x9F]; [0xE3; 0x80; 0x80]])%list.

Fixpoint cut_prefix (p s : string) : option string :=
  match p, s with
  | EmptyString, _ => Some s
  | String a p', String b s' => if Ascii.eqb a b then cut_prefix p' s' else None
  | String _ _, EmptyString => None
  end.

Fixpoint cut_any (ps : list string) (s : string) : option string :=
  match ps with
  | [] => None
  | p :: ps' => match cut_prefix p s with Some r => Some r | None => cut_any ps' s end
  end.

Fixpoint trim_with (ps : list string) (fuel : nat) (s : string) : string :=
  match fuel with
  | O => s
  | S f => match cut_any ps s with Some r => trim_with ps f r | None => s end
  end.

Fixpoint rev_append_string (s acc : string) : string :=
  match s with
  | EmptyString => acc
  | String c r => rev_append_string r (String c acc)
  end.

Definition rev_string (s : string) : string := rev_append_string s "".

Definition TrimLeftSpace (s : string) : string :=
  trim_with space_encodings (String.length s) s.

Definition TrimRightSpace (s : string) : string :=
  rev_string (trim_with (map rev_string space_encodings) (String.length s) (rev_string s)).

(** [strings.TrimSpace]: UTF-8 is self-synchronising, so removing encodings of
    white space at either end is removing white-space code points. *)
Definition TrimSpace (s : string) : string := TrimRightSpace (TrimLeftSpace s).

(** [subtle.ConstantTimeCompare]: 1 when equal; the loop reads every byte. *)
Fixpoint xor_accumulate (x y : string) (v : Z) : Z :=
  match x, y with
  | String a x', String b y' =>
      xor_accumulate x' y' (Z.lor v (Z.lxor (byte_val a) (byte_val b)))
  | _, _ => v
  end.

Definition ConstantTimeCompare (x y : string) : Z :=
  if negb (len x =? len y) then 0
  else if xor_accumulate x y 0 =? 0 then 1 else 0.

(** ** Lemmas *)

Definition no_byte (c : ascii) (s : string) : bool :=
  string_forallb (λ a, negb (Ascii.eqb a c)) s.

Lemma Cut_None (c : ascii) (s : string) : no_byte c s = true → Cut c s = None.
Proof.
  induction s as [|a s IH]; [done|]. unfold no_byte. simpl. intros H. bool_to_prop.
  rewrite (proj2 (Ascii.eqb_neq a c)) by done. by rewrite IH.
Qed.

Lemma Cut_app (c : ascii) (s t : string) :
  no_byte c s = true → Cut c (s ++ String c t) = Some (s, t).
Proof.
  induction s as [|a s IH]; unfold no_byte; simpl; intros H.
  - rewrite Ascii.eqb_refl. done.
  - bool_to_prop. rewrite (proj2 (Ascii.eqb_neq a c)) by done. by rewrite IH.
Qed.

(** [Cut] finds the first separator and loses nothing. *)
Lemma Cut_Some (c : ascii) (s b a : string) :
  Cut c s = Some (b, a) → s = (b ++ String c a)%string ∧ no_byte c b = true.
Proof.
  revert b a. induction s as [|x s IH]; intros b a; [done|]. simpl.
  destruct (Ascii.eqb x c) eqn:E; bool_to_prop.
  - intros [= <- <-]. by subst.
  - destruct (Cut c s) as [[b' a']|] eqn:Ec; [|done]. intros [= <- <-].
    destruct (IH b' a' eq_refl) as [-> Hb]. split; [done|].
    unfold no_byte in *. simpl. rewrite Hb. by rewrite (proj2 (Ascii.eqb_neq x c)).
Qed.

Lemma Split_single (c : ascii) (s : string) : no_byte c s = true → Split c s = [s].
Proof.
  induction s as [|a s IH]; [done|]. unfold no_byte. simpl. intros H. bool_to_prop.
  rewrite (proj2 (Ascii.eqb_neq a c)) by done. by rewrite IH.
Qed.

Lemma Split_app (c : ascii) (s t : string) :
  no_byte c s = true → Split c (s ++ String c t) = s :: Split c t.
Proof.
  induction s as [|a s IH]; unfold no_byte; simpl; intros H.
  - by rewrite Ascii.eqb_refl.
  - bool_to_prop. rewrite (proj2 (Ascii.eqb_neq a c)) by done. by rewrite IH.
Qed.

Lemma Split_nonempty (c : ascii) (s : string) : Split c s ≠ [].
Proof.
  induction s as [|a s IH]; simpl; [done|]. destruct (Ascii.eqb a c); [done|].
  by destruct (Split c s).
Qed.

(** [Join] undoes [Split]. *)
Lemma Join_Split (c : ascii) (s : string) : Join (Split c s) (String c "") = s.
Proof.
  induction s as [|a s IH]; [done|]. simpl.
  pose proof (Split_nonempty c s) as Hne.
  destruct (Ascii.eqb a c) eqn:E; bool_to_prop.
  - subst. destruct (Split c s) as [|h t]; [done|]. simpl in *. by rewrite IH.
  - destruct (Split c s) as [|h t]; [done|]. rewrite <- IH. by destruct t.
Qed.

(** Pieces of [Split] contain no separator. *)
Lemma Split_no_byte (c : ascii) (s p : string) : p ∈ Split c s → no_byte c p = true.
Proof.
  revert p. induction s as [|a s IH]; simpl; intros p Hp.
  { apply list_elem_of_singleton in Hp. by subst. }
  destruct (Ascii.eqb a c) eqn:E.
  - apply elem_of_cons in Hp as [->|Hp]; [done|]. by apply IH.
  - destruct (Split c s) as [|h t] eqn:Es; [by apply elem_of_nil in Hp|].
    apply elem_of_cons in Hp as [->|Hp].
    + unfold no_byte. simpl. rewrite E. apply (IH h), elem_of_cons. by left.
    + apply IH, elem_of_cons. by right.
Qed.

Lemma SplitN2_Some (c : ascii) (s a b : string) :
  SplitN c s 2 = [a; b] ↔ s = (a ++ String c b)%string ∧ no_byte c a = true.
Proof.
  cbn [SplitN]. split.
  - destruct (Cut c s) as [[x y]|] eqn:E; [|done]. intros [= <- <-]. by apply Cut_Some.
  - intros [-> Ha]. by rewrite Cut_app.
Qed.

Lemma SplitN_length (c : ascii) (s : string) (n : nat) :
  (0 < n → 1 ≤ List.length (SplitN c s n) ≤ n)%nat.
Proof.
  revert s. induction n as [|[|n] IH]; intros s Hn; [lia|simpl; lia|].
  cbn [SplitN]. destruct (Cut c s) as [[b a]|]; simpl; [|lia].
  specialize (IH a ltac:(lia)). simpl in IH. lia.
Qed.

Lemma no_byte_app (c : ascii) (s t : string) :
  no_byte c (s ++ t) = no_byte c s && no_byte c t.
Proof. apply string_forallb_app. Qed.

Lemma xor_accumulate_nonneg (x y : string) (v : Z) : 0 ≤ v → 0 ≤ xor_accumulate x y v.
Proof.
  revert y v. induction x as [|a x IH]; intros [|b y] v Hv; simpl; try done.
  apply IH. apply Z.lor_nonneg. split; [done|]. apply Z.lxor_nonneg.
  pose proof (byte_val_range a). pose proof (byte_val_range b). lia.
Qed.

Lemma xor_accumulate_zero (x y : string) (v : Z) :
  String.length x = String.length y →
  xor_accumulate x y v = 0 ↔ v = 0 ∧ x = y.
Proof.
  revert y v. induction x as [|a x IH]; intros [|b y] v Hl; simpl in *; try done.
  { naive_solver. }
  rewrite IH by lia. rewrite Z.lor_eq_0_iff, Z.lxor_eq_0_iff. split.
  - intros [[-> Hab] ->]. apply byte_val_inj in Hab. by subst.
  - intros [-> [= -> ->]]. done.
Qed.

(** [ConstantTimeCompare] decides equality. *)
Lemma ConstantTimeCompare_eq (x y : string) : ConstantTimeCompare x y = 1 ↔ x = y.
Proof.
  unfold ConstantTimeCompare, len. destruct (_ =? _) eqn:E; bool_to_prop; simpl.
  - pose proof (xor_accumulate_zero x y 0 ltac:(lia)) as H.
    destruct (xor_accumulate x y 0 =? 0) eqn:F; bool_to_prop; [tauto|].
    split; [done|]. tauto.
  - split; [done|]. intros ->. done.
Qed.

Lemma cut_prefix_app (p s r : string) : cut_prefix p s = Some r ↔ s = (p ++ r)%string.
Proof.
  revert s. induction p as [|a p IH]; intros s; simpl; [naive_solver|].
  destruct s as [|b s]; [done|]. destruct (Ascii.eqb a b) eqn:E; bool_to_prop.
  - subst. rewrite IH. rewrite app_cons_string. naive_solver.
  - rewrite app_cons_string. naive_solver.
Qed.

Lemma cut_any_Some (ps : list string) (s r : string) :
  cut_any ps s = Some r → ∃ p, p ∈ ps ∧ s = (p ++ r)%string.
Proof.
  induction ps as [|p ps IH]; simpl; [done|].
  destruct (cut_prefix p s) eqn:E.
  - intros [= ->]. exists p. split; [by left|]. by apply cut_prefix_app.
  - intros H. destruct (IH H) as (q & Hq & Hs). exists q. split; [by right|done].
Qed.

Lemma cut_any_None (ps : list string) (s : string) :
  cut_any ps s = None ↔ ∀ p r, p ∈ ps → s ≠ (p ++ r)%string.
Proof.
  induction ps as [|p ps IH]; simpl.
  { split; [intros _ q r Hq; by apply elem_of_nil in Hq|done]. }
  destruct (cut_prefix p s) as [r|] eqn:E.
  - apply cut_prefix_app in E. split; [done|]. intros H. exfalso. apply (H p r); [by left|done].
  - rewrite IH. split; intros H q r.
    + intros [->|Hq]%elem_of_cons; [|by apply H]. rewrite <- cut_prefix_app. congruence.
    + intros Hq. apply H. by right.
Qed.

Lemma trim_with_stuck (ps : list string) (fuel : nat) (s : string) :
  (∀ p, p ∈ ps → p ≠ "") → (String.length s ≤ fuel)%nat →
  cut_any ps (trim_with ps fuel s) = None.
Proof.
  intros Hne. revert s. induction fuel as [|f IH]; intros s Hl; simpl.
  - destruct s; simpl in Hl; [|lia]. apply cut_any_None. intros p r Hp Heq.
    destruct p; [by apply (Hne "" Hp)|done].
  - destruct (cut_any ps s) as [r|] eqn:E; [|done]. apply IH.
    apply cut_any_Some in E as (p & Hp & ->). rewrite length_app_string in Hl.
    destruct p; [by destruct (Hne "" Hp)|]. simpl in Hl. lia.
Qed.

Lemma rev_append_string_app (s acc : string) :
  rev_append_string s acc = (rev_string s ++ acc)%string.
Proof.
  unfold rev_string. revert acc. induction s as [|c s IH]; intros acc; simpl; [done|].
  rewrite IH, (IH (String c "")). by rewrite app_assoc_string.
Qed.

Lemma rev_string_app (s t : string) : rev_string (s ++ t) = (rev_string t ++ rev_string s)%string.
Proof.
  induction s as [|c s IH]; simpl.
  { by rewrite app_string_nil. }
  unfold rev_string at 1 3. simpl. rewrite !rev_append_string_app, IH.
  by rewrite app_assoc_string.
Qed.

Lemma rev_string_involutive (s : string) : rev_string (rev_string s) = s.
Proof.
  induction s as [|c s IH]; [done|].
  change (String c s) with (String c "" ++ s)%string at 1.
  by rewrite !rev_string_app, IH.
Qed.

Lemma trim_with_suffix (ps : list string) (fuel : nat) (s : string) :
  ∃ p, s = (p ++ trim_with ps fuel s)%string.
Proof.
  revert s. induction fuel as [|f IH]; intros s; simpl; [by exists ""|].
  destruct (cut_any ps s) as [r|] eqn:E; [|by exists ""].
  apply cut_any_Some in E as (p & _ & ->). destruct (IH r) as [q Hq].
  exists (p ++ q)%string. rewrite app_assoc_string. by rewrite <- Hq.
Qed.

Lemma space_encodings_nonempty (p : string) :
  (p ∈ space_encodings → p ≠ "") ∧ (p ∈ map rev_string space_encodings → p ≠ "").
Proof.
  assert (H : ∀ l, forallb (λ p, negb (String.eqb p "")) l = true → p ∈ l → p ≠ "").
  { intros l Hl Hp ->. apply list_elem_of_In in Hp.
    rewrite forallb_forall in Hl. by specialize (Hl _ Hp). }
  split; apply H; vm_compute; reflexivity.
Qed.

(** [TrimSpace] leaves no white space at either end. *)
Lemma TrimSpace_clean (s p t : string) :
  p ∈ space_encodings →
  TrimSpace s ≠ (p ++ t)%string ∧ TrimSpace s ≠ (t ++ p)%string.
Proof.
  intros Hp. unfold TrimSpace. set (l := TrimLeftSpace s).
  assert (Hl : cut_any space_encodings l = None).
  { apply trim_with_stuck; [apply space_encodings_nonempty|done]. }
  unfold TrimRightSpace.
  set (tr := trim_with (map rev_string space_encodings) (String.length l) (rev_string l)).
  assert (Hr : cut_any (map rev_string space_encodings) tr = None).
  { apply trim_with_stuck; [apply space_encodings_nonempty|].
    clear. induction l as [|c l IH]; [done|].
    change (String c l) with (String c "" ++ l)%string.
    rewrite rev_string_app, !length_app_string. simpl. lia. }
  destruct (trim_with_suffix (map rev_string space_encodings) (String.length l) (rev_string l))
    as [q Hq]. fold tr in Hq.
  split; intros Heq.
  - apply (f_equal rev_string) in Hq. rewrite rev_string_involutive, rev_string_app, Heq in Hq.
    rewrite app_assoc_string in Hq. exact (proj1 (cut_any_None _ _) Hl p _ Hp Hq).
  - apply (f_equal rev_string) in Heq. rewrite rev_string_involutive, rev_string_app in Heq.
    refine (proj1 (cut_any_None _ _) Hr (rev_string p) _ _ Heq).
    apply list_elem_of_In, in_map, list_elem_of_In, Hp.
Qed.
