(* ===== verification/Utf8.v ===== *)
(** * [unicode/utf8]

    The decomposition of a byte string into code points that Go's [for range]
    performs ([DecodeRuneInString]), the encoder [EncodeRune] and
    [utf8.ValidString].  An invalid byte is the code point U+FFFD with width 1. *)

From S2P Require Import Prelude.

Definition RuneError : Z := 0xFFFD.

Definition between (lo hi b : Z) : bool := (lo <=? b) && (b <=? hi).

(** Well-formed two-, three- and four-byte encodings (the [first] and
    [acceptRanges] tables of the package). *)
Definition utf8_2 (c0 c1 : ascii) : bool :=
  between 0xC2 0xDF (byte_val c0) && between 0x80 0xBF (byte_val c1).

Definition second_lo (b0 : Z) : Z :=
  if b0 =? 0xE0 then 0xA0 else if b0 =? 0xF0 then 0x90 else 0x80.

Definition second_hi (b0 : Z) : Z :=
  if b0 =? 0xED then 0x9F else if b0 =? 0xF4 then 0x8F else 0xBF.

Definition utf8_3 (c0 c1 c2 : ascii) : bool :=
  between 0xE0 0xEF (byte_val c0)
  && between (second_lo (byte_val c0)) (second_hi (byte_val c0)) (byte_val c1)
  && between 0x80 0xBF (byte_val c2).

Definition utf8_4 (c0 c1 c2 c3 : ascii) : bool :=
  between 0xF0 0xF4 (byte_val c0)
  && between (second_lo (byte_val c0)) (second_hi (byte_val c0)) (byte_val c1)
  && between 0x80 0xBF (byte_val c2) && between 0x80 0xBF (byte_val c3).

Definition rune2 (c0 c1 : ascii) : Z :=
  (byte_val c0 mod 32) * 64 + byte_val c1 mod 64.

Definition rune3 (c0 c1 c2 : ascii) : Z :=
  ((byte_val c0 mod 16) * 64 + byte_val c1 mod 64) * 64 + byte_val c2 mod 64.

Definition rune4 (c0 c1 c2 c3 : ascii) : Z :=
  (((byte_val c0 mod 8) * 64 + byte_val c1 mod 64) * 64 + byte_val c2 mod 64) * 64
  + byte_val c3 mod 64.

(** One step of [for _, r := range s]: the code point and the bytes it took. *)
Record rune_chunk := mkChunk { ch_rune : Z; ch_raw : string }.

Fixpoint range_runes (s : string) : list rune_chunk :=
  match s with
  | EmptyString => []
  | String c0 r0 =>
      if byte_val c0 <? 128 then mkChunk (byte_val c0) (String c0 "") :: range_runes r0
      else
        let bad := mkChunk RuneError (String c0 "") :: range_runes r0 in
        match r0 with
        | EmptyString => bad
        | String c1 r1 =>
            if utf8_2 c0 c1 then mkChunk (rune2 c0 c1) (String c0 (String c1 "")) :: range_runes r1
            else match r1 with
            | EmptyString => bad
            | String c2 r2 =>
                if utf8_3 c0 c1 c2
                then mkChunk (rune3 c0 c1 c2) (String c0 (String c1 (String c2 ""))) :: range_runes r2
                else match r2 with
                | EmptyString => bad
                | String c3 r3 =>
                    if utf8_4 c0 c1 c2 c3
                    then mkChunk (rune4 c0 c1 c2 c3)
                           (String c0 (String c1 (String c2 (String c3 "")))) :: range_runes r3
                    else bad
                end
            end
        end
  end.

(** A chunk of one byte that is not ASCII is an invalid byte. *)
Definition chunk_invalid (ch : rune_chunk) : bool :=
  (ch_rune ch =? RuneError) && Nat.eqb (String.length (ch_raw ch)) 1.

Definition ValidString (s : string) : bool :=
  forallb (λ ch, negb (chunk_invalid ch)) (range_runes s).

Definition valid_rune (r : Z) : bool :=
  between 0 0xD7FF r || between 0xE000 0x10FFFF r.

(** [utf8.AppendRune]: invalid code points are written as U+FFFD. *)
Definition EncodeRune (r : Z) : string :=
  let r := if valid_rune r then r else RuneError in
  if r <? 0x80 then String (byte_of r) ""
  else if r <? 0x800 then
    String (byte_of (0xC0 + r / 64)) (String (byte_of (0x80 + r mod 64)) "")
  else if r <? 0x10000 then
    String (byte_of (0xE0 + r / 4096))
      (String (byte_of (0x80 + (r / 64) mod 64)) (String (byte_of (0x80 + r mod 64)) ""))
  else
    String (byte_of (0xF0 + r / 262144))
      (String (byte_of (0x80 + (r / 4096) mod 64))
         (String (byte_of (0x80 + (r / 64) mod 64)) (String (byte_of (0x80 + r mod 64)) ""))).

Definition is_ascii (s : string) : bool := string_forallb (λ c, byte_val c <? 128) s.

(** ** Lemmas *)

Lemma between_iff (lo hi b : Z) : between lo hi b = true ↔ lo ≤ b ≤ hi.
Proof. unfold between. rewrite andb_true_iff, !Z.leb_le. lia. Qed.

(** Turn the range tests of the hypotheses into inequalities. *)
Ltac utf8_bounds :=
  unfold utf8_2, utf8_3, utf8_4, second_lo, second_hi in *; bool_to_prop;
  repeat match goal with H : between _ _ _ = true |- _ => apply between_iff in H end.

Lemma utf8_2_high (c0 c1 : ascii) : utf8_2 c0 c1 = true → 128 ≤ byte_val c0.
Proof. intros H. utf8_bounds. lia. Qed.

Lemma utf8_3_high (c0 c1 c2 : ascii) : utf8_3 c0 c1 c2 = true → 128 ≤ byte_val c0.
Proof. intros H. utf8_bounds. lia. Qed.

Lemma utf8_4_high (c0 c1 c2 c3 : ascii) : utf8_4 c0 c1 c2 c3 = true → 128 ≤ byte_val c0.
Proof. intros H. utf8_bounds. lia. Qed.

(** The lead byte determines the width. *)
Lemma utf8_3_not_2 (c0 c1 c2 : ascii) : utf8_3 c0 c1 c2 = true → utf8_2 c0 c1 = false.
Proof.
  intros H. destruct (utf8_2 c0 c1) eqn:E; [|done]. utf8_bounds. lia.
Qed.

Lemma utf8_4_not_23 (c0 c1 c2 c3 : ascii) :
  utf8_4 c0 c1 c2 c3 = true → utf8_2 c0 c1 = false ∧ utf8_3 c0 c1 c2 = false.
Proof.
  intros H. split.
  - destruct (utf8_2 c0 c1) eqn:E; [|done]. utf8_bounds. lia.
  - destruct (utf8_3 c0 c1 c2) eqn:E; [|done]. utf8_bounds. lia.
Qed.

Lemma range_runes_ascii (c : ascii) (s : string) :
  byte_val c < 128 →
  range_runes (String c s) = mkChunk (byte_val c) (String c "") :: range_runes s.
Proof. intros H. cbn [range_runes]. by rewrite (proj2 (Z.ltb_lt _ _) H). Qed.

Lemma range_runes_2 (c0 c1 : ascii) (s : string) :
  utf8_2 c0 c1 = true →
  range_runes (String c0 (String c1 s)) =
    mkChunk (rune2 c0 c1) (String c0 (String c1 "")) :: range_runes s.
Proof.
  intros H. pose proof (utf8_2_high _ _ H) as Hh. cbn [range_runes].
  by rewrite (proj2 (Z.ltb_ge _ _) Hh), H.
Qed.

Lemma range_runes_3 (c0 c1 c2 : ascii) (s : string) :
  utf8_3 c0 c1 c2 = true →
  range_runes (String c0 (String c1 (String c2 s))) =
    mkChunk (rune3 c0 c1 c2) (String c0 (String c1 (String c2 ""))) :: range_runes s.
Proof.
  intros H. pose proof (utf8_3_high _ _ _ H) as Hh. cbn [range_runes].
  by rewrite (proj2 (Z.ltb_ge _ _) Hh), (utf8_3_not_2 _ _ _ H), H.
Qed.

Lemma range_runes_4 (c0 c1 c2 c3 : ascii) (s : string) :
  utf8_4 c0 c1 c2 c3 = true →
  range_runes (String c0 (String c1 (String c2 (String c3 s)))) =
    mkChunk (rune4 c0 c1 c2 c3) (String c0 (String c1 (String c2 (String c3 "")))) :: range_runes s.
Proof.
  intros H. pose proof (utf8_4_high _ _ _ _ H) as Hh.
  destruct (utf8_4_not_23 _ _ _ _ H) as [H2 H3]. cbn [range_runes].
  by rewrite (proj2 (Z.ltb_ge _ _) Hh), H2, H3, H.
Qed.

(** A character takes a byte or more. *)
Lemma range_runes_length (s : string) : (List.length (range_runes s) ≤ String.length s)%nat.
Proof.
  revert s. fix IH 1. intros [|c0 r0]; [cbn; lia|]. cbn [range_runes]. pose proof (IH r0) as H0.
  destruct (byte_val c0 <? 128); [cbn; lia|]. destruct r0 as [|c1 r1]; [cbn in *; lia|]. pose proof (IH r1) as H1.
  destruct (utf8_2 c0 c1); [cbn; lia|]. destruct r1 as [|c2 r2]; [cbn in *; lia|]. pose proof (IH r2) as H2.
  destruct (utf8_3 c0 c1 c2); [cbn; lia|]. destruct r2 as [|c3 r3]; [cbn in *; lia|]. pose proof (IH r3) as H3.
  destruct (utf8_4 c0 c1 c2 c3); cbn in *; lia.
Qed.

(** A high byte that starts no encoding is an invalid chunk, so the string is
    not valid. *)
Lemma ValidString_bad (c : ascii) (s : string) :
  range_runes (String c s) = mkChunk RuneError (String c "") :: range_runes s →
  ValidString (String c s) = false.
Proof. intros H. unfold ValidString. rewrite H. done. Qed.

(** Induction over the code points of a valid string. *)
Lemma ValidString_ind (P : string → Prop) :
  P "" →
  (∀ c s, byte_val c < 128 → ValidString s = true → P s → P (String c s)) →
  (∀ c0 c1 s, utf8_2 c0 c1 = true → ValidString s = true → P s →
     P (String c0 (String c1 s))) →
  (∀ c0 c1 c2 s, utf8_3 c0 c1 c2 = true → ValidString s = true → P s →
     P (String c0 (String c1 (String c2 s)))) →
  (∀ c0 c1 c2 c3 s, utf8_4 c0 c1 c2 c3 = true → ValidString s = true → P s →
     P (String c0 (String c1 (String c2 (String c3 s))))) →
  ∀ s, ValidString s = true → P s.
Proof.
  intros H0 H1 H2 H3 H4 s. remember (String.length s) as n eqn:Hn.
  revert s Hn. induction n as [n IH] using lt_wf_ind. intros s -> Hv.
  destruct s as [|c0 s]; [done|].
  destruct (byte_val c0 <? 128) eqn:Ea.
  { bool_to_prop. unfold ValidString in Hv. rewrite range_runes_ascii in Hv by done.
    simpl in Hv. bool_to_prop. apply H1; try done. eapply IH; [|done..]. simpl. lia. }
  destruct s as [|c1 s].
  { exfalso. revert Hv. rewrite ValidString_bad; [done|]. simpl. by rewrite Ea. }
  destruct (utf8_2 c0 c1) eqn:E2.
  { unfold ValidString in Hv. rewrite range_runes_2 in Hv by done.
    simpl in Hv. bool_to_prop. apply H2; try done. eapply IH; [|done..]. simpl. lia. }
  destruct s as [|c2 s].
  { exfalso. revert Hv. rewrite ValidString_bad; [done|].
    cbn [range_runes]. by rewrite Ea, E2. }
  destruct (utf8_3 c0 c1 c2) eqn:E3.
  { unfold ValidString in Hv. rewrite range_runes_3 in Hv by done.
    simpl in Hv. bool_to_prop. apply H3; try done. eapply IH; [|done..]. simpl. lia. }
  destruct s as [|c3 s].
  { exfalso. revert Hv. rewrite ValidString_bad; [done|].
    cbn [range_runes]. by rewrite Ea, E2, E3. }
  destruct (utf8_4 c0 c1 c2 c3) eqn:E4.
  { unfold ValidString in Hv. rewrite range_runes_4 in Hv by done.
    simpl in Hv. bool_to_prop. apply H4; try done. eapply IH; [|done..]. simpl. lia. }
  exfalso. revert Hv. rewrite ValidString_bad; [done|].
  cbn [range_runes]. by rewrite Ea, E2, E3, E4.
Qed.

Lemma is_ascii_valid (s : string) : is_ascii s = true → ValidString s = true.
Proof.
  induction s as [|c s IH]; [done|]. unfold is_ascii. simpl string_forallb. intros H. bool_to_prop.
  unfold ValidString. rewrite range_runes_ascii by done. cbn [forallb].
  unfold ValidString in IH. rewrite IH by done. rewrite andb_true_r.
  unfold chunk_invalid. simpl. rewrite (proj2 (Z.eqb_neq _ _)); [done|]. unfold RuneError. lia.
Qed.

(** Writing a decoded two-, three- or four-byte code point gives its bytes. *)
Lemma EncodeRune_rune2 (c0 c1 : ascii) :
  utf8_2 c0 c1 = true → EncodeRune (rune2 c0 c1) = String c0 (String c1 "").
Proof.
  intros H. utf8_bounds. unfold EncodeRune, rune2, valid_rune.
  set (r := (byte_val c0 mod 32) * 64 + byte_val c1 mod 64).
  assert (Hr : 0x80 ≤ r < 0x800) by (subst r; div_lia).
  rewrite (proj2 (between_iff 0 0xD7FF r)) by lia. cbn [orb].
  rewrite (proj2 (Z.ltb_ge r 0x80)), (proj2 (Z.ltb_lt r 0x800)) by lia.
  rewrite <- (byte_of_val c0), <- (byte_of_val c1).
  f_equal; [f_equal; subst r; div_lia|]. f_equal. f_equal. subst r; div_lia.
Qed.

Lemma EncodeRune_rune3 (c0 c1 c2 : ascii) :
  utf8_3 c0 c1 c2 = true → EncodeRune (rune3 c0 c1 c2) = String c0 (String c1 (String c2 "")).
Proof.
  intros H. utf8_bounds. unfold EncodeRune, rune3, valid_rune.
  set (r := ((byte_val c0 mod 16) * 64 + byte_val c1 mod 64) * 64 + byte_val c2 mod 64).
  assert (Hr : 0x800 ≤ r < 0xD800 ∨ 0xE000 ≤ r < 0x10000).
  { subst r. destruct (byte_val c0 =? 0xE0) eqn:?; destruct (byte_val c0 =? 0xF0) eqn:?;
    destruct (byte_val c0 =? 0xED) eqn:?; destruct (byte_val c0 =? 0xF4) eqn:?;
    bool_to_prop; div_lia. }
  assert (Hv : between 0 0xD7FF r || between 0xE000 0x10FFFF r = true).
  { apply orb_true_iff. rewrite !between_iff. lia. }
  rewrite Hv, (proj2 (Z.ltb_ge r 0x80)), (proj2 (Z.ltb_ge r 0x800)),
    (proj2 (Z.ltb_lt r 0x10000)) by lia.
  rewrite <- (byte_of_val c0), <- (byte_of_val c1), <- (byte_of_val c2).
  assert (0x80 ≤ byte_val c1 ≤ 0xBF).
  { destruct (byte_val c0 =? 0xE0); destruct (byte_val c0 =? 0xF0);
    destruct (byte_val c0 =? 0xED); destruct (byte_val c0 =? 0xF4); lia. }
  repeat f_equal; subst r; div_lia.
Qed.

Lemma EncodeRune_rune4 (c0 c1 c2 c3 : ascii) :
  utf8_4 c0 c1 c2 c3 = true →
  EncodeRune (rune4 c0 c1 c2 c3) = String c0 (String c1 (String c2 (String c3 ""))).
Proof.
  intros H. utf8_bounds. unfold EncodeRune, rune4, valid_rune.
  set (r := (((byte_val c0 mod 8) * 64 + byte_val c1 mod 64) * 64 + byte_val c2 mod 64) * 64
            + byte_val c3 mod 64).
  assert (Hc1 : 0x80 ≤ byte_val c1 ≤ 0xBF).
  { destruct (byte_val c0 =? 0xE0); destruct (byte_val c0 =? 0xF0);
    destruct (byte_val c0 =? 0xED); destruct (byte_val c0 =? 0xF4); lia. }
  assert (Hr : 0x10000 ≤ r ≤ 0x10FFFF).
  { subst r. destruct (byte_val c0 =? 0xE0) eqn:?; destruct (byte_val c0 =? 0xF0) eqn:?;
    destruct (byte_val c0 =? 0xED) eqn:?; destruct (byte_val c0 =? 0xF4) eqn:?;
    bool_to_prop; div_lia. }
  assert (Hv : between 0 0xD7FF r || between 0xE000 0x10FFFF r = true).
  { apply orb_true_iff. rewrite !between_iff. lia. }
  rewrite Hv, (proj2 (Z.ltb_ge r 0x80)), (proj2 (Z.ltb_ge r 0x800)),
    (proj2 (Z.ltb_ge r 0x10000)) by lia.
  rewrite <- (byte_of_val c0), <- (byte_of_val c1), <- (byte_of_val c2), <- (byte_of_val c3).
  repeat f_equal; subst r; div_lia.
Qed.
