(* ===== verification/Json.v ===== *)
(** * [encoding/json]

    Values as an abstract syntax tree, the encoder with Go's escaping rules
    (HTML characters, control characters, U+2028/9, invalid UTF-8), the parser
    of [checkValid]/[Unmarshal] with its nesting limit, the streaming decoder of
    [json.NewDecoder(r).Decode], and decoding of an object into a struct with
    exact-then-case-insensitive field lookup.

    The parser recurses on fuel.  [JsonFacts.parse_value_fuel] shows that any fuel above
    the input's length (twice, plus two) gives the same result, so fuel is never the reason for a
    rejection; [JsonFacts.encode_parse] is the round trip. *)

From S2P Require Import Prelude GoNum GoStrings Utf8.

#[local] Set Warnings "-register-all".

Inductive json : Type :=
| JNull
| JBool (b : bool)
| JNumber (lit : string)
| JString (s : string)
| JArray (l : list json)
| JObject (kvs : list (string * json)).

Definition dquote : ascii := "034".
Definition backslash : ascii := "092".

(** ** Encoding *)

Definition hex_digit (d : Z) : ascii :=
  if d <? 10 then byte_of (48 + d) else byte_of (87 + d).

(** The escape of an ASCII byte in [appendString] with [escapeHTML]. *)
Definition esc_ascii (c : ascii) : string :=
  let b := byte_val c in
  if Ascii.eqb c dquote || Ascii.eqb c backslash then String backslash (String c "")
  else if b =? 8 then String backslash "b"
  else if b =? 12 then String backslash "f"
  else if b =? 10 then String backslash "n"
  else if b =? 13 then String backslash "r"
  else if b =? 9 then String backslash "t"
  else if (b <? 32) || Ascii.eqb c "<" || Ascii.eqb c ">" || Ascii.eqb c "&" then
    String backslash (String "u" (String "0" (String "0"
      (String (hex_digit (b / 16)) (String (hex_digit (b mod 16)) "")))))
  else String c "".

Definition quote_chunk (ch : rune_chunk) : string :=
  match ch_raw ch with
  | String c EmptyString =>
      if byte_val c <? 128 then esc_ascii c else String backslash "ufffd"
  | raw =>
      if ch_rune ch =? 0x2028 then String backslash "u2028"
      else if ch_rune ch =? 0x2029 then String backslash "u2029"
      else raw
  end.

Fixpoint quote_chunks (l : list rune_chunk) : string :=
  match l with
  | [] => EmptyString
  | ch :: l' => (quote_chunk ch ++ quote_chunks l')%string
  end.

Definition quote (s : string) : string :=
  (String dquote (quote_chunks (range_runes s)) ++ String dquote "")%string.

Fixpoint encode (v : json) : string :=
  match v with
  | JNull => "null"
  | JBool b => if b then "true" else "false"
  | JNumber lit => lit
  | JString s => quote s
  | JArray l => ("[" ++ Join (map encode l) "," ++ "]")%string
  | JObject kvs =>
      ("{" ++ Join (map (λ kv, (quote kv.1 ++ ":" ++ encode kv.2)%string) kvs) "," ++ "}")%string
  end.

(** [json.NewEncoder(w).Encode(v)] ends the value with a newline. *)
Definition encode_line (v : json) : string := (encode v ++ String "010" "")%string.

(** ** Parsing *)

Definition is_ws (c : ascii) : bool :=
  let b := byte_val c in (b =? 32) || (b =? 9) || (b =? 10) || (b =? 13).

Fixpoint skip_ws (s : string) : string :=
  match s with
  | String c r => if is_ws c then skip_ws r else s
  | EmptyString => EmptyString
  end.

(** Skip white space, then consume the byte [c]. *)
Definition expect (c : ascii) (s : string) : option string :=
  match skip_ws s with
  | String a r => if Ascii.eqb a c then Some r else None
  | EmptyString => None
  end.

Definition hex_val (c : ascii) : option Z :=
  let b := byte_val c in
  if between 48 57 b then Some (b - 48)
  else if between 97 102 b then Some (b - 87)
  else if between 65 70 b then Some (b - 55)
  else None.

Definition hex4 (a b c d : ascii) : option Z :=
  match hex_val a, hex_val b, hex_val c, hex_val d with
  | Some w, Some x, Some y, Some z => Some (((w * 16 + x) * 16 + y) * 16 + z)
  | _, _, _, _ => None
  end.

(** A backslash-u escape at the head of [s]. *)
Definition getu4 (s : string) : option (Z * string) :=
  match s with
  | String b (String u (String h1 (String h2 (String h3 (String h4 r))))) =>
      if Ascii.eqb b backslash && Ascii.eqb u "u" then
        match hex4 h1 h2 h3 h4 with Some z => Some (z, r) | None => None end
      else None
  | _ => None
  end.

Definition simple_escape (c : ascii) : option ascii :=
  if Ascii.eqb c dquote || Ascii.eqb c backslash || Ascii.eqb c "/" then Some c
  else if Ascii.eqb c "b" then Some (byte_of 8)
  else if Ascii.eqb c "f" then Some (byte_of 12)
  else if Ascii.eqb c "n" then Some (byte_of 10)
  else if Ascii.eqb c "r" then Some (byte_of 13)
  else if Ascii.eqb c "t" then Some (byte_of 9)
  else None.

Definition is_surrogate (r : Z) : bool := between 0xD800 0xDFFF r.

Definition prepend (p : string) (o : option (string * string)) : option (string * string) :=
  match o with
  | Some (s, r) => Some ((p ++ s)%string, r)
  | None => None
  end.

(** The inside of a string literal up to its closing quote: its decoded
    contents and the text after the quote. *)
Fixpoint parse_str (s : string) : option (string * string) :=
  match s with
  | EmptyString => None
  | String c0 r0 =>
      if Ascii.eqb c0 dquote then Some (EmptyString, r0)
      else if Ascii.eqb c0 backslash then
        match r0 with
        | EmptyString => None
        | String e r1 =>
            if Ascii.eqb e "u" then
              match r1 with
              | String h1 (String h2 (String h3 (String h4 r5))) =>
                  match hex4 h1 h2 h3 h4 with
                  | None => None
                  | Some u =>
                      if is_surrogate u then
                        match r5 with
                        | String k0 (String k1 (String k2 (String k3 (String k4 (String k5 r11))))) =>
                            match getu4 r5 with
                            | Some (u2, _) =>
                                if (u <? 0xDC00) && between 0xDC00 0xDFFF u2 then
                                  prepend (EncodeRune ((u - 0xD800) * 1024 + (u2 - 0xDC00) + 0x10000))
                                    (parse_str r11)
                                else prepend (EncodeRune RuneError) (parse_str r5)
                            | None => prepend (EncodeRune RuneError) (parse_str r5)
                            end
                        | _ => prepend (EncodeRune RuneError) (parse_str r5)
                        end
                      else prepend (EncodeRune u) (parse_str r5)
                  end
              | _ => None
              end
            else match simple_escape e with
                 | Some b => prepend (String b "") (parse_str r1)
                 | None => None
                 end
        end
      else if byte_val c0 <? 32 then None
      else if byte_val c0 <? 128 then prepend (String c0 "") (parse_str r0)
      else
        match r0 with
        | EmptyString => None
        | String c1 r1 =>
            if utf8_2 c0 c1 then prepend (EncodeRune (rune2 c0 c1)) (parse_str r1)
            else match r1 with
            | EmptyString => prepend (EncodeRune RuneError) (parse_str r0)
            | String c2 r2 =>
                if utf8_3 c0 c1 c2 then prepend (EncodeRune (rune3 c0 c1 c2)) (parse_str r2)
                else match r2 with
                | EmptyString => prepend (EncodeRune RuneError) (parse_str r0)
                | String c3 r3 =>
                    if utf8_4 c0 c1 c2 c3
                    then prepend (EncodeRune (rune4 c0 c1 c2 c3)) (parse_str r3)
                    else prepend (EncodeRune RuneError) (parse_str r0)
                end
            end
        end
  end.

Fixpoint take_digits (s : string) : string * string :=
  match s with
  | String c r =>
      if is_digit c then let '(d, t) := take_digits r in (String c d, t) else (EmptyString, s)
  | EmptyString => (EmptyString, EmptyString)
  end.

(** Optional fraction, then optional exponent. *)
Definition scan_frac (s : string) : option (string * string) :=
  match s with
  | String c r =>
      if Ascii.eqb c "." then
        match take_digits r with
        | (EmptyString, _) => None
        | (d, t) => Some (String c d, t)
        end
      else Some (EmptyString, s)
  | EmptyString => Some (EmptyString, s)
  end.

Definition scan_exp (s : string) : option (string * string) :=
  match s with
  | String c r =>
      if Ascii.eqb c "e" || Ascii.eqb c "E" then
        let '(sign, r1) :=
          match r with
          | String g r' => if Ascii.eqb g "+" || Ascii.eqb g "-" then (String g "", r') else ("", r)
          | EmptyString => ("", r)
          end in
        match take_digits r1 with
        | (EmptyString, _) => None
        | (d, t) => Some (String c (sign ++ d)%string, t)
        end
      else Some (EmptyString, s)
  | EmptyString => Some (EmptyString, s)
  end.

Definition scan_int (s : string) : option (string * string) :=
  match s with
  | String c r =>
      if Ascii.eqb c "0" then Some (String c "", r)
      else if is_digit c then Some (take_digits s)
      else None
  | EmptyString => None
  end.

Definition scan_number (s : string) : option (string * string) :=
  let '(sign, s1) :=
    match s with
    | String c r => if Ascii.eqb c "-" then (String c "", r) else ("", s)
    | EmptyString => ("", s)
    end in
  match scan_int s1 with
  | None => None
  | Some (ip, s2) =>
      match scan_frac s2 with
      | None => None
      | Some (fp, s3) =>
          match scan_exp s3 with
          | None => None
          | Some (ep, s4) => Some ((sign ++ ip ++ fp ++ ep)%string, s4)
          end
      end
  end.

Definition scan_literal (s : string) : option (json * string) :=
  match cut_prefix "true" s with
  | Some r => Some (JBool true, r)
  | None => match cut_prefix "false" s with
            | Some r => Some (JBool false, r)
            | None => match cut_prefix "null" s with
                      | Some r => Some (JNull, r)
                      | None => None
                      end
            end
  end.

Definition max_nesting : Z := 10000.

Fixpoint parse_value (fuel : nat) (depth : Z) (s : string) : option (json * string) :=
  match fuel with
  | O => None
  | S f =>
      match skip_ws s with
      | EmptyString => None
      | String c r =>
          if Ascii.eqb c "{" then
            if max_nesting <? depth + 1 then None
            else match expect "}" r with
                 | Some r' => Some (JObject [], r')
                 | None => match parse_members f (depth + 1) r with
                           | Some (kvs, r') => Some (JObject kvs, r')
                           | None => None
                           end
                 end
          else if Ascii.eqb c "[" then
            if max_nesting <? depth + 1 then None
            else match expect "]" r with
                 | Some r' => Some (JArray [], r')
                 | None => match parse_elements f (depth + 1) r with
                           | Some (l, r') => Some (JArray l, r')
                           | None => None
                           end
                 end
          else if Ascii.eqb c dquote then
            match parse_str r with
            | Some (t, r') => Some (JString t, r')
            | None => None
            end
          else if Ascii.eqb c "-" || is_digit c then
            match scan_number (String c r) with
            | Some (lit, r') => Some (JNumber lit, r')
            | None => None
            end
          else scan_literal (String c r)
      end
  end
with parse_members (fuel : nat) (depth : Z) (s : string) : option (list (string * json) * string) :=
  match fuel with
  | O => None
  | S f =>
      match expect dquote s with
      | None => None
      | Some r =>
          match parse_str r with
          | None => None
          | Some (k, r1) =>
              match expect ":" r1 with
              | None => None
              | Some r2 =>
                  match parse_value f depth r2 with
                  | None => None
                  | Some (v, r3) =>
                      match expect "}" r3 with
                      | Some r4 => Some ([(k, v)], r4)
                      | None =>
                          match expect "," r3 with
                          | None => None
                          | Some r4 =>
                              match parse_members f depth r4 with
                              | Some (kvs, r5) => Some ((k, v) :: kvs, r5)
                              | None => None
                              end
                          end
                      end
                  end
              end
          end
      end
  end
with parse_elements (fuel : nat) (depth : Z) (s : string) : option (list json * string) :=
  match fuel with
  | O => None
  | S f =>
      match parse_value f depth s with
      | None => None
      | Some (v, r) =>
          match expect "]" r with
          | Some r' => Some ([v], r')
          | None =>
              match expect "," r with
              | None => None
              | Some r' =>
                  match parse_elements f depth r' with
                  | Some (l, r'') => Some (v :: l, r'')
                  | None => None
                  end
              end
          end
      end
  end.

Definition parse (s : string) : option (json * string) :=
  parse_value (2 * String.length s + 2) 0 s.

(** [json.Unmarshal]: one value, then only white space. *)
Definition Unmarshal (data : string) : option json :=
  match parse data with
  | Some (v, r) => match skip_ws r with EmptyString => Some v | _ => None end
  | None => None
  end.

(** [json.NewDecoder(r).Decode]: the first value of the stream, the rest left
    unread.  [eof] says whether the stream ends after [s] or fails there with an
    error (the limit of a [MaxBytesReader]): a scalar that reaches the end of
    [s] is complete only at a real end of file. *)
Definition Decode (s : string) (eof : bool) : option json :=
  match parse s with
  | Some (v, r) =>
      match v, r with
      | JObject _, _ | JArray _, _ => Some v
      | _, String _ _ => Some v
      | _, EmptyString => if eof then Some v else None
      end
  | None => None
  end.

(** ** Structs *)

(** The key an object member is matched by when no field has its exact name:
    ASCII upper case, and the two other code points that fold to ASCII
    (U+017F to [S], U+212A to [K]). *)
Definition ascii_upper (c : ascii) : ascii :=
  if between 97 122 (byte_val c) then byte_of (byte_val c - 32) else c.

Fixpoint fold_name (s : string) : string :=
  match s with
  | EmptyString => EmptyString
  | String "197" (String "191" r) => String "S" (fold_name r)
  | String "226" (String "132" (String "170" r)) => String "K" (fold_name r)
  | String c r => String (ascii_upper c) (fold_name r)
  end.

(** A field of a struct type [T]: its JSON name and how a value is stored in it
    ([None]: the [UnmarshalTypeError] that makes the whole decoding fail). *)
Definition field (T : Type) : Type := string * (T → json → option T).

Definition find_field {T} (fs : list (field T)) (key : string) : option (field T) :=
  match List.find (λ f, String.eqb f.1 key) fs with
  | Some f => Some f
  | None => List.find (λ f, String.eqb (fold_name f.1) (fold_name key)) fs
  end.

Fixpoint decode_members {T} (fs : list (field T)) (kvs : list (string * json)) (t : T) : option T :=
  match kvs with
  | [] => Some t
  | (k, v) :: rest =>
      match find_field fs k with
      | None => decode_members fs rest t
      | Some f => match f.2 t v with
                  | Some t' => decode_members fs rest t'
                  | None => None
                  end
      end
  end.

(** A struct is decoded from an object; [null] leaves it unchanged. *)
Definition decode_struct {T} (fs : list (field T)) (v : json) (t : T) : option T :=
  match v with
  | JObject kvs => decode_members fs kvs t
  | JNull => Some t
  | _ => None
  end.

(** Setters for the field types the sources use. *)
Definition set_string {T} (upd : T → string → T) : T → json → option T :=
  λ t v, match v with
         | JString s => Some (upd t s)
         | JNull => Some t
         | _ => None
         end.

Definition set_int {T} (upd : T → Z → T) : T → json → option T :=
  λ t v, match v with
         | JNumber lit => match ParseInt64 lit with Some n => Some (upd t n) | None => None end
         | JNull => Some t
         | _ => None
         end.

Definition set_bool {T} (upd : T → bool → T) : T → json → option T :=
  λ t v, match v with
         | JBool b => Some (upd t b)
         | JNull => Some t
         | _ => None
         end.

(** ** Well-formed values *)

(** A number literal that [Itoa] produces for a 64-bit integer: the only
    numbers the sources encode. *)
Definition int64_literal (lit : string) : bool :=
  match ParseInt64 lit with
  | Some n => in_int64 n && String.eqb (Itoa n) lit
  | None => false
  end.

Fixpoint json_wf (v : json) : bool :=
  match v with
  | JNull | JBool _ => true
  | JNumber lit => int64_literal lit
  | JString s => ValidString s
  | JArray l => forallb json_wf l
  | JObject kvs => forallb (λ kv, ValidString kv.1 && json_wf kv.2) kvs
  end.

(** Nesting depth of arrays and objects. *)
Fixpoint json_depth (v : json) : Z :=
  match v with
  | JArray l => 1 + fold_right (λ x acc, Z.max (json_depth x) acc) 0 l
  | JObject kvs => 1 + fold_right (λ kv acc, Z.max (json_depth kv.2) acc) 0 kvs
  | _ => 0
  end.

Example parse_ex1 :
  Unmarshal (encode (JObject [("alg", JString "HS256"); ("n", JNumber "-12"); ("l", JArray [JNull; JBool true])]))
  = Some (JObject [("alg", JString "HS256"); ("n", JNumber "-12"); ("l", JArray [JNull; JBool true])]).
Proof. vm_compute. reflexivity. Qed.
