(* ===== verification/JsonFacts.v ===== *)
(** * Facts about [encoding/json]

    Consumption (every parser returns a strictly shorter rest), independence
    of the fuel, and the round trip of the encoder and the parser. *)

From S2P Require Import Prelude GoNum GoStrings Utf8 Json.

Abbreviation slen := String.length.

(** ** Every parser consumes input *)

Lemma prepend_Some (p : string) (o : option (string * string)) (t r : string) :
  prepend p o = Some (t, r) → ∃ t', o = Some (t', r).
Proof. destruct o as [[t' r']|]; simpl; [|done]. intros [= _ ->]. by exists t'. Qed.

Lemma skip_ws_length (s : string) : (slen (skip_ws s) ≤ slen s)%nat.
Proof. induction s as [|c s IH]; simpl; [done|]. destruct (is_ws c); simpl; lia. Qed.

Lemma expect_length (c : ascii) (s r : string) :
  expect c s = Some r → (slen r < slen s)%nat.
Proof.
  unfold expect. pose proof (skip_ws_length s) as Hl.
  destruct (skip_ws s) as [|a t]; [done|]. simpl in Hl.
  destruct (Ascii.eqb a c); [|done]. intros [= ->]. lia.
Qed.

Lemma parse_str_length (s t r : string) :
  parse_str s = Some (t, r) → (slen r < slen s)%nat.
Proof.
  remember (slen s) as n eqn:Hn. revert s t r Hn.
  induction n as [n IH] using lt_wf_ind. intros s t r -> H.
  assert (Hrec : ∀ s', (slen s' < slen s)%nat →
            ∀ p, prepend p (parse_str s') = Some (t, r) → (slen r < slen s)%nat).
  { intros s' Hs' p Hp. apply prepend_Some in Hp as [t' Ht'].
    pose proof (IH _ Hs' s' t' r eq_refl Ht'). lia. }
  destruct s as [|c0 r0]; [done|]. cbn [parse_str] in H.
  repeat case_match; try discriminate H;
    try (injection H as <- <-; simpl; lia);
    (eapply Hrec; [|exact H]; simpl; lia).
Qed.

Lemma take_digits_app (s d t : string) : take_digits s = (d, t) → s = (d ++ t)%string.
Proof.
  revert d t. induction s as [|c s IH]; intros d t; simpl.
  { intros [= <- <-]. done. }
  destruct (is_digit c).
  - destruct (take_digits s) as [d' t'] eqn:E. intros [= <- <-].
    simpl. by rewrite (IH d' t' eq_refl).
  - intros [= <- <-]. done.
Qed.

Lemma scan_int_length (s ip r : string) : scan_int s = Some (ip, r) → (slen r < slen s)%nat.
Proof.
  unfold scan_int. destruct s as [|c s]; [done|].
  destruct (Ascii.eqb c "0"); [intros [= <- <-]; simpl; lia|].
  destruct (is_digit c) eqn:E; [|done]. cbn [take_digits]. rewrite E.
  destruct (take_digits s) as [d t] eqn:Et. intros [= <- <-].
  apply take_digits_app in Et as ->. simpl. rewrite length_app_string. lia.
Qed.

Lemma scan_frac_length (s fp r : string) : scan_frac s = Some (fp, r) → (slen r ≤ slen s)%nat.
Proof.
  unfold scan_frac. destruct s as [|c s]; [intros [= <- <-]; done|].
  destruct (Ascii.eqb c "."); [|intros [= <- <-]; done].
  destruct (take_digits s) as [[|a d] t] eqn:Et; [done|]. intros [= <- <-].
  apply take_digits_app in Et as ->. simpl. rewrite length_app_string. lia.
Qed.

Lemma scan_exp_length (s ep r : string) : scan_exp s = Some (ep, r) → (slen r ≤ slen s)%nat.
Proof.
  unfold scan_exp. destruct s as [|c s]; [intros [= <- <-]; done|].
  destruct (_ || _); [|intros [= <- <-]; done].
  destruct s as [|g s]; [done|].
  destruct (Ascii.eqb g "+" || Ascii.eqb g "-").
  - destruct (take_digits s) as [[|a d] t] eqn:Et; [done|]. intros [= <- <-].
    apply take_digits_app in Et as ->. simpl. rewrite length_app_string. lia.
  - destruct (take_digits (String g s)) as [[|a d] t] eqn:Et; [done|]. intros [= <- <-].
    apply take_digits_app in Et. apply (f_equal slen) in Et. simpl in *.
    rewrite length_app_string in Et. simpl. lia.
Qed.

Lemma scan_number_length (s lit r : string) :
  scan_number s = Some (lit, r) → (slen r < slen s)%nat.
Proof.
  unfold scan_number. intros H.
  destruct (match s with
            | String c r => if Ascii.eqb c "-" then (String c "", r) else ("", s)
            | EmptyString => ("", s) end) as [sign s1] eqn:E.
  assert (Hs : (slen s1 ≤ slen s)%nat).
  { destruct s as [|c s]; [injection E as <- <-; done|].
    destruct (Ascii.eqb c "-"); injection E as <- <-; simpl; lia. }
  destruct (scan_int s1) as [[ip s2]|] eqn:Ei; [|done].
  destruct (scan_frac s2) as [[fp s3]|] eqn:Ef; [|done].
  destruct (scan_exp s3) as [[ep s4]|] eqn:Ee; [|done]. injection H as <- <-.
  apply scan_int_length in Ei. apply scan_frac_length in Ef. apply scan_exp_length in Ee. lia.
Qed.

Lemma scan_literal_length (s : string) (v : json) (r : string) :
  scan_literal s = Some (v, r) → (slen r < slen s)%nat.
Proof.
  unfold scan_literal. intros H. repeat case_match; try discriminate H;
    injection H as <- <-;
    match goal with
    | H : cut_prefix _ _ = Some _ |- _ =>
        apply cut_prefix_app in H as ->; rewrite length_app_string; simpl; lia
    end.
Qed.

(** Collect what each sub-parser consumed. *)
Ltac lengths :=
  repeat match goal with
  | H : expect _ _ = Some _ |- _ => apply expect_length in H
  | H : parse_str _ = Some _ |- _ => apply parse_str_length in H
  | H : scan_number _ = Some _ |- _ => apply scan_number_length in H
  | H : scan_literal _ = Some _ |- _ => apply scan_literal_length in H
  end.

Lemma parse_length (f : nat) :
  (∀ d s v r, parse_value f d s = Some (v, r) → (slen r < slen s)%nat) ∧
  (∀ d s v r, parse_members f d s = Some (v, r) → (slen r < slen s)%nat) ∧
  (∀ d s v r, parse_elements f d s = Some (v, r) → (slen r < slen s)%nat).
Proof.
  induction f as [|f (IHv & IHm & IHe)]; [done|].
  split; [|split]; intros d s v r H.
  - cbn [parse_value] in H. pose proof (skip_ws_length s) as Hw.
    destruct (skip_ws s) as [|c t]; [done|]. cbn [String.length] in Hw.
    repeat case_match; try discriminate H; simplify_eq;
      repeat match goal with
      | H : parse_members _ _ _ = Some _ |- _ => apply IHm in H
      | H : parse_elements _ _ _ = Some _ |- _ => apply IHe in H
      end; lengths; simpl in *; try lia.
  - cbn [parse_members] in H. repeat case_match; try discriminate H; simplify_eq;
      repeat match goal with
      | H : parse_members _ _ _ = Some _ |- _ => apply IHm in H
      | H : parse_value _ _ _ = Some _ |- _ => apply IHv in H
      end; lengths; lia.
  - cbn [parse_elements] in H. repeat case_match; try discriminate H; simplify_eq;
      repeat match goal with
      | H : parse_elements _ _ _ = Some _ |- _ => apply IHe in H
      | H : parse_value _ _ _ = Some _ |- _ => apply IHv in H
      end; lengths; lia.
Qed.

(** ** The fuel never decides *)

Definition fuel_irrelevant (s : string) : Prop :=
  ∀ d f1 f2,
    ((2 * slen s + 1 ≤ f1)%nat → (2 * slen s + 1 ≤ f2)%nat →
       parse_value f1 d s = parse_value f2 d s ∧
       parse_members f1 d s = parse_members f2 d s) ∧
    ((2 * slen s + 2 ≤ f1)%nat → (2 * slen s + 2 ≤ f2)%nat →
       parse_elements f1 d s = parse_elements f2 d s).

Lemma parse_value_step (s : string) :
  (∀ s', (slen s' < slen s)%nat → fuel_irrelevant s') →
  ∀ d f1 f2, (2 * slen s + 1 ≤ f1)%nat → (2 * slen s + 1 ≤ f2)%nat →
    parse_value f1 d s = parse_value f2 d s.
Proof.
  intros IH d [|f1] [|f2] H1 H2; try lia. cbn [parse_value].
  pose proof (skip_ws_length s) as Hw. destruct (skip_ws s) as [|c r]; [done|].
  cbn [String.length] in Hw.
  destruct (IH r ltac:(lia) (d + 1) f1 f2) as [Hm He].
  destruct Hm as [_ Hm]; [lia..|]. specialize (He ltac:(lia) ltac:(lia)).
  by rewrite Hm, He.
Qed.

Lemma parse_members_step (s : string) :
  (∀ s', (slen s' < slen s)%nat → fuel_irrelevant s') →
  ∀ d f1 f2, (2 * slen s + 1 ≤ f1)%nat → (2 * slen s + 1 ≤ f2)%nat →
    parse_members f1 d s = parse_members f2 d s.
Proof.
  intros IH d [|f1] [|f2] H1 H2; try lia. cbn [parse_members].
  destruct (expect dquote s) as [r|] eqn:E1; [|done].
  destruct (parse_str r) as [[k r1]|] eqn:E2; [|done].
  destruct (expect ":" r1) as [r2|] eqn:E3; [|done]. lengths.
  destruct (IH r2 ltac:(lia) d f1 f2) as [Hv _]. destruct Hv as [-> _]; [lia..|].
  destruct (parse_value f2 d r2) as [[v r3]|] eqn:E4; [|done].
  apply parse_length in E4.
  destruct (expect "}" r3) eqn:E5; [done|].
  destruct (expect "," r3) as [r4|] eqn:E6; [|done]. lengths.
  destruct (IH r4 ltac:(lia) d f1 f2) as [Hm _]. destruct Hm as [_ Hm]; [lia..|].
  by rewrite Hm.
Qed.

Lemma parse_fuel (s : string) : fuel_irrelevant s.
Proof.
  remember (slen s) as n eqn:Hn. revert s Hn.
  induction n as [n IHn] using lt_wf_ind. intros s ->.
  assert (IH : ∀ s', (slen s' < slen s)%nat → fuel_irrelevant s')
    by (intros s' Hs'; by apply (IHn (slen s'))).
  intros d f1 f2. split; [intros H1 H2; split|intros H1 H2].
  - by apply parse_value_step.
  - by apply parse_members_step.
  - destruct f1 as [|f1]; [lia|]. destruct f2 as [|f2]; [lia|]. cbn [parse_elements].
    rewrite (parse_value_step s IH d f1 f2) by lia.
    destruct (parse_value f2 d s) as [[v r]|] eqn:E1; [|done].
    apply parse_length in E1.
    destruct (expect "]" r); [done|].
    destruct (expect "," r) as [r'|] eqn:E2; [|done]. lengths.
    destruct (IH r' ltac:(lia) d f1 f2) as [_ He]. by rewrite He by lia.
Qed.

(** Any fuel above [2 * length] parses like [parse]. *)
Lemma parse_value_fuel (s : string) (f : nat) :
  (2 * slen s + 1 ≤ f)%nat → parse_value f 0 s = parse s.
Proof.
  intros H. unfold parse. destruct (parse_fuel s 0 f (2 * slen s + 2)%nat) as [Hv _].
  by destruct Hv as [-> _]; [lia..|].
Qed.

(** ** Strings: unquoting a quoted string *)

Lemma parse_esc_ascii (c : ascii) (x : string) :
  byte_val c < 128 → parse_str (esc_ascii c ++ x) = prepend (String c "") (parse_str x).
Proof.
  intros H. destruct c as [[] [] [] [] [] [] [] []];
    first [exfalso; vm_compute in H; discriminate H | reflexivity].
Qed.

Lemma high_not_special (c : ascii) :
  128 ≤ byte_val c →
  Ascii.eqb c dquote = false ∧ Ascii.eqb c backslash = false ∧
  (byte_val c <? 32) = false ∧ (byte_val c <? 128) = false.
Proof.
  intros H. rewrite !Ascii.eqb_neq, !Z.ltb_ge. repeat split; try lia;
    intros ->; vm_compute in H; by apply H.
Qed.

Lemma quote_chunk_long (r : Z) (c c' : ascii) (t : string) :
  r ≠ 0x2028 → r ≠ 0x2029 →
  quote_chunk (mkChunk r (String c (String c' t))) = String c (String c' t).
Proof.
  intros H1 H2. unfold quote_chunk. cbn [ch_raw ch_rune].
  by rewrite (proj2 (Z.eqb_neq _ _) H1), (proj2 (Z.eqb_neq _ _) H2).
Qed.

Lemma parse_chunk_2 (c0 c1 : ascii) (x : string) :
  utf8_2 c0 c1 = true →
  parse_str (quote_chunk (mkChunk (rune2 c0 c1) (String c0 (String c1 ""))) ++ x) =
  prepend (String c0 (String c1 "")) (parse_str x).
Proof.
  intros H. pose proof (EncodeRune_rune2 _ _ H) as He.
  destruct (high_not_special _ (utf8_2_high _ _ H)) as (Hq & Hb & H32 & H128).
  rewrite quote_chunk_long.
  2,3: unfold rune2; utf8_bounds; div_lia.
  rewrite !app_cons_string, app_nil_string. cbn [parse_str]. by rewrite Hq, Hb, H32, H128, H, He.
Qed.

Lemma parse_chunk_3 (c0 c1 c2 : ascii) (x : string) :
  utf8_3 c0 c1 c2 = true →
  parse_str (quote_chunk (mkChunk (rune3 c0 c1 c2) (String c0 (String c1 (String c2 "")))) ++ x) =
  prepend (String c0 (String c1 (String c2 ""))) (parse_str x).
Proof.
  intros H. pose proof (EncodeRune_rune3 _ _ _ H) as He.
  destruct (high_not_special _ (utf8_3_high _ _ _ H)) as (Hq & Hb & H32 & H128).
  destruct (decide (rune3 c0 c1 c2 = 0x2028)) as [E|E1].
  { rewrite <- He. rewrite E. reflexivity. }
  destruct (decide (rune3 c0 c1 c2 = 0x2029)) as [E|E2].
  { rewrite <- He. rewrite E. reflexivity. }
  rewrite quote_chunk_long by done. rewrite !app_cons_string, app_nil_string. cbn [parse_str].
  by rewrite Hq, Hb, H32, H128, (utf8_3_not_2 _ _ _ H), H, He.
Qed.

Lemma parse_chunk_4 (c0 c1 c2 c3 : ascii) (x : string) :
  utf8_4 c0 c1 c2 c3 = true →
  parse_str (quote_chunk (mkChunk (rune4 c0 c1 c2 c3)
    (String c0 (String c1 (String c2 (String c3 ""))))) ++ x) =
  prepend (String c0 (String c1 (String c2 (String c3 "")))) (parse_str x).
Proof.
  intros H. pose proof (EncodeRune_rune4 _ _ _ _ H) as He.
  destruct (high_not_special _ (utf8_4_high _ _ _ _ H)) as (Hq & Hb & H32 & H128).
  destruct (utf8_4_not_23 _ _ _ _ H) as [H2 H3].
  assert (0x10000 ≤ rune4 c0 c1 c2 c3).
  { unfold rune4. utf8_bounds.
    destruct (byte_val c0 =? 0xE0) eqn:?; destruct (byte_val c0 =? 0xF0) eqn:?;
    destruct (byte_val c0 =? 0xED) eqn:?; destruct (byte_val c0 =? 0xF4) eqn:?;
    bool_to_prop; div_lia. }
  rewrite quote_chunk_long by lia. rewrite !app_cons_string, app_nil_string. cbn [parse_str].
  by rewrite Hq, Hb, H32, H128, H2, H3, H, He.
Qed.

Lemma prepend_prepend (p q : string) (o : option (string * string)) :
  prepend p (prepend q o) = prepend (p ++ q) o.
Proof. destruct o as [[t r]|]; [|done]. simpl. by rewrite app_assoc_string. Qed.

(** Reading a quoted string gives the string back, when it is valid UTF-8. *)
Lemma parse_quoted (s rest : string) :
  ValidString s = true →
  parse_str (quote_chunks (range_runes s) ++ String dquote rest) = Some (s, rest).
Proof.
  intros Hv. revert s Hv. apply ValidString_ind.
  - reflexivity.
  - intros c s Hc _ IH. rewrite range_runes_ascii by done. cbn [quote_chunks].
    rewrite app_assoc_string. unfold quote_chunk at 1. cbn [ch_raw].
    rewrite (proj2 (Z.ltb_lt _ _) Hc), parse_esc_ascii, IH by done. done.
  - intros c0 c1 s H _ IH. rewrite range_runes_2 by done. cbn [quote_chunks].
    by rewrite app_assoc_string, parse_chunk_2, IH by done.
  - intros c0 c1 c2 s H _ IH. rewrite range_runes_3 by done. cbn [quote_chunks].
    by rewrite app_assoc_string, parse_chunk_3, IH by done.
  - intros c0 c1 c2 c3 s H _ IH. rewrite range_runes_4 by done. cbn [quote_chunks].
    by rewrite app_assoc_string, parse_chunk_4, IH by done.
Qed.

(** ** Numbers *)

(** The text after a number: nothing that would continue it. *)
Definition num_stop (s : string) : bool :=
  match s with
  | String c _ =>
      negb (is_digit c || Ascii.eqb c "." || Ascii.eqb c "e" || Ascii.eqb c "E")
  | EmptyString => true
  end.

Lemma take_digits_stop (d rest : string) :
  string_forallb is_digit d = true → num_stop rest = true →
  take_digits (d ++ rest) = (d, rest).
Proof.
  induction d as [|c d IH]; simpl; intros Hd Hr.
  - destruct rest as [|c r]; [done|]. cbn [num_stop] in Hr.
    rewrite negb_true_iff, !orb_false_iff in Hr. destruct Hr as (((Hc & _) & _) & _).
    rewrite app_nil_string. cbn [take_digits]. by rewrite Hc.
  - bool_to_prop. 
    match goal with H : is_digit c = true |- _ => rewrite H end. by rewrite IH.
Qed.

Lemma scan_tail_stop (rest : string) :
  num_stop rest = true → scan_frac rest = Some ("", rest) ∧ scan_exp rest = Some ("", rest).
Proof.
  destruct rest as [|c r]; [done|]. cbn [num_stop scan_frac scan_exp].
  rewrite negb_true_iff, !orb_false_iff. intros (((_ & Hp) & He1) & He2).
  by rewrite Hp, He1, He2.
Qed.

(** A rendered non-negative number is scanned whole. *)
Lemma scan_int_itoa (n : Z) (rest : string) :
  0 ≤ n < 10 ^ 20 → num_stop rest = true →
  scan_int (itoa_digits 20 n "" ++ rest) = Some (itoa_digits 20 n "", rest).
Proof.
  intros Hn Hr. destruct (decide (n = 0)) as [->|Hz]; [reflexivity|].
  destruct (itoa_digits_head 20 n "") as (d & r & Heq & Hd); [lia|].
  pose proof (itoa_digits_digits 20 n "" eq_refl) as Hall.
  rewrite Heq in *. rewrite app_cons_string. cbn [scan_int].
  rewrite digit_char_is_digit by lia.
  replace (Ascii.eqb (digit_char d) "0") with false.
  - rewrite <- app_cons_string. by rewrite take_digits_stop.
  - symmetry. apply Ascii.eqb_neq. intros Hc. apply (f_equal byte_val) in Hc.
    rewrite digit_char_val in Hc by lia. change (byte_val "0") with 48 in Hc. lia.
Qed.

Lemma scan_number_Itoa (n : Z) (rest : string) :
  int64_min ≤ n ≤ int64_max → num_stop rest = true →
  scan_number (Itoa n ++ rest) = Some (Itoa n, rest).
Proof.
  intros Hn Hr. unfold int64_min, int64_max in Hn.
  destruct (scan_tail_stop rest Hr) as [Hf He].
  unfold Itoa, scan_number. destruct (n <? 0) eqn:E; bool_to_prop.
  - rewrite app_cons_string. change (Ascii.eqb "-" "-") with true. cbv iota beta.
    rewrite scan_int_itoa, Hf, He by (done || lia). by rewrite app_string_nil.
  - destruct (itoa_digits_nonempty 19 n "") as (c & r & Heq & Hc).
    destruct (digit_not_sign c Hc) as [_ Hm]. apply Ascii.eqb_neq in Hm.
    pose proof (scan_int_itoa n rest ltac:(lia) Hr) as Hs. rewrite Heq in *.
    rewrite app_cons_string in *. rewrite Hm, Hs, Hf, He. by rewrite !app_string_nil.
Qed.

(** Where a rendered number starts. *)
Lemma Itoa_head (n : Z) :
  ∃ c r, Itoa n = String c r ∧ (c = "-"%char ∨ is_digit c = true).
Proof.
  unfold Itoa. destruct (n <? 0).
  - eexists _, _. split; [done|]. by left.
  - destruct (itoa_digits_nonempty 19 n "") as (c & r & Heq & Hc).
    exists c, r. split; [done|]. by right.
Qed.

Lemma int64_literal_Itoa (lit : string) :
  int64_literal lit = true → ∃ n, lit = Itoa n ∧ int64_min ≤ n ≤ int64_max.
Proof.
  unfold int64_literal. destruct (ParseInt64 lit) as [n|]; [|done].
  intros H. bool_to_prop. exists n. split; [done|]. by apply in_int64_iff.
Qed.

Lemma int64_literal_ok (n : Z) :
  int64_min ≤ n ≤ int64_max → int64_literal (Itoa n) = true.
Proof.
  intros H. unfold int64_literal. rewrite ParseInt64_Itoa by done.
  rewrite (proj2 (in_int64_iff n) H). apply String.eqb_refl.
Qed.

(** ** The round trip *)

Lemma json_ind' (P : json → Prop) :
  P JNull → (∀ b, P (JBool b)) → (∀ n, P (JNumber n)) → (∀ s, P (JString s)) →
  (∀ l, Forall P l → P (JArray l)) →
  (∀ kvs, Forall (λ kv, P kv.2) kvs → P (JObject kvs)) →
  ∀ v, P v.
Proof.
  intros Hn Hb Hnum Hs Ha Ho. fix IH 1. intros [|b|n|s|l|kvs].
  - exact Hn.
  - apply Hb.
  - apply Hnum.
  - apply Hs.
  - apply Ha. induction l as [|v l IHl]; constructor; [apply IH|apply IHl].
  - apply Ho. induction kvs as [|[k v] kvs IHk]; constructor; [apply IH|apply IHk].
Qed.

(** Recursion steps the parser takes on an encoded value. *)
Fixpoint json_need (v : json) : nat :=
  match v with
  | JArray l => 2 + fold_right (λ x acc, S (json_need x + acc)) 0%nat l
  | JObject kvs => 2 + fold_right (λ kv acc, S (json_need kv.2 + acc)) 0%nat kvs
  | _ => 1
  end.

(** The first byte of an encoded value. *)
Definition value_head (c : ascii) : Prop :=
  is_ws c = false ∧ c ≠ "]"%char ∧ c ≠ "}"%char.

Lemma digit_value_head (c : ascii) : is_digit c = true → value_head c.
Proof.
  intros H. unfold value_head. repeat split; [|intros ->; discriminate..].
  unfold is_ws, is_digit in *. bool_to_prop. rewrite !orb_false_iff, !Z.eqb_neq. lia.
Qed.

Lemma encode_head (v : json) :
  json_wf v = true → ∃ c r, encode v = String c r ∧ value_head c.
Proof.
  assert (Hc : ∀ c r s, s = String c r → value_head c → ∃ c r, s = String c r ∧ value_head c)
    by eauto.
  destruct v as [|[]|lit|s|l|kvs]; intros Hwf;
    try (eapply Hc; [reflexivity|repeat split; discriminate]).
  apply int64_literal_Itoa in Hwf as (n & -> & _).
  destruct (Itoa_head n) as (c & r & Heq & [->|Hd]).
  - eapply Hc; [exact Heq|]. repeat split; discriminate.
  - eapply Hc; [exact Heq|]. by apply digit_value_head.
Qed.

Lemma skip_ws_head (c : ascii) (r : string) :
  is_ws c = false → skip_ws (String c r) = String c r.
Proof. intros H. simpl. by rewrite H. Qed.

Lemma expect_hit (c : ascii) (r : string) : is_ws c = false → expect c (String c r) = Some r.
Proof. intros H. unfold expect. rewrite skip_ws_head by done. by rewrite Ascii.eqb_refl. Qed.

Lemma expect_miss (c a : ascii) (r : string) :
  is_ws a = false → a ≠ c → expect c (String a r) = None.
Proof.
  intros H Hne. unfold expect. rewrite skip_ws_head by done.
  by rewrite (proj2 (Ascii.eqb_neq _ _) Hne).
Qed.

Lemma quote_app (s rest : string) :
  (quote s ++ rest)%string =
  String dquote (quote_chunks (range_runes s) ++ String dquote rest).
Proof. unfold quote. by rewrite !app_cons_string, app_assoc_string. Qed.

(** What the induction proves of each value. *)
Definition reads_back (v : json) : Prop :=
  ∀ f d rest, num_stop rest = true → 0 ≤ d → d + json_depth v ≤ max_nesting →
    (json_need v ≤ f)%nat → parse_value f d (encode v ++ rest) = Some (v, rest).

Definition list_need {A} (need : A → nat) (l : list A) : nat :=
  fold_right (λ x acc, S (need x + acc)) 0%nat l.

Definition list_depth {A} (depth : A → Z) (l : list A) : Z :=
  fold_right (λ x acc, Z.max (depth x) acc) 0 l.

Lemma Join_cons (s : string) (l : list string) (sep rest : string) :
  l ≠ [] → (Join (s :: l) sep ++ rest)%string = (s ++ sep ++ Join l sep ++ rest)%string.
Proof. intros H. destruct l; [done|]. simpl. by rewrite !app_assoc_string. Qed.

Lemma parse_elements_encode (l : list json) (f : nat) (d : Z) (rest : string) :
  l ≠ [] → forallb json_wf l = true → Forall (λ v, json_wf v = true → reads_back v) l →
  0 ≤ d → d + list_depth json_depth l ≤ max_nesting → (list_need json_need l < f)%nat →
  parse_elements f d (Join (map encode l) "," ++ String "]" rest) = Some (l, rest).
Proof.
  intros Hne Hwf Hall Hd. revert f. induction l as [|v l IH]; [done|]; intros f Hdep Hf.
  destruct f as [|f]; [lia|]. cbn [parse_elements list_need list_depth fold_right map] in *.
  fold (list_need json_need l) in Hf. fold (list_depth json_depth l) in Hdep.
  cbn [forallb] in Hwf. apply andb_prop in Hwf as [Hv Hl].
  inversion Hall as [|? ? Hrv Hrl]; subst. specialize (Hrv Hv).
  destruct l as [|v' l].
  - cbn [map Join]. rewrite Hrv; [|done|done|lia|lia]. by rewrite expect_hit.
  - rewrite Join_cons by done. rewrite app_cons_string, app_nil_string.
    rewrite Hrv; [|done|done|lia|lia].
    rewrite expect_miss, expect_hit by done.
    rewrite IH; [done|done|done|done|lia|lia].
Qed.

Lemma parse_members_encode (kvs : list (string * json)) (f : nat) (d : Z) (rest : string) :
  kvs ≠ [] → forallb (λ kv, ValidString kv.1 && json_wf kv.2) kvs = true →
  Forall (λ kv, json_wf kv.2 = true → reads_back kv.2) kvs →
  0 ≤ d → d + list_depth (λ kv, json_depth kv.2) kvs ≤ max_nesting →
  (list_need (λ kv, json_need kv.2) kvs < f)%nat →
  parse_members f d
    (Join (map (λ kv, (quote kv.1 ++ ":" ++ encode kv.2)%string) kvs) "," ++ String "}" rest)
  = Some (kvs, rest).
Proof.
  intros Hne Hwf Hall Hd. revert f. induction kvs as [|[k v] kvs IH]; [done|]; intros f Hdep Hf.
  destruct f as [|f]; [lia|]. cbn [parse_members list_need list_depth fold_right map fst snd] in *.
  fold (list_need (λ kv : string * json, json_need kv.2) kvs) in Hf.
  fold (list_depth (λ kv : string * json, json_depth kv.2) kvs) in Hdep.
  cbn [forallb fst snd] in Hwf. apply andb_prop in Hwf as [Hkv Hl].
  apply andb_prop in Hkv as [Hk Hv].
  inversion Hall as [|? ? Hrv Hrl]; subst. specialize (Hrv Hv). cbn [snd] in Hrv.
  destruct kvs as [|kv' kvs].
  - cbn [map Join]. rewrite app_assoc_string, quote_app, expect_hit by done.
    rewrite parse_quoted by done.
    rewrite app_assoc_string, app_cons_string, app_nil_string, expect_hit by done.
    rewrite Hrv; [|done|done|lia|lia]. by rewrite expect_hit.
  - rewrite Join_cons by done. rewrite app_assoc_string, quote_app, expect_hit by done.
    rewrite parse_quoted by done.
    rewrite app_assoc_string, app_cons_string, app_nil_string, expect_hit by done.
    rewrite (app_cons_string "," ""), app_nil_string.
    rewrite Hrv; [|done|done|lia|lia].
    rewrite expect_miss, expect_hit by done.
    rewrite IH; [done|done|done|done|lia|lia].
Qed.

Lemma reads_back_number (n : Z) : int64_min ≤ n ≤ int64_max → reads_back (JNumber (Itoa n)).
Proof.
  intros Hn f d rest Hr _ _ Hf. destruct f as [|f]; [simpl in Hf; lia|].
  pose proof (scan_number_Itoa n rest Hn Hr) as Hs.
  destruct (Itoa_head n) as (c & r & Heq & Hc). cbn [parse_value encode].
  rewrite Heq in *. rewrite app_cons_string in *.
  assert (Hws : is_ws c = false).
  { destruct Hc as [->|Hc]; [done|]. by apply digit_value_head. }
  rewrite skip_ws_head, Hs by done.
  assert (Hsel : Ascii.eqb c "{" = false ∧ Ascii.eqb c "[" = false ∧ Ascii.eqb c dquote = false
                 ∧ Ascii.eqb c "-" || is_digit c = true).
  { destruct Hc as [->|Hc]; [done|]. rewrite Hc, orb_true_r, !Ascii.eqb_neq.
    repeat split; intros ->; discriminate. }
  destruct Hsel as (-> & -> & -> & ->). done.
Qed.

Lemma encode_reads_back (v : json) : json_wf v = true → reads_back v.
Proof.
  induction v as [|b|lit|s|l IH|kvs IH] using json_ind'; intros Hwf.
  - intros [|f] d rest Hr _ _ Hf; [simpl in Hf; lia|reflexivity].
  - intros [|f] d rest Hr _ _ Hf; [simpl in Hf; lia|destruct b; reflexivity].
  - apply int64_literal_Itoa in Hwf as (n & -> & Hn). by apply reads_back_number.
  - intros [|f] d rest Hr _ _ Hf; [simpl in Hf; lia|]. cbn [encode parse_value].
    rewrite quote_app, skip_ws_head by done. cbn -[parse_str].
    by rewrite parse_quoted.
  - intros [|f] d rest Hr Hd0 Hd Hf; [simpl in Hf; lia|]. cbn [encode parse_value].
    rewrite app_cons_string, app_nil_string, app_cons_string, skip_ws_head by done.
    change (Ascii.eqb "[" "{") with false. change (Ascii.eqb "[" "[") with true. cbv iota.
    cbn [json_depth json_need] in Hd, Hf.
    fold (list_depth json_depth l) in Hd. fold (list_need json_need l) in Hf.
    destruct l as [|v l].
    { cbn [list_depth fold_right] in Hd. rewrite (proj2 (Z.ltb_ge _ _)) by lia. reflexivity. }
    assert (Hpos : 0 ≤ list_depth json_depth (v :: l))
      by (clear; induction (v :: l); simpl; lia).
    rewrite (proj2 (Z.ltb_ge _ _)) by lia. rewrite app_assoc_string, app_cons_string, app_nil_string.
    cbn [json_wf] in Hwf.
    destruct (encode_head v) as (c & r & Hc & Hws & Hb & _).
    { cbn [forallb] in Hwf. by apply andb_prop in Hwf as [Hv _]. }
    rewrite parse_elements_encode; [|done|done|done|lia|lia|lia].
    replace (expect "]" _) with (@None string); [done|].
    destruct l; cbn [map Join]; rewrite Hc, !app_cons_string; by rewrite expect_miss.
  - intros [|f] d rest Hr Hd0 Hd Hf; [simpl in Hf; lia|]. cbn [encode parse_value].
    rewrite app_cons_string, app_nil_string, app_cons_string, skip_ws_head by done.
    change (Ascii.eqb "{" "{") with true. cbv iota.
    cbn [json_depth json_need] in Hd, Hf.
    fold (list_depth (λ kv : string * json, json_depth kv.2) kvs) in Hd.
    fold (list_need (λ kv : string * json, json_need kv.2) kvs) in Hf.
    destruct kvs as [|[k v] kvs].
    { cbn [list_depth fold_right] in Hd. rewrite (proj2 (Z.ltb_ge _ _)) by lia. reflexivity. }
    assert (Hpos : 0 ≤ list_depth (λ kv : string * json, json_depth kv.2) ((k, v) :: kvs))
      by (clear; induction ((k, v) :: kvs); simpl; lia).
    rewrite (proj2 (Z.ltb_ge _ _)) by lia. rewrite app_assoc_string, app_cons_string, app_nil_string.
    cbn [json_wf] in Hwf.
    rewrite parse_members_encode; [|done|done|done|lia|lia|lia].
    replace (expect "}" _) with (@None string); [done|].
    destruct kvs; cbn [map Join fst snd]; rewrite !app_assoc_string, quote_app; by rewrite expect_miss.
Qed.

(** Parsing an encoded value, followed by anything that does not continue a
    number, gives the value and what followed. *)
Lemma encode_parse (v : json) (rest : string) :
  json_wf v = true → json_depth v ≤ max_nesting → num_stop rest = true →
  parse (encode v ++ rest) = Some (v, rest).
Proof.
  intros Hwf Hd Hr.
  rewrite <- (parse_value_fuel _ (json_need v + 2 * slen (encode v ++ rest) + 1)) by lia.
  apply encode_reads_back; [done..|lia].
Qed.

Lemma Unmarshal_encode (v : json) :
  json_wf v = true → json_depth v ≤ max_nesting → Unmarshal (encode v) = Some v.
Proof.
  intros Hwf Hd. unfold Unmarshal. rewrite <- (app_string_nil (encode v)).
  by rewrite encode_parse.
Qed.
