(* ===== verification/Base64.v ===== *)
(** * [encoding/base64]

    [base64.RawURLEncoding.EncodeToString] and
    [base64.URLEncoding.DecodeString].  The decoder skips carriage returns and
    line feeds, requires padding and does not check that the unused low bits of
    the last character are zero (the encodings are not [Strict]). *)

From S2P Require Import Prelude Utf8.

(** The URL-safe alphabet. *)
Definition b64char (v : Z) : ascii :=
  byte_of (if v <? 26 then 65 + v
           else if v <? 52 then 71 + v
           else if v <? 62 then v - 4
           else if v =? 62 then 45 else 95).

Definition b64val (c : ascii) : option Z :=
  let b := byte_val c in
  if between 65 90 b then Some (b - 65)
  else if between 97 122 b then Some (b - 71)
  else if between 48 57 b then Some (b + 4)
  else if b =? 45 then Some 62
  else if b =? 95 then Some 63
  else None.

Definition pad : ascii := "=".

Fixpoint RawURLEncode (s : string) : string :=
  match s with
  | EmptyString => EmptyString
  | String a EmptyString =>
      let v := byte_val a * 65536 in
      String (b64char (v / 262144)) (String (b64char (v / 4096 mod 64)) "")
  | String a (String b EmptyString) =>
      let v := byte_val a * 65536 + byte_val b * 256 in
      String (b64char (v / 262144)) (String (b64char (v / 4096 mod 64))
        (String (b64char (v / 64 mod 64)) ""))
  | String a (String b (String c r)) =>
      let v := byte_val a * 65536 + byte_val b * 256 + byte_val c in
      String (b64char (v / 262144)) (String (b64char (v / 4096 mod 64))
        (String (b64char (v / 64 mod 64)) (String (b64char (v mod 64)) (RawURLEncode r))))
  end.

Definition is_newline (c : ascii) : bool := (byte_val c =? 10) || (byte_val c =? 13).

Fixpoint drop_newlines (s : string) : string :=
  match s with
  | EmptyString => EmptyString
  | String c r => if is_newline c then drop_newlines r else String c (drop_newlines r)
  end.

(** Four characters at a time ([decodeQuantum]). *)
Fixpoint decode_quanta (s : string) : option string :=
  match s with
  | EmptyString => Some EmptyString
  | String a (String b (String c (String d r))) =>
      match b64val a, b64val b with
      | Some w, Some x =>
          if Ascii.eqb c pad then
            if Ascii.eqb d pad && String.eqb r ""
            then Some (String (byte_of ((w * 262144 + x * 4096) / 65536)) "") else None
          else match b64val c with
          | None => None
          | Some y =>
              let v := w * 262144 + x * 4096 + y * 64 in
              if Ascii.eqb d pad then
                if String.eqb r ""
                then Some (String (byte_of (v / 65536)) (String (byte_of (v / 256 mod 256)) ""))
                else None
              else match b64val d, decode_quanta r with
              | Some z, Some t =>
                  Some (String (byte_of (v / 65536)) (String (byte_of ((v + z) / 256 mod 256))
                          (String (byte_of ((v + z) mod 256)) t)))
              | _, _ => None
              end
          end
      | _, _ => None
      end
  | _ => None
  end.

Definition URLDecode (s : string) : option string := decode_quanta (drop_newlines s).

(** ** Lemmas *)

Definition is_b64 (c : ascii) : bool := match b64val c with Some _ => true | None => false end.

Lemma b64char_val (v : Z) : 0 ≤ v < 64 → b64val (b64char v) = Some v.
Proof.
  intros H. unfold b64val, b64char.
  destruct (v <? 26) eqn:E1; [|destruct (v <? 52) eqn:E2; [|destruct (v <? 62) eqn:E3;
    [|destruct (v =? 62) eqn:E4]]]; bool_to_prop; rewrite byte_val_of_small by lia;
    unfold between;
    repeat match goal with
    | |- context [?a <=? ?b] => destruct (Z.leb_spec a b); try lia
    | |- context [?a =? ?b] => destruct (Z.eqb_spec a b); try lia
    end; simpl; f_equal; lia.
Qed.

Lemma b64char_is_b64 (v : Z) : 0 ≤ v < 64 → is_b64 (b64char v) = true.
Proof. intros H. unfold is_b64. by rewrite b64char_val. Qed.

(** Characters of the alphabet are neither padding, newlines nor a period. *)
Lemma is_b64_plain (c : ascii) :
  is_b64 c = true →
  Ascii.eqb c pad = false ∧ is_newline c = false ∧ Ascii.eqb c "." = false.
Proof.
  destruct c as [[] [] [] [] [] [] [] []]; intros H; first [discriminate H|repeat split].
Qed.

Lemma string_ind3 (P : string → Prop) :
  P "" → (∀ a, P (String a "")) → (∀ a b, P (String a (String b ""))) →
  (∀ a b c s, P s → P (String a (String b (String c s)))) → ∀ s, P s.
Proof.
  intros H0 H1 H2 H3. fix IH 1. intros [|a [|b [|c s]]].
  - exact H0.
  - apply H1.
  - apply H2.
  - apply H3, IH.
Qed.

(** The four sextets of three bytes. *)
Ltac sextet_bounds :=
  repeat match goal with
  | a : ascii |- _ =>
      lazymatch goal with
      | H : 0 ≤ byte_val a < 256 |- _ => fail
      | _ => pose proof (byte_val_range a)
      end
  end.

Lemma RawURLEncode_alphabet (s : string) : string_forallb is_b64 (RawURLEncode s) = true.
Proof.
  induction s as [|a|a b|a b c s IH] using string_ind3; [done|..];
    cbn [RawURLEncode string_forallb]; cbv zeta; rewrite ?IH, ?andb_true_r;
    rewrite !b64char_is_b64; try done; sextet_bounds; div_lia.
Qed.

Lemma RawURLEncode_no_period (s : string) :
  string_forallb (λ a, negb (Ascii.eqb a ".")) (RawURLEncode s) = true.
Proof.
  eapply string_forallb_impl; [|apply RawURLEncode_alphabet].
  intros c Hc. by destruct (is_b64_plain c Hc) as (_ & _ & ->).
Qed.

Lemma drop_newlines_b64 (s t : string) :
  string_forallb is_b64 s = true → drop_newlines (s ++ t) = (s ++ drop_newlines t)%string.
Proof.
  induction s as [|c s IH]; [done|]. rewrite !app_cons_string. cbn [string_forallb drop_newlines].
  intros [Hc Hs]%andb_prop. destruct (is_b64_plain c Hc) as (_ & -> & _). by rewrite IH.
Qed.

(** The padding [base64URLDecode] appends for a given length. *)
Definition padding (n : nat) : string :=
  match (n mod 4)%nat with
  | 2%nat => String pad (String pad "")
  | 3%nat => String pad ""
  | _ => ""
  end.

Lemma padding_add4 (n : nat) : padding (S (S (S (S n)))) = padding n.
Proof.
  unfold padding. replace (S (S (S (S n)))) with (n + 1 * 4)%nat by lia.
  by rewrite Nat.Div0.mod_add.
Qed.

(** Rewrite the decoding of the rendered sextets. *)
Ltac decode_sextets :=
  rewrite !app_cons_string, ?app_nil_string; cbn [decode_quanta];
  repeat match goal with
  | |- context [b64val (b64char ?v)] => rewrite (b64char_val v) by (sextet_bounds; div_lia)
  | |- context [Ascii.eqb (b64char ?v) pad] =>
      rewrite (proj1 (is_b64_plain (b64char v)
        (b64char_is_b64 v ltac:(sextet_bounds; div_lia))))
  end.

(** Recognise the next decoded byte as [a]. *)
Ltac decoded_byte a :=
  match goal with
  | |- context [byte_of ?e] =>
      replace e with (byte_val a) by (sextet_bounds; div_lia); rewrite (byte_of_val a)
  end; try reflexivity.

Lemma decode_quanta_encode (s : string) :
  decode_quanta (RawURLEncode s ++ padding (String.length (RawURLEncode s))) = Some s.
Proof.
  induction s as [|a|a b|a b c s IH] using string_ind3; [done|..].
  - cbn [RawURLEncode]. cbv zeta. decode_sextets.
    change (Ascii.eqb pad pad) with true. cbn [andb String.eqb].
    decoded_byte a.
  - cbn [RawURLEncode]. cbv zeta. decode_sextets.
    change (Ascii.eqb pad pad) with true. cbn [String.eqb].
    decoded_byte a. decoded_byte b.
  - cbn [RawURLEncode]. cbv zeta. cbn [String.length]. rewrite padding_add4.
    decode_sextets. rewrite IH.
    set (v := byte_val a * 65536 + byte_val b * 256 + byte_val c).
    assert (Hv : v / 262144 * 262144 + v / 4096 mod 64 * 4096 + v / 64 mod 64 * 64 + v mod 64 = v)
      by (subst v; sextet_bounds; div_lia).
    assert (Hw : v / 262144 * 262144 + v / 4096 mod 64 * 4096 + v / 64 mod 64 * 64 = v - v mod 64)
      by lia.
    rewrite Hv, Hw.
    replace ((v - v mod 64) / 65536) with (byte_val a) by (subst v; sextet_bounds; div_lia).
    replace (v / 256 mod 256) with (byte_val b) by (subst v; sextet_bounds; div_lia).
    replace (v mod 256) with (byte_val c) by (subst v; sextet_bounds; div_lia).
    by rewrite !byte_of_val.
Qed.

(** Encoding, padding and decoding give the bytes back. *)
Lemma URLDecode_encode (s : string) :
  URLDecode (RawURLEncode s ++ padding (String.length (RawURLEncode s))) = Some s.
Proof.
  unfold URLDecode. rewrite drop_newlines_b64 by apply RawURLEncode_alphabet.
  replace (drop_newlines (padding _)) with (padding (String.length (RawURLEncode s))).
  - apply decode_quanta_encode.
  - unfold padding. by destruct (_ mod 4)%nat as [|[|[|[|n]]]].
Qed.
