(* ===== verification/Sha256.v ===== *)
(** * [crypto/sha256] and [crypto/hmac]

    FIPS 180-4 SHA-256 on byte strings with 32-bit words as [Z] reduced modulo
    2^32, and RFC 2104 HMAC over it: what [hmac.New(sha256.New, key)],
    [mac.Write] and [mac.Sum(nil)] compute. *)

From S2P Require Import Prelude.

Definition w32 (z : Z) : Z := z mod 2 ^ 32.
Definition add32 (x y : Z) : Z := w32 (x + y).
Definition rotr (n x : Z) : Z := Z.lor (Z.shiftr x n) (w32 (Z.shiftl x (32 - n))).
Definition not32 (x : Z) : Z := Z.lxor x (2 ^ 32 - 1).

Definition Ch (x y z : Z) : Z := Z.lxor (Z.land x y) (Z.land (not32 x) z).
Definition Maj (x y z : Z) : Z := Z.lxor (Z.land x y) (Z.lxor (Z.land x z) (Z.land y z)).
Definition Sigma0 (x : Z) : Z := Z.lxor (rotr 2 x) (Z.lxor (rotr 13 x) (rotr 22 x)).
Definition Sigma1 (x : Z) : Z := Z.lxor (rotr 6 x) (Z.lxor (rotr 11 x) (rotr 25 x)).
Definition sigma0 (x : Z) : Z := Z.lxor (rotr 7 x) (Z.lxor (rotr 18 x) (Z.shiftr x 3)).
Definition sigma1 (x : Z) : Z := Z.lxor (rotr 17 x) (Z.lxor (rotr 19 x) (Z.shiftr x 10)).

(** *** Constants

    FIPS 180-4 takes the words it adds from the primes: the first 32 bits of the
    fractional parts of the cube roots of the first 64 ones for the rounds, of the
    square roots of the first 8 for the initial state.  They are computed here from
    that definition, once. *)

Definition is_prime (n : Z) : bool :=
  forallb (λ k, negb (n mod Z.of_nat k =? 0)) (seq 2 (Z.to_nat (n - 2))).

Definition primes_below (n : nat) : list Z := List.filter is_prime (map Z.of_nat (seq 2 (n - 2))).

(** The largest [r] of [bits] bits above [acc] with [r]^3 at most [x]. *)
Fixpoint cube_root (bits : nat) (acc x : Z) : Z :=
  match bits with
  | O => acc
  | S b =>
      let r := acc + 2 ^ Z.of_nat b in
      cube_root b (if r ^ 3 <=? x then r else acc) x
  end.

Definition cube_root_bits (p : Z) : Z := w32 (cube_root 40 0 (p * 2 ^ 96)).
Definition square_root_bits (p : Z) : Z := w32 (Z.sqrt (p * 2 ^ 64)).

Definition round_constants : list Z := Eval vm_compute in map cube_root_bits (primes_below 312).

(** The eight working variables. *)
Record sha_state := mkSha { sa : Z; sb : Z; sc : Z; sd : Z; se : Z; sf : Z; sg : Z; sh : Z }.

Definition sha_init : sha_state := Eval vm_compute in
  match map square_root_bits (primes_below 20) with
  | [a; b; c; d; e; f; g; h] => mkSha a b c d e f g h
  | _ => mkSha 0 0 0 0 0 0 0 0
  end.

Fixpoint bytes_of (s : string) : list Z :=
  match s with
  | EmptyString => []
  | String c r => byte_val c :: bytes_of r
  end.

Fixpoint string_of_bytes (l : list Z) : string :=
  match l with
  | [] => EmptyString
  | b :: r => String (byte_of b) (string_of_bytes r)
  end.

(** The [n] bytes of [z], most significant first. *)
Fixpoint be_bytes (n : nat) (z : Z) : list Z :=
  match n with
  | O => []
  | S m => Z.shiftr z (8 * Z.of_nat m) mod 256 :: be_bytes m z
  end.

(** Append 0x80, zeros to 56 modulo 64, and the length in bits. *)
Definition sha_pad (m : list Z) : list Z :=
  let n := List.length m in
  (m ++ [0x80] ++ repeat 0 ((119 - n mod 64) mod 64) ++ be_bytes 8 (8 * Z.of_nat n))%list.

Fixpoint words_of (l : list Z) : list Z :=
  match l with
  | a :: b :: c :: d :: r => (((a * 256 + b) * 256 + c) * 256 + d) :: words_of r
  | _ => []
  end.

(** Extend the schedule, latest word first. *)
Fixpoint extend_schedule (n : nat) (w : list Z) : list Z :=
  match n with
  | O => w
  | S m =>
      let x := add32 (add32 (sigma1 (List.nth 1 w 0)) (List.nth 6 w 0))
                     (add32 (sigma0 (List.nth 14 w 0)) (List.nth 15 w 0)) in
      extend_schedule m (x :: w)
  end.

Definition schedule (block : list Z) : list Z :=
  rev (extend_schedule 48 (rev (words_of block))).

Definition sha_round (st : sha_state) (kw : Z * Z) : sha_state :=
  let t1 := w32 (sh st + Sigma1 (se st) + Ch (se st) (sf st) (sg st) + kw.1 + kw.2) in
  let t2 := w32 (Sigma0 (sa st) + Maj (sa st) (sb st) (sc st)) in
  mkSha (add32 t1 t2) (sa st) (sb st) (sc st) (add32 (sd st) t1) (se st) (sf st) (sg st).

Definition compress (st : sha_state) (block : list Z) : sha_state :=
  let r := fold_left sha_round (combine round_constants (schedule block)) st in
  mkSha (add32 (sa st) (sa r)) (add32 (sb st) (sb r)) (add32 (sc st) (sc r)) (add32 (sd st) (sd r))
        (add32 (se st) (se r)) (add32 (sf st) (sf r)) (add32 (sg st) (sg r)) (add32 (sh st) (sh r)).

(** Process [n] blocks of 64 bytes. *)
Fixpoint sha_blocks (n : nat) (st : sha_state) (l : list Z) : sha_state :=
  match n with
  | O => st
  | S m => sha_blocks m (compress st (firstn 64 l)) (skipn 64 l)
  end.

Definition sha256_bytes (m : list Z) : list Z :=
  let p := sha_pad m in
  let r := sha_blocks (List.length p / 64) sha_init p in
  (be_bytes 4 (sa r) ++ be_bytes 4 (sb r) ++ be_bytes 4 (sc r) ++ be_bytes 4 (sd r) ++
   be_bytes 4 (se r) ++ be_bytes 4 (sf r) ++ be_bytes 4 (sg r) ++ be_bytes 4 (sh r))%list.

Definition hmac_block (key : list Z) : list Z :=
  let k := if Nat.ltb 64 (List.length key) then sha256_bytes key else key in
  (k ++ repeat 0 (64 - List.length k))%list.

(** [hmac.New(sha256.New, key)]; [Write(msg)]; [Sum(nil)]. *)
Definition hmac_sha256 (key msg : string) : string :=
  let k := hmac_block (bytes_of key) in
  let inner := sha256_bytes (map (Z.lxor 0x36) k ++ bytes_of msg)%list in
  string_of_bytes (sha256_bytes (map (Z.lxor 0x5c) k ++ inner)%list).

(** ** Lemmas *)

Lemma be_bytes_length (n : nat) (z : Z) : List.length (be_bytes n z) = n.
Proof. induction n; simpl; congruence. Qed.

Lemma sha256_bytes_length (m : list Z) : List.length (sha256_bytes m) = 32%nat.
Proof. reflexivity. Qed.

Lemma string_of_bytes_length (l : list Z) : String.length (string_of_bytes l) = List.length l.
Proof. induction l; simpl; congruence. Qed.

(** A MAC has 32 bytes. *)
Lemma hmac_sha256_length (key msg : string) : String.length (hmac_sha256 key msg) = 32%nat.
Proof. unfold hmac_sha256. by rewrite string_of_bytes_length, sha256_bytes_length. Qed.

(** The published test vectors: FIPS 180-4 "abc", and RFC 4231 test case 2. *)
Example sha256_abc :
  sha256_bytes (bytes_of "abc") =
  be_bytes 32 0xba7816bf8f01cfea414140de5dae2223b00361a396177a9cb410ff61f20015ad.
Proof. vm_compute. reflexivity. Qed.

Example hmac_rfc4231_2 :
  hmac_sha256 "Jefe" "what do ya want for nothing?" =
  string_of_bytes (be_bytes 32 0x5bdcc146bf60754e6a042426089575c75a003f089d2739839dec58b964ec3843).
Proof. vm_compute. reflexivity. Qed.
