(* ===== verification/GoTime.v ===== *)
(** * [time]

    Instants with their wall clock, monotonic reading and zone offset;
    [Sub], [Add], [Unix], [UTC] and [Format(time.RFC3339)]; durations as 64-bit
    nanosecond counts, with [int(d.Seconds())] computed through the float64
    rounding of [Duration.Seconds]. *)

From S2P Require Import Prelude GoNum.

Definition Second : Z := 1000000000.
Definition Minute : Z := 60 * Second.
Definition Hour : Z := 60 * Minute.

(** [wall] counts nanoseconds since the Unix epoch; [mono] is the monotonic
    clock reading, present in the results of [time.Now] and absent from times
    read from elsewhere; [zone] is the location's offset east of UTC in seconds. *)
Record Time := mkTime { wall : Z; mono : option Z; zone : Z }.

(** The zero [time.Time]: January 1, year 1, UTC. *)
Definition zeroTime : Time := mkTime (- 62135596800 * Second) None 0.

(** [t.Sub(u)] uses the monotonic readings when both times have one, and
    saturates at the bounds of [Duration]. *)
Definition Sub (t u : Time) : Z :=
  match mono t, mono u with
  | Some a, Some b => int64_sat (a - b)
  | _, _ => int64_sat (wall t - wall u)
  end.

Definition Add (t : Time) (d : Z) : Time :=
  mkTime (wall t + d) (match mono t with Some m => Some (m + d) | None => None end) (zone t).

Definition Unix (t : Time) : Z := wall t / Second.

Definition UTC (t : Time) : Time := mkTime (wall t) (mono t) 0.

(** ** Formatting *)

(** Zero-padded decimal ([appendInt]). *)
Definition pad_int (width : nat) (n : Z) : string :=
  let digits := Itoa (Z.abs n) in
  let zeros := string_of_list_ascii (repeat "0"%char (width - String.length digits)) in
  ((if (n <? 0)%Z then "-" else "") ++ zeros ++ digits)%string.

(** Year, month and day of a day number counted from 1970-01-01, in the
    proleptic Gregorian calendar. *)
Definition civil_from_days (days : Z) : Z * Z * Z :=
  let z := days + 719468 in
  let era := z / 146097 in
  let doe := z mod 146097 in
  let yoe := (doe - doe / 1460 + doe / 36524 - doe / 146096) / 365 in
  let doy := doe - (365 * yoe + yoe / 4 - yoe / 100) in
  let mp := (5 * doy + 2) / 153 in
  let day := doy - (153 * mp + 2) / 5 + 1 in
  let month := if mp <? 10 then mp + 3 else mp - 9 in
  let year := yoe + era * 400 + (if month <=? 2 then 1 else 0) in
  (year, month, day).

Definition format_zone (offset : Z) : string :=
  let mins := Z.quot offset 60 in
  if offset =? 0 then "Z"
  else ((if (mins <? 0)%Z then "-" else "+") ++ pad_int 2 (Z.abs mins / 60)%Z ++ ":"
        ++ pad_int 2 (Z.abs mins mod 60)%Z)%string.

(** [t.Format(time.RFC3339)]. *)
Definition FormatRFC3339 (t : Time) : string :=
  let secs := Unix t + zone t in
  let '(y, m, d) := civil_from_days (secs / 86400) in
  let tod := secs mod 86400 in
  (pad_int 4 y ++ "-" ++ pad_int 2 m ++ "-" ++ pad_int 2 d ++ "T"
   ++ pad_int 2 (tod / 3600)%Z ++ ":" ++ pad_int 2 (tod / 60 mod 60)%Z ++ ":" ++ pad_int 2 (tod mod 60)%Z
   ++ format_zone (zone t))%string.

(** ** [Duration.Seconds] *)

(** The integer nearest to [n / d], ties to even ([n >= 0], [d > 0]). *)
Definition round_half_even (n d : Z) : Z :=
  let q := n / d in
  let r := n mod d in
  if 2 * r <? d then q
  else if d <? 2 * r then q + 1
  else if Z.even q then q else q + 1.

(** Non-negative float64 values as multiples of 2^-90, which every value below
    is: the float64 nearest to [n / d] times 2^-90 keeps 53 significant bits. *)
Definition float_unit : Z := 2 ^ 90.

Definition fround (n d : Z) : Z :=
  let e := Z.max 0 (Z.log2 (n / d) - 52) in
  round_half_even n (d * 2 ^ e) * 2 ^ e.

(** [float64(sec) + float64(nsec)/1e9], then truncation to [int]. *)
Definition int_seconds_nonneg (d : Z) : Z :=
  let sec := d / Second in
  let nsec := d mod Second in
  fround (sec * float_unit + fround (nsec * float_unit) Second) 1 / float_unit.

(** [int(d.Seconds())]. *)
Definition int_Seconds (d : Z) : Z :=
  if d <? 0 then - int_seconds_nonneg (- d) else int_seconds_nonneg d.

(** ** Lemmas *)

Lemma Sub_now (t u : Time) (a b : Z) :
  mono t = Some a → mono u = Some b → Sub t u = int64_sat (a - b).
Proof. intros H1 H2. unfold Sub. by rewrite H1, H2. Qed.

Lemma Unix_Add_mono (t : Time) (d d' : Z) : d ≤ d' → Unix (Add t d) ≤ Unix (Add t d').
Proof. intros H. unfold Unix, Add. simpl. apply Z.div_le_mono; unfold Second; lia. Qed.

Lemma round_half_even_le (n d k : Z) : 0 < d → n ≤ k * d → round_half_even n d ≤ k.
Proof.
  intros Hd Hn. unfold round_half_even.
  pose proof (Z.div_mod n d ltac:(lia)) as Hdm. pose proof (Z.mod_pos_bound n d Hd) as Hm.
  assert (Hq : n / d ≤ k) by (apply Z.div_le_upper_bound; lia).
  destruct (decide (n / d = k)) as [He|He].
  - assert (n mod d = 0) as -> by nia.
    change (2 * 0) with 0. rewrite (proj2 (Z.ltb_lt 0 d) Hd). lia.
  - repeat case_match; lia.
Qed.

Lemma round_half_even_ge (n d k : Z) : 0 < d → k * d ≤ n → k ≤ round_half_even n d.
Proof.
  intros Hd Hn. assert (k ≤ n / d) by (apply Z.div_le_lower_bound; lia).
  unfold round_half_even. repeat case_match; lia.
Qed.

(** Rounding does not cross a multiple of 2^60 while 2^60 is at least one unit
    in the last place. *)
Lemma fround_bounds (n d m : Z) :
  0 < d → 0 ≤ n → n < d * 2 ^ 113 →
  (n ≤ m * 2 ^ 60 * d → fround n d ≤ m * 2 ^ 60) ∧
  (m * 2 ^ 60 * d ≤ n → m * 2 ^ 60 ≤ fround n d).
Proof.
  intros Hd Hn0 Hn. unfold fround.
  set (e := Z.max 0 (Z.log2 (n / d) - 52)).
  assert (He : 0 ≤ e ≤ 60).
  { subst e. split; [lia|]. assert (Z.log2 (n / d) < 113); [|lia].
    destruct (decide (n / d = 0)) as [->|Hz]; [done|].
    apply Z.log2_lt_pow2; [pose proof (Z.div_pos n d); lia|].
    apply Z.div_lt_upper_bound; lia. }
  assert (Hp : 0 < 2 ^ e) by (apply Z.pow_pos_nonneg; lia).
  assert (Hm : m * 2 ^ 60 = m * 2 ^ (60 - e) * 2 ^ e).
  { rewrite <- Z.mul_assoc, <- Z.pow_add_r by lia. f_equal. f_equal. lia. }
  rewrite Hm. split; intros H.
  - apply Z.mul_le_mono_nonneg_r; [lia|]. apply round_half_even_le; [nia|].
    replace (m * 2 ^ (60 - e) * (d * 2 ^ e)) with (m * 2 ^ (60 - e) * 2 ^ e * d) by ring. lia.
  - apply Z.mul_le_mono_nonneg_r; [lia|]. apply round_half_even_ge; [nia|].
    replace (m * 2 ^ (60 - e) * (d * 2 ^ e)) with (m * 2 ^ (60 - e) * 2 ^ e * d) by ring. lia.
Qed.

(** Below 2^23 seconds (about 97 days) the float64 detour is exact. *)
Lemma int_Seconds_exact (d : Z) :
  0 ≤ d < 2 ^ 23 * Second → int_Seconds d = d / Second.
Proof.
  intros Hd. unfold int_Seconds. rewrite (proj2 (Z.ltb_ge d 0)) by lia.
  unfold int_seconds_nonneg. unfold Second in *.
  set (sec := d / 1000000000). set (nsec := d mod 1000000000).
  assert (Hs : 0 ≤ sec < 2 ^ 23) by (subst sec; div_lia).
  assert (Hn : 0 ≤ nsec ≤ 999999999) by (subst nsec; div_lia).
  clearbody sec nsec. unfold float_unit.
  destruct (fround_bounds (nsec * 2 ^ 90) 1000000000 (2 ^ 30 - 1)) as [Hf1 _]; [lia..|].
  destruct (fround_bounds (nsec * 2 ^ 90) 1000000000 0) as [_ Hf0]; [lia..|].
  specialize (Hf1 ltac:(lia)). specialize (Hf0 ltac:(lia)).
  set (f := fround (nsec * 2 ^ 90) 1000000000) in *. clearbody f.
  destruct (fround_bounds (sec * 2 ^ 90 + f) 1 ((sec + 1) * 2 ^ 30 - 1)) as [Hg1 _]; [lia..|].
  destruct (fround_bounds (sec * 2 ^ 90 + f) 1 (sec * 2 ^ 30)) as [_ Hg0]; [lia..|].
  specialize (Hg1 ltac:(lia)). specialize (Hg0 ltac:(lia)).
  symmetry. apply (Z.div_unique _ _ _ (fround (sec * 2 ^ 90 + f) 1 - sec * 2 ^ 90)); lia.
Qed.

Lemma int_Seconds_nonneg_range (d : Z) : 0 ≤ d < 2 ^ 23 * Second → 0 ≤ int_Seconds d < 2 ^ 23.
Proof. intros H. rewrite int_Seconds_exact by done. unfold Second in *. div_lia. Qed.

Example format_ex1 : FormatRFC3339 (mkTime (1709210096 * Second) None 0) = "2024-02-29T12:34:56Z".
Proof. vm_compute. reflexivity. Qed.
Example format_ex2 : FormatRFC3339 zeroTime = "0001-01-01T00:00:00Z".
Proof. vm_compute. reflexivity. Qed.
Example format_ex3 : FormatRFC3339 (mkTime (1709210096 * Second) None (- 12600)) = "2024-02-29T09:04:56-03:30".
Proof. vm_compute. reflexivity. Qed.
(** Beyond the exact range the sum can round up to the next second. *)
Example int_Seconds_rounds_up : int_Seconds (2 ^ 24 * Second + 999999999) = 2 ^ 24 + 1.
Proof. vm_compute. reflexivity. Qed.
