(* ===== verification/Http.v ===== *)
(** * [net/http], [net/url] and [context]

    Requests, headers with canonical keys, the [ResponseWriter] with its
    header snapshot at [WriteHeader], request bodies behind [MaxBytesReader],
    query strings, context values with their dynamic type, and the types of
    handlers and middleware.

    A handler is a program ([hio]) that writes to its response writer and makes
    atomic steps on an application state [S].  What the middleware needs of [S] (a
    clock) is the interface [HasClock]; the application provides the instance. *)

From S2P Require Import Prelude GoStrings GoTime Utf8 Json.

(** ** Headers *)

(** [validHeaderFieldByte]: the token characters of RFC 7230. *)
Definition is_token_byte (c : ascii) : bool :=
  let b := byte_val c in
  between 48 57 b || between 65 90 b || between 97 122 b
  || existsb (Ascii.eqb c)
       ["!"; "#"; "$"; "%"; "&"; "'"; "*"; "+"; "-"; "."; "^"; "_"; "`"; "|"; "~"]%char.

Fixpoint canonical_bytes (upper : bool) (s : string) : string :=
  match s with
  | EmptyString => EmptyString
  | String c r =>
      let c' := if upper then ascii_upper c else ascii_lower c in
      String c' (canonical_bytes (Ascii.eqb c' "-") r)
  end.

(** [textproto.CanonicalMIMEHeaderKey]. *)
Definition CanonicalHeaderKey (s : string) : string :=
  if string_forallb is_token_byte s then canonical_bytes true s else s.

Abbreviation Header := (gmap string (list string)).

Definition header_Get (h : Header) (key : string) : string :=
  match h !! CanonicalHeaderKey key with
  | Some (v :: _) => v
  | _ => ""
  end.

Definition header_Set (h : Header) (key value : string) : Header :=
  <[CanonicalHeaderKey key := [value]]> h.

Definition header_Add (h : Header) (key value : string) : Header :=
  let k := CanonicalHeaderKey key in
  <[k := (default [] (h !! k) ++ [value])%list]> h.

(** ** The response writer *)

Record ResponseWriter := mkRW {
  rw_header : Header;                    (** the map [w.Header()] *)
  rw_sent : option (Z * Header);         (** status and headers once written *)
  rw_body : string
}.

Definition newResponseWriter : ResponseWriter := mkRW ∅ None "".

(** [w.WriteHeader(status)]; a second call has no effect. *)
Definition rw_WriteHeader (w : ResponseWriter) (status : Z) : ResponseWriter :=
  match rw_sent w with
  | None => mkRW (rw_header w) (Some (status, rw_header w)) (rw_body w)
  | Some _ => w
  end.

(** [w.Write(data)] implies [WriteHeader(200)]. *)
Definition rw_Write (w : ResponseWriter) (data : string) : ResponseWriter :=
  let w' := rw_WriteHeader w 200 in
  mkRW (rw_header w') (rw_sent w') (rw_body w' ++ data).

Definition rw_update_header (f : Header → Header) (w : ResponseWriter) : ResponseWriter :=
  mkRW (f (rw_header w)) (rw_sent w) (rw_body w).

Record Response := mkResponse { resp_status : Z; resp_header : Header; resp_body : string }.

(** What the server sends when the handler returns. *)
Definition finish (w : ResponseWriter) : Response :=
  let w' := rw_WriteHeader w 200 in
  match rw_sent w' with
  | Some (status, h) => mkResponse status h (rw_body w')
  | None => mkResponse 200 (rw_header w') (rw_body w')
  end.

(** ** Contexts *)

(** A context value with its dynamic type: a type assertion to another type
    gives the zero value. *)
Inductive ctx_value :=
| VString (s : string)
| VAuthMethod (s : string).

Definition Context_t : Type := list (string * ctx_value).

Definition WithValue (ctx : Context_t) (key : string) (v : ctx_value) : Context_t :=
  (key, v) :: ctx.

(** The innermost value of the key. *)
Definition ctx_Value (ctx : Context_t) (key : string) : option ctx_value :=
  match List.find (λ kv, String.eqb kv.1 key) ctx with
  | Some kv => Some kv.2
  | None => None
  end.

(** ** Requests *)

(** A body and the limit of the [MaxBytesReader] around it, if any. *)
Record BodyReader := mkBody { b_data : string; b_limit : option Z }.

(** [http.MaxBytesReader(w, body, n)]; a negative limit reads nothing.  Nested
    readers stop at the smaller limit. *)
Definition MaxBytesReader (b : BodyReader) (n : Z) : BodyReader :=
  let n := Z.max 0 n in
  mkBody (b_data b) (Some (match b_limit b with Some m => Z.min m n | None => n end)).

(** The bytes a reader delivers, and whether they end with EOF rather than with
    a [MaxBytesError]. *)
Definition body_read (b : BodyReader) : string * bool :=
  match b_limit b with
  | None => (b_data b, true)
  | Some n =>
      if len (b_data b) <=? n then (b_data b, true)
      else (string_take (Z.to_nat n) (b_data b), false)
  end.

Record Request := mkRequest {
  Method : string;
  Path : string;                 (** [r.URL.Path] *)
  RawQuery : string;             (** [r.URL.RawQuery] *)
  ReqHeader : Header;
  Body : BodyReader;
  ContentLength : Z;             (** -1 when unknown *)
  RemoteAddr : string;
  Context : Context_t
}.

Definition WithContext (r : Request) (ctx : Context_t) : Request :=
  mkRequest (Method r) (Path r) (RawQuery r) (ReqHeader r) (Body r) (ContentLength r)
    (RemoteAddr r) ctx.

Definition with_body (r : Request) (b : BodyReader) : Request :=
  mkRequest (Method r) (Path r) (RawQuery r) (ReqHeader r) b (ContentLength r)
    (RemoteAddr r) (Context r).

(** ** Query strings *)

(** [url.QueryUnescape]. *)
Fixpoint QueryUnescape (s : string) : option string :=
  match s with
  | EmptyString => Some EmptyString
  | String c r =>
      if Ascii.eqb c "%" then
        match r with
        | String h1 (String h2 r') =>
            match hex_val h1, hex_val h2, QueryUnescape r' with
            | Some x, Some y, Some t => Some (String (byte_of (x * 16 + y)) t)
            | _, _, _ => None
            end
        | _ => None
        end
      else match QueryUnescape r with
           | Some t => Some (String (if Ascii.eqb c "+" then " "%char else c) t)
           | None => None
           end
  end.

(** One setting of a query string; malformed ones are skipped. *)
Definition parse_setting (s : string) : option (string * string) :=
  if negb (no_byte ";" s) || String.eqb s "" then None
  else
    let '(k, v) := match Cut "=" s with Some kv => kv | None => (s, "") end in
    match QueryUnescape k, QueryUnescape v with
    | Some k', Some v' => Some (k', v')
    | _, _ => None
    end.

Definition query_pairs (raw : string) : list (string * string) :=
  omap parse_setting (Split "&" raw).

(** [r.URL.Query().Get(key)]: the first value, [""] when absent. *)
Definition query_Get (raw key : string) : string :=
  match List.find (λ kv, String.eqb kv.1 key) (query_pairs raw) with
  | Some kv => kv.2
  | None => ""
  end.

(** ** Handlers and middleware *)

(** The program of a handler: besides atomic steps on the application state it
    writes to its own response writer, which no other handler sees. *)
Inductive hio (S A : Type) : Type :=
| HDone (a : A)
| HWriter (f : ResponseWriter → ResponseWriter) (k : hio S A)
| HStep (B : Type) (f : S → B * S) (k : B → hio S A).
Arguments HDone {S A} _.
Arguments HWriter {S A} _ _.
Arguments HStep {S A B} _ _.

(** Run it alone on a writer and a state. *)
Fixpoint run_hio {S A} (m : hio S A) (ws : ResponseWriter * S) : A * (ResponseWriter * S) :=
  match m with
  | HDone a => (a, ws)
  | HWriter f k => run_hio k (f ws.1, ws.2)
  | HStep f k => let '(b, s') := f ws.2 in run_hio (k b) (ws.1, s')
  end.
Coercion run_hio : hio >-> Funclass.

Definition hreturn {S A} (a : A) : hio S A := HDone a.

Fixpoint hseq {S A B} (m : hio S A) (k : A → hio S B) : hio S B :=
  match m with
  | HDone a => k a
  | HWriter f k' => HWriter f (hseq k' k)
  | HStep f k' => HStep f (λ b, hseq (k' b) k)
  end.

Notation "'let!' x ':=' e 'in' k" := (hseq e (λ x, k))
  (at level 10, x pattern, e at level 200, k at level 200) : go_scope.
Notation "e ';!' k" := (hseq e (λ _, k))
  (at level 199, right associativity) : go_scope.

Definition Handler (S : Type) : Type := Request → hio S unit.
Definition Middleware (S : Type) : Type := Handler S → Handler S.

Definition on_writer {S} (f : ResponseWriter → ResponseWriter) : hio S unit := HWriter f (HDone tt).

Fixpoint on_state {S A} (m : M S A) : hio S A :=
  match m with
  | Done a => HDone a
  | Step f k => HStep f (λ b, on_state (k b))
  end.

Lemma run_hseq {S A B} (m : hio S A) (k : A → hio S B) (ws : ResponseWriter * S) :
  hseq m k ws = let '(a, ws') := m ws in k a ws'.
Proof.
  revert ws. induction m as [a|f m IH|C f k' IH]; intros ws; [done|apply IH|].
  cbn. destruct (f ws.2) as [b s']. apply IH.
Qed.

Lemma run_on_writer {S} (f : ResponseWriter → ResponseWriter) (w : ResponseWriter) (s : S) :
  on_writer f (w, s) = (tt, (f w, s)).
Proof. done. Qed.

Lemma run_on_state {S A} (m : M S A) (w : ResponseWriter) (s : S) :
  on_state m (w, s) = let '(a, s') := m s in (a, (w, s')).
Proof. revert s. induction m as [a|C f k' IH]; intros s; [done|]. cbn. destruct (f s) as [b s']. apply IH. Qed.

Definition Header_Set {S} (k v : string) : hio S unit :=
  on_writer (rw_update_header (λ h, header_Set h k v)).
Definition Header_Add {S} (k v : string) : hio S unit :=
  on_writer (rw_update_header (λ h, header_Add h k v)).
Definition WriteHeader {S} (status : Z) : hio S unit := on_writer (λ w, rw_WriteHeader w status).
Definition Write {S} (data : string) : hio S unit := on_writer (λ w, rw_Write w data).

(** [time.Now()] *)
Class HasClock (S : Type) := read_clock : S → Time * S.
Definition time_Now {S} `{HasClock S} : M S Time := prim read_clock.

(** [json.NewEncoder(w).Encode(v)] *)
Definition Encode {S} (v : json) : hio S unit := Write (encode_line v).

(** Run a handler on a fresh response writer. *)
Definition run_handler {S} (h : Handler S) (r : Request) (s : S) : Response * S :=
  let '(_, (w, s')) := h r (newResponseWriter, s) in (finish w, s').

(** ** Lemmas *)

Definition sent_header (w : ResponseWriter) : Header :=
  match rw_sent w with Some (_, h) => h | None => rw_header w end.

Definition sent_status (w : ResponseWriter) : Z :=
  match rw_sent w with Some (st, _) => st | None => 200 end.

Lemma finish_eq (w : ResponseWriter) :
  finish w = mkResponse (sent_status w) (sent_header w) (rw_body w).
Proof. unfold finish, sent_status, sent_header, rw_WriteHeader. by destruct (rw_sent w) as [[]|] eqn:E; rewrite ?E. Qed.

Lemma header_Get_Set (h : Header) (k v : string) : header_Get (header_Set h k v) k = v.
Proof. unfold header_Get, header_Set. by rewrite lookup_insert_eq. Qed.

Lemma header_Get_Set_ne (h : Header) (k k' v : string) :
  CanonicalHeaderKey k ≠ CanonicalHeaderKey k' →
  header_Get (header_Set h k v) k' = header_Get h k'.
Proof. intros H. unfold header_Get, header_Set. by rewrite lookup_insert_ne. Qed.

Lemma header_Get_Add_ne (h : Header) (k k' v : string) :
  CanonicalHeaderKey k ≠ CanonicalHeaderKey k' →
  header_Get (header_Add h k v) k' = header_Get h k'.
Proof. intros H. unfold header_Get, header_Add. by rewrite lookup_insert_ne. Qed.

Lemma header_Get_empty (k : string) : header_Get ∅ k = "".
Proof. unfold header_Get. by rewrite lookup_empty. Qed.

(** Compute the headers of a chain of [Set]s with constant keys. *)
Ltac header_simpl :=
  repeat first
    [ rewrite header_Get_Set
    | rewrite header_Get_Set_ne by (vm_compute; discriminate)
    | rewrite header_Get_Add_ne by (vm_compute; discriminate)
    | rewrite header_Get_empty ].

(** The bytes a limited body delivers never exceed the limit. *)
Lemma body_read_limit (b : BodyReader) (n : Z) :
  len (body_read (MaxBytesReader b n)).1 ≤ Z.max 0 n.
Proof.
  unfold body_read, MaxBytesReader. cbn [b_limit b_data].
  set (m := match b_limit b with Some m => Z.min m (Z.max 0 n) | None => Z.max 0 n end).
  assert (m ≤ Z.max 0 n) by (subst m; destruct (b_limit b); lia).
  destruct (_ <=? _) eqn:E; bool_to_prop; cbn [fst]; [lia|].
  unfold len. rewrite string_take_length. lia.
Qed.

Lemma ctx_Value_WithValue (ctx : Context_t) (k : string) (v : ctx_value) :
  ctx_Value (WithValue ctx k v) k = Some v.
Proof. unfold ctx_Value, WithValue. simpl. by rewrite String.eqb_refl. Qed.

Lemma ctx_Value_WithValue_ne (ctx : Context_t) (k k' : string) (v : ctx_value) :
  k ≠ k' → ctx_Value (WithValue ctx k v) k' = ctx_Value ctx k'.
Proof.
  intros H. unfold ctx_Value, WithValue. simpl. by rewrite (proj2 (String.eqb_neq _ _) H).
Qed.

Example canonical_ex :
  (CanonicalHeaderKey "X-RateLimit-Limit", CanonicalHeaderKey "x-xss-protection")
  = ("X-Ratelimit-Limit", "X-Xss-Protection").
Proof. vm_compute. reflexivity. Qed.
Example query_ex :
  (query_Get "limit=10&offset=%32+x&;a=b&limit=3" "limit", query_Get "limit=10&offset=%32+x" "offset")
  = ("10", "2 x").
Proof. vm_compute. reflexivity. Qed.
