(* ===== verification/Jwt.v ===== *)
(** * JSON Web Tokens ([shared/go/middleware/auth.go], lines 45-54 and 231-385)

    [validateJWT] and [CreateJWT]: HS256 only, with the claims checks.
    [valid_token] is the declarative specification [validateJWT] implements;
    [CreateJWT_validateJWT] is the round trip with its exact validity window.

    Error values are the constructors of [jwt_error], one per [fmt.Errorf];
    their text is only logged. *)

From S2P Require Import Prelude GoNum GoStrings Utf8 Json JsonFacts Base64 Sha256 GoTime Http.

Record JWTClaims := mkClaims {
  cl_Subject : string;
  cl_Role : string;
  cl_IssuedAt : Z;
  cl_ExpiresAt : Z;
  cl_NotBefore : Z;
  cl_Issuer : string;
  cl_JTI : string
}.

Definition zeroClaims : JWTClaims := mkClaims "" "" 0 0 0 "" "".

(** The anonymous header struct of [validateJWT]. *)
Record jwt_header := mkJwtHeader { hd_Alg : string; hd_Typ : string }.

Definition header_fields : list (field jwt_header) :=
  [ ("alg", set_string (λ h v, mkJwtHeader v (hd_Typ h)));
    ("typ", set_string (λ h v, mkJwtHeader (hd_Alg h) v)) ].

(** The [json] tags of [JWTClaims]. *)
Definition claims_fields : list (field JWTClaims) :=
  [ ("sub", set_string (λ c v, mkClaims v (cl_Role c) (cl_IssuedAt c) (cl_ExpiresAt c) (cl_NotBefore c) (cl_Issuer c) (cl_JTI c)));
    ("role", set_string (λ c v, mkClaims (cl_Subject c) v (cl_IssuedAt c) (cl_ExpiresAt c) (cl_NotBefore c) (cl_Issuer c) (cl_JTI c)));
    ("iat", set_int (λ c v, mkClaims (cl_Subject c) (cl_Role c) v (cl_ExpiresAt c) (cl_NotBefore c) (cl_Issuer c) (cl_JTI c)));
    ("exp", set_int (λ c v, mkClaims (cl_Subject c) (cl_Role c) (cl_IssuedAt c) v (cl_NotBefore c) (cl_Issuer c) (cl_JTI c)));
    ("nbf", set_int (λ c v, mkClaims (cl_Subject c) (cl_Role c) (cl_IssuedAt c) (cl_ExpiresAt c) v (cl_Issuer c) (cl_JTI c)));
    ("iss", set_string (λ c v, mkClaims (cl_Subject c) (cl_Role c) (cl_IssuedAt c) (cl_ExpiresAt c) (cl_NotBefore c) v (cl_JTI c)));
    ("jti", set_string (λ c v, mkClaims (cl_Subject c) (cl_Role c) (cl_IssuedAt c) (cl_ExpiresAt c) (cl_NotBefore c) (cl_Issuer c) v)) ].

Definition unmarshal_header (data : string) : option jwt_header :=
  match Unmarshal data with
  | Some v => decode_struct header_fields v (mkJwtHeader "" "")
  | None => None
  end.

Definition unmarshal_claims (data : string) : option JWTClaims :=
  match Unmarshal data with
  | Some v => decode_struct claims_fields v zeroClaims
  | None => None
  end.

(** What [json.Marshal] writes for a [JWTClaims]: fields in order, [omitempty]
    on [nbf] and [jti]. *)
Definition claims_json (c : JWTClaims) : json :=
  JObject ([ ("sub", JString (cl_Subject c)); ("role", JString (cl_Role c));
             ("iat", JNumber (Itoa (cl_IssuedAt c))); ("exp", JNumber (Itoa (cl_ExpiresAt c))) ]
           ++ (if cl_NotBefore c =? 0 then [] else [("nbf", JNumber (Itoa (cl_NotBefore c)))])
           ++ [("iss", JString (cl_Issuer c))]
           ++ (if String.eqb (cl_JTI c) "" then [] else [("jti", JString (cl_JTI c))]))%list.

Inductive jwt_error :=
| ErrJWTFormat
| ErrHeaderEncoding
| ErrHeaderJSON
| ErrAlgNone
| ErrAlgUnsupported (alg : string)
| ErrSignatureEncoding
| ErrSignature
| ErrClaimsEncoding
| ErrClaimsJSON
| ErrExpired (exp now : Z)
| ErrNotYetValid (nbf now : Z)
| ErrIssuer (got want : string)
| ErrNoSubject.

(** Decodes base64url without padding: pads to a multiple of four first. *)
Definition base64URLDecode (s : string) : option string :=
  let s :=
    if len s mod 4 =? 2 then (s ++ "==")%string
    else if len s mod 4 =? 3 then (s ++ "=")%string
    else s in
  URLDecode s.

(** [validateJWT] up to the decoded claims: everything that does not depend on
    the time. *)
Definition verify_token (tokenString secret : string) : result JWTClaims jwt_error :=
  match Split "." tokenString with
  | [part0; part1; part2] =>
      let? headerJSON := or_err (base64URLDecode part0) ErrHeaderEncoding in
      let? header := or_err (unmarshal_header headerJSON) ErrHeaderJSON in
      reject_if (EqualFold (hd_Alg header) "none") ErrAlgNone ;?
      reject_if (negb (String.eqb (hd_Alg header) "HS256")) (ErrAlgUnsupported (hd_Alg header)) ;?
      let signingInput := (part0 ++ "." ++ part1)%string in
      let? signature := or_err (base64URLDecode part2) ErrSignatureEncoding in
      let expectedSig := hmac_sha256 secret signingInput in
      reject_if (negb (ConstantTimeCompare signature expectedSig =? 1)) ErrSignature ;?
      let? claimsJSON := or_err (base64URLDecode part1) ErrClaimsEncoding in
      or_err (unmarshal_claims claimsJSON) ErrClaimsJSON
  | _ => Err ErrJWTFormat
  end.

(** The checks on the claims at time [now] (Unix seconds). *)
Definition check_claims (claims : JWTClaims) (now : Z) (expectedIssuer : string)
    : result JWTClaims jwt_error :=
  reject_if ((0 <? cl_ExpiresAt claims) && (cl_ExpiresAt claims <? now))
    (ErrExpired (cl_ExpiresAt claims) now) ;?
  reject_if ((0 <? cl_NotBefore claims) && (now <? cl_NotBefore claims))
    (ErrNotYetValid (cl_NotBefore claims) now) ;?
  reject_if (negb (String.eqb expectedIssuer "") && negb (String.eqb (cl_Issuer claims) expectedIssuer))
    (ErrIssuer (cl_Issuer claims) expectedIssuer) ;?
  reject_if (String.eqb (cl_Subject claims) "") ErrNoSubject ;?
  Ok claims.

(** [validateJWT]: the clock is read once the claims are decoded. *)
Definition validateJWT {S} `{HasClock S} (tokenString secret expectedIssuer : string)
    : M S (result JWTClaims jwt_error) :=
  match verify_token tokenString secret with
  | Err e => mreturn (Err e)
  | Ok claims =>
      let* now := time_Now in
      mreturn (check_claims claims (Unix now) expectedIssuer)
  end.

Definition jwt_header_json : json :=
  JObject [("alg", JString "HS256"); ("typ", JString "JWT")].

Definition sign_token (secret : string) (claims : JWTClaims) : string :=
  let headerB64 := RawURLEncode (encode jwt_header_json) in
  let claimsB64 := RawURLEncode (encode (claims_json claims)) in
  let signingInput := (headerB64 ++ "." ++ claimsB64)%string in
  (signingInput ++ "." ++ RawURLEncode (hmac_sha256 secret signingInput))%string.

Definition created_claims (now : Time) (subject role issuer : string) (duration : Z) : JWTClaims :=
  mkClaims subject role (Unix now) (Unix (Add now duration)) (Unix now) issuer "".

(** [CreateJWT]: marshalling strings and integers cannot fail, so the error is
    always [nil]. *)
Definition CreateJWT {S} `{HasClock S} (secret subject role issuer : string) (duration : Z)
    : M S string :=
  let* now := time_Now in
  mreturn (sign_token secret (created_claims now subject role issuer duration)).

(** ** Specification *)

(** A token the service accepts at time [now], and the claims it carries. *)
Record valid_token (secret expectedIssuer : string) (now : Z) (token : string) (claims : JWTClaims) : Prop :=
  mkValidToken {
    vt_parts : ∃ h p sg hj hdr pj,
      token = (h ++ "." ++ p ++ "." ++ sg)%string
      ∧ no_byte "." h = true ∧ no_byte "." p = true ∧ no_byte "." sg = true
      ∧ base64URLDecode h = Some hj ∧ unmarshal_header hj = Some hdr ∧ hd_Alg hdr = "HS256"
      ∧ base64URLDecode sg = Some (hmac_sha256 secret (h ++ "." ++ p))
      ∧ base64URLDecode p = Some pj ∧ unmarshal_claims pj = Some claims;
    vt_expiry : 0 < cl_ExpiresAt claims → now ≤ cl_ExpiresAt claims;
    vt_not_before : 0 < cl_NotBefore claims → cl_NotBefore claims ≤ now;
    vt_issuer : expectedIssuer = "" ∨ cl_Issuer claims = expectedIssuer;
    vt_subject : cl_Subject claims ≠ ""
  }.

(** ** Lemmas *)

Lemma Split3 (c : ascii) (s h p sg : string) :
  Split c s = [h; p; sg] ↔
  s = (h ++ String c (p ++ String c sg))%string
  ∧ no_byte c h = true ∧ no_byte c p = true ∧ no_byte c sg = true.
Proof.
  split.
  - intros H. pose proof (Join_Split c s) as Hj. rewrite H in Hj. cbn [Join] in Hj.
    assert (Hn : ∀ x, x ∈ [h; p; sg] → no_byte c x = true)
      by (intros x Hx; apply (Split_no_byte c s); by rewrite H).
    split; [by rewrite <- Hj, !app_cons_string, !app_nil_string|].
    repeat split; apply Hn; set_solver.
  - intros (-> & Hh & Hp & Hs). by rewrite !Split_app, Split_single.
Qed.

(** [base64URLDecode] reads back the unpadded encoding. *)
Lemma base64URLDecode_encode (s : string) : base64URLDecode (RawURLEncode s) = Some s.
Proof.
  rewrite <- (URLDecode_encode s). unfold base64URLDecode, padding, len.
  set (n := String.length (RawURLEncode s)).
  change 4 with (Z.of_nat 4). rewrite <- Nat2Z.inj_mod.
  destruct (n mod 4)%nat as [|[|[|[|m]]]] eqn:E; cbn -[Nat.modulo]; try (by rewrite app_string_nil); try done.
  pose proof (Nat.mod_upper_bound n 4). lia.
Qed.

Lemma EqualFold_none_HS256 (alg : string) : alg = "HS256" → EqualFold alg "none" = false.
Proof. by intros ->. Qed.

Lemma verify_token_Ok (token secret : string) (claims : JWTClaims) :
  verify_token token secret = Ok claims ↔
  ∃ h p sg hj hdr pj,
    token = (h ++ "." ++ p ++ "." ++ sg)%string
    ∧ no_byte "." h = true ∧ no_byte "." p = true ∧ no_byte "." sg = true
    ∧ base64URLDecode h = Some hj ∧ unmarshal_header hj = Some hdr ∧ hd_Alg hdr = "HS256"
    ∧ base64URLDecode sg = Some (hmac_sha256 secret (h ++ "." ++ p))
    ∧ base64URLDecode p = Some pj ∧ unmarshal_claims pj = Some claims.
Proof.
  unfold verify_token. split.
  - destruct (Split "." token) as [|h [|p [|sg [|]]]] eqn:E; try done.
    apply Split3 in E as (-> & Hh & Hp & Hs).
    intros H. ok_step H as hj Hhj. apply or_err_Ok in Hhj.
    ok_step H as hdr Hhdr. apply or_err_Ok in Hhdr.
    ok_step H as [] _.
    ok_step H as [] Halg. apply reject_if_Ok, negb_false_iff, String.eqb_eq in Halg.
    ok_step H as sig Hsig. apply or_err_Ok in Hsig.
    ok_step H as [] Hmac.
    apply reject_if_Ok, negb_false_iff, Z.eqb_eq, ConstantTimeCompare_eq in Hmac. subst sig.
    ok_step H as pj Hpj. apply or_err_Ok in Hpj. apply or_err_Ok in H.
    exists h, p, sg, hj, hdr, pj. repeat split; done.
  - intros (h & p & sg & hj & hdr & pj & -> & Hh & Hp & Hs & Hhj & Hhdr & Halg & Hsig & Hpj & Hc).
    rewrite (proj2 (Split3 "." _ h p sg)) by done.
    rewrite Hhj. cbn [or_err rbind]. rewrite Hhdr. cbn [or_err rbind].
    rewrite EqualFold_none_HS256, Halg by done. cbn [reject_if rbind String.eqb negb].
    rewrite Hsig. cbn [or_err rbind].
    rewrite (proj2 (ConstantTimeCompare_eq _ _) eq_refl). cbn [Z.eqb negb reject_if rbind].
    rewrite Hpj. cbn [or_err rbind]. by rewrite Hc.
Qed.

Lemma check_claims_Ok (c c' : JWTClaims) (now : Z) (iss : string) :
  check_claims c now iss = Ok c' ↔
  c' = c ∧ (0 < cl_ExpiresAt c → now ≤ cl_ExpiresAt c)
  ∧ (0 < cl_NotBefore c → cl_NotBefore c ≤ now)
  ∧ (iss = "" ∨ cl_Issuer c = iss) ∧ cl_Subject c ≠ "".
Proof.
  unfold check_claims, reject_if.
  destruct ((0 <? cl_ExpiresAt c) && (cl_ExpiresAt c <? now)) eqn:E1; cbn [rbind].
  { bool_to_prop. split; [done|]. intros (_ & He & _). lia. }
  destruct ((0 <? cl_NotBefore c) && (now <? cl_NotBefore c)) eqn:E2; cbn [rbind].
  { bool_to_prop. split; [done|]. intros (_ & _ & Hn & _). lia. }
  apply andb_false_iff in E1. rewrite !Z.ltb_ge in E1.
  apply andb_false_iff in E2. rewrite !Z.ltb_ge in E2.
  destruct (String.eqb_spec iss "") as [->|Hi]; cbn [negb andb rbind].
  - destruct (String.eqb_spec (cl_Subject c) "") as [Hs|Hs]; cbn [rbind]; [naive_solver|].
    split; [intros [= <-]; repeat split; auto; lia|]. by intros (-> & _).
  - destruct (String.eqb_spec (cl_Issuer c) iss) as [Hj|Hj]; cbn [negb rbind]; [|naive_solver].
    destruct (String.eqb_spec (cl_Subject c) "") as [Hs|Hs]; cbn [rbind]; [naive_solver|].
    split; [intros [= <-]; repeat split; auto; lia|]. by intros (-> & _).
Qed.

Lemma valid_token_checks (secret iss : string) (now : Z) (token : string) (c : JWTClaims) :
  valid_token secret iss now token c ↔ verify_token token secret = Ok c ∧ check_claims c now iss = Ok c.
Proof.
  rewrite verify_token_Ok, check_claims_Ok. split.
  - intros [Hp He Hn Hi Hs]. done.
  - intros (Hp & _ & He & Hn & Hi & Hs). by constructor.
Qed.

(** [validateJWT] accepts exactly the valid tokens. *)
Lemma validateJWT_Ok {S} `{HasClock S} (token secret iss : string) (s : S) (claims : JWTClaims) :
  (validateJWT token secret iss s).1 = Ok claims ↔
  valid_token secret iss (Unix (time_Now s).1) token claims.
Proof.
  unfold validateJWT. destruct (verify_token token secret) as [c|e] eqn:E.
  - run_program. destruct (time_Now s) as [now s'] eqn:Et. cbn [fst].
    rewrite check_claims_Ok. split.
    + intros (-> & He & Hn & Hi & Hs). apply verify_token_Ok in E. by constructor.
    + intros [Hp He Hn Hi Hs]. apply verify_token_Ok in Hp.
      rewrite E in Hp. injection Hp as <-. done.
  - cbn [mreturn fst]. split; [done|]. intros [Hp _ _ _ _].
    apply verify_token_Ok in Hp. congruence.
Qed.

(** A token carries one set of claims. *)
Lemma valid_token_functional (secret iss iss' token : string) (now now' : Z) (c c' : JWTClaims) :
  valid_token secret iss now token c → valid_token secret iss' now' token c' → c = c'.
Proof.
  intros [H1 _ _ _ _] [H2 _ _ _ _]. apply verify_token_Ok in H1, H2. congruence.
Qed.

(** Validation changes nothing but the clock. *)
Lemma validateJWT_state {S} `{HasClock S} (token secret iss : string) (s : S) :
  (validateJWT token secret iss s).2 = s ∨ (validateJWT token secret iss s).2 = (time_Now s).2.
Proof.
  unfold validateJWT. destruct (verify_token _ _); [|by left]. run_program.
  right. by destruct (time_Now s).
Qed.

Lemma header_roundtrip :
  unmarshal_header (encode jwt_header_json) = Some (mkJwtHeader "HS256" "JWT").
Proof. reflexivity. Qed.

Definition claims_wf (c : JWTClaims) : Prop :=
  ValidString (cl_Subject c) = true ∧ ValidString (cl_Role c) = true
  ∧ ValidString (cl_Issuer c) = true ∧ ValidString (cl_JTI c) = true
  ∧ int64_min ≤ cl_IssuedAt c ≤ int64_max ∧ int64_min ≤ cl_ExpiresAt c ≤ int64_max
  ∧ int64_min ≤ cl_NotBefore c ≤ int64_max.

Lemma claims_json_wf (c : JWTClaims) :
  claims_wf c → json_wf (claims_json c) = true ∧ json_depth (claims_json c) ≤ max_nesting.
Proof.
  intros (Hs & Hr & Hi & Hj & Hiat & Hexp & Hnbf). unfold claims_json.
  destruct (cl_NotBefore c =? 0); destruct (String.eqb (cl_JTI c) "");
    cbn -[Itoa ValidString int64_literal]; rewrite ?Hs, ?Hr, ?Hi, ?Hj, ?int64_literal_ok by done;
    by vm_compute.
Qed.

(** Marshalling claims and unmarshalling them gives them back. *)
Lemma claims_roundtrip (c : JWTClaims) :
  claims_wf c → unmarshal_claims (encode (claims_json c)) = Some c.
Proof.
  intros Hwf. destruct (claims_json_wf c Hwf) as [Hj Hd].
  destruct Hwf as (_ & _ & _ & _ & Hiat & Hexp & Hnbf).
  unfold unmarshal_claims. rewrite Unmarshal_encode by done. unfold claims_json.
  assert (Hnum : ∀ (upd : JWTClaims → Z → JWTClaims) t n, int64_min ≤ n ≤ int64_max →
            set_int upd t (JNumber (Itoa n)) = Some (upd t n)).
  { intros upd t n Hn. unfold set_int. by rewrite ParseInt64_Itoa. }
  destruct c as [sub role iat exp nbf iss jti].
  cbn [cl_Subject cl_Role cl_IssuedAt cl_ExpiresAt cl_NotBefore cl_Issuer cl_JTI] in *.
  destruct (Z.eqb_spec nbf 0) as [->|Hz]; destruct (String.eqb_spec jti "") as [->|Hz'];
    cbn -[Itoa set_int]; rewrite !Hnum by done; cbn -[Itoa set_int]; rewrite ?Hnum by done; reflexivity.
Qed.

(** A signed token verifies under its own secret and carries its claims. *)
Lemma verify_sign_token (secret : string) (c : JWTClaims) :
  claims_wf c → verify_token (sign_token secret c) secret = Ok c.
Proof.
  intros Hwf. apply verify_token_Ok.
  set (h := RawURLEncode (encode jwt_header_json)).
  set (p := RawURLEncode (encode (claims_json c))).
  exists h, p, (RawURLEncode (hmac_sha256 secret (h ++ "." ++ p))),
    (encode jwt_header_json), (mkJwtHeader "HS256" "JWT"), (encode (claims_json c)).
  split; [unfold sign_token; cbv zeta; fold h p; by rewrite !app_assoc_string|].
  repeat split; try apply RawURLEncode_no_period; try apply base64URLDecode_encode.
  by apply claims_roundtrip.
Qed.

(** The signature part of an accepted token decodes to the MAC of the rest. *)
Lemma verify_token_signature (secret h p sg : string) (c : JWTClaims) :
  no_byte "." h = true → no_byte "." p = true → no_byte "." sg = true →
  verify_token (h ++ "." ++ p ++ "." ++ sg) secret = Ok c →
  base64URLDecode sg = Some (hmac_sha256 secret (h ++ "." ++ p)).
Proof.
  intros Hh Hp Hs Hv. apply verify_token_Ok in Hv
    as (h' & p' & sg' & hj & hdr & pj & Heq & Hh' & Hp' & Hs' & _ & _ & _ & Hsig & _).
  assert (E1 : Split "." (h ++ "." ++ p ++ "." ++ sg) = [h; p; sg]) by by apply Split3.
  assert (E2 : Split "." (h ++ "." ++ p ++ "." ++ sg) = [h'; p'; sg'])
    by (rewrite Heq; by apply Split3).
  rewrite E1 in E2. by injection E2 as -> -> ->.
Qed.

(** When a created token is accepted. *)
Lemma created_token_valid {S} `{HasClock S}
    (secret subject role issuer expectedIssuer : string) (duration : Z) (s s' : S) :
  ValidString subject = true → ValidString role = true → ValidString issuer = true →
  subject ≠ "" →
  0 < Unix (time_Now s).1 ≤ int64_max →
  0 < Unix (Add (time_Now s).1 duration) ≤ int64_max →
  (validateJWT (CreateJWT secret subject role issuer duration s).1 secret expectedIssuer s').1
    = Ok (created_claims (time_Now s).1 subject role issuer duration) ↔
  Unix (time_Now s).1 ≤ Unix (time_Now s').1 ≤ Unix (Add (time_Now s).1 duration)
  ∧ (expectedIssuer = "" ∨ issuer = expectedIssuer).
Proof.
  intros Hsub Hrole Hiss Hne Hc He. unfold CreateJWT. run_program.
  destruct (time_Now s) as [created s1]. cbn [fst] in *.
  unfold validateJWT. rewrite verify_sign_token.
  - run_program. destruct (time_Now s') as [now s2]. cbn [fst].
    rewrite check_claims_Ok. unfold created_claims. cbn. naive_solver lia.
  - unfold claims_wf, created_claims, int64_min in *. cbn. repeat split; try done; lia.
Qed.

(** ** Properties *)

(** C12. [validateJWT] accepts a token and returns its claims exactly when the
    token is valid in the sense of [valid_token]: three parts, an HS256 header,
    the HMAC-SHA256 of the first two parts as signature, not expired, not
    before [nbf], from the expected issuer, and with a subject. *)
Theorem validateJWT_spec {S} `{HasClock S} (token secret iss : string) (s : S) (claims : JWTClaims) :
  (validateJWT token secret iss s).1 = Ok claims ↔
  valid_token secret iss (Unix (time_Now s).1) token claims.
Proof. apply validateJWT_Ok. Qed.

(** C15. Round trip: a token made by [CreateJWT] is accepted with the claims it
    was made from exactly from its creation second to its expiry second, both
    included, and only for a matching issuer. *)
Theorem CreateJWT_validateJWT {S} `{HasClock S}
    (secret subject role issuer expectedIssuer : string) (duration : Z) (s s' : S) :
  ValidString subject = true → ValidString role = true → ValidString issuer = true →
  subject ≠ "" →
  0 < Unix (time_Now s).1 ≤ int64_max →
  0 < Unix (Add (time_Now s).1 duration) ≤ int64_max →
  (validateJWT (CreateJWT secret subject role issuer duration s).1 secret expectedIssuer s').1
    = Ok (created_claims (time_Now s).1 subject role issuer duration) ↔
  Unix (time_Now s).1 ≤ Unix (time_Now s').1 ≤ Unix (Add (time_Now s).1 duration)
  ∧ (expectedIssuer = "" ∨ issuer = expectedIssuer).
Proof. apply created_token_valid. Qed.

(** C35. Algorithm confusion is impossible: a token whose header names any
    algorithm but HS256, "none" included, is rejected whatever its signature,
    before the claims are decoded and without reading the clock. *)
Theorem validateJWT_wrong_alg {S} `{HasClock S} (h p sg hj secret iss : string)
    (hdr : jwt_header) (s : S) :
  no_byte "." h = true → no_byte "." p = true → no_byte "." sg = true →
  base64URLDecode h = Some hj → unmarshal_header hj = Some hdr → hd_Alg hdr ≠ "HS256" →
  validateJWT (h ++ "." ++ p ++ "." ++ sg) secret iss s =
    (Err (if EqualFold (hd_Alg hdr) "none" then ErrAlgNone else ErrAlgUnsupported (hd_Alg hdr)), s).
Proof.
  intros Hh Hp Hs Hhj Hhdr Halg. unfold validateJWT, verify_token.
  rewrite (proj2 (Split3 "." _ h p sg)) by done.
  rewrite Hhj. cbn [or_err rbind]. rewrite Hhdr. cbn [or_err rbind].
  rewrite (proj2 (String.eqb_neq _ _) Halg).
  by destruct (EqualFold (hd_Alg hdr) "none").
Qed.

(** A token without a positive [exp] claim never expires: once accepted, it
    is accepted at every later time. *)
Theorem validateJWT_no_expiry {S} `{HasClock S} (token secret iss : string) (claims : JWTClaims) (s s' : S) :
  (validateJWT token secret iss s).1 = Ok claims → cl_ExpiresAt claims ≤ 0 →
  Unix (time_Now s).1 ≤ Unix (time_Now s').1 →
  (validateJWT token secret iss s').1 = Ok claims.
Proof.
  rewrite !validateJWT_Ok. intros [Hp He Hn Hi Hs] Hexp Hle. constructor; try done; lia.
Qed.

(** ** Witnesses *)

(** A clock that reads a given Unix second. *)
#[local] Instance second_clock : HasClock Z := λ s, (mkTime (s * Second) (Some (s * Second)) 0, s).

Lemma CreateJWT_validateJWT_witness :
  (validateJWT (CreateJWT "k" "svc-123" "service" "quantun" (5 * Minute) 1700000000).1
     "k" "quantun" 1700000300).1
  = Ok (created_claims (time_Now 1700000000).1 "svc-123" "service" "quantun" (5 * Minute)).
Proof.
  apply (CreateJWT_validateJWT "k" "svc-123" "service" "quantun" "quantun" (5 * Minute)
           1700000000 1700000300);
    try (vm_compute; reflexivity); try discriminate.
  - vm_compute. by split.
  - vm_compute. by split.
  - split; [vm_compute; by split|by right].
Defined.

Lemma validateJWT_wrong_alg_witness :
  validateJWT (RawURLEncode (encode (JObject [("alg", JString "None")])) ++ "." ++ "e30" ++ "." ++ "")
    "some-secret" "quantun" 0 = (Err ErrAlgNone, 0).
Proof.
  apply (validateJWT_wrong_alg (RawURLEncode (encode (JObject [("alg", JString "None")])))
           "e30" "" (encode (JObject [("alg", JString "None")])) "some-secret" "quantun"
           (mkJwtHeader "None" "") 0); try (vm_compute; reflexivity); discriminate.
Defined.

(** Claims without [exp]. *)
Definition undated_claims : JWTClaims := mkClaims "svc" "r" 0 0 0 "" "".

Lemma validateJWT_no_expiry_witness :
  (validateJWT (sign_token "k" undated_claims) "k" "" 32503680000).1 = Ok undated_claims.
Proof.
  apply (validateJWT_no_expiry (sign_token "k" undated_claims) "k" "" undated_claims 0 32503680000).
  - apply validateJWT_Ok. assert (Hv := verify_sign_token "k" undated_claims).
    rewrite verify_token_Ok in Hv. constructor.
    + apply Hv. repeat split; vm_compute; done.
    + vm_compute; done.
    + vm_compute; done.
    + by left.
    + discriminate.
  - vm_compute. discriminate.
  - vm_compute. discriminate.
Defined.
