(* ===== verification/Respond.v ===== *)
(** * JSON error and success responses

    [writeAuthError] of the shared middleware and [writeJSON]/[writeError] of
    the handlers, with what a client receives when one of them is the only
    thing that writes. *)

From S2P Require Import Prelude Json Http.

(** [map[string]string{"error": message}] *)
Definition error_json (message : string) : json := JObject [("error", JString message)].

Definition writeAuthError {S} (status : Z) (message : string) : hio S unit :=
  Header_Set "Content-Type" "application/json" ;!
  WriteHeader status ;!
  Encode (error_json message).

Definition writeJSON {S} (status : Z) (v : json) : hio S unit :=
  Header_Set "Content-Type" "application/json" ;!
  WriteHeader status ;!
  Encode v.

Definition writeError {S} (status : Z) (message : string) : hio S unit :=
  Header_Set "Content-Type" "application/json" ;!
  WriteHeader status ;!
  Encode (error_json message).

(** ** Lemmas *)

(** Nothing has been sent yet. *)
Definition unsent (w : ResponseWriter) : Prop := rw_sent w = None ∧ rw_body w = "".

Lemma unsent_new : unsent newResponseWriter.
Proof. done. Qed.

Lemma unsent_update (f : Header → Header) (w : ResponseWriter) :
  unsent w → unsent (rw_update_header f w).
Proof. done. Qed.

#[export] Hint Resolve unsent_new unsent_update : go.

(** The writer after [writeJSON] on an unsent response. *)
Definition json_written (w : ResponseWriter) (status : Z) (v : json) : ResponseWriter :=
  let h := header_Set (rw_header w) "Content-Type" "application/json" in
  mkRW h (Some (status, h)) (encode_line v).

Lemma writeJSON_eq {S} (status : Z) (v : json) (w : ResponseWriter) (s : S) :
  unsent w → writeJSON status v (w, s) = (tt, (json_written w status v, s)).
Proof.
  intros [Hs Hb]. unfold writeJSON, Encode, Header_Set, WriteHeader, Write, mseq, on_writer.
  unfold rw_update_header, rw_WriteHeader, rw_Write, json_written. cbn -[encode_line header_Set].
  rewrite Hs, Hb. by rewrite app_nil_string.
Qed.

Lemma writeAuthError_eq {S} (status : Z) (msg : string) (w : ResponseWriter) (s : S) :
  unsent w → writeAuthError status msg (w, s) = (tt, (json_written w status (error_json msg), s)).
Proof. apply writeJSON_eq. Qed.

Lemma writeError_eq {S} (status : Z) (msg : string) (w : ResponseWriter) (s : S) :
  unsent w → writeError status msg (w, s) = (tt, (json_written w status (error_json msg), s)).
Proof. apply writeJSON_eq. Qed.

Lemma finish_json_written (w : ResponseWriter) (status : Z) (v : json) :
  finish (json_written w status v) =
  mkResponse status (header_Set (rw_header w) "Content-Type" "application/json") (encode_line v).
Proof. reflexivity. Qed.
