(* ===== verification/Threads.v ===== *)
(** * Handlers that run concurrently

    [net/http] serves every request on a goroutine of its own.  A pool of threads
    takes steps of their programs in any order; a response writer belongs to one
    thread, the application state is shared.  A thread remembers its own steps on
    the shared state, each with the state before and after it ([th_trace]).

    [wp m Q w] is the weakest precondition of a program under interference: whatever
    the other threads do between its steps, [m] started with writer [w] ends with
    an answer, a writer and a trace of its own steps that satisfy [Q].
    [pool_adequate] takes it to every schedule of a pool, and [wp_run] to a program
    that runs alone. *)

From S2P Require Import Prelude GoStrings Json Http Respond.

(** ** Threads *)

Section threads.
Context {S : Type}.

Record thread := mkThread {
  th_request : Request;
  th_writer : ResponseWriter;
  th_prog : hio S unit;
  th_trace : list (S * S)
}.

(** One step of one thread. *)
Inductive thread_step : thread → S → thread → S → Prop :=
| thread_write r w f k tr s :
    thread_step (mkThread r w (HWriter f k) tr) s (mkThread r (f w) k tr) s
| thread_state r w B (f : S → B * S) k tr s :
    thread_step (mkThread r w (HStep f k) tr) s
      (mkThread r w (k (f s).1) (tr ++ [(s, (f s).2)])) (f s).2.

(** The server accepts a request, a thread takes a step, or the rest of the process
    and the world change the state. *)
Inductive pool_step (h : Handler S) (env : relation S) : list thread * S → list thread * S → Prop :=
| pool_accept r ts s : pool_step h env (ts, s) ((ts ++ [mkThread r newResponseWriter (h r) []])%list, s)
| pool_run ts1 t t' ts2 s s' :
    thread_step t s t' s' → pool_step h env ((ts1 ++ t :: ts2)%list, s) ((ts1 ++ t' :: ts2)%list, s')
| pool_env ts s s' : env s s' → pool_step h env (ts, s) (ts, s').

(** Schedules of the requests already accepted. *)
Inductive drain_step : list thread * S → list thread * S → Prop :=
| drain_run ts1 t t' ts2 s s' :
    thread_step t s t' s' → drain_step ((ts1 ++ t :: ts2)%list, s) ((ts1 ++ t' :: ts2)%list, s').

Definition ended (t : thread) : Prop := th_prog t = HDone tt.

(** *** A scheduler *)

Definition advance (t : thread) (s : S) : thread * S :=
  match th_prog t with
  | HDone _ => (t, s)
  | HWriter f k => (mkThread (th_request t) (f (th_writer t)) k (th_trace t), s)
  | HStep f k => (mkThread (th_request t) (th_writer t) (k (f s).1) (th_trace t ++ [(s, (f s).2)]), (f s).2)
  end.

(** The threads take their steps in the order [picks]. *)
Fixpoint interleave (picks : list nat) (c : list thread * S) : list thread * S :=
  match picks with
  | [] => c
  | i :: picks =>
      interleave picks
        match c.1 !! i with
        | Some t => (<[i := (advance t c.2).1]> c.1, (advance t c.2).2)
        | None => c
        end
  end.

Definition accept (h : Handler S) (rs : list Request) (s : S) : list thread * S :=
  (map (λ r, mkThread r newResponseWriter (h r) []) rs, s).
End threads.
Arguments thread : clear implicits.
Arguments mkThread {S} _ _ _ _.

(** ** Weakest preconditions *)

(** The steps of a program that runs alone follow each other. *)
Fixpoint chained {S} (s : S) (tr : list (S * S)) (s' : S) : Prop :=
  match tr with
  | [] => s' = s
  | (s1, s2) :: tr => s1 = s ∧ chained s2 tr s'
  end.

Section wp.
Context {S : Type}.

Fixpoint mwp {A} (m : M S A) (Q : A → list (S * S) → Prop) : Prop :=
  match m with
  | Done a => Q a []
  | Step f k => ∀ s, mwp (k (f s).1) (λ a tr, Q a ((s, (f s).2) :: tr))
  end.

Fixpoint wp {A} (m : hio S A) (Q : A → ResponseWriter → list (S * S) → Prop) (w : ResponseWriter) : Prop :=
  match m with
  | HDone a => Q a w []
  | HWriter f k => wp k Q (f w)
  | HStep f k => ∀ s, wp (k (f s).1) (λ a w' tr, Q a w' ((s, (f s).2) :: tr)) w
  end.

(** *** Consequence *)

Lemma mwp_mono {A} (m : M S A) (Q Q' : A → list (S * S) → Prop) :
  mwp m Q → (∀ a tr, Q a tr → Q' a tr) → mwp m Q'.
Proof.
  revert Q Q'. induction m as [a|B f k IH]; intros Q Q' Hm HQ; [by apply HQ|].
  intros s. apply (IH _ _ _ (Hm s)). intros a tr. apply HQ.
Qed.

Lemma wp_mono {A} (m : hio S A) (Q Q' : A → ResponseWriter → list (S * S) → Prop) (w : ResponseWriter) :
  wp m Q w → (∀ a w' tr, Q a w' tr → Q' a w' tr) → wp m Q' w.
Proof.
  revert Q Q' w. induction m as [a|f m IH|B f k IH]; intros Q Q' w Hm HQ; [by apply HQ|by eapply IH|].
  intros s. apply (IH _ _ _ _ (Hm s)). intros a w' tr. apply HQ.
Qed.

(** What is known beforehand can be assumed afterwards. *)
Lemma wp_demonic {A} (P : Prop) (m : hio S A) (Q : A → ResponseWriter → list (S * S) → Prop) (w : ResponseWriter) :
  (P → wp m Q w) → wp m (λ a w' tr, P → Q a w' tr) w.
Proof.
  revert Q w. induction m as [a|f m IH|B f k IH]; intros Q w Hm; [done|by apply IH|].
  intros s. apply (IH _ (λ a w' tr, Q a w' ((s, (f s).2) :: tr))). intros HP. by apply Hm.
Qed.

(** *** The steps of a program, one after the other *)

Lemma mwp_mreturn {A} (a : A) (Q : A → list (S * S) → Prop) : Q a [] → mwp (mreturn a) Q.
Proof. done. Qed.

Lemma mwp_mseq {A B} (m : M S A) (k : A → M S B) (Q : B → list (S * S) → Prop) :
  mwp m (λ a tr1, mwp (k a) (λ b tr2, Q b (tr1 ++ tr2)%list)) → mwp (mseq m k) Q.
Proof.
  revert Q. induction m as [a|C f k' IH]; intros Q; [done|]. intros Hm s. by apply IH, Hm.
Qed.

Lemma mwp_prim {A} (f : S → A * S) (Q : A → list (S * S) → Prop) :
  (∀ s, Q (f s).1 [(s, (f s).2)]) → mwp (prim f) Q.
Proof. done. Qed.

(** A program of exactly one step: its runs say everything. *)
Definition one_step {A} (m : M S A) : Prop :=
  match m with
  | Done _ => False
  | Step f k => ∀ b, match k b with Done _ => True | Step _ _ => False end
  end.

Lemma mwp_one_step {A} (m : M S A) (Q : A → list (S * S) → Prop) :
  one_step m → (∀ s, Q (m s).1 [(s, (m s).2)]) → mwp m Q.
Proof.
  destruct m as [a|B f k]; [done|]. intros H1 HQ s. specialize (HQ s). cbn in HQ |- *.
  destruct (f s) as [b s']. cbn in *. specialize (H1 b). by destruct (k b).
Qed.

Lemma wp_hreturn {A} (a : A) (Q : A → ResponseWriter → list (S * S) → Prop) (w : ResponseWriter) :
  Q a w [] → wp (hreturn a) Q w.
Proof. done. Qed.

Lemma wp_on_writer f (Q : unit → ResponseWriter → list (S * S) → Prop) (w : ResponseWriter) :
  Q tt (f w) [] → wp (on_writer f) Q w.
Proof. done. Qed.

Lemma wp_hseq {A B} (m : hio S A) (k : A → hio S B) (Q : B → ResponseWriter → list (S * S) → Prop) (w : ResponseWriter) :
  wp m (λ a w1 tr1, wp (k a) (λ b w2 tr2, Q b w2 (tr1 ++ tr2)%list) w1) w → wp (hseq m k) Q w.
Proof.
  revert Q w. induction m as [a|f m IH|C f k' IH]; intros Q w; [done|apply IH|]. intros Hm s. by apply IH, Hm.
Qed.

Lemma wp_on_state {A} (m : M S A) (Q : A → ResponseWriter → list (S * S) → Prop) (w : ResponseWriter) :
  mwp m (λ a tr, Q a w tr) → wp (on_state m) Q w.
Proof.
  revert Q. induction m as [a|C f k IH]; intros Q; [done|]. intros Hm s. apply (IH _ _ (Hm s)).
Qed.

Lemma wp_writeJSON (st : Z) (v : json) (Q : unit → ResponseWriter → list (S * S) → Prop) (w : ResponseWriter) :
  unsent w → Q tt (json_written w st v) [] → wp (writeJSON st v) Q w.
Proof.
  intros [Hs Hb] HQ. unfold json_written in HQ. cbn -[encode_line header_Set].
  unfold rw_Write, rw_WriteHeader, rw_update_header. cbn -[encode_line header_Set]. rewrite Hs, Hb.
  cbn -[encode_line header_Set]. exact HQ.
Qed.

Lemma wp_writeError (st : Z) (msg : string) (Q : unit → ResponseWriter → list (S * S) → Prop) (w : ResponseWriter) :
  unsent w → Q tt (json_written w st (error_json msg)) [] → wp (writeError st msg) Q w.
Proof. apply wp_writeJSON. Qed.

Lemma wp_writeAuthError (st : Z) (msg : string) (Q : unit → ResponseWriter → list (S * S) → Prop) (w : ResponseWriter) :
  unsent w → Q tt (json_written w st (error_json msg)) [] → wp (writeAuthError st msg) Q w.
Proof. apply wp_writeJSON. Qed.

(** *** Running alone *)

Lemma wp_run {A} (m : hio S A) (Q : A → ResponseWriter → list (S * S) → Prop) (w : ResponseWriter) (s : S) :
  wp m Q w → ∃ tr, Q (m (w, s)).1 (m (w, s)).2.1 tr ∧ chained s tr (m (w, s)).2.2.
Proof.
  revert Q w s. induction m as [a|f m IH|C f k IH]; intros Q w s Hm; [by exists []|by apply IH|].
  specialize (Hm s). cbn in Hm |- *. destruct (f s) as [b s']. cbn in *.
  destruct (IH b _ w s' Hm) as (tr & HQ & Hc). by exists ((s, s') :: tr).
Qed.

Lemma chained_rel (G : relation S) (s s' : S) (tr : list (S * S)) :
  Reflexive G → Transitive G → chained s tr s' → Forall (λ p, G p.1 p.2) tr → G s s'.
Proof.
  intros HR HT. revert s. induction tr as [|[s1 s2] tr IH]; intros s; cbn; [by intros ->|].
  intros [-> Hc] [HG Hall]%list.Forall_cons. transitivity s2; [done|by apply IH].
Qed.

(** *** Schedules *)

(** What holds of a thread between its steps. *)
Definition thread_ok (Q : Request → ResponseWriter → list (S * S) → Prop) (t : thread S) : Prop :=
  wp (th_prog t) (λ _ w tr, Q (th_request t) w (th_trace t ++ tr)%list) (th_writer t).

Lemma thread_ok_step Q (t t' : thread S) (s s' : S) :
  thread_ok Q t → thread_step t s t' s' → thread_ok Q t'.
Proof.
  unfold thread_ok. intros Hok Hstep.
  destruct Hstep as [r w f k tr s|r w B f k tr s]; cbn [th_request th_prog th_writer th_trace wp] in *; [done|].
  eapply wp_mono; [apply Hok|]. intros a w' tr'. by rewrite <- (app_assoc tr).
Qed.

Lemma thread_ok_ended Q (t : thread S) :
  thread_ok Q t → ended t → Q (th_request t) (th_writer t) (th_trace t).
Proof.
  unfold thread_ok, ended. destruct t as [r w m tr]. cbn. intros H ->. cbn in H. by rewrite app_nil_r in H.
Qed.

(** A thread that has not ended can still end. *)
Lemma thread_ok_trace Q (t : thread S) (s : S) :
  thread_ok Q t → ∃ w tr, Q (th_request t) w (th_trace t ++ tr)%list.
Proof. intros H. destruct (wp_run _ _ _ s H) as (tr & HQ & _). by eexists _, tr. Qed.

Lemma pool_adequate (h : Handler S) (env : relation S) Q (s0 : S) (c : list (thread S) * S) :
  (∀ r, wp (h r) (λ _, Q r) newResponseWriter) →
  rtc (pool_step h env) ([], s0) c → Forall (thread_ok Q) c.1.
Proof.
  intros Hh Hrun.
  assert (H0 : Forall (thread_ok Q) ([], s0).1) by apply Forall_nil_2.
  revert H0 Hrun. generalize ([] : list (thread S), s0). intros c0 H0 Hrun.
  induction Hrun as [|c1 c2 c3 Hstep _ IH]; [done|]. apply IH. clear IH.
  destruct Hstep as [r ts1 s1|ts1 t t' ts2 s1 s2 Ht|ts1 s1 s2 He]; cbn [fst] in *; [| |done].
  - apply Forall_app. split; [done|]. apply Forall_cons_2; [apply Hh|apply Forall_nil_2].
  - apply Forall_app in H0 as [H1 H2]. apply list.Forall_cons in H2 as [Hok H2].
    apply Forall_app. split; [done|]. apply Forall_cons_2; [|done]. by eapply thread_ok_step.
Qed.

(** An ended thread has no step. *)
Lemma ended_stuck (t t' : thread S) (s s' : S) : ended t → ¬ thread_step t s t' s'.
Proof. unfold ended. intros He Hstep. destruct Hstep; cbn in He; discriminate He. Qed.

(** An ended thread stays as it is. *)
Lemma ended_stays (h : Handler S) (env : relation S) (c c' : list (thread S) * S) (i : nat) (t : thread S) :
  rtc (pool_step h env) c c' → c.1 !! i = Some t → ended t → c'.1 !! i = Some t.
Proof.
  induction 1 as [|c1 c2 c3 Hstep _ IH]; [done|]. intros Hi He. apply IH; [|done].
  destruct Hstep as [r ts1 s1|a t1 t2 b s1 s2 Ht|ts1 s1 s2 _]; cbn [fst] in *; [by apply lookup_app_l_Some| |done].
  destruct (decide (i = List.length a)) as [->|Hne].
  - rewrite list_lookup_middle in Hi by done. injection Hi as ->. by destruct (ended_stuck t t2 s1 s2 He).
  - by rewrite (lookup_middle_ne a b t2 t1).
Qed.

(** A step of a thread on the shared state is in its trace. *)
Lemma pool_step_effect (h : Handler S) (env : relation S) (c c' : list (thread S) * S) :
  pool_step h env c c' →
  c'.2 = c.2 ∨ env c.2 c'.2 ∨ ∃ t, t ∈ c'.1 ∧ (c.2, c'.2) ∈ th_trace t.
Proof.
  intros [r ts1 s1|ts1 t t' ts2 s1 s2 Ht|ts1 s1 s2 He]; cbn [fst snd]; [by left| |by right; left].
  destruct Ht as [r w f k tr s|r w B f k tr s]; [by left|]. right. right. eexists. split.
  - apply elem_of_app. right. apply list_elem_of_here.
  - apply elem_of_app. right. by apply list_elem_of_singleton.
Qed.

(** A request served alone is one of the schedules. *)
Lemma run_schedule (h : Handler S) (env : relation S) (r : Request) (m : hio S unit) (w : ResponseWriter) (s : S)
    (tr : list (S * S)) (ts1 ts2 : list (thread S)) :
  ∃ tr', rtc (pool_step h env) ((ts1 ++ mkThread r w m tr :: ts2)%list, s)
    ((ts1 ++ mkThread r (m (w, s)).2.1 (HDone tt) tr' :: ts2)%list, (m (w, s)).2.2).
Proof.
  revert w s tr. induction m as [[]|f m IH|B f k IH]; intros w s tr; [by exists tr|..].
  - destruct (IH (f w) s tr) as [tr' Hrun]. exists tr'. eapply rtc_l; [eapply pool_run, thread_write|]. apply Hrun.
  - destruct (IH (f s).1 w (f s).2 (tr ++ [(s, (f s).2)])%list) as [tr' Hrun]. exists tr'.
    eapply rtc_l; [eapply pool_run, thread_state|]. cbn. destruct (f s) as [b s']. apply Hrun.
Qed.

Lemma serve_schedule (h : Handler S) (env : relation S) (r : Request) (s : S) :
  ∃ t, th_request t = r ∧ ended t ∧ finish (th_writer t) = (run_handler h r s).1
    ∧ rtc (pool_step h env) ([], s) ([t], (run_handler h r s).2).
Proof.
  destruct (run_schedule h env r (h r) newResponseWriter s [] [] []) as [tr Hrun].
  exists (mkThread r (h r (newResponseWriter, s)).2.1 (HDone tt) tr). unfold run_handler.
  destruct (h r (newResponseWriter, s)) as [u [w' s']] eqn:E. cbn [fst snd] in *.
  split; [done|]. split; [done|]. split; [done|].
  eapply rtc_l; [apply (pool_accept h env r)|]. apply Hrun.
Qed.

(** What the scheduler does is a schedule. *)
Lemma advance_step (t : thread S) (s : S) :
  advance t s = (t, s) ∨ thread_step t s (advance t s).1 (advance t s).2.
Proof.
  destruct t as [r w [a|f k|B f k] tr]; [by left|right; exact (thread_write r w f k tr s)|].
  right. exact (thread_state r w B f k tr s).
Qed.

Lemma interleave_schedule (h : Handler S) (env : relation S) (picks : list nat) (c : list (thread S) * S) :
  rtc (pool_step h env) c (interleave picks c).
Proof.
  revert c. induction picks as [|i picks IH]; intros [ts s]; [done|]. cbn [interleave fst snd].
  destruct (ts !! i) as [t|] eqn:Ei; [|apply IH]. etransitivity; [|apply IH].
  destruct (advance_step t s) as [-> |Hstep].
  - by rewrite list_insert_id.
  - apply rtc_once. rewrite <- (take_drop_middle ts i t Ei) at 1.
    rewrite insert_take_drop by (by eapply lookup_lt_Some). by apply pool_run.
Qed.

Lemma accept_schedule (h : Handler S) (env : relation S) (rs : list Request) (s : S) :
  rtc (pool_step h env) ([], s) (accept h rs s).
Proof.
  induction rs as [|r rs IH] using rev_ind; [done|]. eapply rtc_r; [exact IH|].
  unfold accept. rewrite map_app. apply pool_accept.
Qed.

(** *** Termination *)

(** Programs are finite trees, so no schedule goes on for ever. *)
Definition next_prog {A} (m m' : hio S A) : Prop :=
  match m with
  | HDone _ => False
  | HWriter _ k => m' = k
  | HStep _ k => ∃ b, m' = k b
  end.

Lemma next_prog_sn {A} (m : hio S A) : sn next_prog m.
Proof.
  induction m as [a|f k IH|B f k IH]; constructor; intros y Hy; cbn in Hy; [done|by subst|].
  destruct Hy as [b ->]. apply IH.
Qed.

Inductive next_pool : list (hio S unit) → list (hio S unit) → Prop :=
| next_here m m' ms : next_prog m m' → next_pool (m :: ms) (m' :: ms)
| next_later m ms ms' : next_pool ms ms' → next_pool (m :: ms) (m :: ms').

Lemma next_pool_sn (ms : list (hio S unit)) : sn next_pool ms.
Proof.
  induction ms as [|m ms IHms]; [by constructor; inversion 1|].
  pose proof (next_prog_sn m) as Hm. revert ms IHms.
  induction Hm as [m _ IHm]. intros ms Hms. induction Hms as [ms Hms IHms].
  constructor. intros y Hy. inversion Hy; subst; [|by apply IHms].
  apply IHm; [done|]. by constructor.
Qed.

Lemma next_pool_app (ms1 ms2 ms2' : list (hio S unit)) :
  next_pool ms2 ms2' → next_pool (ms1 ++ ms2) (ms1 ++ ms2').
Proof. intros H. induction ms1; [done|]. by constructor. Qed.

Lemma drain_step_next (x y : list (thread S) * S) :
  drain_step x y → next_pool (map th_prog x.1) (map th_prog y.1).
Proof.
  intros [ts1 t t' ts2 s s' Ht]. cbn [fst]. rewrite !map_app. apply next_pool_app. cbn.
  constructor. destruct Ht; cbn; [done|by eexists].
Qed.

Lemma drain_sn (x : list (thread S) * S) : sn drain_step x.
Proof.
  pose proof (next_pool_sn (map th_prog x.1)) as H. remember (map th_prog x.1) as ms eqn:E.
  revert x E. induction H as [ms _ IH]. intros x ->. constructor. intros y Hy.
  apply (IH (map th_prog y.1)); [by apply drain_step_next|done].
Qed.

(** Draining is scheduling, and loses no thread. *)
Lemma drains_schedule (h : Handler S) (env : relation S) (x y : list (thread S) * S) :
  rtc drain_step x y → rtc (pool_step h env) x y ∧ List.length y.1 = List.length x.1.
Proof.
  induction 1 as [|x y z Hstep _ [IH Hlen]]; [done|]. destruct Hstep as [ts1 t t' ts2 s s' Ht]. cbn [fst] in *.
  split; [eapply rtc_l; [by eapply pool_run|exact IH]|]. by rewrite Hlen, !length_app.
Qed.

(** A pool stops only when every thread has ended: no thread waits for another. *)
Lemma drain_progress (ts : list (thread S)) (s : S) :
  (∀ y, ¬ drain_step (ts, s) y) → Forall ended ts.
Proof.
  intros Hstuck. apply Forall_forall. intros t Ht. apply list_elem_of_In, list_elem_of_split in Ht as (ts1 & ts2 & ->).
  destruct t as [r w [[]|f k|B f k] tr]; [done|exfalso..].
  - by eapply Hstuck, drain_run, thread_write.
  - by eapply Hstuck, drain_run, thread_state.
Qed.
End wp.
