(* ===== verification/RateLimit.v ===== *)
(** * Rate limiting ([shared/go/middleware/ratelimit.go])

    The table of per-key windows, the critical section of the middleware
    ([take]: everything between [mu.Lock] and [mu.Unlock]), the middleware around
    it, [cleanup], and the life cycle of the background goroutine.

    A lock hold is one atomic step.  Sequences of such steps and the quota are in
    RateQuota.v. *)

From S2P Require Import Prelude GoNum GoTime Json Http Respond.

Record RateLimitConfig := mkRLConfig {
  RequestsPerWindow : Z;
  Window : Z;
  KeyFunc : option (Request → string);
  CleanupInterval : Z;
  MaxEntries : Z
}.

Definition DefaultRateLimitConfig : RateLimitConfig :=
  mkRLConfig 100 Minute None (5 * Minute) 100000.

Record rateLimitEntry := mkEntry { count : Z; windowAt : Time }.

Record RateLimiter := mkLimiter {
  rl_entries : gmap string rateLimitEntry;
  rl_cfg : RateLimitConfig
}.

(** The defaults [NewRateLimiter] fills in. *)
Definition normalize_config (cfg : RateLimitConfig) : RateLimitConfig :=
  mkRLConfig
    (if RequestsPerWindow cfg <=? 0 then 100 else RequestsPerWindow cfg)
    (if Window cfg <=? 0 then Minute else Window cfg)
    (match KeyFunc cfg with None => Some (λ r, RemoteAddr r) | Some f => Some f end)
    (if CleanupInterval cfg <=? 0 then 5 * Minute else CleanupInterval cfg)
    (if MaxEntries cfg <=? 0 then 100000 else MaxEntries cfg).

Definition NewRateLimiter (cfg : RateLimitConfig) : RateLimiter :=
  mkLimiter ∅ (normalize_config cfg).

Definition rate_key (cfg : RateLimitConfig) (r : Request) : string :=
  match KeyFunc cfg with Some f => f r | None => RemoteAddr r end.

(** [cleanup] at time [now]: [rl.cfg.Window*2] is 64-bit arithmetic. *)
Definition cleanup (rl : RateLimiter) (now : Time) : RateLimiter :=
  mkLimiter
    (filter (λ kv, Sub now (windowAt kv.2) ≤ int64_wrap (Window (rl_cfg rl) * 2)) (rl_entries rl))
    (rl_cfg rl).

(** What the critical section decides. *)
Inductive decision :=
| TableFull
| FreshWindow
| Counted (c : Z) (windowStart : Time).

(** The critical section of [Middleware]. *)
Definition take (rl : RateLimiter) (key : string) (now : Time) : decision * RateLimiter :=
  let cfg := rl_cfg rl in
  let start_window (known : bool) :=
    if negb known && (MaxEntries cfg <=? Z.of_nat (size (rl_entries rl))) then (TableFull, rl)
    else (FreshWindow, mkLimiter (<[key := mkEntry 1 now]> (rl_entries rl)) cfg) in
  match rl_entries rl !! key with
  | None => start_window false
  | Some entry =>
      if Window cfg <? Sub now (windowAt entry) then start_window true
      else
        let entry' := mkEntry (int64_wrap (count entry + 1)) (windowAt entry) in
        (Counted (count entry') (windowAt entry'),
         mkLimiter (<[key := entry']> (rl_entries rl)) cfg)
  end.

Definition allowed (cfg : RateLimitConfig) (d : decision) : bool :=
  match d with
  | TableFull => false
  | FreshWindow => true
  | Counted c _ => c <=? RequestsPerWindow cfg
  end.

(** Where the application keeps the limiter. *)
Class HasLimiter (S : Type) := {
  get_limiter : S → RateLimiter;
  put_limiter : RateLimiter → S → S
}.

(** What the middleware relies on: the limiter is a component of the state that
    reading the clock does not touch. *)
Class LimiterLaws (S : Type) `{HasClock S} `{HasLimiter S} := {
  get_put_limiter rl s : get_limiter (put_limiter rl s) = rl;
  clock_keeps_limiter s : get_limiter (time_Now s).2 = get_limiter s
}.

Definition setRateLimitHeaders {S} (limit remaining window : Z) : hio S unit :=
  Header_Set "X-RateLimit-Limit" (Itoa limit) ;!
  Header_Set "X-RateLimit-Remaining" (Itoa remaining) ;!
  Header_Set "X-RateLimit-Reset" (Itoa (int_Seconds window)).

Definition remaining_after (cfg : RateLimitConfig) (c : Z) : Z :=
  Z.max 0 (int64_wrap (RequestsPerWindow cfg - c)).

(** Seconds until the window of a counted request is over. *)
Definition retry_after (cfg : RateLimitConfig) (now windowStart : Time) : Z :=
  let retryAfter := int64_wrap (Window cfg - Sub now windowStart) in
  int_Seconds (Z.max 0 retryAfter) + 1.

(** [RateLimiter.Middleware]. *)
Definition limit_requests {S} `{HasClock S} `{HasLimiter S} : Middleware S := λ next r,
  let! now := on_state time_Now in
  let! (cfg, d) := on_state (prim (λ s,
    let rl := get_limiter s in
    let '(d, rl') := take rl (rate_key (rl_cfg rl) r) now in
    ((rl_cfg rl, d), put_limiter rl' s))) in
  match d with
  | TableFull =>
      setRateLimitHeaders (RequestsPerWindow cfg) 0 (Window cfg) ;!
      Header_Set "Retry-After" "60" ;!
      writeAuthError 429 "rate limit exceeded"
  | FreshWindow =>
      setRateLimitHeaders (RequestsPerWindow cfg) (RequestsPerWindow cfg - 1) (Window cfg) ;!
      next r
  | Counted c windowStart =>
      setRateLimitHeaders (RequestsPerWindow cfg) (remaining_after cfg c) (Window cfg) ;!
      if negb (c <=? RequestsPerWindow cfg) then
        Header_Set "Retry-After" (Itoa (retry_after cfg now windowStart)) ;!
        writeAuthError 429 "rate limit exceeded"
      else next r
  end.

(** [RateLimit(cfg)]: a limiter of its own and its middleware. *)
Definition RateLimit {S} `{HasClock S} `{HasLimiter S} (cfg : RateLimitConfig) : RateLimiter * Middleware S :=
  (NewRateLimiter cfg, limit_requests).

(** ** The life cycle of the limiter and its cleanup goroutine *)

Record limiter_state := mkLState {
  ls_limiter : RateLimiter;
  ls_running : bool;     (** the goroutine has not returned *)
  ls_done : bool         (** the channel [done] is closed *)
}.

Definition start_limiter (cfg : RateLimitConfig) : limiter_state :=
  mkLState (NewRateLimiter cfg) true false.

Inductive rl_step : limiter_state → limiter_state → Prop :=
| step_request rl running closed key now :
    rl_step (mkLState rl running closed) (mkLState (take rl key now).2 running closed)
| step_tick rl closed now :
    rl_step (mkLState rl true closed) (mkLState (cleanup rl now) true closed)
| step_return rl :
    rl_step (mkLState rl true true) (mkLState rl false true)
| step_Stop rl running :
    rl_step (mkLState rl running false) (mkLState rl running true).

(** Closing a closed channel panics. *)
Definition Stop (ls : limiter_state) : option limiter_state :=
  if ls_done ls then None else Some (mkLState (ls_limiter ls) (ls_running ls) true).

Inductive rl_reachable (cfg : RateLimitConfig) : limiter_state → Prop :=
| reach_start : rl_reachable cfg (start_limiter cfg)
| reach_step ls ls' : rl_reachable cfg ls → rl_step ls ls' → rl_reachable cfg ls'.

(** ** Times *)

(** The monotonic reading of a time. *)
Definition reading (t : Time) : Z := default (wall t) (mono t).

(** What [time.Now] returns: a monotonic reading counted from process start. *)
Definition clock_time (t : Time) : Prop := ∃ a, mono t = Some a ∧ 0 ≤ a ≤ int64_max.

Definition clock_at (a : Z) : Time := mkTime a (Some a) 0.

Lemma clock_at_ok (a : Z) : 0 ≤ a ≤ int64_max → clock_time (clock_at a) ∧ reading (clock_at a) = a.
Proof. intros H. split; [by exists a|done]. Qed.

(** ** Lemmas: single operations *)

Lemma Sub_clock (t u : Time) :
  clock_time t → clock_time u → Sub t u = reading t - reading u.
Proof.
  intros (a & Ha & Hra) (b & Hb & Hrb). unfold Sub, reading. rewrite Ha, Hb. simpl.
  apply int64_sat_id. unfold int64_min, int64_max in *. lia.
Qed.

Lemma take_cfg (rl : RateLimiter) (key : string) (now : Time) : rl_cfg (take rl key now).2 = rl_cfg rl.
Proof. unfold take. repeat case_match; done. Qed.

Lemma take_other (rl : RateLimiter) (key k : string) (now : Time) :
  key ≠ k → rl_entries (take rl key now).2 !! k = rl_entries rl !! k.
Proof.
  intros H. unfold take. repeat case_match; cbn; try done; by rewrite lookup_insert_ne.
Qed.

(** The three outcomes of the critical section for the key it serves. *)
Lemma take_cases (rl : RateLimiter) (key : string) (now : Time) :
  let old := rl_entries rl !! key in
  (old = None ∧ MaxEntries (rl_cfg rl) ≤ Z.of_nat (size (rl_entries rl))
     ∧ take rl key now = (TableFull, rl))
  ∨ ((old = None ∧ Z.of_nat (size (rl_entries rl)) < MaxEntries (rl_cfg rl)
      ∨ ∃ e, old = Some e ∧ Window (rl_cfg rl) < Sub now (windowAt e))
     ∧ take rl key now =
         (FreshWindow, mkLimiter (<[key := mkEntry 1 now]> (rl_entries rl)) (rl_cfg rl)))
  ∨ (∃ e, old = Some e ∧ Sub now (windowAt e) ≤ Window (rl_cfg rl)
     ∧ take rl key now =
         (Counted (int64_wrap (count e + 1)) (windowAt e),
          mkLimiter (<[key := mkEntry (int64_wrap (count e + 1)) (windowAt e)]> (rl_entries rl)) (rl_cfg rl))).
Proof.
  cbv zeta. unfold take. destruct (rl_entries rl !! key) as [e|] eqn:E.
  - right. destruct (Window (rl_cfg rl) <? Sub now (windowAt e)) eqn:W; bool_to_prop.
    + left. split; [right; by exists e|done].
    + right. by exists e.
  - cbn [negb andb]. destruct (_ <=? _) eqn:F; bool_to_prop.
    + left. done.
    + right. left. split; [left; done|done].
Qed.

Lemma lookup_cleanup (rl : RateLimiter) (now : Time) (k : string) :
  rl_entries (cleanup rl now) !! k =
    match rl_entries rl !! k with
    | Some e => if decide (Sub now (windowAt e) ≤ int64_wrap (Window (rl_cfg rl) * 2)) then Some e else None
    | None => None
    end.
Proof.
  unfold cleanup. cbn [rl_entries]. rewrite map_lookup_filter.
  destruct (rl_entries rl !! k) as [e|]; [|done]. simpl.
  case_decide; case_guard; done.
Qed.

Lemma cleanup_size (rl : RateLimiter) (now : Time) :
  (size (rl_entries (cleanup rl now)) ≤ size (rl_entries rl))%nat.
Proof. apply map_subseteq_size, map_filter_subseteq. Qed.

Lemma insert_size_le (m : gmap string rateLimitEntry) (k : string) (e : rateLimitEntry) :
  (size (<[k := e]> m) ≤ S (size m))%nat.
Proof. rewrite map_size_insert. destruct (m !! k); simpl; lia. Qed.

(** The table never outgrows its cap. *)
Definition within_cap (rl : RateLimiter) : Prop :=
  Z.of_nat (size (rl_entries rl)) ≤ MaxEntries (rl_cfg rl).

Lemma take_within_cap (rl : RateLimiter) (key : string) (now : Time) :
  within_cap rl → within_cap (take rl key now).2.
Proof.
  unfold within_cap. intros H.
  destruct (take_cases rl key now) as [(_ & _ & ->)|[[Hold ->]|(e & He & _ & ->)]];
    cbn [snd rl_entries rl_cfg]; [done|rewrite map_size_insert..].
  - destruct Hold as [[-> Hlt]|(e & -> & _)]; simpl; lia.
  - rewrite He. simpl. lia.
Qed.

Lemma normalize_positive (cfg : RateLimitConfig) :
  0 < RequestsPerWindow (normalize_config cfg) ∧ 0 < Window (normalize_config cfg)
  ∧ 0 < MaxEntries (normalize_config cfg) ∧ 0 < CleanupInterval (normalize_config cfg).
Proof.
  unfold normalize_config, Minute, Second. cbn.
  repeat match goal with |- context [?a <=? 0] => destruct (Z.leb_spec a 0) end; lia.
Qed.

(** Configurations whose [Window*2] does not overflow (windows up to 146
    years), as every normalised configuration with such a window is. *)
Definition cfg_ok (cfg : RateLimitConfig) : Prop :=
  0 < RequestsPerWindow cfg ∧ 0 < Window cfg < 2 ^ 62 ∧ 0 < MaxEntries cfg.

Lemma normalized_ok (cfg : RateLimitConfig) :
  Window (normalize_config cfg) < 2 ^ 62 → cfg_ok (normalize_config cfg).
Proof. intros H. pose proof (normalize_positive cfg). unfold cfg_ok. lia. Qed.

Lemma window_doubled (cfg : RateLimitConfig) : cfg_ok cfg → int64_wrap (Window cfg * 2) = Window cfg * 2.
Proof. intros (_ & Hw & _). apply int64_wrap_id. unfold int64_min, int64_max. lia. Qed.

(** ** Lemmas: the middleware *)

Lemma int_Seconds_after (x : Z) :
  0 ≤ x < 2 ^ 23 * Second → x < (int_Seconds x + 1) * Second.
Proof. intros H. rewrite int_Seconds_exact by done. unfold Second in *. div_lia. Qed.

(** The rate-limit headers of a response. *)
Definition limit_headers (cfg : RateLimitConfig) (remaining : Z) (h : Header) : Header :=
  header_Set (header_Set (header_Set h "X-RateLimit-Limit" (Itoa (RequestsPerWindow cfg)))
    "X-RateLimit-Remaining" (Itoa remaining)) "X-RateLimit-Reset" (Itoa (int_Seconds (Window cfg))).

Definition remaining_of (cfg : RateLimitConfig) (d : decision) : Z :=
  match d with
  | TableFull => 0
  | FreshWindow => RequestsPerWindow cfg - 1
  | Counted c _ => remaining_after cfg c
  end.

(** Seconds in [Retry-After]. *)
Definition retry_of (cfg : RateLimitConfig) (now : Time) (d : decision) : Z :=
  match d with
  | Counted _ windowStart => retry_after cfg now windowStart
  | _ => 60
  end.

(** The middleware as one equation. *)
Lemma limit_requests_eq {S} `{HasClock S} `{HasLimiter S} (next : Handler S) (r : Request)
    (w : ResponseWriter) (s : S) :
  let '(now, s1) := time_Now s in
  let rl := get_limiter s1 in
  let cfg := rl_cfg rl in
  let d := (take rl (rate_key cfg r) now).1 in
  let s2 := put_limiter (take rl (rate_key cfg r) now).2 s1 in
  limit_requests next r (w, s) =
    if allowed cfg d
    then next r (rw_update_header (limit_headers cfg (remaining_of cfg d)) w, s2)
    else writeAuthError 429 "rate limit exceeded"
           (rw_update_header (λ h, header_Set (limit_headers cfg (remaining_of cfg d) h)
              "Retry-After" (Itoa (retry_of cfg now d))) w, s2).
Proof.
  unfold limit_requests. rewrite run_hseq, run_on_state. destruct (time_Now s) as [now s1]. cbv zeta.
  rewrite run_hseq, run_on_state, run_prim.
  destruct (take (get_limiter s1) _ now) as [d rl'] eqn:Et. cbn [fst snd].
  destruct d as [| |c ws]; cbn [allowed remaining_of retry_of].
  - reflexivity.
  - reflexivity.
  - destruct (c <=? RequestsPerWindow (rl_cfg (get_limiter s1))); reflexivity.
Qed.

(** A counted rejection: the count exceeds the limit, inside the window. *)
Lemma take_rejected (rl : RateLimiter) (key : string) (now : Time) (c : Z) (ws : Time) :
  (take rl key now).1 = Counted c ws →
  ∃ e, rl_entries rl !! key = Some e ∧ windowAt e = ws ∧ c = int64_wrap (count e + 1)
       ∧ Sub now ws ≤ Window (rl_cfg rl)
       ∧ rl_entries (take rl key now).2 !! key = Some (mkEntry c ws).
Proof.
  destruct (take_cases rl key now) as [(_ & _ & ->)|[[_ ->]|(e & He & Hs & ->)]]; try done.
  cbn [fst snd rl_entries]. intros [= <- <-]. exists e. rewrite lookup_insert_eq. done.
Qed.

(** The entry of a key whose window is running. *)
Definition running (rl : RateLimiter) (key : string) (now : Time) : option rateLimitEntry :=
  match rl_entries rl !! key with
  | Some e => if Window (rl_cfg rl) <? Sub now (windowAt e) then None else Some e
  | None => None
  end.

(** The three headers. *)
Definition limit_told (cfg : RateLimitConfig) (remaining : Z) (h : Header) : Prop :=
  header_Get h "X-RateLimit-Limit" = Itoa (RequestsPerWindow cfg)
  ∧ header_Get h "X-RateLimit-Remaining" = Itoa remaining
  ∧ header_Get h "X-RateLimit-Reset" = Itoa (int_Seconds (Window cfg)).

(** The next handler answers, in the state [s']. *)
Definition admits_request {S} `{HasClock S} `{HasLimiter S} (next : Handler S) (r : Request) (ws : ResponseWriter * S)
    (remaining : Z) (cfg : RateLimitConfig) (s' : S) : Prop :=
  ∃ w', unsent w' ∧ limit_told cfg remaining (rw_header w') ∧ limit_requests next r ws = next r (w', s').

(** 429, in the state [s']. *)
Definition refuses_request {S} `{HasClock S} `{HasLimiter S} (next : Handler S) (r : Request) (ws : ResponseWriter * S)
    (remaining retry : Z) (cfg : RateLimitConfig) (s' : S) : Prop :=
  ∃ w', limit_requests next r ws = (tt, (w', s'))
    ∧ resp_status (finish w') = 429
    ∧ resp_body (finish w') = encode_line (error_json "rate limit exceeded")
    ∧ header_Get (resp_header (finish w')) "Retry-After" = Itoa retry
    ∧ limit_told cfg remaining (resp_header (finish w')).

Lemma limit_headers_told (cfg : RateLimitConfig) (remaining : Z) (h : Header) :
  limit_told cfg remaining (limit_headers cfg remaining h).
Proof. unfold limit_told, limit_headers. by header_simpl. Qed.

Lemma admitted_request {S} `{HasClock S} `{HasLimiter S} (next : Handler S) (r : Request) (w : ResponseWriter) (s s' : S)
    (remaining : Z) (cfg : RateLimitConfig) :
  unsent w → limit_requests next r (w, s) = next r (rw_update_header (limit_headers cfg remaining) w, s') →
  admits_request next r (w, s) remaining cfg s'.
Proof.
  intros Hw Heq. eexists. split; [|split; [|exact Heq]]; [by apply unsent_update|]. apply limit_headers_told.
Qed.

Lemma refused_request {S} `{HasClock S} `{HasLimiter S} (next : Handler S) (r : Request) (w : ResponseWriter) (s s' : S)
    (remaining retry : Z) (cfg : RateLimitConfig) :
  unsent w →
  limit_requests next r (w, s) =
    writeAuthError 429 "rate limit exceeded"
      (rw_update_header (λ h, header_Set (limit_headers cfg remaining h) "Retry-After" (Itoa retry)) w, s') →
  refuses_request next r (w, s) remaining retry cfg s'.
Proof.
  intros Hw Heq. rewrite writeAuthError_eq in Heq by (by apply unsent_update). eexists. split; [exact Heq|].
  rewrite finish_json_written. cbn [resp_status resp_header resp_body rw_header rw_update_header].
  split; [done|]. split; [done|]. split; [by header_simpl|]. unfold limit_told, limit_headers. by header_simpl.
Qed.

(** ** Properties *)

(** Memory bound: in every reachable state of the limiter, whatever the
    clock readings, at most [MaxEntries] keys are tracked. *)
Theorem entries_capped (cfg : RateLimitConfig) (ls : limiter_state) :
  rl_reachable cfg ls →
  Z.of_nat (size (rl_entries (ls_limiter ls))) ≤ MaxEntries (normalize_config cfg).
Proof.
  intros Hr.
  assert (Hinv : within_cap (ls_limiter ls) ∧ rl_cfg (ls_limiter ls) = normalize_config cfg).
  { induction Hr as [|ls ls' _ [IH IHc] Hstep].
    - unfold within_cap. cbn [start_limiter ls_limiter NewRateLimiter rl_entries rl_cfg].
      rewrite map_size_empty. pose proof (normalize_positive cfg). split; [lia|done].
    - destruct Hstep as [rl running closed key now|rl closed now|rl|rl running]; cbn [ls_limiter] in *;
        try done.
      + split; [by apply take_within_cap|by rewrite take_cfg].
      + split; [|done]. unfold within_cap in *. pose proof (cleanup_size rl now). cbn [cleanup rl_cfg]. lia. }
  destruct Hinv as [Hcap Hc]. unfold within_cap in Hcap. by rewrite Hc in Hcap.
Qed.

(** C32. [Retry-After] is honest: a client rejected by its counter that waits the
    number of seconds it was told is admitted in a fresh window. *)
Theorem retry_after_suffices (rl : RateLimiter) (k : string) (now later : Time) (c : Z) (ws : Time) :
  cfg_ok (rl_cfg rl) → Window (rl_cfg rl) < 2 ^ 23 * Second →
  clock_time now → clock_time later → clock_time ws → reading ws ≤ reading now →
  (take rl k now).1 = Counted c ws →
  reading now + retry_after (rl_cfg rl) now ws * Second ≤ reading later →
  1 ≤ retry_after (rl_cfg rl) now ws
  ∧ (take (take rl k now).2 k later).1 = FreshWindow.
Proof.
  intros (_ & HW & _) Hsec Hn Hl Hws Hle Ht Hlater.
  apply take_rejected in Ht as (e & _ & _ & _ & Hs & He').
  unfold retry_after in *. rewrite Sub_clock in * by done.
  set (x := Window (rl_cfg rl) - (reading now - reading ws)) in *.
  rewrite int64_wrap_id in * by (unfold int64_min, int64_max; lia).
  rewrite Z.max_r in * by lia.
  pose proof (int_Seconds_after x ltac:(lia)) as Hx.
  pose proof (int_Seconds_nonneg_range x ltac:(lia)) as Hr. split; [lia|].
  destruct (take_cases (take rl k now).2 k later) as [(E & _)|[[_ ->]|(y & E & Hs2 & _)]];
    [congruence|done|].
  rewrite He' in E. injection E as <-. cbn [windowAt] in Hs2.
  rewrite take_cfg, Sub_clock in Hs2 by done. lia.
Qed.

(** C31. The middleware, from the table before it to the response and the table after.
    A key whose window is running has one more request counted in it, and is admitted
    when the count is within the limit; a key without one opens a window with a count
    of one and is admitted; a new key that finds the table full is refused, and
    nothing is counted.  No other key's count changes.  An admitted request reaches
    the next handler with nothing sent; any other gets a 429 with [Retry-After], and
    the handler is not run.  The three [X-RateLimit-*] headers are always set. *)
Theorem limit_requests_spec {S} `{LimiterLaws S} (next : Handler S) (r : Request)
    (w : ResponseWriter) (s : S) :
  unsent w →
  let '(now, s1) := time_Now s in
  let rl := get_limiter s in
  let cfg := rl_cfg rl in
  let key := rate_key cfg r in
  let counting n start := put_limiter (mkLimiter (<[key := mkEntry n start]> (rl_entries rl)) cfg) s1 in
  match running rl key now with
  | Some e =>
      let n := int64_wrap (count e + 1) in
      if decide (n ≤ RequestsPerWindow cfg)
      then admits_request next r (w, s) (remaining_after cfg n) cfg (counting n (windowAt e))
      else refuses_request next r (w, s) (remaining_after cfg n) (retry_after cfg now (windowAt e)) cfg
             (counting n (windowAt e))
  | None =>
      if decide (rl_entries rl !! key = None ∧ MaxEntries cfg ≤ Z.of_nat (size (rl_entries rl)))
      then refuses_request next r (w, s) 0 60 cfg (put_limiter rl s1)
      else admits_request next r (w, s) (RequestsPerWindow cfg - 1) cfg (counting 1 now)
  end.
Proof.
  intros Hw. pose proof (limit_requests_eq next r w s) as Heq.
  pose proof (clock_keeps_limiter s) as Hk. destruct (time_Now s) as [now s1]. cbn [snd] in Hk.
  rewrite Hk in Heq. cbv zeta in *. unfold running.
  set (rl := get_limiter s) in *. set (key := rate_key (rl_cfg rl) r) in *.
  destruct (take_cases rl key now) as [(Hno & Hfull & Ht)|[[Hold Ht]|(e & He & Hrun & Ht)]];
    rewrite Ht in Heq; cbn [fst snd allowed remaining_of retry_of] in Heq.
  - rewrite Hno. rewrite decide_True by done. by apply refused_request.
  - destruct Hold as [[Hno Hroom]|(e & He & Hover)].
    + rewrite Hno. rewrite decide_False by lia. by apply admitted_request.
    + rewrite He, (proj2 (Z.ltb_lt _ _) Hover), decide_False by naive_solver. by apply admitted_request.
  - rewrite He, (proj2 (Z.ltb_ge _ _) Hrun). case_decide as Hn.
    + rewrite (proj2 (Z.leb_le _ _) Hn) in Heq. by apply admitted_request.
    + rewrite (proj2 (Z.leb_gt _ _)) in Heq by lia. by apply refused_request.
Qed.

(** C34. Shutdown: [Stop] can be called once, lets the cleanup goroutine return,
    and after it has returned no step purges entries or restarts it. *)
Theorem Stop_ends_cleanup (ls : limiter_state) :
  ls_done ls = false →
  ∃ ls', Stop ls = Some ls' ∧ rl_step ls ls' ∧ Stop ls' = None
    ∧ (ls_running ls' = true → rl_step ls' (mkLState (ls_limiter ls') false true))
    ∧ ∀ l1 l2, ls_running l1 = false → rl_step l1 l2 →
        ls_running l2 = false ∧
        ∀ k, is_Some (rl_entries (ls_limiter l1) !! k) → is_Some (rl_entries (ls_limiter l2) !! k).
Proof.
  destruct ls as [rl running closed]. cbn. intros ->. eexists. split; [reflexivity|].
  split; [constructor|]. split; [done|]. split; [cbn; intros ->; constructor|].
  intros l1 l2 Hr Hs. destruct Hs as [rl1 running1 closed1 key now| | |]; cbn in *; try done.
  split; [done|]. intros k Hk. destruct (decide (key = k)) as [->|Hne]; [|by rewrite take_other].
  destruct (take_cases rl1 k now) as [(_ & _ & ->)|[[_ ->]|(e & _ & _ & ->)]]; cbn;
    [done|rewrite lookup_insert_eq; eauto..].
Qed.

(** ** Witnesses *)

(** Two requests per microsecond. *)
Definition small_config : RateLimitConfig := mkRLConfig 2 1000 None 0 0.

Lemma entries_capped_witness :
  Z.of_nat (size (rl_entries (take (NewRateLimiter (mkRLConfig 2 1000 None 0 1)) "a" (clock_at 0)).2)) ≤ 1.
Proof.
  apply (entries_capped (mkRLConfig 2 1000 None 0 1)
    (mkLState (take (NewRateLimiter (mkRLConfig 2 1000 None 0 1)) "a" (clock_at 0)).2 true false)).
  apply (reach_step _ (start_limiter (mkRLConfig 2 1000 None 0 1))); constructor.
Defined.

(** Three requests at the same key: the last is rejected. *)
Definition full_limiter : RateLimiter :=
  (take (take (take (NewRateLimiter small_config) "a" (clock_at 0)).2 "b" (clock_at 5)).2 "a" (clock_at 10)).2.

Lemma retry_after_suffices_witness :
  1 ≤ retry_after (rl_cfg full_limiter) (clock_at 20) (clock_at 0)
  ∧ (take (take full_limiter "a" (clock_at 20)).2 "a" (clock_at (20 + Second))).1 = FreshWindow.
Proof.
  apply (retry_after_suffices full_limiter "a" (clock_at 20) (clock_at (20 + Second)) 3 (clock_at 0)).
  - apply normalized_ok. by vm_compute.
  - by vm_compute.
  - apply clock_at_ok. unfold int64_max. lia.
  - apply clock_at_ok. unfold int64_max, Second. lia.
  - apply clock_at_ok. unfold int64_max. lia.
  - by vm_compute.
  - by vm_compute.
  - by vm_compute.
Defined.

(** A limiter and a stopped clock. *)
#[local] Instance pair_clock : HasClock (RateLimiter * Z) := λ s, (clock_at s.2, s).
#[local] Instance pair_limiter : HasLimiter (RateLimiter * Z) :=
  { get_limiter := fst; put_limiter rl s := (rl, s.2) }.
#[local] Instance pair_laws : LimiterLaws (RateLimiter * Z).
Proof. by split. Defined.

Definition plain_request : Request := mkRequest "GET" "/" "" ∅ (mkBody "" None) 0 "a" [].

(** The third request of a key that may make two in the window. *)
Lemma limit_requests_spec_witness :
  refuses_request (λ _, WriteHeader 204) plain_request (newResponseWriter, (full_limiter, 20)) 0 1
    (rl_cfg full_limiter)
    (mkLimiter (<["a" := mkEntry 3 (clock_at 0)]> (rl_entries full_limiter)) (rl_cfg full_limiter), 20).
Proof.
  exact (limit_requests_spec (λ _, WriteHeader 204) plain_request newResponseWriter (full_limiter, 20) unsent_new).
Defined.

Lemma Stop_ends_cleanup_witness :
  ∃ ls', Stop (start_limiter small_config) = Some ls' ∧ Stop ls' = None.
Proof.
  destruct (Stop_ends_cleanup (start_limiter small_config) eq_refl) as (ls' & H1 & _ & H2 & _).
  exists ls'. by split.
Defined.
