(* ===== verification/RateQuota.v ===== *)
(** * The quota of the rate limiter

    A lock hold is one atomic step, so an execution of concurrent requests and
    cleanup ticks is a sequence of events; [run] executes such a sequence and logs
    the decisions.  The clock is read before the lock is taken: [ordered_from] are
    the sequences whose readings never decrease, [late_from D] those whose readings
    are up to [D] behind the clock at the lock.  The quota of a key in an interval
    of one window is [2*N - 1] for the former and [3*N - 2] for the latter, and
    both are attained; rejections are deserved, and the clients do not affect each
    other while the table has room.  ServerLimit.v takes the quota to the server. *)

From Stdlib Require Import Sorting.Sorted.
From S2P Require Import Prelude GoNum GoTime Http Respond RateLimit.

(** ** Executions *)

Inductive rl_event :=
| EvRequest (key : string) (now : Time)
| EvTick (now : Time).

Record rl_record := mkRecord { rec_key : string; rec_at : Time; rec_ok : bool }.

Definition exec_event (rl : RateLimiter) (e : rl_event) : list rl_record * RateLimiter :=
  match e with
  | EvRequest key now =>
      let '(d, rl') := take rl key now in ([mkRecord key now (allowed (rl_cfg rl) d)], rl')
  | EvTick now => ([], cleanup rl now)
  end.

(** The log of a sequence of events, and the final limiter. *)
Fixpoint run (rl : RateLimiter) (evs : list rl_event) : list rl_record * RateLimiter :=
  match evs with
  | [] => ([], rl)
  | e :: evs' =>
      let '(log, rl') := exec_event rl e in
      let '(logs, rl'') := run rl' evs' in
      ((log ++ logs)%list, rl'')
  end.

Definition event_time (e : rl_event) : Time :=
  match e with EvRequest _ now => now | EvTick now => now end.

(** Readings never decrease along the events, from [last] on. *)
Fixpoint ordered_from (last : Z) (evs : list rl_event) : Prop :=
  match evs with
  | [] => True
  | e :: evs' =>
      clock_time (event_time e) ∧ last ≤ reading (event_time e)
      ∧ ordered_from (reading (event_time e)) evs'
  end.

(** The readings may be up to [D] behind the clock, which does not go back; [last]
    is the clock at the previous event. *)
Fixpoint late_from (D last : Z) (evs : list rl_event) : Prop :=
  match evs with
  | [] => True
  | e :: evs' =>
      clock_time (event_time e)
      ∧ ∃ clock, last ≤ clock ∧ clock - D ≤ reading (event_time e) ≤ clock ∧ late_from D clock evs'
  end.

(** The same, with the clock at the end. *)
Fixpoint late_until (D last : Z) (evs : list rl_event) (fin : Z) : Prop :=
  match evs with
  | [] => last ≤ fin
  | e :: evs' =>
      clock_time (event_time e)
      ∧ ∃ clock, last ≤ clock ∧ clock - D ≤ reading (event_time e) ≤ clock ∧ late_until D clock evs' fin
  end.

(** The reading of the latest event, [last] if there is none. *)
Fixpoint last_reading (last : Z) (evs : list rl_event) : Z :=
  match evs with
  | [] => last
  | e :: evs' => last_reading (reading (event_time e)) evs'
  end.

(** Requests of [k] admitted with a reading in [lo, hi]. *)
Definition in_interval (k : string) (lo hi : Z) (r : rl_record) : bool :=
  rec_ok r && String.eqb (rec_key r) k && (lo <=? reading (rec_at r)) && (reading (rec_at r) <=? hi).

Definition admitted (k : string) (lo hi : Z) (log : list rl_record) : Z :=
  Z.of_nat (List.length (List.filter (in_interval k lo hi) log)).

Definition for_key (k : string) (log : list rl_record) : list rl_record :=
  List.filter (λ r, String.eqb (rec_key r) k) log.

(** The requests of one key, without the ticks. *)
Definition only_key (k : string) (evs : list rl_event) : list rl_event :=
  List.filter (λ e, match e with EvRequest key _ => String.eqb key k | EvTick _ => false end) evs.

Definition has_room (rl : RateLimiter) : Prop :=
  Z.of_nat (size (rl_entries rl)) < MaxEntries (rl_cfg rl).

(** ** Lemmas: executions *)

Lemma exec_event_cfg (rl : RateLimiter) (e : rl_event) : rl_cfg (exec_event rl e).2 = rl_cfg rl.
Proof.
  destruct e as [key now|now]; [|done]. unfold exec_event.
  pose proof (take_cfg rl key now) as Hc. by destruct (take rl key now).
Qed.

Lemma exec_event_size (rl : RateLimiter) (e : rl_event) :
  (size (rl_entries (exec_event rl e).2) ≤ S (size (rl_entries rl)))%nat.
Proof.
  destruct e as [key now|now]; cbn [exec_event].
  - destruct (take_cases rl key now) as [(_ & _ & ->)|[[_ ->]|(e & _ & _ & ->)]]; cbn;
      [lia|apply insert_size_le..].
  - pose proof (cleanup_size rl now). cbn [snd]. lia.
Qed.


Lemma exec_event_log (rl : RateLimiter) (e : rl_event) : (List.length (exec_event rl e).1 ≤ 1)%nat.
Proof. destruct e as [key now|now]; cbn [exec_event]; [|cbn; lia]. destruct (take rl key now). cbn. lia. Qed.

(** A request is logged once. *)
Lemma run_log (rl : RateLimiter) (evs : list rl_event) : (List.length (run rl evs).1 ≤ List.length evs)%nat.
Proof.
  revert rl. induction evs as [|e evs IH]; intros rl; [done|]. cbn [run].
  pose proof (exec_event_log rl e) as He. destruct (exec_event rl e) as [log rl1].
  specialize (IH rl1). destruct (run rl1 evs) as [logs rl2]. cbn in *. rewrite length_app. lia.
Qed.

Lemma run_within_cap (rl : RateLimiter) (evs : list rl_event) : within_cap rl → within_cap (run rl evs).2.
Proof.
  revert rl. induction evs as [|e evs IH]; intros rl Hc; [done|]. cbn [run].
  assert (He : within_cap (exec_event rl e).2).
  { destruct e as [key now|now]; cbn [exec_event].
    - pose proof (take_within_cap rl key now Hc) as Ht. by destruct (take rl key now).
    - unfold within_cap in *. pose proof (cleanup_size rl now). cbn [snd]. cbn [cleanup rl_cfg]. lia. }
  destruct (exec_event rl e) as [log rl1]. specialize (IH rl1 He). by destruct (run rl1 evs).
Qed.

Lemma run_cfg (rl : RateLimiter) (evs : list rl_event) : rl_cfg (run rl evs).2 = rl_cfg rl.
Proof.
  revert rl. induction evs as [|e evs IH]; intros rl; [done|]. cbn [run].
  pose proof (exec_event_cfg rl e) as He. destruct (exec_event rl e) as [log rl1].
  specialize (IH rl1). destruct (run rl1 evs) as [logs rl2]. cbn in *. congruence.
Qed.

(** Induction over an ordered execution: [I n last log rl] holds after [n]
    events, the latest at [last], that left [log] and [rl]. *)
Lemma run_invariant (cfg : RateLimitConfig) (I : nat → Z → list rl_record → RateLimiter → Prop) :
  (∀ n last log rl e, I n last log rl → rl_cfg rl = cfg → clock_time (event_time e) →
     last ≤ reading (event_time e) →
     I (S n) (reading (event_time e)) (log ++ (exec_event rl e).1)%list (exec_event rl e).2) →
  ∀ evs n last log rl, rl_cfg rl = cfg → I n last log rl → ordered_from last evs →
    I (n + List.length evs)%nat (last_reading last evs) (log ++ (run rl evs).1)%list (run rl evs).2.
Proof.
  intros Hstep evs. induction evs as [|e evs IH]; intros n last log rl Hcfg HI Hord.
  { cbn. by rewrite Nat.add_0_r, app_nil_r. }
  destruct Hord as (Hct & Hle & Hord). cbn [run last_reading List.length].
  pose proof (Hstep n last log rl e HI Hcfg Hct Hle) as HI'.
  pose proof (exec_event_cfg rl e) as Hc. destruct (exec_event rl e) as [l1 rl1].
  cbn [fst snd] in *. specialize (IH _ _ _ rl1 ltac:(congruence) HI' Hord).
  destruct (run rl1 evs) as [l2 rl2]. cbn [fst snd] in *.
  rewrite app_assoc. by replace (n + S (List.length evs))%nat with (S n + List.length evs)%nat by lia.
Qed.

(** The same with readings up to [D] late: [last] is the clock. *)
Lemma run_late_invariant (D : Z) (cfg : RateLimitConfig) (I : nat → Z → list rl_record → RateLimiter → Prop) :
  (∀ n last log rl e clock, I n last log rl → rl_cfg rl = cfg → clock_time (event_time e) →
     last ≤ clock → clock - D ≤ reading (event_time e) ≤ clock →
     I (S n) clock (log ++ (exec_event rl e).1)%list (exec_event rl e).2) →
  ∀ evs n last log rl, rl_cfg rl = cfg → I n last log rl → late_from D last evs →
    ∃ last', I (n + List.length evs)%nat last' (log ++ (run rl evs).1)%list (run rl evs).2.
Proof.
  intros Hstep evs. induction evs as [|e evs IH]; intros n last log rl Hcfg HI Hlate.
  { exists last. cbn. by rewrite Nat.add_0_r, app_nil_r. }
  destruct Hlate as (Hct & clock & Hle & Hnow & Hlate). cbn [run List.length].
  pose proof (Hstep n last log rl e clock HI Hcfg Hct Hle Hnow) as HI'.
  pose proof (exec_event_cfg rl e) as Hc. destruct (exec_event rl e) as [l1 rl1].
  cbn [fst snd] in *. destruct (IH _ _ _ rl1 ltac:(congruence) HI' Hlate) as [last' HIl]. exists last'.
  destruct (run rl1 evs) as [l2 rl2]. cbn [fst snd] in *.
  rewrite app_assoc. by replace (n + S (List.length evs))%nat with (S n + List.length evs)%nat by lia.
Qed.


Lemma late_until_from (D last fin : Z) (evs : list rl_event) : late_until D last evs fin → late_from D last evs.
Proof.
  revert last. induction evs as [|e evs IH]; intros last; [done|]. intros (Hc & clock & Hle & Hr & Ho).
  split; [done|]. exists clock. auto.
Qed.

Lemma late_until_later (D last fin fin' : Z) (evs : list rl_event) :
  fin ≤ fin' → late_until D last evs fin → late_until D last evs fin'.
Proof.
  intros Hf. revert last. induction evs as [|e evs IH]; intros last; cbn [late_until]; [lia|].
  intros (Hc & clock & Hle & Hr & Ho). split; [done|]. exists clock. auto.
Qed.

(** One more event. *)
Lemma late_until_snoc (D last fin : Z) (evs : list rl_event) (e : rl_event) :
  late_until D last evs fin → clock_time (event_time e) → fin - D ≤ reading (event_time e) ≤ fin →
  late_until D last (evs ++ [e]) fin.
Proof.
  intros Hl Hc Hr. revert last Hl. induction evs as [|e' evs IH]; intros last; cbn [late_until app].
  - intros Hle. split; [done|]. exists fin. split; [done|]. split; [done|lia].
  - intros (Hc' & clock & Hle & Hr' & Ho). split; [done|]. exists clock. auto.
Qed.

Lemma admitted_app (k : string) (lo hi : Z) (l1 l2 : list rl_record) :
  admitted k lo hi (l1 ++ l2) = admitted k lo hi l1 + admitted k lo hi l2.
Proof. unfold admitted. rewrite List.filter_app, length_app. lia. Qed.

Lemma admitted_single (k : string) (lo hi : Z) (r : rl_record) :
  admitted k lo hi [r] = if in_interval k lo hi r then 1 else 0.
Proof. unfold admitted. cbn. by destruct (in_interval k lo hi r). Qed.

Lemma admitted_perm (k : string) (lo hi : Z) (l1 l2 : list rl_record) :
  l1 ≡ₚ l2 → admitted k lo hi l1 = admitted k lo hi l2.
Proof.
  induction 1 as [|r l1 l2 _ IH|r1 r2 l|l1 l2 l3 _ IH1 _ IH2]; [done| | |congruence].
  - change (admitted k lo hi ([r] ++ l1) = admitted k lo hi ([r] ++ l2)). by rewrite !admitted_app, IH.
  - change (admitted k lo hi ([r2] ++ [r1] ++ l) = admitted k lo hi ([r1] ++ [r2] ++ l)). rewrite !admitted_app. lia.
Qed.

Lemma admitted_nil (k : string) (lo hi : Z) : admitted k lo hi [] = 0.
Proof. done. Qed.

Lemma admitted_nonneg (k : string) (lo hi : Z) (log : list rl_record) : 0 ≤ admitted k lo hi log.
Proof. unfold admitted. lia. Qed.

Lemma admitted_mono (k : string) (lo hi lo' hi' : Z) (log : list rl_record) :
  lo' ≤ lo → hi ≤ hi' → admitted k lo hi log ≤ admitted k lo' hi' log.
Proof.
  intros Hlo Hhi. induction log as [|r log IH]; [done|].
  change (r :: log) with ([r] ++ log)%list. rewrite !admitted_app, !admitted_single.
  destruct (in_interval k lo hi r) eqn:E; [|destruct (in_interval k lo' hi' r); lia].
  replace (in_interval k lo' hi' r) with true; [lia|].
  symmetry. unfold in_interval in *. bool_to_prop.
  rewrite !andb_true_iff, !Z.leb_le. repeat split; try done; [|lia..].
  by apply String.eqb_eq.
Qed.

Lemma in_interval_eq (k : string) (lo hi : Z) (key : string) (now : Time) (ok : bool) :
  in_interval k lo hi (mkRecord key now ok) =
  ok && String.eqb key k && (lo <=? reading now) && (reading now <=? hi).
Proof. done. Qed.

Lemma in_interval_other (k : string) (lo hi : Z) (key : string) (now : Time) (ok : bool) :
  key ≠ k → in_interval k lo hi (mkRecord key now ok) = false.
Proof.
  intros H. rewrite in_interval_eq, (proj2 (String.eqb_neq _ _) H). by rewrite andb_false_r.
Qed.

Lemma in_interval_here (k : string) (lo hi : Z) (now : Time) (ok : bool) :
  lo ≤ reading now ≤ hi → in_interval k lo hi (mkRecord k now ok) = ok.
Proof.
  intros H. rewrite in_interval_eq, String.eqb_refl.
  rewrite (proj2 (Z.leb_le lo _)), (proj2 (Z.leb_le _ hi)) by lia. by rewrite !andb_true_r.
Qed.

Lemma in_interval_outside (k : string) (lo hi : Z) (key : string) (now : Time) (ok : bool) :
  reading now < lo ∨ hi < reading now → in_interval k lo hi (mkRecord key now ok) = false.
Proof.
  intros H. rewrite in_interval_eq. apply andb_false_iff. rewrite Z.leb_gt.
  destruct H as [H|H]; [left|right; lia]. apply andb_false_iff. right. apply Z.leb_gt. lia.
Qed.

(** *** The entries of a key along an execution *)

(** The windows of [k] start at clock readings in the past, and counts are
    positive and bounded by the number of events, so they do not wrap. *)
Definition entry_ok (k : string) (n : nat) (last : Z) (rl : RateLimiter) : Prop :=
  ∀ e, rl_entries rl !! k = Some e →
    clock_time (windowAt e) ∧ reading (windowAt e) ≤ last ∧ 1 ≤ count e ≤ Z.of_nat n.

Lemma exec_request (rl : RateLimiter) (key : string) (now : Time) :
  exec_event rl (EvRequest key now) =
  ([mkRecord key now (allowed (rl_cfg rl) (take rl key now).1)], (take rl key now).2).
Proof. unfold exec_event. by destruct (take rl key now). Qed.

Lemma count_no_wrap (c : Z) (n : nat) :
  1 ≤ c ≤ Z.of_nat n → Z.of_nat (S n) ≤ int64_max → int64_wrap (c + 1) = c + 1.
Proof. intros H1 H2. apply int64_wrap_id. unfold int64_min. lia. Qed.

(** [n] bounds the requests so far. *)
Lemma entry_ok_step (k : string) (n n' : nat) (last clock : Z) (rl : RateLimiter) (e : rl_event) :
  (n + List.length (exec_event rl e).1 ≤ n')%nat → Z.of_nat n' ≤ int64_max → entry_ok k n last rl →
  clock_time (event_time e) → last ≤ clock → reading (event_time e) ≤ clock →
  entry_ok k n' clock (exec_event rl e).2.
Proof.
  intros Hn' Hn Hok Hct Hle Hnow.
  assert (Hweak : ∀ x, rl_entries rl !! k = Some x →
    clock_time (windowAt x) ∧ reading (windowAt x) ≤ clock ∧ 1 ≤ count x ≤ Z.of_nat n').
  { intros x Hx. destruct (Hok x Hx) as (? & ? & ?). repeat split; try done; lia. }
  destruct e as [key now|now]; cbn [event_time] in *.
  - rewrite exec_request in *. cbn [fst snd List.length] in *. destruct (take rl key now) as [d rl'] eqn:Et. intros x Hx. cbn [snd] in Hx.
    destruct (decide (key = k)) as [->|Hne].
    + destruct (take_cases rl k now) as [(_ & _ & E)|[[_ E]|(y & Hy & _ & E)]];
        rewrite E in Et; injection Et as <- <-; cbn [rl_entries] in Hx; [auto|rewrite lookup_insert_eq in Hx..];
        injection Hx as <-; cbn [windowAt count].
      * repeat split; try done; lia.
      * destruct (Hok y Hy) as (? & ? & Hc). rewrite (count_no_wrap _ n) by (done || lia).
        repeat split; try done; lia.
    + pose proof (take_other rl key k now Hne) as Ho. rewrite Et in Ho. cbn [snd] in Ho.
      rewrite Ho in Hx. auto.
  - cbn [exec_event snd]. intros x Hx. rewrite lookup_cleanup in Hx. case_match; [|done].
    case_decide; [|done]. injection Hx as <-. by apply Hweak.
Qed.

(** *** The quota *)

(** The quota in an interval of one window: with readings up to [D] late, [N - 1]
    requests of a window begun before the interval, [N] of one begun inside it,
    and [N - 1] late ones of a window begun after it. *)
Definition quota (D N : Z) : Z := if decide (D = 0) then 2 * N - 1 else 3 * N - 2.

(** What the requests in the interval [lo, lo + Window] may be by now, from the
    window that is open, or after a cleanup from the clock. *)
Definition quota_inv (D : Z) (cfg : RateLimitConfig) (k : string) (lo hi : Z)
    (last : Z) (log : list rl_record) (rl : RateLimiter) : Prop :=
  let A := admitted k lo hi log in
  let N := RequestsPerWindow cfg in
  let W := Window cfg in
  A ≤ quota D N
  ∧ match rl_entries rl !! k with
    | None =>
        (last ≤ lo + W → A = 0) ∧ (last ≤ lo + 2 * W → A ≤ N - 1) ∧ (last ≤ lo + 3 * W → A ≤ 2 * N - 1)
    | Some e =>
        let w := reading (windowAt e) in
        let c := Z.min (count e) N in
        (w < lo - W → A = 0) ∧ (w < lo → A ≤ c - 1) ∧ (lo ≤ w ≤ lo + W → A ≤ N - 1 + c)
        ∧ (lo + W < w ≤ lo + 2 * W → A ≤ 2 * N - 1 + (if decide (D = 0) then 0 else c - 1))
    end.

Section late.
Context (D : Z) (cfg : RateLimitConfig) (k : string) (lo hi : Z).
Hypothesis Hcfg : cfg_ok cfg.
Hypothesis Hlen : hi ≤ lo + Window cfg.
Hypothesis Hlate : 0 ≤ D ≤ Window cfg.

(** Time passes. *)
Lemma quota_inv_later (last clock : Z) (log : list rl_record) (rl : RateLimiter) :
  last ≤ clock → quota_inv D cfg k lo hi last log rl → quota_inv D cfg k lo hi clock log rl.
Proof.
  intros Hle [Hq HI]. split; [done|]. destruct (rl_entries rl !! k); [done|].
  destruct HI as (H1 & H2 & H3). repeat split; intros; [apply H1|apply H2|apply H3]; lia.
Qed.

Lemma quota_inv_tick (n : nat) (last clock : Z) (log : list rl_record) (rl : RateLimiter) (now : Time) :
  rl_cfg rl = cfg → entry_ok k n last rl → clock_time now → last ≤ clock → reading now ≤ clock →
  quota_inv D cfg k lo hi last log rl → quota_inv D cfg k lo hi clock log (cleanup rl now).
Proof.
  intros Hrl Hok Hct Hle Hnow HI. apply (quota_inv_later last clock _ _ Hle) in HI as [Hq HI].
  split; [done|]. rewrite lookup_cleanup, Hrl, window_doubled by done.
  destruct (rl_entries rl !! k) as [e|] eqn:E; [|done].
  destruct (Hok e E) as (Hcw & _). rewrite (Sub_clock now (windowAt e)) by done.
  destruct Hcfg as (HN & HW & _). destruct (decide (_ ≤ _)) as [Hd|Hd]; [done|].
  destruct HI as (H1 & H2 & H3 & _). repeat split; intros.
  - apply H1. lia.
  - specialize (H2 ltac:(lia)). lia.
  - destruct (decide (reading (windowAt e) < lo)); [specialize (H2 ltac:(lia))|specialize (H3 ltac:(lia))]; lia.
Qed.

(** A request that opens a window. *)
Lemma quota_inv_fresh (n : nat) (last clock : Z) (log : list rl_record) (rl : RateLimiter) (now : Time) :
  rl_cfg rl = cfg → entry_ok k n last rl → clock_time now → last ≤ clock → clock - D ≤ reading now ≤ clock →
  (∀ e, rl_entries rl !! k = Some e → Window cfg < Sub now (windowAt e)) →
  quota_inv D cfg k lo hi last log rl →
  quota_inv D cfg k lo hi clock (log ++ [mkRecord k now true]) (mkLimiter (<[k := mkEntry 1 now]> (rl_entries rl)) cfg).
Proof.
  intros Hrl Hok Hct Hle Hnow Hold [Hq HI]. unfold quota_inv. cbn [rl_entries].
  rewrite lookup_insert_eq. cbn [count windowAt]. rewrite admitted_app, admitted_single.
  destruct Hcfg as (HN & HW & _). set (A := admitted k lo hi log) in *. set (w := reading now) in *.
  assert (Hpast : (w < lo → A = 0) ∧ (w ≤ lo + Window cfg → A ≤ RequestsPerWindow cfg - 1)
                  ∧ (w ≤ lo + 2 * Window cfg → A ≤ 2 * RequestsPerWindow cfg - 1)).
  { destruct (rl_entries rl !! k) as [e|] eqn:E.
    - specialize (Hold e eq_refl). destruct (Hok e E) as (Hcw & _). rewrite Sub_clock in Hold by done. fold w in Hold.
      destruct HI as (H1 & H2 & H3 & _). repeat split; intros.
      + apply H1. lia.
      + specialize (H2 ltac:(lia)). lia.
      + destruct (decide (reading (windowAt e) < lo)); [specialize (H2 ltac:(lia))|specialize (H3 ltac:(lia))]; lia.
    - destruct HI as (H1 & H2 & H3). repeat split; intros; [apply H1|apply H2|apply H3]; lia. }
  destruct Hpast as (P1 & P2 & P3).
  assert (HA : w < lo ∨ lo + Window cfg < w → in_interval k lo hi (mkRecord k now true) = false).
  { intros Hw. apply in_interval_outside. fold w. lia. }
  assert (Hb : (if in_interval k lo hi (mkRecord k now true) then 1 else 0) ≤ 1) by (destruct (in_interval _ _ _ _); lia).
  set (x := if in_interval k lo hi _ then 1 else 0) in *.
  assert (Hx : w < lo ∨ lo + Window cfg < w → x = 0) by (intros Hw; subst x; by rewrite HA).
  clearbody x w. unfold quota in *. repeat split; intros; repeat case_decide; lia.
Qed.

(** A request counted in an open window. *)
Lemma quota_inv_counted (n : nat) (last clock : Z) (log : list rl_record) (rl : RateLimiter) (now : Time)
    (e : rateLimitEntry) :
  rl_cfg rl = cfg → entry_ok k n last rl → Z.of_nat (S n) ≤ int64_max → clock_time now → last ≤ clock →
  clock - D ≤ reading now ≤ clock →
  rl_entries rl !! k = Some e → Sub now (windowAt e) ≤ Window cfg →
  quota_inv D cfg k lo hi last log rl →
  quota_inv D cfg k lo hi clock (log ++ [mkRecord k now (count e + 1 <=? RequestsPerWindow cfg)])
    (mkLimiter (<[k := mkEntry (count e + 1) (windowAt e)]> (rl_entries rl)) cfg).
Proof.
  intros Hrl Hok Hn Hct Hle Hnow He Hs [Hq HI]. unfold quota_inv. cbn [rl_entries].
  rewrite lookup_insert_eq. cbn [count windowAt]. rewrite admitted_app, admitted_single. rewrite He in HI.
  destruct (Hok e He) as (Hcw & Hwl & Hc). rewrite Sub_clock in Hs by done. destruct Hcfg as (HN & HW & _).
  set (r := mkRecord _ _ _). set (w := reading (windowAt e)) in *. set (A := admitted k lo hi log) in *.
  assert (Hx : (if in_interval k lo hi r then 1 else 0) = 0
               ∨ (if in_interval k lo hi r then 1 else 0) = 1
                 ∧ lo ≤ reading now ≤ hi ∧ count e + 1 ≤ RequestsPerWindow cfg).
  { destruct (decide (lo ≤ reading now ≤ hi)) as [Hin|Hout].
    - subst r. rewrite in_interval_here by done. destruct (Z.leb_spec (count e + 1) (RequestsPerWindow cfg)); auto.
    - left. subst r. by rewrite in_interval_outside by lia. }
  set (x := if in_interval k lo hi r then 1 else 0) in *. clearbody x w A.
  destruct HI as (H1 & H2 & H3 & H4). unfold quota in *.
  destruct Hx as [->|(-> & Hin & Hroom)]; repeat split; intros; repeat case_decide; lia.
Qed.

Lemma quota_inv_step (n : nat) (last clock : Z) (log : list rl_record) (rl : RateLimiter) (e : rl_event) :
  rl_cfg rl = cfg → entry_ok k n last rl → Z.of_nat (n + List.length (exec_event rl e).1) ≤ int64_max →
  clock_time (event_time e) → last ≤ clock → clock - D ≤ reading (event_time e) ≤ clock →
  quota_inv D cfg k lo hi last log rl →
  quota_inv D cfg k lo hi clock (log ++ (exec_event rl e).1) (exec_event rl e).2.
Proof.
  intros Hrl Hok Hn Hct Hle Hnow HI. destruct e as [key now|now]; cbn [event_time] in *.
  2: { cbn [exec_event fst snd]. rewrite app_nil_r. by apply (quota_inv_tick n last clock); [..|lia|]. }
  rewrite exec_request in *. cbn [fst snd List.length] in *. rewrite Nat.add_1_r in Hn. rewrite Hrl. destruct (decide (key = k)) as [->|Hne].
  2: { apply (quota_inv_later last clock _ _ Hle) in HI. unfold quota_inv.
       by rewrite admitted_app, admitted_single, in_interval_other, Z.add_0_r, take_other. }
  destruct (take_cases rl k now) as [(E & _ & ->)|[[Hold ->]|(e & He & Hs & ->)]]; cbn [fst snd allowed].
  - apply (quota_inv_later last clock _ _ Hle) in HI. unfold quota_inv.
    rewrite admitted_app, admitted_single, in_interval_eq. cbn [andb]. by rewrite Z.add_0_r.
  - rewrite Hrl in *. apply (quota_inv_fresh n last); try done.
    intros e He. destruct Hold as [[Hno _]|(e' & He' & Hgt)]; congruence.
  - destruct (Hok e He) as (_ & _ & Hc). rewrite Hrl in *. rewrite (count_no_wrap _ n) by done.
    by apply (quota_inv_counted n last).
Qed.
End late.

Lemma quota_run (D : Z) (cfg : RateLimitConfig) (k : string) (lo hi : Z) (evs : list rl_event) (start : Z) :
  let c := normalize_config cfg in
  let log := (run (NewRateLimiter cfg) evs).1 in
  Window c < 2 ^ 62 → hi ≤ lo + Window c → 0 ≤ D ≤ Window c → Z.of_nat (List.length log) ≤ int64_max →
  late_from D start evs → admitted k lo hi log ≤ quota D (RequestsPerWindow c).
Proof.
  intros c log Hw Hlen HD Hn Hlate. pose proof (normalized_ok cfg Hw) as Hcfg.
  destruct (run_late_invariant D c (λ _ last log rl, Z.of_nat (List.length log) ≤ int64_max →
    entry_ok k (List.length log) last rl ∧ quota_inv D c k lo hi last log rl)) with (evs := evs) (n := 0%nat) (last := start)
    (log := @nil rl_record) (rl := NewRateLimiter cfg) as [last' Hinv].
  - intros _ l log' rl e clock HI Hrl Hct Hle Hnow Hb. rewrite length_app in *. destruct HI as [Hok HI]; [lia|]. split.
    + by apply (entry_ok_step k (List.length log') _ l clock); [..|lia].
    + by apply (quota_inv_step D c k lo hi Hcfg Hlen HD (List.length log') l).
  - done.
  - intros _. destruct Hcfg as (HN & _ & _). fold c in HN. split; [by intros e He|]. split.
    + rewrite admitted_nil. unfold quota. case_decide; lia.
    + unfold NewRateLimiter. cbn [rl_entries]. rewrite lookup_empty, admitted_nil. lia.
  - done.
  - by destruct (Hinv Hn) as [_ [Hq _]].
Qed.

(** *** Rejections are deserved *)

Definition justified_inv (cfg : RateLimitConfig) (k : string) (last : Z)
    (log : list rl_record) (rl : RateLimiter) : Prop :=
  ∀ e, rl_entries rl !! k = Some e →
    Z.min (count e) (RequestsPerWindow cfg) ≤ admitted k (reading (windowAt e)) last log.

Lemma justified_inv_step (cfg : RateLimitConfig) (k : string) (n : nat) (last : Z)
    (log : list rl_record) (rl : RateLimiter) (e : rl_event) :
  cfg_ok cfg → rl_cfg rl = cfg → entry_ok k n last rl → Z.of_nat (S n) ≤ int64_max →
  clock_time (event_time e) → last ≤ reading (event_time e) →
  justified_inv cfg k last log rl →
  justified_inv cfg k (reading (event_time e)) (log ++ (exec_event rl e).1) (exec_event rl e).2.
Proof.
  intros Hcfg Hrl Hok Hn Hct Hle HJ. destruct Hcfg as (HN & _ & _).
  assert (Hold : ∀ x extra, rl_entries rl !! k = Some x →
    Z.min (count x) (RequestsPerWindow cfg) ≤
    admitted k (reading (windowAt x)) (reading (event_time e)) (log ++ extra)).
  { intros x extra Hx. rewrite admitted_app. pose proof (HJ x Hx).
    pose proof (admitted_mono k (reading (windowAt x)) last (reading (windowAt x))
                  (reading (event_time e)) log ltac:(lia) Hle).
    pose proof (admitted_nonneg k (reading (windowAt x)) (reading (event_time e)) extra). lia. }
  destruct e as [key now|now]; cbn [event_time] in *.
  - rewrite exec_request. cbn [fst snd]. rewrite Hrl. intros x Hx.
    destruct (decide (key = k)) as [->|Hne]; [|rewrite take_other in Hx by done; by apply Hold].
    destruct (take_cases rl k now) as [(_ & _ & E)|[[_ E]|(y & Hy & _ & E)]]; rewrite E in *;
      cbn [fst snd rl_entries allowed] in *; [by apply Hold|rewrite lookup_insert_eq in Hx..];
      injection Hx as <-; cbn [windowAt count].
    + rewrite admitted_app, admitted_single, in_interval_here by lia.
      pose proof (admitted_nonneg k (reading now) (reading now) log). lia.
    + destruct (Hok y Hy) as (_ & Hw & Hc). rewrite (count_no_wrap _ n) by done.
      rewrite admitted_app, admitted_single, in_interval_here by lia.
      pose proof (HJ y Hy).
      pose proof (admitted_mono k (reading (windowAt y)) last (reading (windowAt y))
                    (reading now) log ltac:(lia) Hle).
      destruct (count y + 1 <=? RequestsPerWindow cfg) eqn:El; bool_to_prop; lia.
  - intros x Hx. cbn [exec_event fst snd] in *. rewrite lookup_cleanup in Hx.
    case_match; [|done]. case_decide; [|done]. injection Hx as <-. by apply Hold.
Qed.

Lemma justified_inv_run (cfg : RateLimitConfig) (k : string) (evs : list rl_event) (last : Z) :
  let c := normalize_config cfg in
  cfg_ok c → Z.of_nat (List.length evs) ≤ int64_max → ordered_from last evs →
  entry_ok k (List.length evs) (last_reading last evs) (run (NewRateLimiter cfg) evs).2
  ∧ justified_inv c k (last_reading last evs) (run (NewRateLimiter cfg) evs).1
      (run (NewRateLimiter cfg) evs).2.
Proof.
  intros c Hcfg Hn Hord.
  refine (run_invariant c (λ n last log rl, Z.of_nat n ≤ int64_max →
    entry_ok k n last rl ∧ justified_inv c k last log rl)
    _ evs 0%nat last [] (NewRateLimiter cfg) eq_refl _ Hord Hn); [|by split].
  intros n l log rl e HI Hrl Hct Hle Hb. destruct HI as [Hok HI]; [lia|]. split.
  - apply (entry_ok_step k n (S n) l); try done. pose proof (exec_event_log rl e). lia.
  - by apply justified_inv_step with (n := n) (last := l).
Qed.

(** *** Independence of the keys *)

(** [rl1] ran all events, [rl2] only the requests of [k]: their entries of [k]
    agree, or [rl1] has cleaned up one that had expired. *)
Definition same_for (cfg : RateLimitConfig) (k : string) (last : Z) (rl1 rl2 : RateLimiter) : Prop :=
  rl_cfg rl1 = cfg ∧ rl_cfg rl2 = cfg
  ∧ (∀ e, rl_entries rl1 !! k = Some e → clock_time (windowAt e))
  ∧ (rl_entries rl1 !! k = rl_entries rl2 !! k
     ∨ rl_entries rl1 !! k = None ∧ ∃ e, rl_entries rl2 !! k = Some e
         ∧ clock_time (windowAt e) ∧ Window cfg < last - reading (windowAt e)).

Lemma same_for_later (cfg : RateLimitConfig) (k : string) (last last' : Z) (rl1 rl2 rl1' : RateLimiter) :
  last ≤ last' → rl_cfg rl1' = rl_cfg rl1 → rl_entries rl1' !! k = rl_entries rl1 !! k →
  same_for cfg k last rl1 rl2 → same_for cfg k last' rl1' rl2.
Proof.
  intros Hle Hc He (H1 & H2 & Hct & H3). unfold same_for. rewrite Hc, He.
  split; [done|]. split; [done|]. split; [done|].
  destruct H3 as [H3|(H3 & e & H4 & H5 & H6)]; [by left|]. right. split; [done|].
  exists e. repeat split; try done. lia.
Qed.

Lemma same_for_tick (cfg : RateLimitConfig) (k : string) (last : Z) (rl1 rl2 : RateLimiter) (now : Time) :
  cfg_ok cfg → clock_time now → last ≤ reading now →
  same_for cfg k last rl1 rl2 → same_for cfg k (reading now) (cleanup rl1 now) rl2.
Proof.
  intros Hcfg Hct Hle (H1 & H2 & H3 & H4). unfold same_for.
  rewrite lookup_cleanup, H1, window_doubled by done.
  split; [done|]. split; [done|].
  destruct (rl_entries rl1 !! k) as [e|] eqn:E.
  - specialize (H3 e eq_refl). rewrite (Sub_clock now (windowAt e)) by done.
    destruct H4 as [H4|[H4 _]]; [|done]. case_decide as Hd.
    + split; [by intros x [= <-]|by left].
    + split; [done|]. right. split; [done|]. exists e. repeat split; try done.
      destruct Hcfg as (_ & HW & _). lia.
  - split; [done|]. destruct H4 as [H4|(H4 & e & H5 & H6 & H7)]; [by left|].
    right. split; [done|]. exists e. repeat split; try done. lia.
Qed.

Lemma same_for_request (cfg : RateLimitConfig) (k : string) (last : Z) (rl1 rl2 : RateLimiter) (now : Time) :
  cfg_ok cfg → clock_time now → last ≤ reading now → has_room rl1 → has_room rl2 →
  same_for cfg k last rl1 rl2 →
  (exec_event rl1 (EvRequest k now)).1 = (exec_event rl2 (EvRequest k now)).1
  ∧ same_for cfg k (reading now) (take rl1 k now).2 (take rl2 k now).2.
Proof.
  intros Hcfg Hct Hle Hr1 Hr2 (H1 & H2 & H3 & H4). rewrite !exec_request. cbn [fst].
  unfold has_room in *. unfold same_for. rewrite !take_cfg.
  destruct H4 as [H4|(H4 & x & Hx & Hcx & Hexp)].
  - destruct (take_cases rl1 k now) as [(_ & Hfull & _)|[[Ho1 E1]|(e & He & Hs & E1)]]; [lia|..];
      destruct (take_cases rl2 k now) as [(_ & Hfull & _)|[[Ho2 E2]|(e2 & He2 & Hs2 & E2)]]; try lia;
      rewrite E1, E2; cbn [fst snd rl_entries allowed].
    + rewrite !lookup_insert_eq. repeat split; try done; [by intros ? [= <-]|by left].
    + exfalso. destruct Ho1 as [[Ho1 _]|(e & Ho1 & Hgt)]; [congruence|].
      assert (e = e2) as -> by congruence. rewrite H1 in Hgt. rewrite H2 in Hs2. lia.
    + exfalso. destruct Ho2 as [[Ho2 _]|(e2 & Ho2 & Hgt)]; [congruence|].
      assert (e = e2) as -> by congruence. rewrite H1 in Hs. rewrite H2 in Hgt. lia.
    + assert (e = e2) as -> by congruence. rewrite !lookup_insert_eq, H1, H2.
      repeat split; try done; [|by left]. intros ? [= <-]. cbn. by apply H3.
  - destruct (take_cases rl1 k now) as [(_ & Hfull & _)|[[_ E1]|(e & He & _)]]; [lia| |congruence].
    destruct (take_cases rl2 k now) as [(_ & Hfull & _)|[[_ E2]|(e2 & He2 & Hs2 & _)]]; [lia|..].
    + rewrite E1, E2. cbn [fst snd rl_entries allowed].
      rewrite !lookup_insert_eq. repeat split; try done; [by intros ? [= <-]|by left].
    + exfalso. assert (e2 = x) as -> by congruence. rewrite H2, Sub_clock in Hs2 by done. lia.
Qed.

Lemma for_key_app (k : string) (l1 l2 : list rl_record) :
  for_key k (l1 ++ l2) = (for_key k l1 ++ for_key k l2)%list.
Proof. apply List.filter_app. Qed.

Lemma isolation_run (cfg : RateLimitConfig) (k : string) (evs : list rl_event) :
  cfg_ok cfg → ∀ (n : nat) last rl1 rl2,
  same_for cfg k last rl1 rl2 → (size (rl_entries rl1) ≤ n)%nat → (size (rl_entries rl2) ≤ n)%nat →
  Z.of_nat (n + List.length evs) ≤ MaxEntries cfg → ordered_from last evs →
  for_key k (run rl1 evs).1 = (run rl2 (only_key k evs)).1.
Proof.
  intros Hcfg. induction evs as [|e evs IH]; intros n last rl1 rl2 Hs Hn1 Hn2 Hmax Hord; [done|].
  destruct Hord as (Hct & Hle & Hord). cbn [run List.length] in *.
  pose proof (exec_event_size rl1 e) as Hsz1. pose proof Hs as (Hc1 & Hc2 & _).
  destruct e as [key now|now]; cbn [event_time] in *; cbn [only_key List.filter].
  - destruct (String.eqb_spec key k) as [->|Hne].
    + destruct (same_for_request cfg k last rl1 rl2 now) as [Hlog Hs']; try done.
      1,2: unfold has_room; rewrite ?Hc1, ?Hc2; lia.
      pose proof (exec_event_size rl2 (EvRequest k now)) as Hsz2. cbn [run].
      fold (only_key k evs). rewrite !exec_request in *. cbn [fst snd] in *.
      specialize (IH (S n) (reading now) _ _ Hs' ltac:(lia) ltac:(lia) ltac:(lia) Hord).
      destruct (run (take rl1 k now).2 evs) as [l1 r1].
      destruct (run (take rl2 k now).2 (only_key k evs)) as [l2 r2]. cbn [fst] in *.
      rewrite for_key_app, IH. injection Hlog as ->. cbn. by rewrite String.eqb_refl.
    + fold (only_key k evs). rewrite exec_request in *. cbn [snd] in *.
      specialize (IH (S n) (reading now) (take rl1 key now).2 rl2).
      destruct (run (take rl1 key now).2 evs) as [l1 r1]. cbn [fst] in *.
      rewrite for_key_app, <- IH; [|by eapply same_for_later; [|apply take_cfg|apply take_other|]|lia..|done].
      cbn. by rewrite (proj2 (String.eqb_neq _ _) Hne).
  - fold (only_key k evs). cbn [exec_event fst snd] in *.
    specialize (IH (S n) (reading now) (cleanup rl1 now) rl2).
    destruct (run (cleanup rl1 now) evs) as [l1 r1]. cbn [fst] in *. cbn [app].
    apply IH; [by eapply same_for_tick|lia..|done].
Qed.

(** *** Bursts across window boundaries *)

Lemma run_app (rl : RateLimiter) (e1 e2 : list rl_event) :
  run rl (e1 ++ e2) = ((run rl e1).1 ++ (run (run rl e1).2 e2).1, (run (run rl e1).2 e2).2)%list.
Proof.
  revert rl. induction e1 as [|e e1 IH]; intros rl.
  - cbn. by destruct (run rl e2).
  - cbn [app run]. destruct (exec_event rl e) as [l rl1]. rewrite IH.
    destruct (run rl1 e1) as [l1 rl2]. cbn. destruct (run rl2 e2) as [l2 rl3]. cbn.
    by rewrite app_assoc.
Qed.

Lemma admitted_repeat (k : string) (lo hi : Z) (r : rl_record) (m : nat) :
  in_interval k lo hi r = true → admitted k lo hi (repeat r m) = Z.of_nat m.
Proof.
  intros H. induction m as [|m IH]; [done|]. cbn [repeat].
  change (r :: repeat r m) with ([r] ++ repeat r m)%list.
  rewrite admitted_app, admitted_single, H, IH. lia.
Qed.

(** [m] more requests inside a window that has room for them. *)
Lemma run_burst (k : string) (now : Time) (m : nat) : ∀ (rl : RateLimiter) (e : rateLimitEntry),
  rl_entries rl !! k = Some e → Sub now (windowAt e) ≤ Window (rl_cfg rl) → 1 ≤ count e →
  count e + Z.of_nat m ≤ RequestsPerWindow (rl_cfg rl) ≤ int64_max →
  (run rl (repeat (EvRequest k now) m)).1 = repeat (mkRecord k now true) m
  ∧ rl_entries (run rl (repeat (EvRequest k now) m)).2 !! k =
      Some (mkEntry (count e + Z.of_nat m) (windowAt e)).
Proof.
  induction m as [|m IH]; intros rl e He Hs Hc Hm.
  { cbn. rewrite Z.add_0_r. destruct e; done. }
  cbn [repeat run]. rewrite exec_request.
  destruct (take_cases rl k now) as [(E & _)|[[[[E _]|(x & E & Hgt)] _]|(x & E & _ & Ht)]];
    [congruence|congruence| |].
  { assert (x = e) as -> by congruence. lia. }
  assert (x = e) as -> by congruence. rewrite Ht. cbn [fst snd allowed].
  assert (int64_wrap (count e + 1) = count e + 1) as Hw.
  { apply int64_wrap_id. unfold int64_min. lia. }
  rewrite Hw. specialize (IH (mkLimiter (<[k := mkEntry (count e + 1) (windowAt e)]> (rl_entries rl)) (rl_cfg rl))
    (mkEntry (count e + 1) (windowAt e)) ltac:(apply lookup_insert_eq)).
  cbn [count windowAt rl_cfg] in IH. destruct IH as [IH1 IH2]; [lia..|].
  destruct (run _ (repeat (EvRequest k now) m)) as [l rl']. cbn [fst snd] in *.
  rewrite IH1, IH2. rewrite (proj2 (Z.leb_le _ _)) by lia. split; [done|].
  f_equal. f_equal. lia.
Qed.

(** A window opened at [a], and the rest of its quota used at [b]. *)
Definition full_window (cfg : RateLimitConfig) (k : string) (a b : Z) : list rl_event :=
  EvRequest k (clock_at a) :: repeat (EvRequest k (clock_at b)) (Z.to_nat (RequestsPerWindow cfg) - 1).

Definition full_log (cfg : RateLimitConfig) (k : string) (a b : Z) : list rl_record :=
  mkRecord k (clock_at a) true :: repeat (mkRecord k (clock_at b) true) (Z.to_nat (RequestsPerWindow cfg) - 1).

(** The limiter has room for [k], or an expired window of it. *)
Definition opens (rl : RateLimiter) (k : string) (a : Z) : Prop :=
  match rl_entries rl !! k with
  | None => has_room rl
  | Some e => clock_time (windowAt e) ∧ Window (rl_cfg rl) < a - reading (windowAt e)
  end.

Lemma run_full_window (rl : RateLimiter) (k : string) (a b : Z) :
  cfg_ok (rl_cfg rl) → RequestsPerWindow (rl_cfg rl) ≤ int64_max →
  0 ≤ a ≤ int64_max → 0 ≤ b ≤ int64_max → b ≤ a + Window (rl_cfg rl) → opens rl k a →
  (run rl (full_window (rl_cfg rl) k a b)).1 = full_log (rl_cfg rl) k a b
  ∧ ∃ c, rl_entries (run rl (full_window (rl_cfg rl) k a b)).2 !! k = Some (mkEntry c (clock_at a)).
Proof.
  intros (HN & _ & _) Hmax Ha Hb Hab Hop. unfold full_window, full_log. cbn [run]. rewrite exec_request.
  set (rl1 := mkLimiter (<[k := mkEntry 1 (clock_at a)]> (rl_entries rl)) (rl_cfg rl)).
  destruct (clock_at_ok a Ha) as [Hca Hra], (clock_at_ok b Hb) as [Hcb Hrb].
  assert (Ht : take rl k (clock_at a) = (FreshWindow, rl1)).
  { unfold opens, has_room in Hop.
    destruct (take_cases rl k (clock_at a)) as [(E & Hfull & _)|[[_ ->]|(e & E & Hs & _)]]; rewrite ?E in Hop; [lia|done|].
    destruct Hop as [Hc Hgt]. rewrite Sub_clock, Hra in Hs by done. lia. }
  rewrite Ht. cbn [fst snd allowed].
  destruct (run_burst k (clock_at b) (Z.to_nat (RequestsPerWindow (rl_cfg rl)) - 1) rl1 (mkEntry 1 (clock_at a)))
    as [E1 E2].
  - apply lookup_insert_eq.
  - cbn [windowAt rl_cfg rl1]. rewrite Sub_clock, Hra, Hrb by done. lia.
  - done.
  - cbn [count rl_cfg rl1]. lia.
  - destruct (run rl1 _) as [l rl2]. cbn [fst snd] in *. rewrite E1. split; [done|]. by eexists.
Qed.

(** The windows of a list, one after the other. *)
Lemma run_full_windows (k : string) (ws : list (Z * Z)) : ∀ (rl : RateLimiter),
  cfg_ok (rl_cfg rl) → RequestsPerWindow (rl_cfg rl) ≤ int64_max →
  Forall (λ ab, 0 ≤ ab.1 ≤ int64_max ∧ 0 ≤ ab.2 ≤ int64_max ∧ ab.2 ≤ ab.1 + Window (rl_cfg rl)) ws →
  StronglySorted (λ x y, x.1 + Window (rl_cfg rl) < y.1) ws → (∀ ab, head ws = Some ab → opens rl k ab.1) →
  (run rl (List.concat (map (λ ab, full_window (rl_cfg rl) k ab.1 ab.2) ws))).1
    = List.concat (map (λ ab, full_log (rl_cfg rl) k ab.1 ab.2) ws).
Proof.
  induction ws as [|[a b] ws IH]; intros rl Hcfg Hmax Hall Hsort Hop; [done|].
  apply list.Forall_cons in Hall as [(Ha & Hb & Hab) Hall]. inversion Hsort as [|? ? Hsort' Hle]; subst.
  cbn [map List.concat fst snd] in *. rewrite run_app.
  destruct (run_full_window rl k a b Hcfg Hmax Ha Hb Hab (Hop _ eq_refl)) as (Hlog & c & He). rewrite Hlog.
  set (rl1 := (run rl (full_window _ _ _ _)).2) in *.
  assert (Hc1 : rl_cfg rl1 = rl_cfg rl) by apply run_cfg. specialize (IH rl1). rewrite Hc1 in IH. cbn [fst]. f_equal.
  apply IH; try done. intros [a' b'] Hhd. destruct ws as [|x ws]; [done|]. injection Hhd as ->.
  inversion Hle as [|? ? Hlt _]; subst. unfold opens. rewrite He, Hc1. cbn [windowAt fst] in *.
  destruct (clock_at_ok a Ha) as [Hca Hra]. rewrite Hra. split; [done|lia].
Qed.

(** The first windows of a limiter, and the log of their requests. *)
Lemma run_new_windows (cfg : RateLimitConfig) (k : string) (ws : list (Z * Z)) :
  let c := normalize_config cfg in
  cfg_ok c → RequestsPerWindow c ≤ int64_max →
  Forall (λ ab, 0 ≤ ab.1 ≤ int64_max ∧ 0 ≤ ab.2 ≤ int64_max ∧ ab.2 ≤ ab.1 + Window c) ws →
  StronglySorted (λ x y, x.1 + Window c < y.1) ws →
  (run (NewRateLimiter cfg) (List.concat (map (λ ab, full_window c k ab.1 ab.2) ws))).1
    = List.concat (map (λ ab, full_log c k ab.1 ab.2) ws).
Proof.
  intros c Hc Hmax Hall Hsort. apply (run_full_windows k ws (NewRateLimiter cfg)); try done.
  intros ab _. unfold opens, has_room, NewRateLimiter. cbn [rl_entries rl_cfg]. rewrite lookup_empty, map_size_empty.
  apply Hc.
Qed.

(** The requests of a full window in an interval. *)
Lemma admitted_full_log (cfg : RateLimitConfig) (k : string) (lo hi a b : Z) :
  0 < RequestsPerWindow cfg → lo ≤ b ≤ hi →
  admitted k lo hi (full_log cfg k a b)
    = RequestsPerWindow cfg - 1 + (if decide (lo ≤ a ≤ hi) then 1 else 0).
Proof.
  intros HN Hb. unfold full_log. change (?x :: ?l) with ([x] ++ l)%list.
  rewrite admitted_app, admitted_single, admitted_repeat by by apply in_interval_here.
  case_decide; [rewrite in_interval_here by done|rewrite in_interval_outside by (cbn; lia)]; lia.
Qed.

(** Full windows one nanosecond apart, the requests of the first at its end. *)
Definition boundary_burst (cfg : RateLimitConfig) (k : string) : list rl_event :=
  List.concat (map (λ ab, full_window cfg k ab.1 ab.2)
    [(0, Window cfg); (Window cfg + 1, Window cfg + 1)]).

(** A third window, whose first request was two nanoseconds faster from the clock
    to the lock than the others. *)
Definition late_burst (cfg : RateLimitConfig) (k : string) : list rl_event :=
  List.concat (map (λ ab, full_window cfg k ab.1 ab.2)
    [(0, Window cfg); (Window cfg + 1, Window cfg + 1); (2 * Window cfg + 2, 2 * Window cfg)]).

Lemma late_from_repeat (D last a : Z) (k : string) (m : nat) (evs : list rl_event) :
  0 ≤ a ≤ int64_max → last - D ≤ a ≤ last → late_from D last evs →
  late_from D last (repeat (EvRequest k (clock_at a)) m ++ evs).
Proof.
  intros Ha HD Hevs. induction m as [|m IH]; [done|]. cbn [repeat app late_from event_time].
  destruct (clock_at_ok a Ha) as [Hc ->]. split; [done|]. by exists last.
Qed.

Lemma late_burst_late (cfg : RateLimitConfig) (k : string) :
  cfg_ok cfg → Window cfg < 2 ^ 61 → late_from 2 0 (late_burst cfg k).
Proof.
  intros (HN & HW & _) Hw. assert (Hbig : 2 * Window cfg + 2 ≤ int64_max) by (unfold int64_max; lia).
  unfold late_burst, full_window. cbn [map List.concat fst snd app]. rewrite app_nil_r.
  assert (Hstep : ∀ last a evs, 0 ≤ last ≤ a → a ≤ int64_max → late_from 2 a evs →
            late_from 2 last (EvRequest k (clock_at a) :: evs)).
  { intros last a evs Hl Ha Hevs. cbn [late_from event_time]. destruct (clock_at_ok a) as [Hc ->]; [lia|].
    split; [done|]. exists a. split; [lia|]. split; [lia|done]. }
  assert (Hwait : ∀ last a evs, last ≤ a → late_from 2 a evs → evs ≠ [] → late_from 2 last evs).
  { intros last a [|e evs] Hl Hevs Hne; [done|]. destruct Hevs as (Hc & clock & Hle & Hrest). split; [done|].
    exists clock. split; [lia|done]. }
  apply Hstep; [lia|lia|].
  apply (Hwait _ (Window cfg)); [lia| |by destruct (Z.to_nat _ - 1)%nat].
  apply late_from_repeat; [lia|lia|]. apply Hstep; [lia|lia|].
  apply late_from_repeat; [lia|lia|]. apply Hstep; [lia|lia|].
  rewrite <- (app_nil_r (repeat _ _)). by apply late_from_repeat; [lia|lia|].
Qed.

(** ** Properties *)


(** Quota under contention: when requests and cleanup ticks take the lock up to
    one window after they read the clock, so that the limiter sees readings out of
    order, a key is admitted at most [3*N - 2] times in any interval as long as
    one window. *)
Theorem rate_quota_late (D : Z) (cfg : RateLimitConfig) (k : string) (lo hi : Z) (evs : list rl_event) (start : Z) :
  let c := normalize_config cfg in
  Window c < 2 ^ 62 → hi ≤ lo + Window c → 0 ≤ D ≤ Window c → Z.of_nat (List.length evs) ≤ int64_max →
  late_from D start evs →
  admitted k lo hi (run (NewRateLimiter cfg) evs).1 ≤ 3 * RequestsPerWindow c - 2.
Proof.
  intros c Hw Hlen HD Hn Hlate. pose proof (normalized_ok cfg Hw) as (HN & _ & _). fold c in HN.
  pose proof (run_log (NewRateLimiter cfg) evs) as Hlog.
  pose proof (quota_run D cfg k lo hi evs start Hw Hlen HD ltac:(lia) Hlate) as Hq. fold c in Hq.
  unfold quota in Hq. case_decide; lia.
Qed.

(** C33. The bound of the quota is attained: [N - 1] requests at the end of a window
    and [N] at the start of the next are all admitted within one nanosecond, so
    the limiter counts fixed windows and not, as documented, a sliding one. *)
Theorem window_boundary_burst (cfg : RateLimitConfig) (k : string) :
  let c := normalize_config cfg in
  Window c < 2 ^ 62 → RequestsPerWindow c ≤ int64_max →
  admitted k (Window c) (Window c + 1) (run (NewRateLimiter cfg) (boundary_burst c k)).1
    = 2 * RequestsPerWindow c - 1.
Proof.
  intros c Hw Hmax. pose proof (normalized_ok cfg Hw) as Hc. fold c in Hc. pose proof Hc as (HN & HW & HM).
  assert (Hbig : Window c + 1 ≤ int64_max) by (unfold int64_max; lia).
  unfold boundary_burst. rewrite run_new_windows; fold c; [|done|done|..].
  - cbn [map List.concat fst snd]. rewrite app_nil_r, admitted_app, !admitted_full_log by lia.
    rewrite decide_False, decide_True by lia. lia.
  - repeat apply Forall_cons_2; [..|apply Forall_nil_2]; cbn [fst snd]; fold c; lia.
  - repeat constructor; cbn [fst]; fold c; lia.
Qed.

(** The bound under contention is attained as well, with readings two
    nanoseconds late. *)
Theorem late_burst_admitted (cfg : RateLimitConfig) (k : string) :
  let c := normalize_config cfg in
  Window c < 2 ^ 61 → RequestsPerWindow c ≤ int64_max →
  late_from 2 0 (late_burst c k)
  ∧ admitted k (Window c) (2 * Window c) (run (NewRateLimiter cfg) (late_burst c k)).1
      = 3 * RequestsPerWindow c - 2.
Proof.
  intros c Hw Hmax. assert (Hw2 : Window c < 2 ^ 62) by lia. pose proof (normalized_ok cfg Hw2) as Hc. fold c in Hc. pose proof Hc as (HN & HW & HM).
  assert (Hbig : 2 * Window c + 2 ≤ int64_max) by (unfold int64_max; lia).
  split; [by apply late_burst_late|]. unfold late_burst. rewrite run_new_windows; fold c; [|done|done|..].
  - cbn [map List.concat fst snd]. rewrite app_nil_r, !admitted_app, !admitted_full_log by lia.
    rewrite decide_False, decide_True, decide_False by lia. lia.
  - repeat apply Forall_cons_2; [..|apply Forall_nil_2]; cbn [fst snd]; fold c; lia.
  - repeat constructor; cbn [fst]; fold c; lia.
Qed.

(** C19. Rejections are deserved: a request turned away by its counter comes
    after at least [N] admitted requests of the same key within the last
    window. *)
Theorem rejection_justified (cfg : RateLimitConfig) (k : string) (evs : list rl_event)
    (start : Z) (now : Time) (n : Z) (ws : Time) :
  let c := normalize_config cfg in
  let log := (run (NewRateLimiter cfg) evs).1 in
  let rl := (run (NewRateLimiter cfg) evs).2 in
  Window c < 2 ^ 62 → Z.of_nat (List.length evs) < int64_max → ordered_from start evs →
  clock_time now → last_reading start evs ≤ reading now →
  (take rl k now).1 = Counted n ws → RequestsPerWindow c < n →
  RequestsPerWindow c ≤ admitted k (reading now - Window c) (reading now) log.
Proof.
  intros c log rl. pose proof (justified_inv_run cfg k evs start) as Hinv. fold c in Hinv. cbv zeta in Hinv.
  pose proof (run_cfg (NewRateLimiter cfg) evs) as Hc.
  fold log rl in Hinv, Hc. clearbody log rl.
  intros Hw Hn Hord Hct Hle Ht Hgt.
  destruct Hinv as [Hok HJ]; [by apply normalized_ok|lia|done|].
  apply take_rejected in Ht as (e & He & <- & -> & Hs & _).
  destruct (Hok e He) as (Hcw & Hwl & Hce). rewrite (count_no_wrap _ (List.length evs)) in Hgt by (done || lia).
  rewrite Sub_clock, Hc in Hs by done. cbn [rl_cfg NewRateLimiter] in Hs. fold c in Hs.
  pose proof (HJ e He) as HJe.
  pose proof (admitted_mono k (reading (windowAt e)) (last_reading start evs)
    (reading now - Window c) (reading now) log ltac:(lia) Hle). lia.
Qed.

(** C18. Clients are independent and cleanup is unobservable: while the table has
    room, what happens to the requests of a key is what would happen if that key
    were alone and nothing was ever cleaned up. *)
Theorem keys_independent (cfg : RateLimitConfig) (k : string) (evs : list rl_event) (start : Z) :
  let c := normalize_config cfg in
  Window c < 2 ^ 62 → Z.of_nat (List.length evs) ≤ MaxEntries c → ordered_from start evs →
  for_key k (run (NewRateLimiter cfg) evs).1 = (run (NewRateLimiter cfg) (only_key k evs)).1.
Proof.
  intros c Hw Hn Hord.
  apply (isolation_run c k evs) with (n := 0%nat) (last := start); try done.
  - by apply normalized_ok.
  - split; [done|]. split; [done|]. split; [by intros e He|by left].
Qed.

(** ** Witnesses *)

(** Two clients and a cleanup tick. *)
Definition small_run : list rl_event :=
  [ EvRequest "a" (clock_at 0); EvRequest "b" (clock_at 5); EvRequest "a" (clock_at 10);
    EvRequest "a" (clock_at 20); EvTick (clock_at 30); EvRequest "a" (clock_at 1001) ].

Lemma small_run_ordered : ordered_from 0 small_run.
Proof.
  repeat (split; [apply clock_at_ok; unfold int64_max; lia|]; split; [by vm_compute|]). done.
Qed.


Lemma window_boundary_burst_witness :
  admitted "a" 1000 1001 (run (NewRateLimiter small_config) (boundary_burst small_config "a")).1 = 3.
Proof. apply (window_boundary_burst small_config "a"); by vm_compute. Defined.

(** The last request was late. *)
Definition late_run : list rl_event :=
  [ EvRequest "a" (clock_at 0); EvRequest "a" (clock_at 1000); EvRequest "a" (clock_at 1001);
    EvRequest "a" (clock_at 1001); EvRequest "a" (clock_at 2002); EvRequest "a" (clock_at 2000) ].

Lemma rate_quota_late_witness :
  admitted "a" 1000 2000 (run (NewRateLimiter small_config) late_run).1 ≤ 4.
Proof.
  apply (rate_quota_late 2 small_config "a" 1000 2000 late_run 0).
  - by vm_compute.
  - by vm_compute.
  - split; by vm_compute.
  - by vm_compute.
  - repeat (split; [apply clock_at_ok; unfold int64_max; lia|]).
    exists 0. cbn. split; [lia|]. split; [lia|].
    split; [apply (clock_at_ok 1000); unfold int64_max; lia|]. exists 1000. split; [lia|]. split; [lia|].
    split; [apply (clock_at_ok 1001); unfold int64_max; lia|]. exists 1001. split; [lia|]. split; [lia|].
    split; [apply (clock_at_ok 1001); unfold int64_max; lia|]. exists 1001. split; [lia|]. split; [lia|].
    split; [apply (clock_at_ok 2002); unfold int64_max; lia|]. exists 2002. split; [lia|]. split; [lia|].
    split; [apply (clock_at_ok 2000); unfold int64_max; lia|]. exists 2002. split; [lia|]. split; [lia|exact I].
Defined.

Lemma late_burst_admitted_witness :
  admitted "a" 1000 2000 (run (NewRateLimiter small_config) (late_burst small_config "a")).1 = 4.
Proof. apply (late_burst_admitted small_config "a"); by vm_compute. Defined.

Lemma rejection_justified_witness :
  2 ≤ admitted "a" (-980) 20 (run (NewRateLimiter small_config) (firstn 3 small_run)).1.
Proof.
  assert (Hr := small_run_ordered). destruct Hr as (H1 & H2 & H3 & H4 & H5 & H6 & _).
  apply (rejection_justified small_config "a" (firstn 3 small_run) 0 (clock_at 20) 3 (clock_at 0)).
  - by vm_compute.
  - by vm_compute.
  - by repeat split.
  - apply clock_at_ok. unfold int64_max. lia.
  - by vm_compute.
  - by vm_compute.
  - by vm_compute.
Defined.

Lemma keys_independent_witness :
  for_key "a" (run (NewRateLimiter small_config) small_run).1
    = (run (NewRateLimiter small_config) (only_key "a" small_run)).1.
Proof.
  apply (keys_independent small_config "a" small_run 0).
  - by vm_compute.
  - by vm_compute.
  - exact small_run_ordered.
Defined.

