(* ===== verification/Auth.v ===== *)
(** * Authentication middleware ([shared/go/middleware/auth.go])

    [Auth], [RequireRole] and the context accessors.  [credentials] is the
    declarative specification: who a request is, given its Authorization header,
    the configuration and the time.  The logger only observes and is left out. *)

From S2P Require Import Prelude GoNum GoStrings Utf8 GoTime Json Http Jwt Respond.

Definition ContextKeySubject : string := "auth.subject".
Definition ContextKeyRole : string := "auth.role".
Definition ContextKeyAuthMethod : string := "auth.method".

Definition AuthMethodJWT : string := "jwt".
Definition AuthMethodAPIKey : string := "api_key".

Record APIKeyEntry := mkAPIKey { ak_Key : string; ak_Subject : string; ak_Role : string }.

Record AuthConfig := mkAuthConfig {
  JWTSecret : string;
  JWTIssuer : string;
  APIKeys : list APIKeyEntry;
  SkipPaths : list string
}.

(** Every entry is compared; the last match is kept. *)
Definition validateAPIKey (key : string) (keys : list APIKeyEntry) : option APIKeyEntry :=
  fold_left (λ matched e, if ConstantTimeCompare key (ak_Key e) =? 1 then Some e else matched)
    keys None.

Definition with_identity (r : Request) (subject role method : string) : Request :=
  let ctx := Context r in
  let ctx := WithValue ctx ContextKeySubject (VString subject) in
  let ctx := WithValue ctx ContextKeyRole (VString role) in
  let ctx := WithValue ctx ContextKeyAuthMethod (VAuthMethod method) in
  WithContext r ctx.

(** The [case "bearer"] branch. *)
Definition auth_bearer {S} `{HasClock S} (cfg : AuthConfig) (next : Handler S) (r : Request)
    (credential : string) : hio S unit :=
  if String.eqb (JWTSecret cfg) "" then writeAuthError 401 "JWT authentication not configured"
  else
    let! res := on_state (validateJWT credential (JWTSecret cfg) (JWTIssuer cfg)) in
    match res with
    | Err _ => writeAuthError 401 "invalid or expired token"
    | Ok claims => next (with_identity r (cl_Subject claims) (cl_Role claims) AuthMethodJWT)
    end.

(** The [case "apikey"] branch. *)
Definition auth_apikey {S} (cfg : AuthConfig) (next : Handler S) (r : Request)
    (credential : string) : hio S unit :=
  if len_list (APIKeys cfg) =? 0 then writeAuthError 401 "API key authentication not configured"
  else
    match validateAPIKey credential (APIKeys cfg) with
    | None => writeAuthError 401 "invalid API key"
    | Some entry => next (with_identity r (ak_Subject entry) (ak_Role entry) AuthMethodAPIKey)
    end.

Definition Auth {S} `{HasClock S} (cfg : AuthConfig) : Middleware S := λ next r,
  if existsb (String.eqb (Path r)) (SkipPaths cfg) then next r
  else
    let authHeader := header_Get (ReqHeader r) "Authorization" in
    if String.eqb authHeader "" then writeAuthError 401 "missing Authorization header"
    else
      match SplitN " " authHeader 2 with
      | [scheme; credential] =>
          if String.eqb (ToLower scheme) "bearer" then auth_bearer cfg next r credential
          else if String.eqb (ToLower scheme) "apikey" then auth_apikey cfg next r credential
          else writeAuthError 401 ("unsupported auth scheme: " ++ scheme)
      | _ => writeAuthError 401 "malformed Authorization header"
      end.

(** A value of another dynamic type reads as the zero value. *)
Definition string_from (ctx : Context_t) (key : string) : string :=
  match ctx_Value ctx key with Some (VString s) => s | _ => "" end.

Definition SubjectFromContext (ctx : Context_t) : string := string_from ctx ContextKeySubject.
Definition RoleFromContext (ctx : Context_t) : string := string_from ctx ContextKeyRole.
Definition AuthMethodFromContext (ctx : Context_t) : string :=
  match ctx_Value ctx ContextKeyAuthMethod with Some (VAuthMethod m) => m | _ => "" end.

Definition RequireRole {S} (roles : list string) : Middleware S := λ next r,
  let role := string_from (Context r) ContextKeyRole in
  if negb (existsb (String.eqb role) roles) then writeAuthError 403 "insufficient permissions"
  else next r.

(** ** Specification *)

(** The identity an Authorization header proves at time [now]: subject, role and
    method. *)
Inductive credentials (cfg : AuthConfig) (now : Z) (header : string) : string → string → string → Prop :=
| by_token scheme token claims :
    header = (scheme ++ " " ++ token)%string → no_byte " " scheme = true →
    ToLower scheme = "bearer" → JWTSecret cfg ≠ "" →
    valid_token (JWTSecret cfg) (JWTIssuer cfg) now token claims →
    credentials cfg now header (cl_Subject claims) (cl_Role claims) AuthMethodJWT
| by_key scheme key entry before after :
    header = (scheme ++ " " ++ key)%string → no_byte " " scheme = true →
    ToLower scheme = "apikey" →
    APIKeys cfg = (before ++ entry :: after)%list → ak_Key entry = key →
    (∀ e, e ∈ after → ak_Key e ≠ key) →
    credentials cfg now header (ak_Subject entry) (ak_Role entry) AuthMethodAPIKey.

(** Why a header proves no identity, and the message that says so. *)
Inductive refusal (cfg : AuthConfig) (header : string) : string → Prop :=
| refused_missing : header = "" → refusal cfg header "missing Authorization header"
| refused_malformed :
    header ≠ "" → no_byte " " header = true → refusal cfg header "malformed Authorization header"
| refused_scheme scheme cred :
    header = (scheme ++ " " ++ cred)%string → no_byte " " scheme = true →
    ToLower scheme ≠ "bearer" → ToLower scheme ≠ "apikey" →
    refusal cfg header ("unsupported auth scheme: " ++ scheme)
| refused_no_secret scheme token :
    header = (scheme ++ " " ++ token)%string → no_byte " " scheme = true → ToLower scheme = "bearer" →
    JWTSecret cfg = "" → refusal cfg header "JWT authentication not configured"
| refused_token scheme token now :
    header = (scheme ++ " " ++ token)%string → no_byte " " scheme = true → ToLower scheme = "bearer" →
    JWTSecret cfg ≠ "" → (∀ claims, ¬ valid_token (JWTSecret cfg) (JWTIssuer cfg) now token claims) →
    refusal cfg header "invalid or expired token"
| refused_no_keys scheme key :
    header = (scheme ++ " " ++ key)%string → no_byte " " scheme = true → ToLower scheme = "apikey" →
    APIKeys cfg = [] → refusal cfg header "API key authentication not configured"
| refused_key scheme key :
    header = (scheme ++ " " ++ key)%string → no_byte " " scheme = true → ToLower scheme = "apikey" →
    APIKeys cfg ≠ [] → (∀ e, e ∈ APIKeys cfg → ak_Key e ≠ key) → refusal cfg header "invalid API key".

(** ** Lemmas *)

Lemma validateAPIKey_snoc (key : string) (keys : list APIKeyEntry) (e : APIKeyEntry) :
  validateAPIKey key (keys ++ [e]) =
    if decide (ak_Key e = key) then Some e else validateAPIKey key keys.
Proof.
  unfold validateAPIKey. rewrite fold_left_app. simpl. pose proof (ConstantTimeCompare_eq key (ak_Key e)).
  destruct (Z.eqb_spec (ConstantTimeCompare key (ak_Key e)) 1); case_decide; naive_solver.
Qed.

(** The loop finds the last entry with the key. *)
Lemma validateAPIKey_Some (key : string) (keys : list APIKeyEntry) (e : APIKeyEntry) :
  validateAPIKey key keys = Some e ↔
  ∃ before after, keys = (before ++ e :: after)%list ∧ ak_Key e = key
    ∧ ∀ x, x ∈ after → ak_Key x ≠ key.
Proof.
  induction keys as [|x keys IH] using rev_ind.
  { split; [done|]. intros (b & a & Hk & _). by destruct b. }
  rewrite validateAPIKey_snoc. case_decide as Hx.
  - split.
    + intros [= ->]. exists keys, []. split; [done|]. split; [done|]. intros y. by rewrite elem_of_nil.
    + intros (b & a & Hk & He & Ha). destruct a as [|y a _] using rev_ind.
      { apply app_inj_tail in Hk as [_ <-]. done. }
      change (e :: a ++ [y])%list with ((e :: a) ++ [y])%list in Hk.
      rewrite (assoc_L (++)) in Hk. apply app_inj_tail in Hk as [_ <-].
      exfalso. apply (Ha x); [set_solver|done].
  - rewrite IH. split.
    + intros (b & a & -> & He & Ha). exists b, (a ++ [x])%list.
      split; [by rewrite <- (assoc_L (++))|]. split; [done|]. set_solver.
    + intros (b & a & Hk & He & Ha). destruct a as [|y a _] using rev_ind.
      { apply app_inj_tail in Hk as [_ <-]. done. }
      change (e :: a ++ [y])%list with ((e :: a) ++ [y])%list in Hk.
      rewrite (assoc_L (++)) in Hk. apply app_inj_tail in Hk as [-> <-].
      exists b, a. split; [done|]. split; [done|]. set_solver.
Qed.

Lemma validateAPIKey_None (key : string) (keys : list APIKeyEntry) :
  validateAPIKey key keys = None → ∀ e, e ∈ keys → ak_Key e ≠ key.
Proof.
  induction keys as [|x keys IH] using rev_ind; [by intros _ e ?%elem_of_nil|].
  rewrite validateAPIKey_snoc. case_decide as Hx; [done|]. intros Hn e He.
  apply elem_of_app in He as [He| ->%list_elem_of_singleton]; [by apply IH|done].
Qed.

Lemma identity_from_context (r : Request) (subject role method : string) :
  let ctx := Context (with_identity r subject role method) in
  SubjectFromContext ctx = subject ∧ RoleFromContext ctx = role ∧ AuthMethodFromContext ctx = method.
Proof. by repeat split. Qed.

Lemma SplitN2_cases (c : ascii) (s : string) :
  (∃ a b, SplitN c s 2 = [a; b] ∧ s = (a ++ String c b)%string ∧ no_byte c a = true)
  ∨ (SplitN c s 2 = [s] ∧ no_byte c s = true).
Proof.
  cbn [SplitN]. destruct (Cut c s) as [[a b]|] eqn:E.
  - left. exists a, b. split; [done|]. by apply Cut_Some.
  - right. split; [done|]. revert E. induction s as [|x s IH]; [done|]. simpl.
    unfold no_byte. simpl. destruct (Ascii.eqb x c); [done|].
    destruct (Cut c s) as [[]|]; [done|]. intros _. by apply IH.
Qed.

Lemma scheme_unique (c : ascii) (a b a' b' : string) :
  (a ++ String c b)%string = (a' ++ String c b')%string →
  no_byte c a = true → no_byte c a' = true → a = a' ∧ b = b'.
Proof.
  intros H Ha Ha'. pose proof (Cut_app c a b Ha) as E. rewrite H, Cut_app in E by done.
  by injection E as -> ->.
Qed.

(** What the middleware makes of a header: an identity it proves, or an error
    message because it proves none. *)
Definition auth_outcome (cfg : AuthConfig) (now : Z) (header : string)
    (out : string * string * string + string) : Prop :=
  match out with
  | inl (subject, role, method) => credentials cfg now header subject role method
  | inr _ => ∀ subject role method, ¬ credentials cfg now header subject role method
  end.

(** [m] passes that identity on, or sends that message with a 401. *)
Definition decides {S} `{HasClock S} (cfg : AuthConfig) (header : string) (next : Handler S)
    (r : Request) (w : ResponseWriter) (s : S) (m : hio S unit) : Prop :=
  ∃ out s', (s' = s ∨ s' = (time_Now s).2)
    ∧ auth_outcome cfg (Unix (time_Now s).1) header out
    ∧ m (w, s) =
        match out with
        | inl (subject, role, method) => next (with_identity r subject role method) (w, s')
        | inr msg => (tt, (json_written w 401 (error_json msg), s'))
        end.

Lemma credentials_cases (cfg : AuthConfig) (now : Z) (scheme cred subject role method : string) :
  no_byte " " scheme = true →
  credentials cfg now (scheme ++ " " ++ cred) subject role method →
  (ToLower scheme = "bearer" ∧ JWTSecret cfg ≠ "" ∧
     ∃ c, valid_token (JWTSecret cfg) (JWTIssuer cfg) now cred c
          ∧ subject = cl_Subject c ∧ role = cl_Role c ∧ method = AuthMethodJWT)
  ∨ (ToLower scheme = "apikey" ∧
     ∃ e, validateAPIKey cred (APIKeys cfg) = Some e
          ∧ subject = ak_Subject e ∧ role = ak_Role e ∧ method = AuthMethodAPIKey).
Proof.
  intros Hs Hc. inversion Hc as [sch tok c Hh Hn Hl Hsec Hv|sch k e b a Hh Hn Hl Hk He Ha]; subst.
  - apply scheme_unique in Hh as [-> ->]; [|done..]. left. split; [done|]. split; [done|]. by exists c.
  - apply scheme_unique in Hh as [-> ->]; [|done..]. right. split; [done|]. exists e.
    split; [|done]. apply validateAPIKey_Some. by exists b, a.
Qed.

Section decisions.
Context {S : Type} `{HasClock S}.
Variables (cfg : AuthConfig) (next : Handler S) (r : Request) (w : ResponseWriter) (s : S).
Hypothesis Hw : unsent w.

Lemma decides_reject (header msg : string) :
  (∀ sub role m, ¬ credentials cfg (Unix (time_Now s).1) header sub role m) →
  decides cfg header next r w s (writeAuthError 401 msg).
Proof.
  intros Hno. exists (inr msg), s. split; [by left|]. split; [done|]. by apply writeAuthError_eq.
Qed.

Lemma decides_bearer (scheme cred : string) :
  no_byte " " scheme = true → ToLower scheme = "bearer" →
  decides cfg (scheme ++ " " ++ cred) next r w s (auth_bearer cfg next r cred).
Proof.
  intros Hn Hb. unfold auth_bearer. destruct (String.eqb_spec (JWTSecret cfg) "") as [Hsec|Hsec].
  { apply decides_reject. intros sub role m Hc.
    apply credentials_cases in Hc as [(_ & Hs & _)|(Ha & _)]; congruence. }
  unfold decides. rewrite run_hseq, run_on_state.
  pose proof (validateJWT_Ok cred (JWTSecret cfg) (JWTIssuer cfg) s) as Hv.
  pose proof (validateJWT_state cred (JWTSecret cfg) (JWTIssuer cfg) s) as Hst.
  destruct (validateJWT _ _ _ s) as [[c|e] s']; cbn [fst snd] in *.
  - exists (inl (cl_Subject c, cl_Role c, AuthMethodJWT)), s'. split; [done|]. split; [|done].
    by apply by_token with scheme cred; [..|apply Hv].
  - exists (inr "invalid or expired token"), s'. split; [done|]. split; [|by apply writeAuthError_eq].
    intros sub role m Hc. apply credentials_cases in Hc as [(_ & _ & c & Hc & _)|(Ha & _)];
      [|congruence|done]. by apply Hv in Hc.
Qed.

Lemma decides_apikey (scheme cred : string) :
  no_byte " " scheme = true → ToLower scheme = "apikey" →
  decides cfg (scheme ++ " " ++ cred) next r w s (auth_apikey cfg next r cred).
Proof.
  intros Hn Ha. unfold auth_apikey.
  destruct (validateAPIKey cred (APIKeys cfg)) as [e|] eqn:Ek.
  - exists (inl (ak_Subject e, ak_Role e, AuthMethodAPIKey)), s. split; [by left|].
    apply validateAPIKey_Some in Ek as (b & a & Hk & He & Hlast).
    split; [by apply by_key with scheme cred b a|]. rewrite Hk. unfold len_list.
    rewrite length_app. cbn [List.length]. by rewrite (proj2 (Z.eqb_neq _ _)) by lia.
  - assert (Hno : ∀ sub role m,
      ¬ credentials cfg (Unix (time_Now s).1) (scheme ++ " " ++ cred) sub role m).
    { intros sub role m Hc.
      apply credentials_cases in Hc as [(? & _)|(_ & e & He & _)]; [congruence..|done]. }
    destruct (_ =? 0); by apply decides_reject.
Qed.

(** [Auth] outside the skipped paths. *)
Lemma Auth_decides :
  existsb (String.eqb (Path r)) (SkipPaths cfg) = false →
  decides cfg (header_Get (ReqHeader r) "Authorization") next r w s (Auth cfg next r).
Proof.
  intros Hskip. unfold Auth. rewrite Hskip. set (h := header_Get _ _). clearbody h.
  destruct (String.eqb_spec h "") as [->|Hne].
  { apply decides_reject. intros sub role m Hc.
    inversion Hc as [sch ? ? Hh|sch ? ? ? ? Hh]; by destruct sch. }
  destruct (SplitN2_cases " " h) as [(scheme & cred & -> & -> & Hn)|[-> Hn]]; last first.
  { apply decides_reject. intros sub role m Hc.
    inversion Hc as [sch ? ? Hh|sch ? ? ? ? Hh]; subst h;
      rewrite no_byte_app in Hn; apply andb_prop in Hn as [_ Hn]; discriminate Hn. }
  destruct (String.eqb_spec (ToLower scheme) "bearer") as [Hb|Hb]; [by apply decides_bearer|].
  destruct (String.eqb_spec (ToLower scheme) "apikey") as [Ha|Ha]; [by apply decides_apikey|].
  apply decides_reject. intros sub role m Hc.
  apply credentials_cases in Hc as [(? & _)|(? & _)]; [congruence..|done].
Qed.
End decisions.

(** A header proves at most one identity, whenever. *)
Lemma credentials_functional (cfg : AuthConfig) (now now' : Z) (h s1 r1 m1 s2 r2 m2 : string) :
  credentials cfg now h s1 r1 m1 → credentials cfg now' h s2 r2 m2 → s1 = s2 ∧ r1 = r2 ∧ m1 = m2.
Proof.
  intros H1 H2.
  assert (∃ scheme cred, h = (scheme ++ " " ++ cred)%string ∧ no_byte " " scheme = true)
    as (scheme & cred & -> & Hn) by (inversion H1; eauto).
  apply credentials_cases in H1 as [(L1 & _ & c1 & V1 & -> & -> & ->)|(L1 & e1 & V1 & -> & -> & ->)]; [| |done];
  apply credentials_cases in H2 as [(L2 & _ & c2 & V2 & -> & -> & ->)|(L2 & e2 & V2 & -> & -> & ->)];
    try done; try congruence.
  - by rewrite (valid_token_functional _ _ _ _ _ _ _ _ V1 V2).
  - rewrite V1 in V2. by injection V2 as ->.
Qed.

(** ** Properties *)

(** C16. [Auth] outside the skipped paths: a request whose header proves an
    identity reaches the next handler carrying exactly that identity; any other
    is answered 401 with a JSON error and the next handler is not run. *)
Theorem Auth_spec {S} `{HasClock S} (cfg : AuthConfig) (next : Handler S) (r : Request)
    (w : ResponseWriter) (s : S) :
  unsent w → Path r ∉ SkipPaths cfg →
  let proves := credentials cfg (Unix (time_Now s).1) (header_Get (ReqHeader r) "Authorization") in
  ∃ s', (s' = s ∨ s' = (time_Now s).2)
  ∧ (∀ subject role method, proves subject role method →
       ∃ r', Auth cfg next r (w, s) = next r' (w, s')
         ∧ r' = WithContext r (Context r')
         ∧ SubjectFromContext (Context r') = subject
         ∧ RoleFromContext (Context r') = role
         ∧ AuthMethodFromContext (Context r') = method)
  ∧ ((∀ subject role method, ¬ proves subject role method) →
       ∃ msg, Auth cfg next r (w, s) = (tt, (json_written w 401 (error_json msg), s'))).
Proof.
  intros Hw Hp proves. apply existsb_eqb_false in Hp.
  destruct (Auth_decides cfg next r w s Hw Hp) as (out & s' & Hs & Ho & Heq).
  exists s'. split; [done|]. rewrite Heq. destruct out as [[[sub role] m]|msg]; cbn [auth_outcome] in Ho.
  - split; [|intros Hno; by destruct (Hno sub role m)].
    intros sub' role' m' Hc. destruct (credentials_functional _ _ _ _ _ _ _ _ _ _ Hc Ho) as (-> & -> & ->).
    by exists (with_identity r sub role m).
  - split; [intros sub role m Hc; by destruct (Ho sub role m)|]. intros _. by exists msg.
Qed.

(** C30. [RequireRole] behind [Auth]: the handler runs when the proven role is one
    of those listed; a proven identity with another role gets 403, and no
    proven identity gets 401. *)
Theorem Auth_RequireRole {S} `{HasClock S} (cfg : AuthConfig) (roles : list string) (next : Handler S)
    (r : Request) (w : ResponseWriter) (s : S) :
  unsent w → Path r ∉ SkipPaths cfg →
  let proves := credentials cfg (Unix (time_Now s).1) (header_Get (ReqHeader r) "Authorization") in
  let result := Auth cfg (RequireRole roles next) r (w, s) in
  (∃ sub role m s', proves sub role m ∧ role ∈ roles
     ∧ result = next (with_identity r sub role m) (w, s'))
  ∨ (∃ sub role m, proves sub role m ∧ role ∉ roles ∧ resp_status (finish result.2.1) = 403)
  ∨ ((∀ sub role m, ¬ proves sub role m) ∧ resp_status (finish result.2.1) = 401).
Proof.
  intros Hw Hp proves result. apply existsb_eqb_false in Hp. subst result.
  destruct (Auth_decides cfg (RequireRole roles next) r w s Hw Hp) as (out & s' & _ & Ho & Heq).
  rewrite Heq. destruct out as [[[sub role] m]|msg]; cbn [auth_outcome] in Ho.
  - unfold RequireRole. change (string_from _ ContextKeyRole) with role.
    destruct (existsb (String.eqb role) roles) eqn:E.
    + left. exists sub, role, m, s'. by apply existsb_eqb in E.
    + right. left. exists sub, role, m. apply existsb_eqb_false in E. split; [done|]. split; [done|].
      cbn [negb]. by rewrite writeAuthError_eq by done.
  - right. right. by split.
Qed.

(** C29. End to end: a request carrying a token made by [CreateJWT] under the
    configured secret and issuer, within its lifetime, reaches the handler with
    the subject and role the token was made for. *)
Theorem CreateJWT_Auth {S} `{HasClock S} (cfg : AuthConfig) (subject role : string) (duration : Z)
    (s0 s : S) (next : Handler S) (r : Request) (w : ResponseWriter) :
  unsent w → Path r ∉ SkipPaths cfg → JWTSecret cfg ≠ "" →
  ValidString subject = true → ValidString role = true → ValidString (JWTIssuer cfg) = true →
  subject ≠ "" →
  0 < Unix (time_Now s0).1 ≤ int64_max →
  0 < Unix (Add (time_Now s0).1 duration) ≤ int64_max →
  Unix (time_Now s0).1 ≤ Unix (time_Now s).1 ≤ Unix (Add (time_Now s0).1 duration) →
  header_Get (ReqHeader r) "Authorization"
    = ("Bearer " ++ (CreateJWT (JWTSecret cfg) subject role (JWTIssuer cfg) duration s0).1)%string →
  ∃ s', Auth cfg next r (w, s) = next (with_identity r subject role AuthMethodJWT) (w, s').
Proof.
  intros Hw Hp Hsec Hsub Hrole Hiss Hne Hc He Hnow Hh. apply existsb_eqb_false in Hp.
  destruct (Auth_decides cfg next r w s Hw Hp) as (out & s' & _ & Ho & Heq).
  exists s'. rewrite Heq.
  assert (Hcred : credentials cfg (Unix (time_Now s).1) (header_Get (ReqHeader r) "Authorization")
                    subject role AuthMethodJWT).
  { set (c := created_claims (time_Now s0).1 subject role (JWTIssuer cfg) duration).
    change subject with (cl_Subject c). change role with (cl_Role c).
    eapply (by_token cfg _ _ "Bearer"); [exact Hh|done|done|done|].
    apply validateJWT_Ok, created_token_valid; tauto. }
  destruct out as [[[sub' role'] m']|msg]; cbn [auth_outcome] in Ho.
  - by destruct (credentials_functional _ _ _ _ _ _ _ _ _ _ Hcred Ho) as (-> & -> & ->).
  - by destruct (Ho _ _ _ Hcred).
Qed.

(** Every way to fail has its message: the response is 401 with that message
    and neither the next handler nor the application state is touched. *)
Theorem Auth_messages {S} `{HasClock S} (cfg : AuthConfig) (next : Handler S) (r : Request)
    (w : ResponseWriter) (s : S) (scheme cred : string) :
  unsent w → Path r ∉ SkipPaths cfg → no_byte " " scheme = true →
  let header := header_Get (ReqHeader r) "Authorization" in
  let answers msg := Auth cfg next r (w, s) = (tt, (json_written w 401 (error_json msg), s)) in
  (header = "" → answers "missing Authorization header")
  ∧ (header = scheme → scheme ≠ "" → answers "malformed Authorization header")
  ∧ (header = (scheme ++ " " ++ cred)%string →
       (ToLower scheme ≠ "bearer" → ToLower scheme ≠ "apikey" →
          answers ("unsupported auth scheme: " ++ scheme)%string)
       ∧ (ToLower scheme = "bearer" → JWTSecret cfg = "" → answers "JWT authentication not configured")
       ∧ (ToLower scheme = "apikey" → APIKeys cfg = [] → answers "API key authentication not configured")
       ∧ (ToLower scheme = "apikey" → APIKeys cfg ≠ [] → (∀ e, e ∈ APIKeys cfg → ak_Key e ≠ cred) →
            answers "invalid API key")).
Proof.
  intros Hw Hp Hn header answers. apply existsb_eqb_false in Hp. subst answers. unfold Auth.
  rewrite Hp. subst header. split; [|split].
  - intros ->. by apply writeAuthError_eq.
  - intros -> Hne. rewrite (proj2 (String.eqb_neq _ _) Hne). cbn [SplitN]. rewrite Cut_None by done.
    by apply writeAuthError_eq.
  - intros ->. rewrite (proj2 (SplitN2_Some " " _ scheme cred)) by done.
    destruct (String.eqb_spec (scheme ++ " " ++ cred) "") as [E|_]; [by destruct scheme|].
    repeat split.
    + intros Hb Ha. rewrite (proj2 (String.eqb_neq _ _) Hb), (proj2 (String.eqb_neq _ _) Ha).
      by apply writeAuthError_eq.
    + intros -> Hs. unfold auth_bearer. rewrite Hs. by apply writeAuthError_eq.
    + intros -> Hk. unfold auth_apikey. rewrite Hk. by apply writeAuthError_eq.
    + intros -> Hk Hno. unfold auth_apikey.
      destruct (validateAPIKey cred (APIKeys cfg)) as [e|] eqn:E.
      { exfalso. apply validateAPIKey_Some in E as (b & a & Hl & He & _).
        apply (Hno e); [rewrite Hl; set_solver|done]. }
      destruct (APIKeys cfg); [done|]. by apply writeAuthError_eq.
Qed.

(** ** Witnesses *)

(** A clock that reads a given Unix second. *)
#[local] Instance auth_clock : HasClock Z := λ s, (mkTime (s * Second) (Some (s * Second)) 0, s).

Definition sample_config : AuthConfig :=
  mkAuthConfig "s3cret" "quantun" [mkAPIKey "k1" "svc-1" "reader"; mkAPIKey "k2" "svc-2" "admin"] ["/health"].

Definition request_with (auth : string) : Request :=
  mkRequest "GET" "/api/v1/gateways" "" (header_Set ∅ "Authorization" auth) (mkBody "" None) 0
    "10.0.0.1:5000" [].

(** A handler that answers with the subject. *)
Definition echo_subject : Handler Z := λ r, Write (SubjectFromContext (Context r)).

Lemma key2_credentials (now : Z) :
  credentials sample_config now "ApiKey k2" "svc-2" "admin" AuthMethodAPIKey.
Proof.
  apply (by_key sample_config now "ApiKey k2" "ApiKey" "k2" (mkAPIKey "k2" "svc-2" "admin")
           [mkAPIKey "k1" "svc-1" "reader"] []); try reflexivity.
  intros e He. by apply elem_of_nil in He.
Qed.

Lemma Auth_spec_witness :
  (run_handler (Auth sample_config echo_subject) (request_with "ApiKey k2") 1700000000).1
    = mkResponse 200 ∅ "svc-2".
Proof.
  destruct (Auth_spec sample_config echo_subject (request_with "ApiKey k2") newResponseWriter 1700000000)
    as (s' & _ & Hyes & _).
  - apply unsent_new.
  - apply existsb_eqb_false. reflexivity.
  - destruct (Hyes "svc-2" "admin" AuthMethodAPIKey (key2_credentials 1700000000))
      as (r' & Heq & _ & Hsub & _).
    unfold run_handler. rewrite Heq. unfold echo_subject. rewrite Hsub. reflexivity.
Defined.

Lemma Auth_RequireRole_witness :
  resp_status (run_handler (Auth sample_config (RequireRole ["operator"] echo_subject))
                 (request_with "ApiKey k2") 1700000000).1 = 403.
Proof.
  destruct (Auth_RequireRole sample_config ["operator"] echo_subject (request_with "ApiKey k2")
              newResponseWriter 1700000000) as [H|[(sub & role & m & _ & _ & H)|[H _]]].
  - apply unsent_new.
  - apply existsb_eqb_false. reflexivity.
  - exfalso. destruct H as (sub & role & m & s' & Hc & Hr & _).
    destruct (credentials_functional _ _ _ _ _ _ _ _ _ _ Hc (key2_credentials 1700000000)) as (_ & -> & _).
    by apply list_elem_of_singleton in Hr.
  - unfold run_handler. destruct (Auth sample_config _ _ _) as [u [w' s']]. exact H.
  - exfalso. exact (H _ _ _ (key2_credentials 1700000000)).
Defined.

Lemma CreateJWT_Auth_witness :
  ∃ s', Auth sample_config echo_subject
    (request_with ("Bearer " ++ (CreateJWT "s3cret" "alice" "admin" "quantun" Hour 1700000000).1))
    (newResponseWriter, 1700000100) = (tt, (rw_Write newResponseWriter "alice", s')).
Proof.
  destruct (CreateJWT_Auth sample_config "alice" "admin" Hour 1700000000 1700000100 echo_subject
    (request_with ("Bearer " ++ (CreateJWT "s3cret" "alice" "admin" "quantun" Hour 1700000000).1))
    newResponseWriter) as (s' & Heq).
  - apply unsent_new.
  - apply existsb_eqb_false. reflexivity.
  - discriminate.
  - reflexivity.
  - reflexivity.
  - reflexivity.
  - discriminate.
  - vm_compute. by split.
  - vm_compute. by split.
  - vm_compute. by split.
  - unfold request_with. cbn [ReqHeader]. rewrite header_Get_Set. reflexivity.
  - exists s'. rewrite Heq. reflexivity.
Defined.

Lemma Auth_messages_witness :
  (run_handler (Auth sample_config echo_subject) (request_with "Basic dXNlcg==") 0).1
    = mkResponse 401 (header_Set ∅ "Content-Type" "application/json")
        (encode_line (error_json "unsupported auth scheme: Basic")).
Proof.
  destruct (Auth_messages sample_config echo_subject (request_with "Basic dXNlcg==") newResponseWriter 0
              "Basic" "dXNlcg==") as (_ & _ & Hs).
  - apply unsent_new.
  - apply existsb_eqb_false. reflexivity.
  - reflexivity.
  - destruct Hs as (Hu & _); [reflexivity|]. unfold run_handler. rewrite Hu by discriminate. reflexivity.
Defined.
