(* ===== verification/Helpers.v ===== *)
(** * API key configuration and pagination
    ([shared/go/middleware/helpers.go], [shared/go/middleware/pagination.go])

    [ParseAPIKeyEntries] with its round trip from formatted entries, and
    [ParsePagination] with the bounds every list endpoint relies on. *)

From S2P Require Import Prelude GoNum GoStrings GoTime Http Jwt Auth.

(** ** helpers.go *)

(** One iteration of the loop: an entry or a skip. *)
Definition parse_api_key_entry (entry : string) : option APIKeyEntry :=
  match SplitN ":" entry 3 with
  | [p0; p1; p2] => Some (mkAPIKey (TrimSpace p0) (TrimSpace p1) (TrimSpace p2))
  | _ => None
  end.

Definition ParseAPIKeyEntries (entries : list string) : list APIKeyEntry :=
  omap parse_api_key_entry entries.

(** The configuration string of an entry. *)
Definition format_api_key (e : APIKeyEntry) : string :=
  (ak_Key e ++ ":" ++ ak_Subject e ++ ":" ++ ak_Role e)%string.

(** ** pagination.go *)

Definition DefaultPageLimit : Z := 20.
Definition MaxPageLimit : Z := 100.
Definition MaxOffset : Z := 1000000.
Definition DefaultOffset : Z := 0.

Record Pagination := mkPagination { pg_Offset : Z; pg_Limit : Z }.

Definition ParsePagination (r : Request) : Pagination :=
  let '(offset, err) := Atoi (query_Get (RawQuery r) "offset") in
  let offset := if bool_decide (err ≠ None) || (offset <? 0) then DefaultOffset else offset in
  let offset := if MaxOffset <? offset then MaxOffset else offset in
  let '(limit, err) := Atoi (query_Get (RawQuery r) "limit") in
  let limit := if bool_decide (err ≠ None) || (limit <=? 0) then DefaultPageLimit else limit in
  let limit := if MaxPageLimit <? limit then MaxPageLimit else limit in
  mkPagination offset limit.

(** ** Lemmas *)

Lemma SplitN3_Some (c : ascii) (s x y z : string) :
  SplitN c s 3 = [x; y; z] ↔
  s = (x ++ String c (y ++ String c z))%string ∧ no_byte c x = true ∧ no_byte c y = true.
Proof.
  cbn [SplitN]. split.
  - destruct (Cut c s) as [[a r]|] eqn:E; [|done]. apply Cut_Some in E as [-> Ha].
    intros [= <- Hr]. destruct (Cut c r) as [[b t]|] eqn:E; [|done].
    apply Cut_Some in E as [-> Hb]. by injection Hr as <- <-.
  - intros (-> & Hx & Hy). by rewrite !Cut_app.
Qed.

(** Nothing to trim on either side. *)
Definition trimmed (s : string) : bool :=
  bool_decide (cut_any space_encodings s = None)
  && bool_decide (cut_any (map rev_string space_encodings) (rev_string s) = None).

Lemma TrimSpace_trimmed (s : string) : trimmed s = true → TrimSpace s = s.
Proof.
  intros [H1 H2]%andb_prop. apply bool_decide_eq_true in H1, H2.
  assert (Hid : ∀ ps fuel t, cut_any ps t = None → trim_with ps fuel t = t)
    by (intros ps [|fuel] t Ht; cbn [trim_with]; by rewrite ?Ht).
  unfold TrimSpace, TrimRightSpace, TrimLeftSpace. rewrite (Hid _ _ s H1), (Hid _ _ _ H2).
  apply rev_string_involutive.
Qed.

(** An entry whose configuration string can be read back. *)
Definition entry_wf (e : APIKeyEntry) : bool :=
  no_byte ":" (ak_Key e) && no_byte ":" (ak_Subject e)
  && trimmed (ak_Key e) && trimmed (ak_Subject e) && trimmed (ak_Role e).

Lemma parse_format_api_key (e : APIKeyEntry) :
  entry_wf e = true → parse_api_key_entry (format_api_key e) = Some e.
Proof.
  intros H. unfold entry_wf in H. bool_to_prop. unfold parse_api_key_entry, format_api_key.
  rewrite (proj2 (SplitN3_Some ":" _ (ak_Key e) (ak_Subject e) (ak_Role e))) by done.
  rewrite !TrimSpace_trimmed by assumption. destruct e; reflexivity.
Qed.

Lemma Parse_format_entries (es : list APIKeyEntry) :
  forallb entry_wf es = true → ParseAPIKeyEntries (map format_api_key es) = es.
Proof.
  induction es as [|e es IH]; [done|]. cbn [map forallb]. intros [He Hes]%andb_prop.
  unfold ParseAPIKeyEntries in *. cbn [omap list_omap]. by rewrite parse_format_api_key, IH.
Qed.

(** Digits and a sign survive [QueryUnescape] and the query separators. *)
Definition plain_byte (c : ascii) : bool := is_digit c || Ascii.eqb c "-".

Lemma Itoa_plain (n : Z) : string_forallb plain_byte (Itoa n) = true.
Proof.
  assert (Hd : ∀ m, string_forallb plain_byte (itoa_digits 20 m "") = true).
  { intros m. apply (string_forallb_impl is_digit); [|by apply itoa_digits_digits].
    intros c Hc. unfold plain_byte. by rewrite Hc. }
  unfold Itoa. destruct (n <? 0); [cbn [string_forallb]; by rewrite Hd|apply Hd].
Qed.

Lemma plain_no_byte (c : ascii) (s : string) :
  plain_byte c = false → string_forallb plain_byte s = true → no_byte c s = true.
Proof.
  intros Hc. apply string_forallb_impl. intros a Ha. apply negb_true_iff, Ascii.eqb_neq.
  intros ->. congruence.
Qed.

Lemma QueryUnescape_plain (s : string) :
  string_forallb plain_byte s = true → QueryUnescape s = Some s.
Proof.
  induction s as [|c s IH]; [done|]. cbn [string_forallb]. intros [Hc Hs]%andb_prop.
  cbn [QueryUnescape]. destruct (Ascii.eqb_spec c "%") as [->|_]; [done|]. rewrite IH by done.
  by destruct (Ascii.eqb_spec c "+") as [->|_].
Qed.

Lemma parse_setting_plain (k s : string) :
  string_forallb plain_byte s = true →
  no_byte ";" k = true → no_byte "=" k = true → QueryUnescape k = Some k →
  parse_setting (k ++ "=" ++ s) = Some (k, s).
Proof.
  intros Hs Hsemi Heq Hk. unfold parse_setting.
  rewrite no_byte_app, Hsemi. cbn [andb]. change ("=" ++ s)%string with (String "=" s).
  assert (no_byte ";" (String "=" s) = true) as ->.
  { unfold no_byte. cbn [string_forallb]. by apply (plain_no_byte ";" s). }
  destruct (String.eqb_spec (k ++ String "=" s) "") as [E|_]; [by destruct k|].
  cbn [negb orb]. rewrite Cut_app by done. by rewrite Hk, QueryUnescape_plain.
Qed.

(** The query string clients page with. *)
Definition page_query (offset limit : Z) : string :=
  ("offset=" ++ Itoa offset ++ "&limit=" ++ Itoa limit)%string.

Lemma page_query_Get (offset limit : Z) :
  query_Get (page_query offset limit) "offset" = Itoa offset
  ∧ query_Get (page_query offset limit) "limit" = Itoa limit.
Proof.
  assert (Hsplit : query_pairs (page_query offset limit)
                   = [("offset", Itoa offset); ("limit", Itoa limit)]).
  { unfold query_pairs, page_query.
    change ("offset=" ++ Itoa offset ++ "&limit=" ++ Itoa limit)%string
      with (("offset" ++ "=" ++ Itoa offset ++ String "&" ("limit" ++ "=" ++ Itoa limit)))%string.
    rewrite <- !app_assoc_string, Split_app, Split_single, !app_assoc_string.
    - cbn [omap list_omap].
      rewrite !parse_setting_plain by (reflexivity || apply Itoa_plain). done.
    - rewrite !no_byte_app. by rewrite (plain_no_byte "&" _ eq_refl (Itoa_plain limit)).
    - rewrite !no_byte_app. by rewrite (plain_no_byte "&" _ eq_refl (Itoa_plain offset)). }
  unfold query_Get. rewrite Hsplit. done.
Qed.

(** ** Properties *)

(** An entry with two colons or more: key and subject end at the first two, the
    role is the rest, and each part is trimmed of surrounding space. *)
Definition written_entry (s : string) (e : APIKeyEntry) : Prop :=
  ∃ key subject role,
    s = (key ++ ":" ++ subject ++ ":" ++ role)%string
    ∧ no_byte ":" key = true ∧ no_byte ":" subject = true
    ∧ e = mkAPIKey (TrimSpace key) (TrimSpace subject) (TrimSpace role).

(** The entries of a configuration: those that are written so, one each and in
    order; the others are skipped. *)
Inductive parsed_entries : list string → list APIKeyEntry → Prop :=
| parsed_nil : parsed_entries [] []
| parsed_entry s e rest es : written_entry s e → parsed_entries rest es → parsed_entries (s :: rest) (e :: es)
| parsed_skip s rest es : (∀ e, ¬ written_entry s e) → parsed_entries rest es → parsed_entries (s :: rest) es.

Lemma parse_api_key_entry_written (s : string) (e : APIKeyEntry) :
  parse_api_key_entry s = Some e ↔ written_entry s e.
Proof.
  unfold parse_api_key_entry, written_entry. split.
  - intros H. destruct (SplitN ":" s 3) as [|a [|b [|c [|]]]] eqn:E; try done.
    injection H as <-. apply SplitN3_Some in E as (-> & Ha & Hb). by exists a, b, c.
  - intros (k & u & r & -> & Hk & Hu & ->). by rewrite (proj2 (SplitN3_Some ":" _ k u r)).
Qed.

(** C39. [ParseAPIKeyEntries] gives the entries with two colons or more, one each
    and in the order of the configuration, and nothing else. *)
Theorem ParseAPIKeyEntries_spec (entries : list string) (es : list APIKeyEntry) :
  ParseAPIKeyEntries entries = es ↔ parsed_entries entries es.
Proof.
  unfold ParseAPIKeyEntries. split.
  - intros <-. induction entries as [|s entries IH]; cbn [omap list_omap]; [constructor|].
    destruct (parse_api_key_entry s) as [e|] eqn:Es; [constructor; [by apply parse_api_key_entry_written|exact IH]|].
    apply parsed_skip; [|exact IH]. intros e He%parse_api_key_entry_written. congruence.
  - induction 1 as [|s e rest es Hs _ IH|s rest es Hs _ IH]; cbn [omap list_omap]; [done|..].
    + apply parse_api_key_entry_written in Hs. by rewrite Hs, IH.
    + destruct (parse_api_key_entry s) as [e|] eqn:Es; [|exact IH].
      by apply parse_api_key_entry_written, Hs in Es.
Qed.

(** Pagination is bounded for every request, however malformed its query. *)
Theorem ParsePagination_bounds (r : Request) :
  0 ≤ pg_Offset (ParsePagination r) ≤ MaxOffset
  ∧ 1 ≤ pg_Limit (ParsePagination r) ≤ MaxPageLimit.
Proof.
  unfold ParsePagination, MaxOffset, MaxPageLimit, DefaultPageLimit, DefaultOffset.
  destruct (Atoi (query_Get (RawQuery r) "offset")) as [o eo].
  destruct (Atoi (query_Get (RawQuery r) "limit")) as [l el]. cbn [pg_Offset pg_Limit].
  destruct (bool_decide (eo ≠ None)); destruct (bool_decide (el ≠ None)); cbn [orb];
    repeat case_match; bool_to_prop; lia.
Qed.

(** C38. Requested pages are honoured: for every 64-bit offset and limit in the
    query the result is that offset and limit, but a negative offset is replaced by
    0, a limit below 1 by the default of 20, and those above the maxima by them. *)
Theorem ParsePagination_page_query (r : Request) (offset limit : Z) :
  RawQuery r = page_query offset limit →
  int64_min ≤ offset ≤ int64_max → int64_min ≤ limit ≤ int64_max →
  ParsePagination r =
    mkPagination (Z.min (Z.max offset 0) MaxOffset)
      (if limit <=? 0 then DefaultPageLimit else Z.min limit MaxPageLimit).
Proof.
  intros Hq Ho Hl. unfold ParsePagination. rewrite Hq.
  destruct (page_query_Get offset limit) as [-> ->]. rewrite !Atoi_Itoa by done.
  rewrite !bool_decide_eq_false_2 by (intros H; by apply H). cbn [orb].
  unfold MaxOffset, MaxPageLimit, DefaultPageLimit, DefaultOffset.
  f_equal; repeat case_match; bool_to_prop; lia.
Qed.

(** ** Witnesses *)

Lemma ParsePagination_page_query_witness :
  ParsePagination (mkRequest "GET" "/" (page_query 40 500) ∅ (mkBody "" None) 0 "" [])
    = mkPagination 40 100.
Proof.
  apply (ParsePagination_page_query
    (mkRequest "GET" "/" (page_query 40 500) ∅ (mkBody "" None) 0 "" []) 40 500); by vm_compute.
Defined.
