(* ===== verification/Security.v ===== *)
(** * Security headers, CORS and body limits ([shared/go/middleware/security.go])

    The three middleware with their configuration defaults, and [keeps], the
    property of a handler that lets the headers set before it runs reach the
    client. *)

From S2P Require Import Prelude GoNum GoStrings GoTime Json Http Respond.

(** ** SecurityHeaders *)

Record SecurityHeadersConfig := mkSecConfig {
  ContentSecurityPolicy : string;
  HSTSMaxAge : Z;
  FrameOptions : string
}.

Definition DefaultSecurityHeadersConfig : SecurityHeadersConfig :=
  mkSecConfig "default-src 'none'" 63072000 "DENY".

Definition or_default (s d : string) : string := if String.eqb s "" then d else s.

Definition hsts_value (cfg : SecurityHeadersConfig) : string :=
  if 0 <? HSTSMaxAge cfg then ("max-age=" ++ Itoa (HSTSMaxAge cfg) ++ "; includeSubDomains")%string
  else "".

Definition SecurityHeaders {S} (cfg : SecurityHeadersConfig) : Middleware S := λ next r,
  let csp := or_default (ContentSecurityPolicy cfg) "default-src 'none'" in
  let frame := or_default (FrameOptions cfg) "DENY" in
  let hstsValue := hsts_value cfg in
  Header_Set "X-Content-Type-Options" "nosniff" ;!
  Header_Set "X-Frame-Options" frame ;!
  Header_Set "X-XSS-Protection" "0" ;!
  Header_Set "Content-Security-Policy" csp ;!
  Header_Set "Referrer-Policy" "strict-origin-when-cross-origin" ;!
  Header_Set "Permissions-Policy" "geolocation=(), camera=(), microphone=()" ;!
  Header_Set "Cache-Control" "no-store" ;!
  (if negb (String.eqb hstsValue "") then Header_Set "Strict-Transport-Security" hstsValue
   else hreturn tt) ;!
  next r.

(** ** CORS *)

Record CORSConfig := mkCORSConfig {
  AllowedOrigins : list string;
  AllowedMethods : list string;
  AllowedHeaders : list string;
  ExposedHeaders : list string;
  AllowCredentials : bool;
  MaxAge : Z
}.

Definition DefaultCORSConfig : CORSConfig :=
  mkCORSConfig [] ["GET"; "POST"; "PUT"; "DELETE"; "OPTIONS"]
    ["Accept"; "Authorization"; "Content-Type"; "X-Request-ID"] ["X-Request-ID"] false 86400.

Definition with_origins (cfg : CORSConfig) (origins : list string) : CORSConfig :=
  mkCORSConfig origins (AllowedMethods cfg) (AllowedHeaders cfg) (ExposedHeaders cfg)
    (AllowCredentials cfg) (MaxAge cfg).

Definition is_wildcard (cfg : CORSConfig) : bool := existsb (String.eqb "*") (AllowedOrigins cfg).

(** The defaults [CORS] fills in; credentials are dropped with a wildcard. *)
Definition normalize_cors (cfg : CORSConfig) : CORSConfig :=
  mkCORSConfig (AllowedOrigins cfg)
    (if len_list (AllowedMethods cfg) =? 0 then ["GET"; "POST"; "PUT"; "DELETE"; "OPTIONS"]
     else AllowedMethods cfg)
    (if len_list (AllowedHeaders cfg) =? 0 then ["Accept"; "Authorization"; "Content-Type"]
     else AllowedHeaders cfg)
    (ExposedHeaders cfg)
    (if is_wildcard cfg && AllowCredentials cfg then false else AllowCredentials cfg)
    (if MaxAge cfg =? 0 then 86400 else MaxAge cfg).

(** [if cond { action }] *)
Definition when {S} (cond : bool) (action : hio S unit) : hio S unit :=
  if cond then action else hreturn tt.

Definition CORS {S} (cfg : CORSConfig) : Middleware S := λ next r,
  let wildcard := is_wildcard cfg in
  let cfg := normalize_cors cfg in
  let methodsStr := Join (AllowedMethods cfg) ", " in
  let headersStr := Join (AllowedHeaders cfg) ", " in
  let exposedStr := Join (ExposedHeaders cfg) ", " in
  let maxAgeStr := Itoa (MaxAge cfg) in
  let origin := header_Get (ReqHeader r) "Origin" in
  if String.eqb origin "" then next r
  else
    let allowed := wildcard || existsb (String.eqb origin) (AllowedOrigins cfg) in
    if negb allowed then next r
    else
      (if wildcard then Header_Set "Access-Control-Allow-Origin" "*"
       else Header_Set "Access-Control-Allow-Origin" origin ;! Header_Add "Vary" "Origin") ;!
      when (AllowCredentials cfg) (Header_Set "Access-Control-Allow-Credentials" "true") ;!
      when (negb (String.eqb exposedStr "")) (Header_Set "Access-Control-Expose-Headers" exposedStr) ;!
      if String.eqb (Method r) "OPTIONS" then
        Header_Set "Access-Control-Allow-Methods" methodsStr ;!
        Header_Set "Access-Control-Allow-Headers" headersStr ;!
        Header_Set "Access-Control-Max-Age" maxAgeStr ;!
        WriteHeader 204
      else next r.

(** ** MaxBodySize *)

Definition MaxBodySize {S} (maxBytes : Z) : Middleware S := λ next r,
  if maxBytes <? ContentLength r then
    writeAuthError 413 ("request body too large (max " ++ Itoa maxBytes ++ " bytes)")
  else next (with_body r (MaxBytesReader (Body r) maxBytes)).

(** ** Specification *)

(** The headers a response must carry under a configuration. *)
Definition security_headers (cfg : SecurityHeadersConfig) : list (string * string) :=
  [ ("X-Content-Type-Options", "nosniff");
    ("X-Frame-Options", or_default (FrameOptions cfg) "DENY");
    ("X-XSS-Protection", "0");
    ("Content-Security-Policy", or_default (ContentSecurityPolicy cfg) "default-src 'none'");
    ("Referrer-Policy", "strict-origin-when-cross-origin");
    ("Permissions-Policy", "geolocation=(), camera=(), microphone=()");
    ("Cache-Control", "no-store") ]
  ++ (if 0 <? HSTSMaxAge cfg then [("Strict-Transport-Security", hsts_value cfg)] else []).

Definition security_names : list string :=
  [ "X-Content-Type-Options"; "X-Frame-Options"; "X-XSS-Protection"; "Content-Security-Policy";
    "Referrer-Policy"; "Permissions-Policy"; "Cache-Control"; "Strict-Transport-Security" ].

(** Cross-origin access granted to a request. *)
Definition cors_allowed (cfg : CORSConfig) (origin : string) : Prop :=
  origin ≠ "" ∧ ("*" ∈ AllowedOrigins cfg ∨ origin ∈ AllowedOrigins cfg).

Definition cors_names : list string :=
  ["Access-Control-Allow-Origin"; "Access-Control-Allow-Credentials"].

(** ** Handlers that keep headers

    [m] leaves the headers [K] as they are, in the map and in what it sends. *)
Definition keeps (K : list string) {S A} (m : hio S A) : Prop :=
  ∀ w s, let w' := (m (w, s)).2.1 in
    (∀ k, k ∈ K → header_Get (rw_header w') k = header_Get (rw_header w) k)
    ∧ match rw_sent w with
      | Some sent => rw_sent w' = Some sent
      | None => ∀ k, k ∈ K → header_Get (sent_header w') k = header_Get (rw_header w) k
      end.

(** [k] is none of the headers [K]. *)
Definition other_than (K : list string) (k : string) : bool :=
  forallb (λ k', negb (String.eqb (CanonicalHeaderKey k) (CanonicalHeaderKey k'))) K.

Lemma other_than_ne (K : list string) (k k' : string) :
  other_than K k = true → k' ∈ K → CanonicalHeaderKey k ≠ CanonicalHeaderKey k'.
Proof.
  unfold other_than. rewrite forallb_forall. intros H Hk'. apply list_elem_of_In in Hk'.
  specialize (H k' Hk'). by bool_to_prop.
Qed.

Section keeps.
Context {S : Type} (K : list string).

Lemma keeps_hreturn {A} (a : A) : keeps K (hreturn a : hio S A).
Proof. intros w s. cbn. split; [done|]. unfold sent_header. by destruct (rw_sent w). Qed.

Lemma keeps_hseq {A B} (m : hio S A) (k : A → hio S B) :
  keeps K m → (∀ a, keeps K (k a)) → keeps K (hseq m k).
Proof.
  intros Hm Hk w s. specialize (Hm w s). rewrite run_hseq. destruct (m (w, s)) as [a [w1 s1]].
  cbn [fst snd] in Hm. specialize (Hk a w1 s1). destruct (k a (w1, s1)) as [b [w2 s2]].
  cbn [fst snd] in *. destruct Hm as [H1 H2], Hk as [H3 H4]. split.
  - intros x Hx. by rewrite H3, H1.
  - destruct (rw_sent w) as [sent|].
    + by rewrite H2 in H4.
    + intros x Hx. unfold sent_header in H2. destruct (rw_sent w1) as [[st h]|].
      * unfold sent_header. rewrite H4. by apply H2.
      * by rewrite H4, H2.
Qed.

Lemma keeps_on_state {A} (m : M S A) : keeps K (on_state m).
Proof. intros w s. rewrite run_on_state. destruct (m s). by apply (keeps_hreturn tt w s). Qed.

Lemma keeps_update (f : Header → Header) :
  (∀ h k, k ∈ K → header_Get (f h) k = header_Get h k) →
  keeps K (on_writer (rw_update_header f) : hio S unit).
Proof.
  intros Hf w s. cbn. split; [intros k Hk; by apply Hf|].
  unfold sent_header. cbn. destruct (rw_sent w); [done|]. intros k Hk. by apply Hf.
Qed.

Lemma keeps_Header_Set (k v : string) : other_than K k = true → keeps K (Header_Set k v : hio S unit).
Proof.
  intros H. apply keeps_update. intros h k' Hk'. by apply header_Get_Set_ne, (other_than_ne K).
Qed.

Lemma keeps_Header_Add (k v : string) : other_than K k = true → keeps K (Header_Add k v : hio S unit).
Proof.
  intros H. apply keeps_update. intros h k' Hk'. by apply header_Get_Add_ne, (other_than_ne K).
Qed.

Lemma keeps_WriteHeader (st : Z) : keeps K (WriteHeader st : hio S unit).
Proof.
  intros [h sent b] s. unfold WriteHeader, on_writer, rw_WriteHeader. by destruct sent as [[]|].
Qed.

Lemma keeps_Write (data : string) : keeps K (Write data : hio S unit).
Proof.
  intros [h sent b] s. unfold Write, on_writer, rw_Write, rw_WriteHeader.
  by destruct sent as [[]|].
Qed.

Lemma keeps_when (b : bool) (m : hio S unit) : keeps K m → keeps K (when b m).
Proof. intros H. destruct b; [done|apply keeps_hreturn]. Qed.

Lemma keeps_writeJSON (st : Z) (v : json) :
  other_than K "Content-Type" = true → keeps K (writeJSON st v : hio S unit).
Proof.
  intros H. unfold writeJSON. repeat (apply keeps_hseq; [|intros _]);
    [by apply keeps_Header_Set|apply keeps_WriteHeader|apply keeps_Write].
Qed.

Lemma keeps_finish (m : hio S unit) (w : ResponseWriter) (s : S) (k : string) :
  keeps K m → rw_sent w = None → k ∈ K →
  header_Get (resp_header (finish (m (w, s)).2.1)) k = header_Get (rw_header w) k.
Proof.
  intros Hm Hw Hk. rewrite finish_eq. cbn [resp_header]. specialize (Hm w s) as [_ H].
  rewrite Hw in H. by apply H.
Qed.
End keeps.

Lemma keeps_writeAuthError {S} (K : list string) (st : Z) (msg : string) :
  other_than K "Content-Type" = true → keeps K (writeAuthError st msg : hio S unit).
Proof. apply keeps_writeJSON. Qed.

Lemma keeps_writeError {S} (K : list string) (st : Z) (msg : string) :
  other_than K "Content-Type" = true → keeps K (writeError st msg : hio S unit).
Proof. apply keeps_writeJSON. Qed.

Lemma keeps_incl {S A} (K K' : list string) (m : hio S A) : K' ⊆ K → keeps K m → keeps K' m.
Proof.
  intros Hsub Hm w s. specialize (Hm w s). cbv zeta in *. destruct Hm as [H1 H2]. split.
  - intros k Hk. by apply H1, Hsub.
  - destruct (rw_sent w); [done|]. intros k Hk. by apply H2, Hsub.
Qed.

Create HintDb keeps discriminated.
#[export] Hint Resolve keeps_hreturn keeps_on_state keeps_WriteHeader keeps_Write keeps_when : keeps.
#[export] Hint Resolve keeps_Header_Set keeps_Header_Add keeps_writeJSON keeps_writeAuthError
  keeps_writeError : keeps.
#[export] Hint Extern 1 (other_than _ _ = true) => vm_compute; reflexivity : keeps.

(** Walk a handler's body: sequences, tests and matches down to the primitives. *)
Ltac solve_keeps :=
  repeat first
    [ progress cbv zeta
    | solve [eauto 2 with keeps]
    | apply keeps_when
    | apply keeps_hseq; [|intros ?]
    | match goal with
      | |- keeps _ (if ?b then _ else _) => destruct b
      | |- keeps _ (match ?x with _ => _ end) => destruct x
      end ].

(** ** Lemmas: the middleware as equations *)

(** The header map after [SecurityHeaders]. *)
Definition with_security_headers (cfg : SecurityHeadersConfig) (h : Header) : Header :=
  fold_left (λ h kv, header_Set h kv.1 kv.2) (security_headers cfg) h.

Lemma hsts_value_nonempty (cfg : SecurityHeadersConfig) :
  negb (String.eqb (hsts_value cfg) "") = (0 <? HSTSMaxAge cfg).
Proof. unfold hsts_value. by destruct (0 <? HSTSMaxAge cfg). Qed.

Lemma SecurityHeaders_eq {S} (cfg : SecurityHeadersConfig) (next : Handler S) (r : Request)
    (w : ResponseWriter) (s : S) :
  SecurityHeaders cfg next r (w, s) = next r (rw_update_header (with_security_headers cfg) w, s).
Proof.
  unfold SecurityHeaders, with_security_headers, security_headers. cbv zeta.
  rewrite hsts_value_nonempty. by destruct (0 <? HSTSMaxAge cfg).
Qed.

Lemma with_security_headers_Get (cfg : SecurityHeadersConfig) (h : Header) (k v : string) :
  (k, v) ∈ security_headers cfg → header_Get (with_security_headers cfg h) k = v.
Proof.
  unfold with_security_headers, security_headers. intros H.
  destruct (0 <? HSTSMaxAge cfg); cbn [app fold_left fst snd] in *;
    repeat (apply elem_of_cons in H as [[= -> ->]|H]; [by header_simpl|]);
    by apply elem_of_nil in H.
Qed.

Lemma security_headers_names (cfg : SecurityHeadersConfig) (k v : string) :
  (k, v) ∈ security_headers cfg → k ∈ security_names.
Proof.
  unfold security_headers, security_names. intros H.
  destruct (0 <? HSTSMaxAge cfg); set_solver.
Qed.

(** The headers [CORS] sets on every granted response. *)
Definition cors_headers (cfg : CORSConfig) (origin : string) (h : Header) : Header :=
  let c := normalize_cors cfg in
  let h := if is_wildcard cfg then header_Set h "Access-Control-Allow-Origin" "*"
           else header_Add (header_Set h "Access-Control-Allow-Origin" origin) "Vary" "Origin" in
  let h := if AllowCredentials c then header_Set h "Access-Control-Allow-Credentials" "true" else h in
  if String.eqb (Join (ExposedHeaders c) ", ") "" then h
  else header_Set h "Access-Control-Expose-Headers" (Join (ExposedHeaders c) ", ").

Definition preflight_headers (cfg : CORSConfig) (h : Header) : Header :=
  let c := normalize_cors cfg in
  header_Set (header_Set (header_Set h "Access-Control-Allow-Methods" (Join (AllowedMethods c) ", "))
    "Access-Control-Allow-Headers" (Join (AllowedHeaders c) ", "))
    "Access-Control-Max-Age" (Itoa (MaxAge c)).

Lemma is_wildcard_true (cfg : CORSConfig) : is_wildcard cfg = true ↔ "*" ∈ AllowedOrigins cfg.
Proof. apply existsb_eqb. Qed.

#[export] Instance cors_allowed_dec (cfg : CORSConfig) (origin : string) :
  Decision (cors_allowed cfg origin).
Proof. unfold cors_allowed. apply _. Defined.

Lemma CORS_eq {S} (cfg : CORSConfig) (next : Handler S) (r : Request) (w : ResponseWriter) (s : S) :
  CORS cfg next r (w, s) =
    let origin := header_Get (ReqHeader r) "Origin" in
    if decide (cors_allowed cfg origin) then
      if String.eqb (Method r) "OPTIONS" then
        (tt, (rw_WriteHeader (rw_update_header (λ h, preflight_headers cfg (cors_headers cfg origin h)) w) 204, s))
      else next r (rw_update_header (cors_headers cfg origin) w, s)
    else next r (w, s).
Proof.
  unfold CORS. cbv zeta. set (origin := header_Get _ _). clearbody origin.
  assert (Hdec : (negb (String.eqb origin "")
                  && (is_wildcard cfg || existsb (String.eqb origin) (AllowedOrigins (normalize_cors cfg)))) = true
                 ↔ cors_allowed cfg origin).
  { unfold cors_allowed. rewrite andb_true_iff, orb_true_iff, negb_true_iff, String.eqb_neq.
    by rewrite is_wildcard_true, existsb_eqb. }
  destruct (decide (cors_allowed cfg origin)) as [Ha|Ha].
  - apply Hdec in Ha. bool_to_prop. destruct (String.eqb_spec origin "") as [|_]; [done|].
    rewrite H0. cbn [negb]. unfold cors_headers, preflight_headers.
    destruct (is_wildcard cfg), (AllowCredentials _), (String.eqb (Join (ExposedHeaders _) ", ") ""),
      (String.eqb (Method r) "OPTIONS"); reflexivity.
  - destruct (String.eqb_spec origin "") as [|Hne]; [done|].
    destruct (_ || _); [|done]. exfalso. apply Ha, Hdec. by rewrite andb_true_r.
Qed.

(** Credentials are never allowed together with a wildcard. *)
Lemma normalize_cors_credentials (cfg : CORSConfig) :
  AllowCredentials (normalize_cors cfg) = true → is_wildcard cfg = false ∧ AllowCredentials cfg = true.
Proof. unfold normalize_cors. cbn. by destruct (is_wildcard cfg), (AllowCredentials cfg). Qed.

Lemma cors_headers_origin (cfg : CORSConfig) (origin : string) (h : Header) :
  header_Get (cors_headers cfg origin h) "Access-Control-Allow-Origin"
    = (if is_wildcard cfg then "*" else origin)
  ∧ header_Get (cors_headers cfg origin h) "Access-Control-Allow-Credentials"
    = (if AllowCredentials (normalize_cors cfg) then "true"
       else header_Get h "Access-Control-Allow-Credentials").
Proof.
  unfold cors_headers. cbv zeta.
  destruct (is_wildcard cfg), (AllowCredentials _), (String.eqb _ ""); split; by header_simpl.
Qed.

(** ** Properties *)

(** Every response of a handler that leaves them alone carries the
    configured security headers, whatever else the handler answers. *)
Theorem SecurityHeaders_response {S} (cfg : SecurityHeadersConfig) (next : Handler S) (r : Request)
    (s : S) (k v : string) :
  keeps security_names (next r) → (k, v) ∈ security_headers cfg →
  header_Get (resp_header (run_handler (SecurityHeaders cfg next) r s).1) k = v.
Proof.
  intros Hn Hk. unfold run_handler. rewrite SecurityHeaders_eq.
  pose proof (keeps_finish security_names (next r)
    (rw_update_header (with_security_headers cfg) newResponseWriter) s k Hn eq_refl
    (security_headers_names _ _ _ Hk)) as H.
  destruct (next r _) as [u [w' s']]. cbn [fst snd] in *. rewrite H.
  by apply with_security_headers_Get.
Qed.

(** C27. The cross-origin policy: a response grants access to the request's origin
    exactly when it is listed or a wildcard is configured, and credentials only
    to listed origins, never under a wildcard. *)
Theorem CORS_policy {S} (cfg : CORSConfig) (next : Handler S) (r : Request) (s : S) :
  keeps cors_names (next r) →
  let origin := header_Get (ReqHeader r) "Origin" in
  let resp := (run_handler (CORS cfg next) r s).1 in
  header_Get (resp_header resp) "Access-Control-Allow-Origin"
    = (if decide (cors_allowed cfg origin) then
         if decide ("*" ∈ AllowedOrigins cfg) then "*" else origin
       else "")
  ∧ (header_Get (resp_header resp) "Access-Control-Allow-Credentials" = "true" ↔
       cors_allowed cfg origin ∧ "*" ∉ AllowedOrigins cfg ∧ AllowCredentials cfg = true).
Proof.
  intros Hn origin resp. subst resp. unfold run_handler. rewrite CORS_eq. cbv zeta. fold origin.
  assert (Hw : ∀ w, rw_sent w = None →
    ∀ k, k ∈ cors_names →
      header_Get (resp_header (let '(_, (w', s')) := next r (w, s) in (finish w', s')).1) k
        = header_Get (rw_header w) k).
  { intros w Hsent k Hk. pose proof (keeps_finish cors_names (next r) w s k Hn Hsent Hk) as H.
    by destruct (next r (w, s)) as [u [w' s']]. }
  assert (Hc : AllowCredentials (normalize_cors cfg) = true ↔ "*" ∉ AllowedOrigins cfg ∧ AllowCredentials cfg = true).
  { rewrite <- is_wildcard_true. unfold normalize_cors. cbn.
    destruct (is_wildcard cfg), (AllowCredentials cfg); cbn; naive_solver. }
  destruct (decide (cors_allowed cfg origin)) as [Ha|Ha].
  - destruct (cors_headers_origin cfg origin ∅) as [Ho Hcr].
    assert (Hwild : (if decide ("*" ∈ AllowedOrigins cfg) then "*" else origin)
                    = if is_wildcard cfg then "*" else origin).
    { pose proof (is_wildcard_true cfg). case_decide; destruct (is_wildcard cfg); naive_solver. }
    rewrite Hwild. destruct (String.eqb (Method r) "OPTIONS").
    + rewrite finish_eq. cbn -[cors_headers header_Get header_Set preflight_headers is_wildcard].
      unfold preflight_headers. header_simpl. rewrite Ho, Hcr, header_Get_empty.
      split; [done|]. destruct (AllowCredentials (normalize_cors cfg)); naive_solver.
    + rewrite !Hw by (done || set_solver). cbn [rw_header rw_update_header newResponseWriter].
      rewrite Ho, Hcr, header_Get_empty. split; [done|].
      destruct (AllowCredentials (normalize_cors cfg)); naive_solver.
  - rewrite !Hw by (done || set_solver). cbn [rw_header newResponseWriter]. rewrite !header_Get_empty.
    split; [done|]. naive_solver.
Qed.

(** Preflight: an OPTIONS request from an allowed origin is answered 204 with
    the configured methods and headers, without running the handler. *)
Theorem CORS_preflight {S} (cfg : CORSConfig) (next : Handler S) (r : Request) (s : S) :
  cors_allowed cfg (header_Get (ReqHeader r) "Origin") → Method r = "OPTIONS" →
  let '(resp, s') := run_handler (CORS cfg next) r s in
  s' = s ∧ resp_status resp = 204 ∧ resp_body resp = ""
  ∧ header_Get (resp_header resp) "Access-Control-Allow-Methods"
      = Join (AllowedMethods (normalize_cors cfg)) ", "
  ∧ header_Get (resp_header resp) "Access-Control-Allow-Headers"
      = Join (AllowedHeaders (normalize_cors cfg)) ", "
  ∧ header_Get (resp_header resp) "Access-Control-Max-Age" = Itoa (MaxAge (normalize_cors cfg)).
Proof.
  intros Ha Hm. unfold run_handler. rewrite CORS_eq. cbv zeta. rewrite decide_True by done.
  rewrite Hm. cbn -[cors_headers preflight_headers header_Get]. unfold preflight_headers.
  repeat split; by header_simpl.
Qed.

(** C40. Body limit: a request that declares more than [maxBytes] is answered 413
    and the handler is not run; any other reaches the handler with a body that
    delivers at most [maxBytes] bytes, and all of them when there are no more. *)
Theorem MaxBodySize_spec {S} (maxBytes : Z) (next : Handler S) (r : Request)
    (w : ResponseWriter) (s : S) :
  unsent w → 0 ≤ maxBytes → b_limit (Body r) = None →
  if decide (maxBytes < ContentLength r) then
    ∃ w', MaxBodySize maxBytes next r (w, s) = (tt, (w', s)) ∧ resp_status (finish w') = 413
  else
    ∃ r', MaxBodySize maxBytes next r (w, s) = next r' (w, s)
      ∧ r' = with_body r (Body r')
      ∧ len (body_read (Body r')).1 ≤ maxBytes
      ∧ (len (b_data (Body r)) ≤ maxBytes → body_read (Body r') = (b_data (Body r), true))
      ∧ (maxBytes < len (b_data (Body r)) → (body_read (Body r')).2 = false).
Proof.
  intros Hw Hm Hb. unfold MaxBodySize. case_decide as Hc.
  - rewrite (proj2 (Z.ltb_lt _ _) Hc). eexists. by rewrite writeAuthError_eq.
  - rewrite (proj2 (Z.ltb_ge _ _)) by lia. eexists. split; [reflexivity|]. split; [done|].
    cbn [Body with_body]. split.
    { pose proof (body_read_limit (Body r) maxBytes). lia. }
    unfold body_read, MaxBytesReader. rewrite Hb. cbn [b_limit b_data]. rewrite Z.max_r by done.
    split; intros H; [by rewrite (proj2 (Z.leb_le _ _) H)|by rewrite (proj2 (Z.leb_gt _ _) H)].
Qed.

(** ** Witnesses *)

Definition cross_origin (method origin : string) : Request :=
  mkRequest method "/api/v1/gateways" "" (header_Set ∅ "Origin" origin) (mkBody "payload" None) 7 "10.0.0.1:5000" [].

Definition no_content : Handler unit := λ _, WriteHeader 204.

(** Two origins, credentials allowed. *)
Definition listed_origins : CORSConfig :=
  mkCORSConfig ["https://a.example"; "https://b.example"] [] [] [] true 0.

Lemma SecurityHeaders_response_witness :
  header_Get (resp_header (run_handler (SecurityHeaders DefaultSecurityHeadersConfig no_content)
    (cross_origin "GET" "") tt).1) "Strict-Transport-Security" = "max-age=63072000; includeSubDomains".
Proof.
  apply (SecurityHeaders_response DefaultSecurityHeadersConfig no_content (cross_origin "GET" "") tt).
  - apply keeps_WriteHeader.
  - set_solver.
Defined.

Lemma CORS_policy_witness :
  header_Get (resp_header (run_handler (CORS listed_origins no_content)
    (cross_origin "GET" "https://b.example") tt).1) "Access-Control-Allow-Origin" = "https://b.example".
Proof.
  destruct (CORS_policy listed_origins no_content (cross_origin "GET" "https://b.example") tt) as [H _].
  - apply keeps_WriteHeader.
  - rewrite H. vm_compute. reflexivity.
Defined.

Lemma CORS_preflight_witness :
  resp_status (run_handler (CORS listed_origins no_content)
    (cross_origin "OPTIONS" "https://a.example") tt).1 = 204.
Proof.
  pose proof (CORS_preflight listed_origins no_content (cross_origin "OPTIONS" "https://a.example") tt) as H.
  destruct (run_handler _ _ _) as [resp s'].
  apply H; [|reflexivity].
  split; [discriminate|right; by apply list_elem_of_here].
Defined.

Lemma MaxBodySize_spec_witness :
  ∃ r', MaxBodySize 4 no_content (with_body (mkRequest "POST" "/" "" ∅ (mkBody "" None) (-1) "" []) (mkBody "payload" None))
          (newResponseWriter, tt) = no_content r' (newResponseWriter, tt)
        ∧ len (body_read (Body r')).1 ≤ 4 ∧ (body_read (Body r')).2 = false.
Proof.
  pose proof (MaxBodySize_spec 4 no_content
    (with_body (mkRequest "POST" "/" "" ∅ (mkBody "" None) (-1) "" []) (mkBody "payload" None))
    newResponseWriter tt unsent_new ltac:(lia) eq_refl) as H.
  rewrite decide_False in H by (vm_compute; discriminate).
  destruct H as (r' & H1 & _ & H2 & _ & H3). exists r'. split; [exact H1|].
  split; [exact H2|]. by apply H3.
Defined.
