(* ===== verification/Config.v ===== *)
(** * Configuration ([control-plane/internal/config/config.go])

    [Load] as a function of the process environment.  The properties: when it
    fails, what it fills in, and that API keys written to the environment are
    the API keys the authentication middleware gets. *)

From S2P Require Import Prelude GoNum GoStrings GoTime Jwt Auth Helpers.

(** [os.LookupEnv] *)
Definition Env : Type := string → option string.

Record Config := mkConfig {
  Port : string;
  DatabaseURL : string;
  EtcdAddr : string;
  LogLevel : string;
  cfg_JWTSecret : string;
  cfg_JWTIssuer : string;
  cfg_APIKeys : list string;
  CORSOrigins : list string;
  MaxBodyBytes : Z
}.

Definition getEnv (env : Env) (key defaultValue : string) : string :=
  match env key with Some value => value | None => defaultValue end.

Inductive config_error := ErrDatabaseURLRequired.

(** A comma-separated list; the empty string is no list. *)
Definition comma_list (s : string) : list string :=
  if negb (String.eqb s "") then Split "," s else [].

Definition Load (env : Env) : result Config config_error :=
  let databaseURL := getEnv env "QSGW_DATABASE_URL" "" in
  reject_if (String.eqb databaseURL "") ErrDatabaseURLRequired ;?
  let apiKeysStr := getEnv env "QUANTUN_API_KEYS" "" in
  let corsStr := getEnv env "QUANTUN_CORS_ORIGINS" "" in
  Ok (mkConfig
    (getEnv env "QSGW_PORT" "8085")
    databaseURL
    (getEnv env "QSGW_ETCD_ADDR" "http://127.0.0.1:2379")
    (getEnv env "QSGW_LOG_LEVEL" "info")
    (getEnv env "QUANTUN_JWT_SECRET" "")
    (getEnv env "QUANTUN_JWT_ISSUER" "quantun")
    (comma_list apiKeysStr)
    (comma_list corsStr)
    (Z.shiftl 1 20)).

(** ** Lemmas *)

Lemma Split_Join (c : ascii) (l : list string) :
  l ≠ [] → forallb (no_byte c) l = true → Split c (Join l (String c "")) = l.
Proof.
  induction l as [|s l IH]; [done|]. intros _. cbn [forallb]. intros [Hs Hl]%andb_prop.
  destruct l as [|t l]; [by apply Split_single|].
  change (Join (s :: t :: l) (String c "")) with (s ++ String c "" ++ Join (t :: l) (String c ""))%string.
  rewrite app_cons_string, app_nil_string, Split_app by done. by rewrite IH.
Qed.

Lemma no_byte_format (c : ascii) (e : APIKeyEntry) :
  c ≠ ":"%char →
  no_byte c (format_api_key e) = no_byte c (ak_Key e) && no_byte c (ak_Subject e) && no_byte c (ak_Role e).
Proof.
  intros Hc. unfold format_api_key. rewrite !no_byte_app.
  assert (no_byte c ":" = true) as ->.
  { unfold no_byte. cbn [string_forallb]. by rewrite (proj2 (Ascii.eqb_neq _ _)) by congruence. }
  by rewrite !andb_assoc, !andb_true_r.
Qed.

(** An entry whose text has no comma either. *)
Definition env_entry_wf (e : APIKeyEntry) : bool :=
  entry_wf e && no_byte "," (ak_Key e) && no_byte "," (ak_Subject e) && no_byte "," (ak_Role e).

Lemma Load_Ok (env : Env) (cfg : Config) :
  Load env = Ok cfg →
  cfg_APIKeys cfg = comma_list (getEnv env "QUANTUN_API_KEYS" "")
  ∧ cfg_JWTSecret cfg = getEnv env "QUANTUN_JWT_SECRET" ""
  ∧ DatabaseURL cfg ≠ "" ∧ MaxBodyBytes cfg = 1048576.
Proof.
  intros H. unfold Load in H. ok_step H as [] Hu. apply reject_if_Ok in Hu. bool_to_prop.
  by injection H as <-.
Qed.

(** ** Properties *)

(** [Load] fails exactly when no database is configured; otherwise every
    variable that is set is taken as it is and every other has its default. *)
Theorem Load_spec (env : Env) :
  match Load env with
  | Err e => e = ErrDatabaseURLRequired ∧ (env "QSGW_DATABASE_URL" = None ∨ env "QSGW_DATABASE_URL" = Some "")
  | Ok cfg =>
      env "QSGW_DATABASE_URL" = Some (DatabaseURL cfg) ∧ DatabaseURL cfg ≠ ""
      ∧ Port cfg = default "8085" (env "QSGW_PORT")
      ∧ cfg_JWTSecret cfg = default "" (env "QUANTUN_JWT_SECRET")
      ∧ cfg_JWTIssuer cfg = default "quantun" (env "QUANTUN_JWT_ISSUER")
      ∧ (cfg_APIKeys cfg = [] ↔ env "QUANTUN_API_KEYS" = None ∨ env "QUANTUN_API_KEYS" = Some "")
      ∧ (CORSOrigins cfg = [] ↔ env "QUANTUN_CORS_ORIGINS" = None ∨ env "QUANTUN_CORS_ORIGINS" = Some "")
      ∧ MaxBodyBytes cfg = 1048576
  end.
Proof.
  assert (Hempty : ∀ key, comma_list (getEnv env key "") = [] ↔ env key = None ∨ env key = Some "").
  { intros key. unfold comma_list, getEnv. destruct (env key) as [v|]; [|naive_solver].
    pose proof (Split_nonempty "," v). destruct (String.eqb_spec v ""); cbn [negb]; naive_solver. }
  unfold Load, getEnv at 1. destruct (env "QSGW_DATABASE_URL") as [u|] eqn:Eu; [|by cbn; auto].
  destruct (String.eqb_spec u "") as [->|Hne]; [cbn; auto|].
  cbn [reject_if rbind]. cbn [DatabaseURL Port cfg_JWTSecret cfg_JWTIssuer cfg_APIKeys CORSOrigins MaxBodyBytes].
  rewrite !Hempty. unfold getEnv. rewrite Eu. repeat split; try done; try tauto.
Qed.

(** C28. Round trip: API keys written to [QUANTUN_API_KEYS] in the documented
    format are, after [Load] and [ParseAPIKeyEntries], the entries the
    authentication middleware checks against, in order. *)
Theorem api_keys_roundtrip (env : Env) (cfg : Config) (entries : list APIKeyEntry) :
  Load env = Ok cfg → entries ≠ [] → forallb env_entry_wf entries = true →
  env "QUANTUN_API_KEYS" = Some (Join (map format_api_key entries) ",") →
  ParseAPIKeyEntries (cfg_APIKeys cfg) = entries.
Proof.
  intros Hl Hne Hwf Henv. apply Load_Ok in Hl as [-> _].
  assert (Hent : forallb entry_wf entries = true ∧ forallb (no_byte ",") (map format_api_key entries) = true).
  { clear Hne Henv. induction entries as [|e es IH]; [done|]. cbn [forallb map] in *.
    apply andb_prop in Hwf as [He Hes]. destruct (IH Hes) as [-> ->]. unfold env_entry_wf in He.
    bool_to_prop. rewrite no_byte_format by done. rewrite H, H0, H1, H2. done. }
  destruct Hent as [Hent Hcomma]. unfold getEnv. rewrite Henv. unfold comma_list.
  destruct (String.eqb_spec (Join (map format_api_key entries) ",") "") as [E|_].
  - exfalso. pose proof (Split_Join "," (map format_api_key entries)) as Hs.
    rewrite E in Hs. destruct entries as [|[k s r] es]; [done|].
    specialize (Hs ltac:(done) Hcomma). cbn in Hs. injection Hs as Hs _. by destruct k.
  - cbn [negb]. rewrite Split_Join; [by apply Parse_format_entries| |done]. by destruct entries.
Qed.

(** ** Witnesses *)

Definition two_keys : list APIKeyEntry :=
  [mkAPIKey "k1" "svc-1" "reader"; mkAPIKey "k2" "svc-2" "admin"].

Definition sample_env : Env := λ key,
  if String.eqb key "QSGW_DATABASE_URL" then Some "postgres://localhost/qsgw"
  else if String.eqb key "QUANTUN_API_KEYS" then Some (Join (map format_api_key two_keys) ",")
  else None.

Definition sample_cfg : Config :=
  mkConfig "8085" "postgres://localhost/qsgw" "http://127.0.0.1:2379" "info" "" "quantun"
    ["k1:svc-1:reader"; "k2:svc-2:admin"] [] 1048576.

Lemma api_keys_roundtrip_witness : ParseAPIKeyEntries (cfg_APIKeys sample_cfg) = two_keys.
Proof.
  apply (api_keys_roundtrip sample_env).
  - vm_compute. reflexivity.
  - discriminate.
  - vm_compute. reflexivity.
  - reflexivity.
Defined.
