(* ===== verification/Pool.v ===== *)
(** * Connection pool ([shared/go/database/pool.go])

    [DefaultPoolConfig] and [NewPool].  The driver [pgxpool] is the interface
    [PgxPool]; [PgxPoolLaws] states what its documentation says about the pools
    that are open.  The properties: an error leaves no pool open, and a pool is
    made with the configured settings. *)

From S2P Require Import Prelude GoTime.

Record PoolConfig := mkPoolConfig {
  pl_DatabaseURL : string;
  MaxConns : Z;
  MinConns : Z;
  MaxConnLifetime : Z;
  MaxConnIdleTime : Z;
  HealthCheckPeriod : Z;
  ConnectTimeout : Z
}.

Definition DefaultPoolConfig (databaseURL : string) : PoolConfig :=
  mkPoolConfig databaseURL 25 5 (1 * Hour) (30 * Minute) (1 * Minute) (5 * Second).

(** [*pgxpool.Config]: the fields [NewPool] assigns, and the rest of what was
    parsed from the URL. *)
Record PgxConfig (R : Type) := mkPgxConfig {
  px_MaxConns : Z;
  px_MinConns : Z;
  px_MaxConnLifetime : Z;
  px_MaxConnIdleTime : Z;
  px_HealthCheckPeriod : Z;
  px_ConnectTimeout : Z;      (** [ConnConfig.ConnectTimeout] *)
  px_rest : R
}.
Arguments mkPgxConfig {R} _ _ _ _ _ _ _.
Arguments px_MaxConns {R} _.
Arguments px_MinConns {R} _.
Arguments px_MaxConnLifetime {R} _.
Arguments px_MaxConnIdleTime {R} _.
Arguments px_HealthCheckPeriod {R} _.
Arguments px_ConnectTimeout {R} _.
Arguments px_rest {R} _.

(** The driver: [ParseConfig], [NewWithConfig], [Ping] and [Close]; errors are
    of a type [E]. *)
Class PgxPool (S H R E : Type) := {
  ParseConfig : string → result (PgxConfig R) E;
  NewWithConfig : PgxConfig R → M S (result H E);
  pool_Ping : H → M S (result unit E);
  pool_Close : H → M S unit
}.

Inductive pool_error (E : Type) :=
| ErrParseURL (e : E)
| ErrCreatePool (e : E)
| ErrPing (e : E).
Arguments ErrParseURL {E} _.
Arguments ErrCreatePool {E} _.
Arguments ErrPing {E} _.

(** The settings [NewPool] applies to the parsed configuration. *)
Definition apply_settings {R} (cfg : PoolConfig) (p : PgxConfig R) : PgxConfig R :=
  mkPgxConfig (MaxConns cfg) (MinConns cfg) (MaxConnLifetime cfg) (MaxConnIdleTime cfg)
    (HealthCheckPeriod cfg)
    (if 0 <? ConnectTimeout cfg then ConnectTimeout cfg else px_ConnectTimeout p)
    (px_rest p).

Definition NewPool {S H R E} `{PgxPool S H R E} (cfg : PoolConfig) : M S (result H (pool_error E)) :=
  match ParseConfig (pl_DatabaseURL cfg) with
  | Err e => mreturn (Err (ErrParseURL e))
  | Ok poolConfig =>
      let* created := NewWithConfig (apply_settings cfg poolConfig) in
      match created with
      | Err e => mreturn (Err (ErrCreatePool e))
      | Ok pool =>
          let* pinged := pool_Ping pool in
          match pinged with
          | Err e => pool_Close pool ;* mreturn (Err (ErrPing e))
          | Ok _ => mreturn (Ok pool)
          end
      end
  end.

(** What the code relies on: which pools are open, and each one's
    configuration. *)
Class PgxPoolLaws (S H R E : Type) `{PgxPool S H R E} `{Countable H} := {
  open_pools : S → gmap H (PgxConfig R);
  NewWithConfig_opens c s :
    match NewWithConfig c s with
    | (Ok h, s') => open_pools s !! h = None ∧ open_pools s' = <[h := c]> (open_pools s)
    | (Err _, s') => open_pools s' = open_pools s
    end;
  Ping_keeps h s : open_pools (pool_Ping h s).2 = open_pools s;
  Close_closes h s : open_pools (pool_Close h s).2 = delete h (open_pools s)
}.

(** What is open afterwards. *)
Lemma NewPool_effect {S H R E} `{PgxPoolLaws S H R E} (cfg : PoolConfig) (s : S) :
  match NewPool cfg s with
  | (Ok h, s') =>
      ∃ parsed, ParseConfig (pl_DatabaseURL cfg) = Ok parsed ∧ open_pools s !! h = None
        ∧ open_pools s' = <[h := apply_settings cfg parsed]> (open_pools s)
  | (Err _, s') => open_pools s' = open_pools s
  end.
Proof.
  unfold NewPool. destruct (ParseConfig _) as [parsed|e]; [|done]. run_program.
  pose proof (NewWithConfig_opens (apply_settings cfg parsed) s) as Hnew.
  destruct (NewWithConfig _ s) as [[h|e] s1]; [|done]. destruct Hnew as [Hfresh Hopen].
  run_program. pose proof (Ping_keeps h s1) as Hping. destruct (pool_Ping h s1) as [[u|e] s2]; cbn [snd] in Hping.
  - exists parsed. split; [done|]. split; [done|]. by rewrite Hping.
  - run_program. pose proof (Close_closes h s2) as Hclose. destruct (pool_Close h s2) as [[] s3]. cbn [snd] in Hclose.
    rewrite Hclose, Hping, Hopen. by apply delete_insert_id.
Qed.

(** ** Properties *)

(** C37. [NewPool] leaks nothing: on success exactly one more pool is open, the
    one returned, with the requested sizes and lifetimes, and the connect timeout
    replaced only by a positive one; on any error the open pools are the same
    as before. *)
Theorem NewPool_spec {S H R E} `{PgxPoolLaws S H R E} (cfg : PoolConfig) (s : S) :
  match NewPool cfg s with
  | (Ok h, s') =>
      ∃ parsed c, ParseConfig (pl_DatabaseURL cfg) = Ok parsed
        ∧ open_pools s !! h = None ∧ open_pools s' = <[h := c]> (open_pools s)
        ∧ px_MaxConns c = MaxConns cfg ∧ px_MinConns c = MinConns cfg
        ∧ px_MaxConnLifetime c = MaxConnLifetime cfg ∧ px_MaxConnIdleTime c = MaxConnIdleTime cfg
        ∧ px_HealthCheckPeriod c = HealthCheckPeriod cfg
        ∧ (0 < ConnectTimeout cfg → px_ConnectTimeout c = ConnectTimeout cfg)
        ∧ (ConnectTimeout cfg ≤ 0 → px_ConnectTimeout c = px_ConnectTimeout parsed)
        ∧ px_rest c = px_rest parsed
  | (Err _, s') => open_pools s' = open_pools s
  end.
Proof.
  pose proof (NewPool_effect cfg s) as Hp. destruct (NewPool cfg s) as [[h|e] s']; [|done].
  destruct Hp as (parsed & Hparse & Hfresh & Ho). exists parsed, (apply_settings cfg parsed).
  split; [done|]. split; [done|]. split; [done|].
  unfold apply_settings. cbn. repeat split; intros; case_match; bool_to_prop; done || lia.
Qed.

(** ** Witness *)

(** A driver whose server can be down: pools are numbered, [Ping] fails when it is
    down. *)
Record driver := mkDriver { dr_open : gmap nat (PgxConfig string); dr_down : bool }.

#[export] Instance driver_pgx : PgxPool driver nat string string := {
  ParseConfig url := if String.eqb url "" then Err "empty url" else Ok (mkPgxConfig 4 0 0 0 0 120 url);
  NewWithConfig c := prim (λ s,
    let n := fresh (dom (dr_open s)) in
    (Ok n, mkDriver (<[n := c]> (dr_open s)) (dr_down s)));
  pool_Ping h := prim (λ s, (if dr_down s then Err "connection refused" else Ok tt, s));
  pool_Close h := prim (λ s, (tt, mkDriver (delete h (dr_open s)) (dr_down s)))
}.

#[export] Instance driver_laws : PgxPoolLaws driver nat string string.
Proof.
  refine {| open_pools := dr_open |}; [|done..].
  intros c s. split; [|done]. apply not_elem_of_dom, is_fresh.
Defined.

Lemma NewPool_spec_witness :
  dr_open (NewPool (DefaultPoolConfig "postgres://localhost/qsgw") (mkDriver ∅ true)).2 = ∅.
Proof.
  pose proof (NewPool_spec (DefaultPoolConfig "postgres://localhost/qsgw") (mkDriver ∅ true)) as H.
  destruct (NewPool _ _) as [[h|e] s'] eqn:E; [|exact H].
  exfalso. revert E. discriminate.
Defined.
