(* ===== verification/Model.v ===== *)
(** * Data model ([control-plane/internal/model])

    The records of gateways, upstreams, routes and threat events, their create
    requests (decoded from JSON) and their responses (encoded to JSON), and the
    [ToResponse] methods.  [github.com/google/uuid] is the interface [UuidLib]. *)

From S2P Require Import Prelude GoNum GoTime Json.

(** ** [google/uuid] *)

(** [[16]byte] *)
Definition UUID : Type := string.

Class UuidLib := {
  uuid_Parse : string → option UUID;
  uuid_String : UUID → string
}.

(** [uuid.New()] draws from the application's randomness. *)
Class HasUuid (S : Type) := draw_uuid : S → UUID * S.
Definition uuid_New {S} `{HasUuid S} : M S UUID := prim draw_uuid.

(** ** gateway.go *)

Record Gateway := mkGateway {
  gw_ID : UUID;
  gw_Name : string;
  gw_Hostname : string;
  gw_Port : Z;
  gw_Status : string;
  gw_TlsPolicy : string;
  gw_MaxConnections : Z;
  gw_CreatedBy : string;
  gw_CreatedAt : Time;
  gw_UpdatedAt : Time
}.

Record CreateGatewayRequest := mkCreateGateway {
  cg_Name : string;
  cg_Hostname : string;
  cg_Port : Z;
  cg_TlsPolicy : string;
  cg_MaxConnections : Z;
  cg_CreatedBy : string
}.

Definition zeroCreateGateway : CreateGatewayRequest := mkCreateGateway "" "" 0 "" 0 "".

Definition create_gateway_fields : list (field CreateGatewayRequest) :=
  [ ("name", set_string (λ c v, mkCreateGateway v (cg_Hostname c) (cg_Port c) (cg_TlsPolicy c) (cg_MaxConnections c) (cg_CreatedBy c)));
    ("hostname", set_string (λ c v, mkCreateGateway (cg_Name c) v (cg_Port c) (cg_TlsPolicy c) (cg_MaxConnections c) (cg_CreatedBy c)));
    ("port", set_int (λ c v, mkCreateGateway (cg_Name c) (cg_Hostname c) v (cg_TlsPolicy c) (cg_MaxConnections c) (cg_CreatedBy c)));
    ("tls_policy", set_string (λ c v, mkCreateGateway (cg_Name c) (cg_Hostname c) (cg_Port c) v (cg_MaxConnections c) (cg_CreatedBy c)));
    ("max_connections", set_int (λ c v, mkCreateGateway (cg_Name c) (cg_Hostname c) (cg_Port c) (cg_TlsPolicy c) v (cg_CreatedBy c)));
    ("created_by", set_string (λ c v, mkCreateGateway (cg_Name c) (cg_Hostname c) (cg_Port c) (cg_TlsPolicy c) (cg_MaxConnections c) v)) ].

Record GatewayResponse := mkGatewayResponse {
  gr_ID : UUID;
  gr_Name : string;
  gr_Hostname : string;
  gr_Port : Z;
  gr_Status : string;
  gr_TlsPolicy : string;
  gr_MaxConnections : Z;
  gr_CreatedAt : string;
  gr_UpdatedAt : string
}.

Record GatewayListResponse := mkGatewayList {
  gl_Gateways : list GatewayResponse;
  gl_TotalCount : Z;
  gl_Offset : Z;
  gl_Limit : Z
}.

Definition Gateway_ToResponse (g : Gateway) : GatewayResponse :=
  mkGatewayResponse (gw_ID g) (gw_Name g) (gw_Hostname g) (gw_Port g) (gw_Status g) (gw_TlsPolicy g)
    (gw_MaxConnections g) (FormatRFC3339 (gw_CreatedAt g)) (FormatRFC3339 (gw_UpdatedAt g)).

(** ** upstream.go *)

Record Upstream := mkUpstream {
  up_ID : UUID;
  up_Name : string;
  up_Host : string;
  up_Port : Z;
  up_Protocol : string;
  up_TlsVerify : bool;
  up_HealthCheckPath : string;
  up_HealthCheckIntervalS : Z;
  up_IsHealthy : bool;
  up_CreatedAt : Time;
  up_UpdatedAt : Time
}.

Record CreateUpstreamRequest := mkCreateUpstream {
  cu_Name : string;
  cu_Host : string;
  cu_Port : Z;
  cu_Protocol : string;
  cu_TlsVerify : bool;
  cu_HealthCheckPath : string;
  cu_HealthCheckIntervalS : Z
}.

Definition zeroCreateUpstream : CreateUpstreamRequest := mkCreateUpstream "" "" 0 "" false "" 0.

Definition create_upstream_fields : list (field CreateUpstreamRequest) :=
  [ ("name", set_string (λ c v, mkCreateUpstream v (cu_Host c) (cu_Port c) (cu_Protocol c) (cu_TlsVerify c) (cu_HealthCheckPath c) (cu_HealthCheckIntervalS c)));
    ("host", set_string (λ c v, mkCreateUpstream (cu_Name c) v (cu_Port c) (cu_Protocol c) (cu_TlsVerify c) (cu_HealthCheckPath c) (cu_HealthCheckIntervalS c)));
    ("port", set_int (λ c v, mkCreateUpstream (cu_Name c) (cu_Host c) v (cu_Protocol c) (cu_TlsVerify c) (cu_HealthCheckPath c) (cu_HealthCheckIntervalS c)));
    ("protocol", set_string (λ c v, mkCreateUpstream (cu_Name c) (cu_Host c) (cu_Port c) v (cu_TlsVerify c) (cu_HealthCheckPath c) (cu_HealthCheckIntervalS c)));
    ("tls_verify", set_bool (λ c v, mkCreateUpstream (cu_Name c) (cu_Host c) (cu_Port c) (cu_Protocol c) v (cu_HealthCheckPath c) (cu_HealthCheckIntervalS c)));
    ("health_check_path", set_string (λ c v, mkCreateUpstream (cu_Name c) (cu_Host c) (cu_Port c) (cu_Protocol c) (cu_TlsVerify c) v (cu_HealthCheckIntervalS c)));
    ("health_check_interval_secs", set_int (λ c v, mkCreateUpstream (cu_Name c) (cu_Host c) (cu_Port c) (cu_Protocol c) (cu_TlsVerify c) (cu_HealthCheckPath c) v)) ].

Record UpstreamResponse := mkUpstreamResponse {
  ur_ID : UUID;
  ur_Name : string;
  ur_Host : string;
  ur_Port : Z;
  ur_Protocol : string;
  ur_TlsVerify : bool;
  ur_HealthCheckPath : string;
  ur_IsHealthy : bool;
  ur_CreatedAt : string
}.

Record UpstreamListResponse := mkUpstreamList {
  ul_Upstreams : list UpstreamResponse;
  ul_TotalCount : Z
}.

Definition Upstream_ToResponse (u : Upstream) : UpstreamResponse :=
  mkUpstreamResponse (up_ID u) (up_Name u) (up_Host u) (up_Port u) (up_Protocol u) (up_TlsVerify u)
    (up_HealthCheckPath u) (up_IsHealthy u) (FormatRFC3339 (up_CreatedAt u)).

(** ** route.go *)

Record Route := mkRoute {
  rt_ID : UUID;
  rt_GatewayID : UUID;
  rt_UpstreamID : UUID;
  rt_PathPrefix : string;
  rt_StripPrefix : bool;
  rt_Priority : Z;
  rt_TlsPolicy : option string;
  rt_RateLimitRPS : option Z;
  rt_Enabled : bool;
  rt_CreatedAt : Time;
  rt_UpdatedAt : Time
}.

Record CreateRouteRequest := mkCreateRoute {
  cr_GatewayID : string;
  cr_UpstreamID : string;
  cr_PathPrefix : string;
  cr_StripPrefix : bool;
  cr_Priority : Z;
  cr_TlsPolicy : string;
  cr_RateLimitRPS : Z
}.

Definition zeroCreateRoute : CreateRouteRequest := mkCreateRoute "" "" "" false 0 "" 0.

Definition create_route_fields : list (field CreateRouteRequest) :=
  [ ("gateway_id", set_string (λ c v, mkCreateRoute v (cr_UpstreamID c) (cr_PathPrefix c) (cr_StripPrefix c) (cr_Priority c) (cr_TlsPolicy c) (cr_RateLimitRPS c)));
    ("upstream_id", set_string (λ c v, mkCreateRoute (cr_GatewayID c) v (cr_PathPrefix c) (cr_StripPrefix c) (cr_Priority c) (cr_TlsPolicy c) (cr_RateLimitRPS c)));
    ("path_prefix", set_string (λ c v, mkCreateRoute (cr_GatewayID c) (cr_UpstreamID c) v (cr_StripPrefix c) (cr_Priority c) (cr_TlsPolicy c) (cr_RateLimitRPS c)));
    ("strip_prefix", set_bool (λ c v, mkCreateRoute (cr_GatewayID c) (cr_UpstreamID c) (cr_PathPrefix c) v (cr_Priority c) (cr_TlsPolicy c) (cr_RateLimitRPS c)));
    ("priority", set_int (λ c v, mkCreateRoute (cr_GatewayID c) (cr_UpstreamID c) (cr_PathPrefix c) (cr_StripPrefix c) v (cr_TlsPolicy c) (cr_RateLimitRPS c)));
    ("tls_policy", set_string (λ c v, mkCreateRoute (cr_GatewayID c) (cr_UpstreamID c) (cr_PathPrefix c) (cr_StripPrefix c) (cr_Priority c) v (cr_RateLimitRPS c)));
    ("rate_limit_rps", set_int (λ c v, mkCreateRoute (cr_GatewayID c) (cr_UpstreamID c) (cr_PathPrefix c) (cr_StripPrefix c) (cr_Priority c) (cr_TlsPolicy c) v)) ].

Record RouteResponse := mkRouteResponse {
  rr_ID : UUID;
  rr_GatewayID : UUID;
  rr_UpstreamID : UUID;
  rr_PathPrefix : string;
  rr_StripPrefix : bool;
  rr_Priority : Z;
  rr_TlsPolicy : option string;
  rr_RateLimitRPS : option Z;
  rr_Enabled : bool;
  rr_CreatedAt : string
}.

Record RouteListResponse := mkRouteList {
  rl_Routes : list RouteResponse;
  rl_TotalCount : Z
}.

Definition Route_ToResponse (r : Route) : RouteResponse :=
  mkRouteResponse (rt_ID r) (rt_GatewayID r) (rt_UpstreamID r) (rt_PathPrefix r) (rt_StripPrefix r)
    (rt_Priority r) (rt_TlsPolicy r) (rt_RateLimitRPS r) (rt_Enabled r) (FormatRFC3339 (rt_CreatedAt r)).

(** ** threat.go *)

Record ThreatEvent := mkThreat {
  te_ID : UUID;
  te_GatewayID : UUID;
  te_ThreatType : string;
  te_Severity : string;
  te_SourceIP : option string;
  te_Description : string;
  te_Mitigated : bool;
  te_DetectedAt : Time
}.

Record ThreatEventResponse := mkThreatResponse {
  tr_ID : UUID;
  tr_GatewayID : UUID;
  tr_ThreatType : string;
  tr_Severity : string;
  tr_SourceIP : option string;
  tr_Description : string;
  tr_Mitigated : bool;
  tr_DetectedAt : string
}.

Record ThreatEventListResponse := mkThreatList {
  tl_Events : list ThreatEventResponse;
  tl_TotalCount : Z;
  tl_Offset : Z;
  tl_Limit : Z
}.

Definition ThreatEvent_ToResponse (t : ThreatEvent) : ThreatEventResponse :=
  mkThreatResponse (te_ID t) (te_GatewayID t) (te_ThreatType t) (te_Severity t) (te_SourceIP t)
    (te_Description t) (te_Mitigated t) (FormatRFC3339 (te_DetectedAt t)).

(** ** JSON of the responses *)

Section encoding.
Context `{UuidLib}.

Definition json_uuid (u : UUID) : json := JString (uuid_String u).
Definition json_int (n : Z) : json := JNumber (Itoa n).

(** A nil slice encodes as [null]. *)
Definition json_list {A} (enc : A → json) (l : list A) : json :=
  match l with [] => JNull | _ => JArray (map enc l) end.

(** A pointer field tagged [omitempty]. *)
Definition omit_nil {A} (key : string) (enc : A → json) (o : option A) : list (string * json) :=
  match o with Some v => [(key, enc v)] | None => [] end.

Definition GatewayResponse_json (g : GatewayResponse) : json :=
  JObject [ ("id", json_uuid (gr_ID g)); ("name", JString (gr_Name g));
            ("hostname", JString (gr_Hostname g)); ("port", json_int (gr_Port g));
            ("status", JString (gr_Status g)); ("tls_policy", JString (gr_TlsPolicy g));
            ("max_connections", json_int (gr_MaxConnections g));
            ("created_at", JString (gr_CreatedAt g)); ("updated_at", JString (gr_UpdatedAt g)) ].

Definition GatewayListResponse_json (l : GatewayListResponse) : json :=
  JObject [ ("gateways", json_list GatewayResponse_json (gl_Gateways l));
            ("total_count", json_int (gl_TotalCount l)); ("offset", json_int (gl_Offset l));
            ("limit", json_int (gl_Limit l)) ].

Definition UpstreamResponse_json (u : UpstreamResponse) : json :=
  JObject [ ("id", json_uuid (ur_ID u)); ("name", JString (ur_Name u)); ("host", JString (ur_Host u));
            ("port", json_int (ur_Port u)); ("protocol", JString (ur_Protocol u));
            ("tls_verify", JBool (ur_TlsVerify u));
            ("health_check_path", JString (ur_HealthCheckPath u));
            ("is_healthy", JBool (ur_IsHealthy u)); ("created_at", JString (ur_CreatedAt u)) ].

Definition UpstreamListResponse_json (l : UpstreamListResponse) : json :=
  JObject [ ("upstreams", json_list UpstreamResponse_json (ul_Upstreams l));
            ("total_count", json_int (ul_TotalCount l)) ].

Definition RouteResponse_json (r : RouteResponse) : json :=
  JObject ([ ("id", json_uuid (rr_ID r)); ("gateway_id", json_uuid (rr_GatewayID r));
             ("upstream_id", json_uuid (rr_UpstreamID r)); ("path_prefix", JString (rr_PathPrefix r));
             ("strip_prefix", JBool (rr_StripPrefix r)); ("priority", json_int (rr_Priority r)) ]
           ++ omit_nil "tls_policy" JString (rr_TlsPolicy r)
           ++ omit_nil "rate_limit_rps" json_int (rr_RateLimitRPS r)
           ++ [ ("enabled", JBool (rr_Enabled r)); ("created_at", JString (rr_CreatedAt r)) ]).

Definition RouteListResponse_json (l : RouteListResponse) : json :=
  JObject [ ("routes", json_list RouteResponse_json (rl_Routes l));
            ("total_count", json_int (rl_TotalCount l)) ].

Definition ThreatEventResponse_json (t : ThreatEventResponse) : json :=
  JObject ([ ("id", json_uuid (tr_ID t)); ("gateway_id", json_uuid (tr_GatewayID t));
             ("threat_type", JString (tr_ThreatType t)); ("severity", JString (tr_Severity t)) ]
           ++ omit_nil "source_ip" JString (tr_SourceIP t)
           ++ [ ("description", JString (tr_Description t)); ("mitigated", JBool (tr_Mitigated t));
                ("detected_at", JString (tr_DetectedAt t)) ]).

Definition ThreatEventListResponse_json (l : ThreatEventListResponse) : json :=
  JObject [ ("events", json_list ThreatEventResponse_json (tl_Events l));
            ("total_count", json_int (tl_TotalCount l)); ("offset", json_int (tl_Offset l));
            ("limit", json_int (tl_Limit l)) ].
End encoding.
