(* ===== verification/Sql.v ===== *)
(** * The SQL of the repositories

    Values, destinations of [Scan], and a parser for the statements the
    repositories send: [INSERT], [SELECT] with conditions, order and page,
    [SELECT COUNT], [UPDATE] and [DELETE], with [$n] placeholders.  The parser
    is the reading of the query strings under which the database's behaviour is
    stated in Postgres.v: a wrong column order or placeholder number in a query
    is a wrong statement there. *)

From S2P Require Import Prelude GoNum GoTime Model.

(** ** Values *)

Inductive sqlval :=
| QUuid (u : UUID)
| QText (s : string)
| QInt (n : Z)
| QBool (b : bool)
| QTime (t : Time)
| QNull.

#[export] Instance Time_eq_dec : EqDecision Time.
Proof. solve_decision. Defined.
#[export] Instance sqlval_eq_dec : EqDecision sqlval.
Proof. solve_decision. Defined.

(** Arguments given through pointers: nil is NULL. *)
Definition q_text_ptr (o : option string) : sqlval := match o with Some s => QText s | None => QNull end.
Definition q_int_ptr (o : option Z) : sqlval := match o with Some n => QInt n | None => QNull end.

(** ** Scan destinations *)

Inductive dest := DUuid | DString | DInt | DBool | DTime | DStringPtr | DIntPtr.

Definition dest_ty (d : dest) : Type :=
  match d with
  | DUuid => UUID
  | DString => string
  | DInt => Z
  | DBool => bool
  | DTime => Time
  | DStringPtr => option string
  | DIntPtr => option Z
  end.

Fixpoint dests (ds : list dest) : Type :=
  match ds with
  | [] => unit
  | d :: ds' => (dest_ty d * dests ds')%type
  end.

(** A value of the destination's kind. *)
Definition of_val (d : dest) (v : sqlval) : option (dest_ty d) :=
  match d, v with
  | DUuid, QUuid u => Some u
  | DString, QText s => Some s
  | DInt, QInt n => Some n
  | DBool, QBool b => Some b
  | DTime, QTime t => Some t
  | DStringPtr, QText s => Some (Some s)
  | DStringPtr, QNull => Some None
  | DIntPtr, QInt n => Some (Some n)
  | DIntPtr, QNull => Some None
  | _, _ => None
  end.

Fixpoint of_vals (ds : list dest) (vals : list sqlval) : option (dests ds) :=
  match ds, vals with
  | [], [] => Some tt
  | d :: ds', v :: vals' =>
      match of_val d v, of_vals ds' vals' with
      | Some x, Some xs => Some (x, xs)
      | _, _ => None
      end
  | _, _ => None
  end.

(** The value is NULL or of the destination's kind: scanning it gives [of_val],
    and an error where that is [None] (NULL into a non-pointer). *)
Definition fits (d : dest) (v : sqlval) : bool :=
  match v, d with
  | QNull, _ => true
  | QUuid _, DUuid => true
  | QText _, (DString | DStringPtr) => true
  | QInt _, (DInt | DIntPtr) => true
  | QBool _, DBool => true
  | QTime _, DTime => true
  | _, _ => false
  end.

Fixpoint all_fit (ds : list dest) (vals : list sqlval) : bool :=
  match ds, vals with
  | [], [] => true
  | d :: ds', v :: vals' => fits d v && all_fit ds' vals'
  | _, _ => false
  end.

(** ** Statements *)

(** Placeholders are numbered from 1; a condition is [column = $n]. *)
Inductive stmt :=
| Insert (table : string) (cols : list string) (params : list nat)
| Select (cols : list string) (table : string) (conds : list (string * nat))
    (order_desc : option string) (page : option (nat * nat))
| Count (table : string) (conds : list (string * nat))
| Update (table : string) (sets conds : list (string * nat))
| Delete (table : string) (conds : list (string * nat)).

Definition is_blank (c : ascii) : bool :=
  let b := byte_val c in (b =? 32) || (b =? 9) || (b =? 10) || (b =? 13).

Definition is_sql_symbol (c : ascii) : bool :=
  existsb (Ascii.eqb c) ["("; ")"; ","; "="; "*"]%char.

Definition flush (cur : string) (ts : list string) : list string :=
  if String.eqb cur "" then ts else cur :: ts.

(** Words and symbols; [cur] is the word being read. *)
Fixpoint tokens (s cur : string) : list string :=
  match s with
  | EmptyString => flush cur []
  | String c r =>
      if is_blank c then flush cur (tokens r "")
      else if is_sql_symbol c then flush cur (String c "" :: tokens r "")
      else tokens r (cur ++ String c "")
  end.

Definition word (w : string) (ts : list string) : option (list string) :=
  match ts with
  | t :: ts' => if String.eqb t w then Some ts' else None
  | [] => None
  end.

(** A table or column name. *)
Definition ident (ts : list string) : option (string * list string) :=
  match ts with
  | String c r :: ts' =>
      if is_sql_symbol c || Ascii.eqb c "$" then None else Some (String c r, ts')
  | _ => None
  end.

(** [$n] *)
Definition param (ts : list string) : option (nat * list string) :=
  match ts with
  | String c r :: ts' =>
      if Ascii.eqb c "$" then
        match parse_udec r with Some n => Some (Z.to_nat n, ts') | None => None end
      else None
  | _ => None
  end.

Definition starts (w : string) (ts : list string) : bool :=
  match ts with t :: _ => String.eqb t w | [] => false end.

(** Items separated by a word. *)
Fixpoint separated {A} (item : list string → option (A * list string)) (sep : string)
    (fuel : nat) (ts : list string) : option (list A * list string) :=
  match fuel with
  | O => None
  | S f =>
      match item ts with
      | None => None
      | Some (a, ts1) =>
          match word sep ts1 with
          | None => Some ([a], ts1)
          | Some ts2 =>
              match separated item sep f ts2 with
              | Some (l, ts3) => Some (a :: l, ts3)
              | None => None
              end
          end
      end
  end.

(** [column = $n] *)
Definition equation (ts : list string) : option ((string * nat) * list string) :=
  '(c, ts) ← ident ts; ts ← word "=" ts; '(n, ts) ← param ts; Some ((c, n), ts).

Definition where_clause (fuel : nat) (ts : list string) : option (list (string * nat) * list string) :=
  match word "WHERE" ts with
  | None => Some ([], ts)
  | Some ts => separated equation "AND" fuel ts
  end.

Definition order_clause (ts : list string) : option (option string * list string) :=
  match word "ORDER" ts with
  | None => Some (None, ts)
  | Some ts => ts ← word "BY" ts; '(c, ts) ← ident ts; ts ← word "DESC" ts; Some (Some c, ts)
  end.

Definition page_clause (ts : list string) : option (option (nat * nat) * list string) :=
  match word "OFFSET" ts with
  | None => Some (None, ts)
  | Some ts => '(o, ts) ← param ts; ts ← word "LIMIT" ts; '(l, ts) ← param ts; Some (Some (o, l), ts)
  end.

(** The end of the statement. *)
Definition finished {A} (a : A) (ts : list string) : option A :=
  match ts with [] => Some a | _ => None end.

Definition parse_insert (fuel : nat) (ts : list string) : option stmt :=
  ts ← word "INTO" ts; '(t, ts) ← ident ts; ts ← word "(" ts;
  '(cols, ts) ← separated ident "," fuel ts; ts ← word ")" ts;
  ts ← word "VALUES" ts; ts ← word "(" ts;
  '(ps, ts) ← separated param "," fuel ts; ts ← word ")" ts;
  finished (Insert t cols ps) ts.

Definition parse_count (fuel : nat) (ts : list string) : option stmt :=
  ts ← word "(" ts; ts ← word "*" ts; ts ← word ")" ts; ts ← word "FROM" ts;
  '(t, ts) ← ident ts; '(cs, ts) ← where_clause fuel ts; finished (Count t cs) ts.

Definition parse_select (fuel : nat) (ts : list string) : option stmt :=
  match word "COUNT" ts with
  | Some ts => parse_count fuel ts
  | None =>
      '(cols, ts) ← separated ident "," fuel ts; ts ← word "FROM" ts; '(t, ts) ← ident ts;
      '(cs, ts) ← where_clause fuel ts; '(o, ts) ← order_clause ts; '(p, ts) ← page_clause ts;
      finished (Select cols t cs o p) ts
  end.

Definition parse_update (fuel : nat) (ts : list string) : option stmt :=
  '(t, ts) ← ident ts; ts ← word "SET" ts; '(sets, ts) ← separated equation "," fuel ts;
  '(cs, ts) ← where_clause fuel ts; finished (Update t sets cs) ts.

Definition parse_delete (fuel : nat) (ts : list string) : option stmt :=
  ts ← word "FROM" ts; '(t, ts) ← ident ts; '(cs, ts) ← where_clause fuel ts; finished (Delete t cs) ts.

(** The statement of a query string, [None] outside this subset.  Each list item
    consumes a token, so the number of tokens is fuel enough. *)
Definition parse_stmt (q : string) : option stmt :=
  let ts := tokens q "" in
  let fuel := List.length ts in
  match ts with
  | kw :: ts =>
      if String.eqb kw "INSERT" then parse_insert fuel ts
      else if String.eqb kw "SELECT" then parse_select fuel ts
      else if String.eqb kw "UPDATE" then parse_update fuel ts
      else if String.eqb kw "DELETE" then parse_delete fuel ts
      else None
  | [] => None
  end.

Example parse_stmt_ex :
  parse_stmt "SELECT id, name FROM gateways WHERE id = $1 AND name = $12 ORDER BY created_at DESC OFFSET $2 LIMIT $3"
  = Some (Select ["id"; "name"] "gateways" [("id", 1%nat); ("name", 12%nat)] (Some "created_at") (Some (2%nat, 3%nat))).
Proof. vm_compute. reflexivity. Qed.
