(* ===== verification/Schema.v ===== *)
(** * Database schema ([db/migrations/000001_init_schema.up.sql])

    The tables as data: columns with type, nullability and default, unique keys,
    foreign keys and the [updated_at] triggers.  The Go code does not use
    [tls_sessions] and [qsgw_audit_log].  Indexes do not change what a statement
    does. *)

From S2P Require Import Prelude GoNum GoTime Model Utf8 Sql.

Inductive col_type :=
| TUuid
| TVarchar (n : Z)
| TText
| TInteger
| TBoolean
| TTimestamptz
| TEnum (labels : list string)
| TOpaque.               (** JSONB and array columns, which the code never names *)

Inductive col_default := NoDefault | Constant (v : sqlval) | NewUuid | Now.

Record column := mkColumn {
  col_name : string; col_ty : col_type; col_nullable : bool; col_default_ : col_default
}.

Definition gateway_status : col_type := TEnum ["ACTIVE"; "INACTIVE"; "DRAINING"; "FAILED"].
Definition route_protocol : col_type := TEnum ["HTTP"; "HTTPS"; "GRPC"; "TCP"; "TLS"].
Definition tls_policy : col_type := TEnum ["PQC_ONLY"; "PQC_PREFERRED"; "HYBRID"; "CLASSICAL_ALLOWED"].
Definition threat_severity : col_type := TEnum ["CRITICAL"; "HIGH"; "MEDIUM"; "LOW"; "INFO"].
Definition threat_type : col_type :=
  TEnum ["QUANTUM_DOWNGRADE"; "WEAK_CIPHER"; "BOT_ATTACK"; "ANOMALOUS_TRAFFIC"; "CERTIFICATE_ISSUE"; "REPLAY_ATTACK"].

Definition gateways_columns : list column :=
  [ mkColumn "id" TUuid false NewUuid;
    mkColumn "name" (TVarchar 255) false NoDefault;
    mkColumn "hostname" (TVarchar 512) false NoDefault;
    mkColumn "port" TInteger false (Constant (QInt 443));
    mkColumn "status" gateway_status false (Constant (QText "INACTIVE"));
    mkColumn "tls_policy" tls_policy false (Constant (QText "PQC_PREFERRED"));
    mkColumn "tls_cert_path" (TVarchar 1024) true NoDefault;
    mkColumn "tls_key_path" (TVarchar 1024) true NoDefault;
    mkColumn "max_connections" TInteger false (Constant (QInt 10000));
    mkColumn "metadata" TOpaque true (Constant (QText "{}"));
    mkColumn "created_by" (TVarchar 255) false (Constant (QText "system"));
    mkColumn "created_at" TTimestamptz false Now;
    mkColumn "updated_by" (TVarchar 255) false (Constant (QText "system"));
    mkColumn "updated_at" TTimestamptz false Now ].

Definition upstreams_columns : list column :=
  [ mkColumn "id" TUuid false NewUuid;
    mkColumn "name" (TVarchar 255) false NoDefault;
    mkColumn "host" (TVarchar 512) false NoDefault;
    mkColumn "port" TInteger false NoDefault;
    mkColumn "protocol" route_protocol false (Constant (QText "HTTPS"));
    mkColumn "tls_verify" TBoolean false (Constant (QBool true));
    mkColumn "health_check_path" (TVarchar 512) true (Constant (QText "/health"));
    mkColumn "health_check_interval_secs" TInteger false (Constant (QInt 30));
    mkColumn "is_healthy" TBoolean false (Constant (QBool true));
    mkColumn "metadata" TOpaque true (Constant (QText "{}"));
    mkColumn "created_at" TTimestamptz false Now;
    mkColumn "updated_at" TTimestamptz false Now ].

Definition routes_columns : list column :=
  [ mkColumn "id" TUuid false NewUuid;
    mkColumn "gateway_id" TUuid false NoDefault;
    mkColumn "upstream_id" TUuid false NoDefault;
    mkColumn "path_prefix" (TVarchar 1024) false NoDefault;
    mkColumn "methods" TOpaque true (Constant (QText "{}"));
    mkColumn "strip_prefix" TBoolean false (Constant (QBool false));
    mkColumn "priority" TInteger false (Constant (QInt 100));
    mkColumn "tls_policy" tls_policy true NoDefault;
    mkColumn "rate_limit_rps" TInteger true NoDefault;
    mkColumn "enabled" TBoolean false (Constant (QBool true));
    mkColumn "created_at" TTimestamptz false Now;
    mkColumn "updated_at" TTimestamptz false Now ].

Definition threat_events_columns : list column :=
  [ mkColumn "id" TUuid false NewUuid;
    mkColumn "gateway_id" TUuid false NoDefault;
    mkColumn "threat_type" threat_type false NoDefault;
    mkColumn "severity" threat_severity false NoDefault;
    mkColumn "source_ip" (TVarchar 45) true NoDefault;
    mkColumn "description" TText false NoDefault;
    mkColumn "details" TOpaque true (Constant (QText "{}"));
    mkColumn "mitigated" TBoolean false (Constant (QBool false));
    mkColumn "detected_at" TTimestamptz false Now ].

Definition tls_sessions_columns : list column :=
  [ mkColumn "id" TUuid false NewUuid;
    mkColumn "gateway_id" TUuid false NoDefault;
    mkColumn "client_ip" (TVarchar 45) false NoDefault;
    mkColumn "cipher_suite" (TVarchar 255) false NoDefault;
    mkColumn "tls_version" (TVarchar 10) false NoDefault;
    mkColumn "kem_algorithm" (TVarchar 100) true NoDefault;
    mkColumn "sig_algorithm" (TVarchar 100) true NoDefault;
    mkColumn "is_pqc" TBoolean false (Constant (QBool false));
    mkColumn "handshake_duration_ms" TInteger true NoDefault;
    mkColumn "started_at" TTimestamptz false Now;
    mkColumn "ended_at" TTimestamptz true NoDefault ].

Definition qsgw_audit_log_columns : list column :=
  [ mkColumn "id" TUuid false NewUuid;
    mkColumn "entity_type" (TVarchar 50) false NoDefault;
    mkColumn "entity_id" TUuid false NoDefault;
    mkColumn "action" (TVarchar 50) false NoDefault;
    mkColumn "actor" (TVarchar 255) false (Constant (QText "system"));
    mkColumn "details" TOpaque true (Constant (QText "{}"));
    mkColumn "created_at" TTimestamptz false Now ].

Definition columns (table : string) : list column :=
  if String.eqb table "gateways" then gateways_columns
  else if String.eqb table "upstreams" then upstreams_columns
  else if String.eqb table "routes" then routes_columns
  else if String.eqb table "tls_sessions" then tls_sessions_columns
  else if String.eqb table "threat_events" then threat_events_columns
  else if String.eqb table "qsgw_audit_log" then qsgw_audit_log_columns
  else [].

(** PRIMARY KEY and UNIQUE. *)
Definition unique_keys (table : string) : list (list string) :=
  if String.eqb table "gateways" then [["id"]; ["name"]]
  else if String.eqb table "routes" then [["id"]; ["gateway_id"; "path_prefix"]]
  else [["id"]].

(** REFERENCES: column and referenced table (by its [id]). *)
Definition foreign_keys (table : string) : list (string * string) :=
  if String.eqb table "routes" then [("gateway_id", "gateways"); ("upstream_id", "upstreams")]
  else if String.eqb table "tls_sessions" || String.eqb table "threat_events" then [("gateway_id", "gateways")]
  else [].

(** The tables some foreign key points to. *)
Definition is_referenced (table : string) : bool :=
  String.eqb table "gateways" || String.eqb table "upstreams".

(** Columns a BEFORE UPDATE trigger assigns. *)
Definition trigger_columns (table : string) : list string :=
  if existsb (String.eqb table) ["gateways"; "upstreams"; "routes"] then ["updated_at"] else [].

(** ** Values *)

Fixpoint blanks (n : nat) : string :=
  match n with O => "" | S m => String " " (blanks m) end.

(** A text assigned to VARCHAR(n): spaces beyond the [n]-th character are cut off,
    when there is nothing else beyond it.  (A text with anything else there is
    refused: [has_type].) *)
Definition varchar (n : Z) (s : string) : string :=
  let excess := (List.length (range_runes s) - Z.to_nat n)%nat in
  let kept := substring 0 (String.length s - excess) s in
  if String.eqb s (kept ++ blanks excess) then kept else s.

(** A value as a column of the type takes it; times are up to [stored]. *)
Definition assigned (ty : col_type) (v : sqlval) : sqlval :=
  match ty, v with
  | TVarchar n, QText s => QText (varchar n s)
  | _, _ => v
  end.

(** ** Rows *)

Definition has_type (ty : col_type) (v : sqlval) : bool :=
  match ty, v with
  | TUuid, QUuid _ => true
  | TVarchar n, QText s => Z.of_nat (List.length (range_runes s)) <=? n
  | TText, QText _ => true
  | TInteger, QInt n => (- 2 ^ 31 <=? n) && (n <? 2 ^ 31)
  | TBoolean, QBool _ => true
  | TTimestamptz, QTime _ => true
  | TEnum labels, QText s => existsb (String.eqb s) labels
  | TOpaque, QText _ => true
  | _, _ => false
  end.

Abbreviation Row := (gmap string sqlval).

Definition column_ok (row : Row) (c : column) : bool :=
  match row !! col_name c with
  | Some QNull => col_nullable c
  | Some v => has_type (col_ty c) v
  | None => false
  end.

(** Every column is there, typed, and not NULL unless it may be. *)
Definition row_ok (table : string) (row : Row) : bool := forallb (column_ok row) (columns table).

(** The destination's kind is the column's type. *)
Definition dest_matches (ty : col_type) (d : dest) : bool :=
  match ty, d with
  | TUuid, DUuid => true
  | (TVarchar _ | TText | TEnum _), (DString | DStringPtr) => true
  | TInteger, (DInt | DIntPtr) => true
  | TBoolean, DBool => true
  | TTimestamptz, DTime => true
  | _, _ => false
  end.

Definition find_column (table c : string) : option column :=
  List.find (λ col, String.eqb (col_name col) c) (columns table).

(** The type of a column; a statement cannot name one that is not there. *)
Definition column_type (table c : string) : col_type :=
  match find_column table c with Some col => col_ty col | None => TOpaque end.

(** A [Scan] list fits the columns selected. *)
Fixpoint scan_matches (table : string) (cols : list string) (ds : list dest) : bool :=
  match cols, ds with
  | [], [] => true
  | c :: cols', d :: ds' =>
      match find_column table c with
      | Some col => dest_matches (col_ty col) d && scan_matches table cols' ds'
      | None => false
      end
  | _, _ => false
  end.

(** The values of the selected columns. *)
Definition project (cols : list string) (row : Row) : option (list sqlval) := mapM (λ c, row !! c) cols.

(** ** Lemmas *)

Lemma blanks_length (n : nat) : String.length (blanks n) = n.
Proof. induction n as [|n IH]; [done|]. cbn. by rewrite IH. Qed.

(** A text that fits is stored as it is. *)
Lemma varchar_fits (n : Z) (s : string) : len s ≤ n → varchar n s = s.
Proof.
  intros Hs. pose proof (range_runes_length s) as Hr. unfold varchar, len in *.
  replace (List.length (range_runes s) - Z.to_nat n)%nat with 0%nat by lia. cbn [blanks].
  case_match eqn:E; [|done]. apply String.eqb_eq in E. by rewrite app_string_nil in E.
Qed.

Example varchar_cuts : varchar 3 "abc  " = "abc" ∧ varchar 3 "abc d" = "abc d" ∧ varchar 3 "a  " = "a  ".
Proof. repeat split; vm_compute; reflexivity. Qed.

(** Something is left of a text. *)
Lemma varchar_nonempty (n : Z) (s : string) : 0 < n → s ≠ "" → varchar n s ≠ "".
Proof.
  intros Hn Hs. unfold varchar. case_match eqn:E; [|done]. apply String.eqb_eq in E. intros Hk. rewrite Hk in E.
  pose proof (range_runes_length s) as Hr. change ("" ++ ?x)%string with x in E.
  apply (f_equal String.length) in E. rewrite blanks_length in E. destruct s; [done|]. cbn [String.length] in *. lia.
Qed.

Lemma row_ok_column (table c : string) (row : Row) (col : column) :
  row_ok table row = true → find_column table c = Some col →
  ∃ v, row !! c = Some v ∧ (v = QNull ∧ col_nullable col = true ∨ v ≠ QNull ∧ has_type (col_ty col) v = true).
Proof.
  unfold row_ok, find_column. rewrite forallb_forall. intros Hr Hf.
  apply find_some in Hf as [Hin Hn]. apply String.eqb_eq in Hn. subst c.
  specialize (Hr col Hin). unfold column_ok in Hr.
  destruct (row !! col_name col) as [v|]; [|done]. exists v. split; [done|].
  destruct v; auto.
Qed.

Lemma has_type_fits (ty : col_type) (d : dest) (v : sqlval) :
  has_type ty v = true → dest_matches ty d = true → fits d v = true.
Proof. destruct ty, v, d; done. Qed.

(** A stored row's values fit the destinations the code scans them into. *)
Lemma project_fits (table : string) (cols : list string) (ds : list dest) (row : Row) :
  row_ok table row = true → scan_matches table cols ds = true →
  ∃ vals, project cols row = Some vals ∧ all_fit ds vals = true.
Proof.
  intros Hr. revert ds. induction cols as [|c cols IH]; intros [|d ds] Hm; try done.
  - by exists [].
  - cbn [scan_matches] in Hm. destruct (find_column table c) as [col|] eqn:Ef; [|done].
    apply andb_prop in Hm as [Hd Hm]. destruct (IH ds Hm) as (vals & Hp & Ha).
    destruct (row_ok_column table c row col Hr Ef) as (v & Hv & Hty).
    exists (v :: vals). unfold project in *. cbn [mapM]. rewrite Hv. cbn. rewrite Hp. split; [done|].
    cbn [all_fit]. rewrite Ha, andb_true_r.
    destruct Hty as [[-> _]|[_ Hty]]; [by destruct d|by apply has_type_fits with (col_ty col)].
Qed.
