(* ===== verification/Postgres.v ===== *)
(** * The database behind [pgxpool]

    [PgPool] is the interface of the pool the repositories call: [Exec],
    [QueryRow(...).Scan(...)] and [Query] with its rows.  [PgLaws] states what
    PostgreSQL documents for the statements of Sql.v on the schema of Schema.v:
    any call may fail (a failed write may still have taken effect, as when the
    connection is lost before the acknowledgement), and a call that succeeds does
    what its statement says.  Memory.v has an instance of both. *)

From Stdlib Require Import Sorting.Sorted.
From S2P Require Import Prelude GoNum GoTime Http Model Sql Schema.

(** ** The driver *)

Inductive row_error (E : Type) := ErrNoRows | ErrRow (e : E).
Arguments ErrNoRows {E}.
Arguments ErrRow {E} _.

Class PgPool (S E : Type) := {
  (** [RowsAffected] of the command tag *)
  db_exec : string → list sqlval → S → result Z E * S;
  (** [QueryRow(ctx, q, args...).Scan(...)] *)
  db_query_row : string → list sqlval → ∀ ds, S → result (dests ds) (row_error E) * S;
  (** the [Scan] of each row, and [rows.Err()] *)
  db_query : string → list sqlval → ∀ ds, S → result (list (result (dests ds) E) * option E) E * S
}.

(** A statement is one atomic step: PostgreSQL runs it in a transaction of its own. *)
Definition Exec {S E} `{PgPool S E} (q : string) (args : list sqlval) : M S (result Z E) :=
  prim (db_exec q args).
Definition QueryRow {S E} `{PgPool S E} (q : string) (args : list sqlval) (ds : list dest)
    : M S (result (dests ds) (row_error E)) := prim (db_query_row q args ds).
Definition Query {S E} `{PgPool S E} (q : string) (args : list sqlval) (ds : list dest)
    : M S (result (list (result (dests ds) E) * option E) E) := prim (db_query q args ds).

(** ** Tables *)

Abbreviation Database := (gmap string (list Row)).

Definition table (db : Database) (t : string) : list Row := default [] (db !! t).

(** Argument [$i], counted from 1. *)
Definition arg (args : list sqlval) (i : nat) : option sqlval :=
  match i with O => None | S j => args !! j end.

(** [column = $i]: never true of NULL. *)
Definition cond_holds (args : list sqlval) (row : Row) (cond : string * nat) : bool :=
  match row !! cond.1, arg args cond.2 with
  | Some v, Some a => bool_decide (v = a) && negb (bool_decide (v = QNull))
  | _, _ => false
  end.

Definition row_matches (args : list sqlval) (conds : list (string * nat)) (row : Row) : bool :=
  forallb (cond_holds args row) conds.

Definition matching (args : list sqlval) (conds : list (string * nat)) (rows : list Row) : list Row :=
  List.filter (row_matches args conds) rows.

(** A value as a column of the type stores it.  Timestamps are stored to the
    microsecond and read back in some zone, without a monotonic reading. *)
Definition stored (ty : col_type) (v v' : sqlval) : Prop :=
  match v with
  | QTime t => ∃ t', v' = QTime t' ∧ wall t' = wall t - wall t mod 1000 ∧ mono t' = None
  | _ => v' = assigned ty v
  end.

Definition is_default (d : col_default) (v : sqlval) : Prop :=
  match d with
  | NoDefault => v = QNull
  | Constant c => v = c
  | NewUuid => ∃ u, v = QUuid u
  | Now => ∃ t, v = QTime t
  end.

(** The row agrees with another on a unique key. *)
Definition same_key (key : list string) (row row' : Row) : bool :=
  forallb (λ c, bool_decide (row !! c = row' !! c)) key.

Definition unique_in (t : string) (row : Row) (rows : list Row) : bool :=
  forallb (λ key, negb (existsb (same_key key row) rows)) (unique_keys t).

Definition references_ok (t : string) (row : Row) (db : Database) : bool :=
  forallb (λ fk, existsb (λ target : Row, bool_decide (target !! "id" = row !! fk.1)) (table db fk.2))
    (foreign_keys t).

(** Integers and times order rows; the other values are not ordered by. *)
Definition order_key (v : option sqlval) : Z :=
  match v with
  | Some (QInt n) => n
  | Some (QTime t) => wall t
  | _ => 0
  end.

Definition not_before (c : string) (row row' : Row) : Prop :=
  order_key (row' !! c) ≤ order_key (row !! c).

Definition ordered (order_desc : option string) (rows : list Row) : Prop :=
  match order_desc with
  | None => True
  | Some c => StronglySorted (not_before c) rows
  end.

Definition on_page (args : list sqlval) (page : option (nat * nat)) (rows rows' : list Row) : Prop :=
  match page with
  | None => rows' = rows
  | Some (o, l) =>
      ∃ n m, arg args o = Some (QInt n) ∧ arg args l = Some (QInt m) ∧ 0 ≤ n ∧ 0 ≤ m
        ∧ rows' = take (Z.to_nat m) (drop (Z.to_nat n) rows)
  end.

(** ** Statements *)

(** The row an [INSERT] adds. *)
Definition inserted (args : list sqlval) (t : string) (cols : list string) (params : list nat)
    (row : Row) : Prop :=
  (∀ j c i, cols !! j = Some c → params !! j = Some i →
     ∃ v v', arg args i = Some v ∧ stored (column_type t c) v v' ∧ row !! c = Some v')
  ∧ (∀ col, In col (columns t) → col_name col ∉ cols →
     ∃ v, row !! col_name col = Some v ∧ is_default (col_default_ col) v)
  ∧ row_ok t row = true.

(** A row before and after an [UPDATE]. *)
Definition updated (args : list sqlval) (t : string) (sets conds : list (string * nat))
    (row row' : Row) : Prop :=
  if row_matches args conds row then
    (∀ c, c ∉ map fst sets → c ∉ trigger_columns t → row' !! c = row !! c)
    ∧ (∀ c i, (c, i) ∈ sets → c ∉ trigger_columns t →
         ∃ v v', arg args i = Some v ∧ stored (column_type t c) v v' ∧ row' !! c = Some v')
    ∧ row_ok t row' = true
  else row' = row.

Definition affected (args : list sqlval) (conds : list (string * nat)) (rows : list Row) : Z :=
  Z.of_nat (List.length (matching args conds rows)).

(** A write: the database before and after, and the rows affected. *)
Inductive executes (args : list sqlval) : stmt → Database → Database → Z → Prop :=
| exec_insert t cols params db row :
    inserted args t cols params row →
    unique_in t row (table db t) = true → references_ok t row db = true →
    executes args (Insert t cols params) db (<[t := (table db t ++ [row])%list]> db) 1
| exec_update t sets conds db rows :
    Forall2 (updated args t sets conds) (table db t) rows →
    executes args (Update t sets conds) db (<[t := rows]> db) (affected args conds (table db t))
| exec_delete t conds db :
    is_referenced t = false →
    executes args (Delete t conds) db
      (<[t := List.filter (λ row, negb (row_matches args conds row)) (table db t)]> db)
      (affected args conds (table db t)).

(** A read: the rows of values it gives. *)
Inductive selects (args : list sqlval) : stmt → Database → list (list sqlval) → Prop :=
| sel_rows cols t conds order page db rows rows' vals :
    rows ≡ₚ matching args conds (table db t) → ordered order rows →
    on_page args page rows rows' → mapM (project cols) rows' = Some vals →
    selects args (Select cols t conds order page) db vals
| sel_count t conds db :
    selects args (Count t conds) db [[QInt (affected args conds (table db t))]].

(** ** What the repositories rely on *)

(** A row scanned: the values when they fit the destinations, an error when one
    of them is NULL and its destination cannot be. *)
Definition scanned {E} (ds : list dest) (vals : list sqlval) (r : result (dests ds) E) : Prop :=
  all_fit ds vals = true →
  match of_vals ds vals with
  | Some x => r = Ok x
  | None => ∃ e, r = Err e
  end.

Class PgLaws (S E : Type) `{PgPool S E} := {
  db_of : S → Database;
  db_typed s t row : row ∈ table (db_of s) t → row_ok t row = true;
  Exec_law q args st s :
    parse_stmt q = Some st →
    match Exec q args s with
    | (Ok n, s') => executes args st (db_of s) (db_of s') n
    | (Err _, s') => db_of s' = db_of s ∨ ∃ n, executes args st (db_of s) (db_of s') n
    end;
  QueryRow_law q args st ds s :
    parse_stmt q = Some st →
    match QueryRow q args ds s with
    | (Ok x, s') =>
        db_of s' = db_of s ∧
        ∃ vals rest, selects args st (db_of s) (vals :: rest)
          ∧ (all_fit ds vals = true → of_vals ds vals = Some x)
    | (Err ErrNoRows, s') => db_of s' = db_of s ∧ selects args st (db_of s) []
    | (Err (ErrRow _), s') => db_of s' = db_of s
    end;
  Query_law q args st ds s :
    parse_stmt q = Some st →
    match Query q args ds s with
    | (Ok (rs, err), s') =>
        db_of s' = db_of s ∧
        ∃ vals rest, selects args st (db_of s) (vals ++ rest)%list
          ∧ Forall2 (scanned ds) vals rs ∧ (err = None → rest = [])
    | (Err _, s') => db_of s' = db_of s
    end
}.

(** The clock and the UUID source are not the database. *)
Class FrameLaws (S E : Type) `{HasClock S} `{HasUuid S} `{PgLaws S E} := {
  clock_keeps_db s : db_of (time_Now s).2 = db_of s;
  uuid_keeps_db s : db_of (uuid_New s).2 = db_of s
}.

(** ** Lemmas *)

Lemma matching_elem (args : list sqlval) (conds : list (string * nat)) (rows : list Row) (row : Row) :
  row ∈ matching args conds rows ↔ row ∈ rows ∧ row_matches args conds row = true.
Proof. unfold matching. by rewrite !list_elem_of_In, filter_In. Qed.

Lemma table_insert (db : Database) (t : string) (rows : list Row) : table (<[t := rows]> db) t = rows.
Proof. unfold table. by rewrite lookup_insert_eq. Qed.

Lemma table_insert_ne (db : Database) (t t' : string) (rows : list Row) :
  t ≠ t' → table (<[t := rows]> db) t' = table db t'.
Proof. intros H. unfold table. by rewrite lookup_insert_ne. Qed.

(** The one condition of most statements. *)
Lemma row_matches_one (args : list sqlval) (c : string) (i : nat) (row : Row) (a : sqlval) :
  arg args i = Some a → a ≠ QNull → row_matches args [(c, i)] row = true ↔ row !! c = Some a.
Proof.
  intros Ha Hn. unfold row_matches. cbn [forallb]. rewrite andb_true_r. unfold cond_holds. cbn [fst snd].
  rewrite Ha. destruct (row !! c) as [v|]; [|done]. rewrite andb_true_iff, negb_true_iff.
  rewrite bool_decide_eq_true, bool_decide_eq_false. naive_solver.
Qed.

Lemma cond_holds_uuid (args : list sqlval) (c : string) (i : nat) (row : Row) (u u' : UUID) :
  row !! c = Some (QUuid u) → arg args i = Some (QUuid u') → cond_holds args row (c, i) = String.eqb u u'.
Proof.
  intros Hr Ha. unfold cond_holds. cbn [fst snd]. rewrite Hr, Ha.
  rewrite (bool_decide_eq_false_2 (QUuid u = QNull)) by discriminate. rewrite andb_true_r.
  destruct (String.eqb_spec u u') as [->|Hne]; [by apply bool_decide_eq_true|].
  apply bool_decide_eq_false. by intros [= ->].
Qed.

Lemma cond_holds_text (args : list sqlval) (c : string) (i : nat) (row : Row) (u u' : string) :
  row !! c = Some (QText u) → arg args i = Some (QText u') → cond_holds args row (c, i) = String.eqb u u'.
Proof.
  intros Hr Ha. unfold cond_holds. cbn [fst snd]. rewrite Hr, Ha.
  rewrite (bool_decide_eq_false_2 (QText u = QNull)) by discriminate. rewrite andb_true_r.
  destruct (String.eqb_spec u u') as [->|Hne]; [by apply bool_decide_eq_true|].
  apply bool_decide_eq_false. by intros [= ->].
Qed.

(** A page has no more rows than its limit and no other rows. *)
Lemma on_page_submseteq (args : list sqlval) (page : option (nat * nat)) (rows rows' : list Row) :
  on_page args page rows rows' → sublist rows' rows.
Proof.
  destruct page as [[o l]|]; cbn [on_page]; [|by intros ->].
  intros (n & m & _ & _ & _ & _ & ->).
  etransitivity; [apply sublist_take|apply sublist_drop].
Qed.

Lemma on_page_length (args : list sqlval) (o l : nat) (rows rows' : list Row) (m : Z) :
  on_page args (Some (o, l)) rows rows' → arg args l = Some (QInt m) →
  Z.of_nat (List.length rows') ≤ Z.max 0 m.
Proof.
  intros (n & k & _ & Hl & _ & Hk & ->) Hm. rewrite Hl in Hm. injection Hm as ->.
  rewrite length_take. lia.
Qed.

(** The scanned rows of a table of fitting type: one destination tuple per row, or
    an error. *)
Lemma selects_rows (args : list sqlval) (cols : list string) (t : string) conds order page
    (db : Database) (vals : list (list sqlval)) :
  selects args (Select cols t conds order page) db vals →
  ∃ rows rows', rows ≡ₚ matching args conds (table db t) ∧ ordered order rows
    ∧ on_page args page rows rows' ∧ mapM (project cols) rows' = Some vals.
Proof. inversion 1; subst. eauto 6. Qed.

Lemma selects_count (args : list sqlval) (t : string) conds (db : Database) (vals : list (list sqlval)) :
  selects args (Count t conds) db vals → vals = [[QInt (affected args conds (table db t))]].
Proof. by inversion 1. Qed.
