(* ===== verification/Memory.v ===== *)
(** * A reference database in memory

    An executable instance of the interfaces of the application's state: a
    database that runs the statements of Sql.v on tables in memory, a clock, a
    source of UUIDs and the rate limiter.  It shows that [PgLaws] can hold, and the
    witnesses of the properties run on it. *)

From stdpp Require Import sorting.
From Stdlib Require Import Sorting.Sorted.
From S2P Require Import Prelude GoNum GoStrings GoTime Utf8 Json Http RateLimit Model Sql Schema Postgres.

(** ** The state *)

Record memory := mkMemory {
  m_rows : Database;
  m_now : Z;                 (** the clock, in nanoseconds *)
  m_next : Z;                (** the next UUID *)
  m_limiter : RateLimiter;
  m_down : bool              (** the database refuses everything *)
}.

(** The rows that fit the schema. *)
Definition clean (db : Database) : Database :=
  map_imap (λ t rows, Some (List.filter (row_ok t) rows)) db.

Definition m_db (m : memory) : Database := clean (m_rows m).

Definition with_rows (m : memory) (db : Database) : memory :=
  mkMemory db (m_now m) (m_next m) (m_limiter m) (m_down m).

(** ** Statements *)

Definition store (ty : col_type) (v : sqlval) : sqlval :=
  match v with
  | QTime t => QTime (mkTime (wall t - wall t mod 1000) None 0)
  | _ => assigned ty v
  end.

Definition default_value (now : Z) (d : col_default) : sqlval :=
  match d with
  | NoDefault => QNull
  | Constant v => v
  | NewUuid => QUuid ""
  | Now => QTime (mkTime now None 0)
  end.

Definition given_columns (t : string) (cols : list string) (vs : list sqlval) : Row :=
  list_to_map (zip_with (λ c v, (c, store (column_type t c) v)) cols vs).

Definition default_columns (now : Z) (t : string) : Row :=
  list_to_map (map (λ col, (col_name col, default_value now (col_default_ col))) (columns t)).

Definition run_insert (now : Z) (args : list sqlval) (t : string) (cols : list string) (params : list nat)
    (db : Database) : option (Database * Z) :=
  vs ← mapM (arg args) params;
  let row : Row := given_columns t cols vs ∪ default_columns now t in
  if bool_decide (NoDup cols) && bool_decide (List.length cols = List.length params)
     && row_ok t row && unique_in t row (table db t) && references_ok t row db
  then Some (<[t := (table db t ++ [row])%list]> db, 1)
  else None.

(** The columns an [UPDATE] gives, without those a trigger overrides. *)
Definition set_columns (args : list sqlval) (t : string) (sets : list (string * nat)) : option Row :=
  vs ← mapM (λ ci, arg args ci.2) sets;
  Some (given_columns t (map fst sets) vs).

Definition trigger_values (now : Z) (t : string) : Row :=
  list_to_map (map (λ c, (c, QTime (mkTime now None 0))) (trigger_columns t)).

Definition run_update (now : Z) (args : list sqlval) (t : string) (sets conds : list (string * nat))
    (db : Database) : option (Database * Z) :=
  new ← set_columns args t sets;
  let change (row : Row) : Row :=
    if row_matches args conds row then trigger_values now t ∪ (new ∪ row) else row in
  let rows := map change (table db t) in
  if bool_decide (NoDup (map fst sets)) && forallb (row_ok t) rows
  then Some (<[t := rows]> db, affected args conds (table db t))
  else None.

Definition run_delete (args : list sqlval) (t : string) (conds : list (string * nat))
    (db : Database) : option (Database * Z) :=
  if is_referenced t then None
  else Some (<[t := List.filter (λ row, negb (row_matches args conds row)) (table db t)]> db,
             affected args conds (table db t)).

Definition run_write (now : Z) (args : list sqlval) (st : stmt) (db : Database) : option (Database * Z) :=
  match st with
  | Insert t cols params => run_insert now args t cols params db
  | Update t sets conds => run_update now args t sets conds db
  | Delete t conds => run_delete args t conds db
  | _ => None
  end.

#[export] Instance not_before_dec (c : string) : RelDecision (not_before c).
Proof. intros r r'. unfold not_before. apply _. Defined.
#[export] Instance not_before_trans (c : string) : Transitive (not_before c).
Proof. intros r1 r2 r3. unfold not_before. lia. Qed.
#[export] Instance not_before_total (c : string) : Total (not_before c).
Proof. intros r r'. unfold not_before. lia. Qed.

Definition sort_rows (order_desc : option string) (rows : list Row) : list Row :=
  match order_desc with
  | None => rows
  | Some c => merge_sort (not_before c) rows
  end.

Definition page_rows (args : list sqlval) (page : option (nat * nat)) (rows : list Row) : option (list Row) :=
  match page with
  | None => Some rows
  | Some (o, l) =>
      match arg args o, arg args l with
      | Some (QInt n), Some (QInt m) =>
          if (0 <=? n) && (0 <=? m) then Some (list.take (Z.to_nat m) (drop (Z.to_nat n) rows)) else None
      | _, _ => None
      end
  end.

Definition run_read (args : list sqlval) (st : stmt) (db : Database) : option (list (list sqlval)) :=
  match st with
  | Select cols t conds order page =>
      rows ← page_rows args page (sort_rows order (matching args conds (table db t)));
      mapM (project cols) rows
  | Count t conds => Some [[QInt (affected args conds (table db t))]]
  | _ => None
  end.

(** ** The instances *)

Definition scan {ds} (vals : list sqlval) : result (dests ds) string :=
  match of_vals ds vals with Some x => Ok x | None => Err "cannot scan" end.

Definition memory_exec (q : string) (args : list sqlval) (m : memory) : result Z string * memory :=
  match parse_stmt q with
  | None => (Err "syntax error", m)
  | Some st =>
      if m_down m then (Err "connection refused", m)
      else match run_write (m_now m) args st (m_db m) with
           | Some (db, n) => (Ok n, with_rows m db)
           | None => (Err "constraint violated", m)
           end
  end.

Definition memory_read (q : string) (args : list sqlval) (m : memory) : option (list (list sqlval)) :=
  st ← parse_stmt q; if m_down m then None else run_read args st (m_db m).

#[export] Instance memory_pool : PgPool memory string := {
  db_exec := memory_exec;
  db_query_row q args ds m :=
    (match memory_read q args m with
     | None => Err (ErrRow "query failed")
     | Some [] => Err ErrNoRows
     | Some (vals :: _) =>
         match of_vals ds vals with Some x => Ok x | None => Err (ErrRow "cannot scan") end
     end, m);
  db_query q args ds m :=
    (match memory_read q args m with
     | None => Err "query failed"
     | Some l => Ok (map scan l, None)
     end, m)
}.

#[export] Instance memory_clock : HasClock memory := λ m,
  (mkTime (m_now m) (Some (m_now m)) 0,
   mkMemory (m_rows m) (m_now m + 1000000) (m_next m) (m_limiter m) (m_down m)).

#[export] Instance memory_limiter : HasLimiter memory := {
  get_limiter := m_limiter;
  put_limiter rl m := mkMemory (m_rows m) (m_now m) (m_next m) rl (m_down m)
}.

#[export] Instance memory_limiter_laws : LimiterLaws memory.
Proof. by split. Defined.

(** Sixteen bytes: a number, big-endian. *)
Fixpoint number_bytes (n : nat) (z : Z) (acc : string) : string :=
  match n with
  | O => acc
  | S n' => number_bytes n' (z / 256) (String (byte_of z) acc)
  end.

#[export] Instance memory_uuid : HasUuid memory := λ m,
  (number_bytes 16 (m_next m) "",
   mkMemory (m_rows m) (m_now m) (m_next m + 1) (m_limiter m) (m_down m)).

Fixpoint to_hex (s : string) : string :=
  match s with
  | EmptyString => EmptyString
  | String c r => String (hex_digit (byte_val c / 16)) (String (hex_digit (byte_val c mod 16)) (to_hex r))
  end.

Fixpoint of_hex (s : string) : option string :=
  match s with
  | EmptyString => Some EmptyString
  | String a (String b r) =>
      match hex_val a, hex_val b, of_hex r with
      | Some x, Some y, Some t => Some (String (byte_of (16 * x + y)) t)
      | _, _, _ => None
      end
  | _ => None
  end.

(** 32 hexadecimal digits, which [uuid.Parse] accepts without hyphens too. *)
#[export] Instance memory_uuid_lib : UuidLib := {
  uuid_Parse s := if (String.length s =? 32)%nat then of_hex s else None;
  uuid_String := to_hex
}.

(** ** The laws *)

Lemma table_clean (db : Database) (t : string) : table (clean db) t = List.filter (row_ok t) (table db t).
Proof.
  unfold table, clean. rewrite map_lookup_imap. destruct (db !! t) as [rows|]; done.
Qed.

Lemma clean_id (db : Database) : (∀ t row, row ∈ table db t → row_ok t row = true) → clean db = db.
Proof.
  intros H. apply map_eq. intros t. unfold clean. rewrite map_lookup_imap.
  specialize (H t). unfold table in H. destruct (db !! t) as [rows|]; [|done]. cbn in *. f_equal.
  induction rows as [|row rows IH]; [done|]. cbn [List.filter].
  rewrite (H row) by apply list_elem_of_here. f_equal. apply IH. intros r Hr. apply H. by right.
Qed.

Lemma m_db_typed (m : memory) (t : string) (row : Row) : row ∈ table (m_db m) t → row_ok t row = true.
Proof. unfold m_db. rewrite table_clean. by intros [_ H]%list_elem_of_In%filter_In. Qed.

Lemma store_stored (ty : col_type) (v : sqlval) : stored ty v (store ty v).
Proof. destruct v; cbn; try done. by eexists. Qed.

Lemma default_is_default (now : Z) (d : col_default) : is_default d (default_value now d).
Proof. destruct d; cbn; try done; by eexists. Qed.

Lemma columns_nodup (t : string) : NoDup (map col_name (columns t)).
Proof.
  unfold columns. repeat case_match; apply (bool_decide_unpack _); by vm_compute.
Qed.

Lemma zip_lookup_map (t : string) (cols : list string) (vs : list sqlval) (j : nat) (c : string) (v : sqlval) :
  NoDup cols → cols !! j = Some c → vs !! j = Some v → given_columns t cols vs !! c = Some (store (column_type t c) v).
Proof.
  intros Hd Hc Hv. unfold given_columns. apply elem_of_list_to_map_1'.
  - intros y Hy. apply list_elem_of_lookup in Hy as (k & Hk).
    apply lookup_zip_with_Some in Hk as (a & b & [= -> ->] & Ha & Hb).
    rewrite (NoDup_lookup _ _ _ _ Hd Hc Ha) in Hv. congruence.
  - apply list_elem_of_lookup. exists j. apply lookup_zip_with_Some. by exists c, v.
Qed.

Lemma given_columns_None (t : string) (cols : list string) (vs : list sqlval) (c : string) :
  c ∉ cols → given_columns t cols vs !! c = None.
Proof.
  intros Hc. apply not_elem_of_list_to_map_1. intros Hin. apply Hc.
  apply list_elem_of_fmap in Hin as ([c' v] & -> & Hin).
  apply list_elem_of_lookup in Hin as (k & Hk). apply lookup_zip_with_Some in Hk as (a & b & [= -> _] & Ha & _).
  by apply list_elem_of_lookup_2 with k.
Qed.

Lemma run_insert_executes (now : Z) (args : list sqlval) (t : string) cols params (db db' : Database) (n : Z) :
  run_insert now args t cols params db = Some (db', n) → executes args (Insert t cols params) db db' n.
Proof.
  unfold run_insert. destruct (mapM (arg args) params) as [vs|] eqn:Ev; [|done]. cbn.
  set (row := given_columns t cols vs ∪ default_columns now t).
  intros H. case_match eqn:Hc; [|done]. injection H as <- <-. bool_to_prop.
  apply bool_decide_eq_true in H, H3. constructor; [|done|done]. split; [|split; [|done]].
  - intros j c i Hj Hi. apply mapM_Some in Ev.
    destruct (Forall2_lookup_l _ _ _ _ _ Ev Hi) as (v & Hv & Ha). exists v, (store (column_type t c) v).
    split; [done|]. split; [apply store_stored|]. apply lookup_union_Some_l. by apply (zip_lookup_map _ _ _ j).
  - intros col Hcol Hn. exists (default_value now (col_default_ col)). split; [|apply default_is_default].
    subst row. rewrite lookup_union_r by by apply given_columns_None.
    unfold default_columns. apply elem_of_list_to_map_1.
    + rewrite <- list_fmap_compose. apply columns_nodup.
    + apply list_elem_of_fmap. exists col. split; [done|]. by apply list_elem_of_In.
Qed.

Lemma trigger_values_None (now : Z) (t c : string) : c ∉ trigger_columns t → trigger_values now t !! c = None.
Proof.
  intros Hc. apply not_elem_of_list_to_map_1. rewrite <- list_fmap_compose. cbn.
  by rewrite list_fmap_id.
Qed.

Lemma run_update_executes (now : Z) (args : list sqlval) (t : string) sets conds (db db' : Database) (n : Z) :
  run_update now args t sets conds db = Some (db', n) → executes args (Update t sets conds) db db' n.
Proof.
  unfold run_update, set_columns. destruct (mapM _ sets) as [vs|] eqn:Ev; [|done]. cbn.
  intros H. case_match eqn:Hc; [|done]. injection H as <- <-. apply andb_prop in Hc as [Hd Hok].
  apply bool_decide_eq_true in Hd. rewrite forallb_forall in Hok. constructor.
  apply Forall2_fmap_r, Forall_Forall2_diag, Forall_forall. intros row Hr%list_elem_of_In.
  unfold compose, updated. specialize (Hok _ (in_map _ _ _ (proj1 (list_elem_of_In _ _) Hr))).
  cbn beta in Hok. destruct (row_matches args conds row); [|done]. split; [|split; [|done]].
  - intros c Hc Ht. rewrite lookup_union_r by by apply trigger_values_None.
    by rewrite lookup_union_r by by apply given_columns_None.
  - intros c k Hck Ht. apply list_elem_of_lookup in Hck as [j Hj]. apply mapM_Some in Ev.
    destruct (Forall2_lookup_l _ _ _ _ _ Ev Hj) as (v & Hv & Ha). exists v, (store (column_type t c) v).
    split; [done|]. split; [apply store_stored|].
    rewrite lookup_union_r by by apply trigger_values_None. apply lookup_union_Some_l.
    apply (zip_lookup_map _ _ _ j); [done| |done]. by rewrite list_lookup_fmap, Hj.
Qed.

Lemma run_write_executes (now : Z) (args : list sqlval) (st : stmt) (db db' : Database) (n : Z) :
  run_write now args st db = Some (db', n) → executes args st db db' n.
Proof.
  destruct st as [t cols params| | |t sets conds|t conds]; cbn [run_write]; try done.
  - apply run_insert_executes.
  - apply run_update_executes.
  - unfold run_delete. destruct (is_referenced t) eqn:E; [done|]. intros [= <- <-]. by constructor.
Qed.

(** A write keeps the tables within the schema. *)
Lemma executes_typed (args : list sqlval) (st : stmt) (db db' : Database) (n : Z) :
  executes args st db db' n → (∀ t row, row ∈ table db t → row_ok t row = true) →
  ∀ t row, row ∈ table db' t → row_ok t row = true.
Proof.
  intros Hex Hty t' row'.
  destruct Hex as [t cols params db row (_ & _ & Hok) _ _|t sets conds db rows Hup|t conds db _];
    (destruct (decide (t = t')) as [->|Hne]; [rewrite table_insert|rewrite table_insert_ne by done; apply Hty]).
  - rewrite elem_of_app, list_elem_of_singleton. intros [Hr| ->]; [by apply Hty|done].
  - intros Hr. apply list_elem_of_lookup in Hr as [j Hj].
    destruct (Forall2_lookup_r _ _ _ _ _ Hup Hj) as (row & Hrow & Hu). unfold updated in Hu.
    destruct (row_matches args conds row); [by destruct Hu as (_ & _ & ?)|]. subst row'.
    by apply Hty, list_elem_of_lookup_2 with j.
  - intros [Hr _]%list_elem_of_In%filter_In. by apply Hty, list_elem_of_In.
Qed.

Lemma run_read_selects (args : list sqlval) (st : stmt) (db : Database) (vals : list (list sqlval)) :
  run_read args st db = Some vals → selects args st db vals.
Proof.
  destruct st as [|cols t conds order page|t conds| |]; cbn [run_read]; try done.
  - destruct (page_rows args page _) as [rows'|] eqn:Ep; [|done]. cbn. intros Hv.
    apply sel_rows with (sort_rows order (matching args conds (table db t))) rows'; [| | |done].
    + destruct order; cbn [sort_rows]; [apply merge_sort_Permutation|done].
    + destruct order as [c|]; cbn [sort_rows ordered]; [|done]. apply StronglySorted_merge_sort; apply _.
    + unfold page_rows in Ep. destruct page as [[o l]|]; cbn [on_page]; [|by injection Ep as <-].
      destruct (arg args o) as [[| |k| | |]|]; try done.
      destruct (arg args l) as [[| |m| | |]|]; try done.
      case_match eqn:Hc; [|done]. injection Ep as <-. bool_to_prop. by exists k, m.
  - intros [= <-]. constructor.
Qed.

Lemma memory_read_selects (q : string) (args : list sqlval) (st : stmt) (m : memory) (vals : list (list sqlval)) :
  parse_stmt q = Some st → memory_read q args m = Some vals → selects args st (m_db m) vals.
Proof.
  intros Hp. unfold memory_read. rewrite Hp. cbn. destruct (m_down m); [done|]. apply run_read_selects.
Qed.

Lemma scan_scanned (ds : list dest) (vals : list sqlval) : scanned ds vals (scan (ds := ds) vals).
Proof. intros _. unfold scan. destruct (of_vals ds vals); [done|by eexists]. Qed.

#[export] Instance memory_laws : PgLaws memory string.
Proof.
  refine {| db_of := m_db |}.
  - apply m_db_typed.
  - intros q args st m Hp. unfold Exec. rewrite run_prim. unfold db_exec, memory_pool, memory_exec. rewrite Hp.
    destruct (m_down m); [by left|].
    destruct (run_write (m_now m) args st (m_db m)) as [[db n]|] eqn:Er; [|by left].
    apply run_write_executes in Er. unfold m_db at 2. cbn [m_rows with_rows].
    rewrite clean_id; [done|]. apply (executes_typed args st (m_db m) db n Er), m_db_typed.
  - intros q args st ds m Hp. unfold QueryRow. rewrite run_prim. unfold db_query_row, memory_pool.
    destruct (memory_read q args m) as [[|vals rest]|] eqn:Er; [|  |done].
    + split; [done|]. by apply (memory_read_selects q).
    + destruct (of_vals ds vals) as [x|] eqn:Eo; [|done]. split; [done|]. exists vals, rest.
      split; [by apply (memory_read_selects q)|done].
  - intros q args st ds m Hp. unfold Query. rewrite run_prim. unfold db_query, memory_pool.
    destruct (memory_read q args m) as [l|] eqn:Er; [|done]. split; [done|]. exists l, [].
    split; [rewrite app_nil_r; by apply (memory_read_selects q)|]. split; [|done].
    apply Forall2_fmap_r, Forall_Forall2_diag, Forall_forall. intros vals _. apply scan_scanned.
Defined.

#[export] Instance memory_frame : FrameLaws memory string.
Proof. by split. Defined.

(** An empty, reachable database at a given time. *)
Definition fresh_memory (now : Z) : memory :=
  mkMemory ∅ now 1 (NewRateLimiter (mkRLConfig 100 Minute None 0 0)) false.
