(* ===== verification/Repository.v ===== *)
(** * Repositories ([control-plane/internal/repository])

    Each method with its query string, its arguments in order and the
    destinations it scans into, over the interface [PgPool].  The theorems state
    what a method does to the tables and what it returns, under the database's
    contract [PgLaws]. *)

From Stdlib Require Import Sorting.Sorted.
From S2P Require Import Prelude GoNum GoTime Http Model Sql Schema Postgres.

(** ** Errors

    [fmt.Errorf("prefix: %w", err)], the not-found message, and an error passed
    on as it is. *)
Inductive repo_error (E : Type) :=
| Wrap (prefix : string) (e : row_error E)
| NotFound (message : string)
| Raw (e : E).
Arguments Wrap {E} _ _.
Arguments NotFound {E} _.
Arguments Raw {E} _.

(** The loop over [rows]: the first row that does not scan ends it. *)
Fixpoint collect {E T A} (prefix : string) (f : T → A) (rs : list (result T E)) : result (list A) (repo_error E) :=
  match rs with
  | [] => Ok []
  | Ok x :: rs' => let? l := collect prefix f rs' in Ok (f x :: l)
  | Err e :: _ => Err (Wrap prefix (ErrRow e))
  end.

(** [return items, ..., rows.Err()] after the loop. *)
Definition rows_result {E T A} (prefix : string) (f : T → A) (rows : list (result T E) * option E)
    : result (list A) (repo_error E) :=
  let? l := collect prefix f rows.1 in
  match rows.2 with
  | None => Ok l
  | Some e => Err (Raw e)
  end.

(** ** Scan destinations *)

Definition gateway_dests : list dest :=
  [DUuid; DString; DString; DInt; DString; DString; DInt; DString; DTime; DTime].
Definition gateway_of : dests gateway_dests → Gateway :=
  λ '(id, (name, (hostname, (port, (status, (policy, (maxc, (by_, (created, (updated, _)))))))))),
    mkGateway id name hostname port status policy maxc by_ created updated.

Definition upstream_dests : list dest :=
  [DUuid; DString; DString; DInt; DString; DBool; DString; DInt; DBool; DTime; DTime].
Definition upstream_of : dests upstream_dests → Upstream :=
  λ '(id, (name, (host, (port, (protocol, (verify, (path, (interval, (healthy, (created, (updated, _))))))))))),
    mkUpstream id name host port protocol verify path interval healthy created updated.

Definition route_dests : list dest :=
  [DUuid; DUuid; DUuid; DString; DBool; DInt; DStringPtr; DIntPtr; DBool; DTime; DTime].
Definition route_of : dests route_dests → Route :=
  λ '(id, (gid, (uid, (prefix, (strip, (prio, (policy, (rps, (enabled, (created, (updated, _))))))))))),
    mkRoute id gid uid prefix strip prio policy rps enabled created updated.

Definition threat_dests : list dest :=
  [DUuid; DUuid; DString; DString; DStringPtr; DString; DBool; DTime].
Definition threat_of : dests threat_dests → ThreatEvent :=
  λ '(id, (gid, (ty, (severity, (ip, (descr, (mitigated, (detected, _)))))))),
    mkThreat id gid ty severity ip descr mitigated detected.

Section repositories.
Context {S E : Type} `{UuidLib} `{HasClock S} `{PgPool S E}.

(** An [Exec] whose error is wrapped and whose tag is ignored. *)
Definition exec_wrapped (prefix q : string) (args : list sqlval) : M S (result unit (repo_error E)) :=
  let* res := Exec q args in
  match res with
  | Err e => mreturn (Err (Wrap prefix (ErrRow e)))
  | Ok _ => mreturn (Ok tt)
  end.

(** An [Exec] that reports no affected row as not found. *)
Definition exec_found (prefix q : string) (args : list sqlval) (missing : string)
    : M S (result unit (repo_error E)) :=
  let* res := Exec q args in
  match res with
  | Err e => mreturn (Err (Wrap prefix (ErrRow e)))
  | Ok n => if n =? 0 then mreturn (Err (NotFound missing)) else mreturn (Ok tt)
  end.

(** [QueryRow(...).Scan(...)] of one entity by its ID. *)
Definition get_one {A ds} (q : string) (f : dests ds → A) (id : UUID) (missing prefix : string)
    : M S (result A (repo_error E)) :=
  let* res := QueryRow q [QUuid id] ds in
  match res with
  | Err ErrNoRows => mreturn (Err (NotFound missing))
  | Err e => mreturn (Err (Wrap prefix e))
  | Ok x => mreturn (Ok (f x))
  end.

(** A [Query] and the loop over its rows. *)
Definition query_all {A ds} (q : string) (args : list sqlval) (f : dests ds → A)
    (list_prefix scan_prefix : string) : M S (result (list A) (repo_error E)) :=
  let* rows := Query q args ds in
  match rows with
  | Err e => mreturn (Err (Wrap list_prefix (ErrRow e)))
  | Ok rows => mreturn (rows_result scan_prefix f rows)
  end.

(** A count, then a page of rows. *)
Definition count_and_list {A ds} (count_q : string) (count_args : list sqlval)
    (list_q : string) (list_args : list sqlval) (f : dests ds → A)
    (count_prefix list_prefix scan_prefix : string) : M S (result (list A * Z) (repo_error E)) :=
  let* total := QueryRow count_q count_args [DInt] in
  match total with
  | Err e => mreturn (Err (Wrap count_prefix e))
  | Ok (total, _) =>
      let* items := query_all list_q list_args f list_prefix scan_prefix in
      mreturn (let? items := items in Ok (items, total))
  end.

(** *** gateway_repo.go *)

Definition insert_gateway_sql : string := "
		INSERT INTO gateways (id, name, hostname, port, status, tls_policy, max_connections, created_by, created_at)
		VALUES ($1, $2, $3, $4, $5, $6, $7, $8, $9)
	".

Definition GatewayRepository_Create (g : Gateway) : M S (result unit (repo_error E)) :=
  exec_wrapped "failed to insert gateway: " insert_gateway_sql
    [QUuid (gw_ID g); QText (gw_Name g); QText (gw_Hostname g); QInt (gw_Port g); QText (gw_Status g);
     QText (gw_TlsPolicy g); QInt (gw_MaxConnections g); QText (gw_CreatedBy g); QTime (gw_CreatedAt g)].

Definition get_gateway_sql : string :=
  "SELECT id, name, hostname, port, status, tls_policy, max_connections, created_by, created_at, updated_at FROM gateways WHERE id = $1".

Definition GatewayRepository_GetByID (id : UUID) : M S (result Gateway (repo_error E)) :=
  get_one get_gateway_sql gateway_of id ("gateway not found: " ++ uuid_String id) "failed to get gateway: ".

Definition count_gateways_sql : string := "SELECT COUNT(*) FROM gateways".
Definition list_gateways_sql : string :=
  "SELECT id, name, hostname, port, status, tls_policy, max_connections, created_by, created_at, updated_at FROM gateways ORDER BY created_at DESC OFFSET $1 LIMIT $2".

Definition GatewayRepository_List (offset limit : Z) : M S (result (list Gateway * Z) (repo_error E)) :=
  count_and_list count_gateways_sql [] list_gateways_sql [QInt offset; QInt limit] gateway_of
    "failed to count gateways: " "failed to list gateways: " "failed to scan gateway: ".

Definition update_status_sql : string := "UPDATE gateways SET status = $1, updated_at = $2 WHERE id = $3".

Definition GatewayRepository_UpdateStatus (id : UUID) (status : string) : M S (result unit (repo_error E)) :=
  let* now := time_Now in
  exec_found "failed to update gateway status: " update_status_sql
    [QText status; QTime (UTC now); QUuid id] ("gateway not found: " ++ uuid_String id).

(** *** upstream_repo.go *)

Definition insert_upstream_sql : string := "
		INSERT INTO upstreams (id, name, host, port, protocol, tls_verify, health_check_path, health_check_interval_secs, created_at)
		VALUES ($1, $2, $3, $4, $5, $6, $7, $8, $9)
	".

Definition UpstreamRepository_Create (u : Upstream) : M S (result unit (repo_error E)) :=
  exec_wrapped "failed to insert upstream: " insert_upstream_sql
    [QUuid (up_ID u); QText (up_Name u); QText (up_Host u); QInt (up_Port u); QText (up_Protocol u);
     QBool (up_TlsVerify u); QText (up_HealthCheckPath u); QInt (up_HealthCheckIntervalS u); QTime (up_CreatedAt u)].

Definition get_upstream_sql : string :=
  "SELECT id, name, host, port, protocol, tls_verify, health_check_path, health_check_interval_secs, is_healthy, created_at, updated_at FROM upstreams WHERE id = $1".

Definition UpstreamRepository_GetByID (id : UUID) : M S (result Upstream (repo_error E)) :=
  get_one get_upstream_sql upstream_of id ("upstream not found: " ++ uuid_String id) "failed to get upstream: ".

Definition count_upstreams_sql : string := "SELECT COUNT(*) FROM upstreams".
Definition list_upstreams_sql : string :=
  "SELECT id, name, host, port, protocol, tls_verify, health_check_path, health_check_interval_secs, is_healthy, created_at, updated_at FROM upstreams ORDER BY created_at DESC OFFSET $1 LIMIT $2".

Definition UpstreamRepository_List (offset limit : Z) : M S (result (list Upstream * Z) (repo_error E)) :=
  count_and_list count_upstreams_sql [] list_upstreams_sql [QInt offset; QInt limit] upstream_of
    "failed to count upstreams: " "failed to list upstreams: " "failed to scan upstream: ".

Definition update_health_sql : string := "UPDATE upstreams SET is_healthy = $1 WHERE id = $2".

Definition UpstreamRepository_UpdateHealth (id : UUID) (healthy : bool) : M S (result unit (repo_error E)) :=
  let* res := Exec update_health_sql [QBool healthy; QUuid id] in
  mreturn (match res with Ok _ => Ok tt | Err e => Err (Raw e) end).

(** *** route_repo.go *)

Definition insert_route_sql : string := "
		INSERT INTO routes (id, gateway_id, upstream_id, path_prefix, strip_prefix, priority, tls_policy, rate_limit_rps, enabled, created_at)
		VALUES ($1, $2, $3, $4, $5, $6, $7, $8, $9, $10)
	".

Definition RouteRepository_Create (r : Route) : M S (result unit (repo_error E)) :=
  exec_wrapped "failed to insert route: " insert_route_sql
    [QUuid (rt_ID r); QUuid (rt_GatewayID r); QUuid (rt_UpstreamID r); QText (rt_PathPrefix r);
     QBool (rt_StripPrefix r); QInt (rt_Priority r); q_text_ptr (rt_TlsPolicy r);
     q_int_ptr (rt_RateLimitRPS r); QBool (rt_Enabled r); QTime (rt_CreatedAt r)].

Definition get_route_sql : string :=
  "SELECT id, gateway_id, upstream_id, path_prefix, strip_prefix, priority, tls_policy, rate_limit_rps, enabled, created_at, updated_at FROM routes WHERE id = $1".

Definition RouteRepository_GetByID (id : UUID) : M S (result Route (repo_error E)) :=
  get_one get_route_sql route_of id ("route not found: " ++ uuid_String id) "failed to get route: ".

Definition list_routes_sql : string :=
  "SELECT id, gateway_id, upstream_id, path_prefix, strip_prefix, priority, tls_policy, rate_limit_rps, enabled, created_at, updated_at FROM routes WHERE gateway_id = $1 ORDER BY priority DESC".

Definition RouteRepository_ListByGateway (gatewayID : UUID) : M S (result (list Route) (repo_error E)) :=
  query_all list_routes_sql [QUuid gatewayID] route_of "failed to list routes: " "failed to scan route: ".

Definition delete_route_sql : string := "DELETE FROM routes WHERE id = $1".

Definition RouteRepository_Delete (id : UUID) : M S (result unit (repo_error E)) :=
  exec_found "failed to delete route: " delete_route_sql [QUuid id] ("route not found: " ++ uuid_String id).

(** *** threat_repo.go *)

Definition insert_threat_sql : string := "
		INSERT INTO threat_events (id, gateway_id, threat_type, severity, source_ip, description, mitigated, detected_at)
		VALUES ($1, $2, $3, $4, $5, $6, $7, $8)
	".

Definition ThreatRepository_Create (t : ThreatEvent) : M S (result unit (repo_error E)) :=
  exec_wrapped "failed to insert threat event: " insert_threat_sql
    [QUuid (te_ID t); QUuid (te_GatewayID t); QText (te_ThreatType t); QText (te_Severity t);
     q_text_ptr (te_SourceIP t); QText (te_Description t); QBool (te_Mitigated t); QTime (te_DetectedAt t)].

(** The two queries and their arguments: a filter on the severity is added when
    one is given, and the placeholders after it are renumbered. *)
Definition threat_queries (gatewayID : UUID) (severity : string) (offset limit : Z)
    : string * list sqlval * (string * list sqlval) :=
  let countQuery := "SELECT COUNT(*) FROM threat_events WHERE gateway_id = $1" in
  let listQuery := "SELECT id, gateway_id, threat_type, severity, source_ip, description, mitigated, detected_at FROM threat_events WHERE gateway_id = $1" in
  let args := [QUuid gatewayID] in
  let argIdx := 2 in
  let '(countQuery, listQuery, args, argIdx) :=
    if negb (String.eqb severity "") then
      let filter := (" AND severity = $" ++ Itoa argIdx)%string in
      ((countQuery ++ filter)%string, (listQuery ++ filter)%string, (args ++ [QText severity])%list, argIdx + 1)
    else (countQuery, listQuery, args, argIdx) in
  (countQuery, args,
   ((listQuery ++ " ORDER BY detected_at DESC OFFSET $" ++ Itoa argIdx ++ " LIMIT $" ++ Itoa (argIdx + 1))%string,
    (args ++ [QInt offset; QInt limit])%list)).

Definition ThreatRepository_ListByGateway (gatewayID : UUID) (severity : string) (offset limit : Z)
    : M S (result (list ThreatEvent * Z) (repo_error E)) :=
  let '(countQuery, countArgs, (listQuery, listArgs)) := threat_queries gatewayID severity offset limit in
  count_and_list countQuery countArgs listQuery listArgs threat_of
    "failed to count threats: " "failed to list threats: " "failed to scan threat: ".
End repositories.
