(* ===== verification/Typed.v ===== *)
(** * The queries against the schema

    A type system for the statements of Sql.v on the tables of Schema.v, and the
    theorem that every call the repositories make is well typed in it, whatever
    their arguments and whatever the database answers: the tables and columns
    exist, a column is given or compared with values of its type, every column
    without a default is given, the placeholders are those of the arguments, and
    each selected column is scanned into a destination of its type.

    The calls are observed on an instance of [PgPool] that records them. *)

From S2P Require Import Prelude GoNum GoTime Http Model Sql Schema Postgres Repository.

(** ** Typing *)

(** A value may be stored in a column: lengths, ranges and labels are checked by
    the database when it runs the statement. *)
Definition value_typed (t c : string) (v : sqlval) : bool :=
  match find_column t c with
  | None => false
  | Some col =>
      match col_ty col, v with
      | TUuid, QUuid _ | (TVarchar _ | TText | TEnum _), QText _ | TInteger, QInt _
      | TBoolean, QBool _ | TTimestamptz, QTime _ => true
      | _, QNull => col_nullable col
      | _, _ => false
      end
  end.

(** Column [c] with placeholder [$i]. *)
Definition param_typed (args : list sqlval) (t : string) (ci : string * nat) : bool :=
  match arg args ci.2 with Some v => value_typed t ci.1 v | None => false end.

Definition is_int_arg (args : list sqlval) (i : nat) : bool :=
  match arg args i with Some (QInt _) => true | _ => false end.

(** The placeholders used are [$1] to [$n], for [n] arguments. *)
Definition placeholders_ok (args : list sqlval) (used : list nat) : bool :=
  forallb (λ i, existsb (Nat.eqb i) used) (seq 1 (List.length args))
  && forallb (λ i, (1 <=? i)%nat && (i <=? List.length args)%nat) used.

(** An [INSERT] leaves out only columns with a default or that may be NULL. *)
Definition insert_complete (t : string) (cols : list string) : bool :=
  forallb (λ col, existsb (String.eqb (col_name col)) cols || col_nullable col
                  || match col_default_ col with NoDefault => false | _ => true end) (columns t).

(** The selected columns that may be NULL and whose destination cannot. *)
Fixpoint null_unsafe (t : string) (cols : list string) (ds : list dest) : list string :=
  match cols, ds with
  | c :: cols', d :: ds' =>
      match find_column t c, d with
      | Some col, (DStringPtr | DIntPtr) => null_unsafe t cols' ds'
      | Some col, _ => if col_nullable col then c :: null_unsafe t cols' ds' else null_unsafe t cols' ds'
      | None, _ => c :: null_unsafe t cols' ds'
      end
  | _, _ => []
  end.

Definition page_params (page : option (nat * nat)) : list nat :=
  match page with Some (o, l) => [o; l] | None => [] end.

(** A write with its arguments. *)
Definition write_typed (st : stmt) (args : list sqlval) : bool :=
  match st with
  | Insert t cols params =>
      bool_decide (NoDup cols) && Nat.eqb (List.length cols) (List.length params)
      && forallb (param_typed args t) (zip cols params) && insert_complete t cols && placeholders_ok args params
  | Update t sets conds =>
      forallb (param_typed args t) (sets ++ conds) && placeholders_ok args (map snd (sets ++ conds))
  | Delete t conds => forallb (param_typed args t) conds && placeholders_ok args (map snd conds)
  | _ => false
  end.

(** A read with its arguments and destinations. *)
Definition read_typed (st : stmt) (args : list sqlval) (ds : list dest) : bool :=
  match st with
  | Select cols t conds order page =>
      scan_matches t cols ds && forallb (param_typed args t) conds
      && match order with Some c => match find_column t c with Some _ => true | None => false end | None => true end
      && forallb (is_int_arg args) (page_params page)
      && placeholders_ok args (map snd conds ++ page_params page)
  | Count t conds =>
      match ds with [DInt] => true | _ => false end
      && negb (len_list (columns t) =? 0) && forallb (param_typed args t) conds && placeholders_ok args (map snd conds)
  | _ => false
  end.

(** ** The calls *)

Inductive call :=
| CallExec (q : string) (args : list sqlval)
| CallQuery (q : string) (args : list sqlval) (ds : list dest).

Definition call_typed (c : call) : bool :=
  match c with
  | CallExec q args => match parse_stmt q with Some st => write_typed st args | None => false end
  | CallQuery q args ds => match parse_stmt q with Some st => read_typed st args ds | None => false end
  end.

(** The columns a call reads whose NULL it could not take. *)
Definition call_unsafe (c : call) : list (string * string) :=
  match c with
  | CallExec q args => []
  | CallQuery q args ds =>
      match parse_stmt q with
      | Some (Select cols t _ _ _) => map (pair t) (null_unsafe t cols ds)
      | _ => []
      end
  end.

Section recorder.
Context {E : Type} `{UuidLib}.
Context (exec_answer : list call → result Z E)
        (row_answer : list call → ∀ ds, result (dests ds) (row_error E))
        (rows_answer : list call → ∀ ds, result (list (result (dests ds) E) * option E) E)
        (clock : list call → Time).

(** A database that records its calls and answers anything. *)
#[local] Instance recorder : PgPool (list call) E := {
  db_exec q args log := (exec_answer log, (log ++ [CallExec q args])%list);
  db_query_row q args ds log := (row_answer log ds, (log ++ [CallQuery q args ds])%list);
  db_query q args ds log := (rows_answer log ds, (log ++ [CallQuery q args ds])%list)
}.
#[local] Instance recorder_clock : HasClock (list call) := λ log, (clock log, log).

(** A call that is typed, and reads no column whose NULL it could not take but
    [health_check_path] of an upstream. *)
Definition call_ok (c : call) : bool :=
  call_typed c && forallb (λ tc, bool_decide (tc = ("upstreams", "health_check_path"))) (call_unsafe c).

(** Every call a program makes is. *)
Definition typed {A} (m : M (list call) A) : Prop :=
  ∀ log, forallb call_ok log = true → forallb call_ok (m log).2 = true.

Lemma typed_mseq {A B} (m : M (list call) A) (k : A → M (list call) B) :
  typed m → (∀ a, typed (k a)) → typed (mseq m k).
Proof.
  intros Hm Hk log Hlog. rewrite run_mseq. specialize (Hm log Hlog). destruct (m log) as [a log'].
  by apply Hk.
Qed.

Lemma typed_mreturn {A} (a : A) : typed (mreturn a).
Proof. by intros log. Qed.

Lemma typed_snoc (log : list call) (c : call) :
  call_ok c = true → forallb call_ok log = true → forallb call_ok (log ++ [c]) = true.
Proof. intros Hc Hl. rewrite forallb_app, Hl. cbn [forallb]. by rewrite Hc. Qed.

Lemma typed_Exec (q : string) (args : list sqlval) : call_ok (CallExec q args) = true → typed (Exec q args).
Proof. intros Hc log. by apply typed_snoc. Qed.

Lemma typed_QueryRow (q : string) (args : list sqlval) (ds : list dest) :
  call_ok (CallQuery q args ds) = true → typed (QueryRow q args ds).
Proof. intros Hc log. by apply typed_snoc. Qed.

Lemma typed_Query (q : string) (args : list sqlval) (ds : list dest) :
  call_ok (CallQuery q args ds) = true → typed (Query q args ds).
Proof. intros Hc log. by apply typed_snoc. Qed.

Lemma typed_clock : typed time_Now.
Proof. by intros log. Qed.

Ltac typed_steps :=
  repeat first
    [ apply typed_mreturn
    | apply typed_mseq; [|intros ?]
    | apply typed_clock
    | apply typed_Exec; vm_compute; reflexivity
    | apply typed_QueryRow; vm_compute; reflexivity
    | apply typed_Query; vm_compute; reflexivity
    | case_match ].

(** ** Property *)

(** C22. Every call the repositories make is well typed against the schema, whatever
    the arguments and the database's answers; and the only column read whose NULL
    the code could not take is [health_check_path] of an upstream. *)
Theorem repository_calls_typed :
  (∀ g, typed (GatewayRepository_Create g)) ∧ (∀ id, typed (GatewayRepository_GetByID id))
  ∧ (∀ offset limit, typed (GatewayRepository_List offset limit))
  ∧ (∀ id status, typed (GatewayRepository_UpdateStatus id status))
  ∧ (∀ u, typed (UpstreamRepository_Create u)) ∧ (∀ id, typed (UpstreamRepository_GetByID id))
  ∧ (∀ offset limit, typed (UpstreamRepository_List offset limit))
  ∧ (∀ id healthy, typed (UpstreamRepository_UpdateHealth id healthy))
  ∧ (∀ r, typed (RouteRepository_Create r)) ∧ (∀ id, typed (RouteRepository_GetByID id))
  ∧ (∀ gid, typed (RouteRepository_ListByGateway gid)) ∧ (∀ id, typed (RouteRepository_Delete id))
  ∧ (∀ t, typed (ThreatRepository_Create t))
  ∧ (∀ gid severity offset limit, typed (ThreatRepository_ListByGateway gid severity offset limit)).
Proof.
  repeat split; intros.
  - typed_steps.
  - typed_steps.
  - typed_steps.
  - typed_steps.
  - typed_steps.
  - typed_steps.
  - typed_steps.
  - typed_steps.
  - destruct r as [? ? ? ? ? ? [] [] ? ? ?]; typed_steps.
  - typed_steps.
  - typed_steps.
  - typed_steps.
  - destruct t as [? ? ? ? [] ? ? ?]; typed_steps.
  - unfold ThreatRepository_ListByGateway, threat_queries. destruct (String.eqb severity ""); typed_steps.
Qed.
End recorder.

(** The exception is real. *)
Example health_check_path_unsafe :
  call_unsafe (CallQuery get_upstream_sql [QUuid ""] upstream_dests) = [("upstreams", "health_check_path")].
Proof. vm_compute. reflexivity. Qed.
