(* ===== verification/RepoFacts.v ===== *)
(** * What the repositories do to the tables

    An [entity] ties a table to the records read from it; [entities] is the
    abstract content of a table, a list of records.  The lemmas turn the
    contract [PgLaws] into statements on these lists, one per query shape; the
    properties instantiate them. *)

From Stdlib Require Import Sorting.Sorted.
From S2P Require Import Prelude GoNum GoTime Http Model Sql Schema Postgres Repository.

Record entity (A : Type) := mkEntity {
  e_table : string;
  e_cols : list string;
  e_dests : list dest;
  e_of : dests e_dests → A
}.
Arguments mkEntity {A} _ _ _ _.
Arguments e_table {A} _.
Arguments e_cols {A} _.
Arguments e_dests {A} _.
Arguments e_of {A} _ _.

Definition read_row {A} (e : entity A) (row : Row) : option A :=
  vals ← project (e_cols e) row; x ← of_vals (e_dests e) vals; Some (e_of e x).

(** The records of a table, in its order. *)
Definition entities {A} (e : entity A) (db : Database) : list A := omap (read_row e) (table db (e_table e)).

Definition gateways : entity Gateway :=
  mkEntity "gateways"
    ["id"; "name"; "hostname"; "port"; "status"; "tls_policy"; "max_connections"; "created_by"; "created_at"; "updated_at"]
    gateway_dests gateway_of.

Definition upstreams : entity Upstream :=
  mkEntity "upstreams"
    ["id"; "name"; "host"; "port"; "protocol"; "tls_verify"; "health_check_path"; "health_check_interval_secs";
     "is_healthy"; "created_at"; "updated_at"]
    upstream_dests upstream_of.

Definition routes : entity Route :=
  mkEntity "routes"
    ["id"; "gateway_id"; "upstream_id"; "path_prefix"; "strip_prefix"; "priority"; "tls_policy"; "rate_limit_rps";
     "enabled"; "created_at"; "updated_at"]
    route_dests route_of.

Definition threats : entity ThreatEvent :=
  mkEntity "threat_events"
    ["id"; "gateway_id"; "threat_type"; "severity"; "source_ip"; "description"; "mitigated"; "detected_at"]
    threat_dests threat_of.

(** The columns read are typed like their destinations, so a row is readable
    unless a column is NULL that must not be. *)
Definition entity_ok {A} (e : entity A) : Prop := scan_matches (e_table e) (e_cols e) (e_dests e) = true.

Lemma entities_ok : entity_ok gateways ∧ entity_ok upstreams ∧ entity_ok routes ∧ entity_ok threats.
Proof. by repeat split. Qed.

(** No column read into a non-pointer is nullable. *)
Fixpoint never_null (t : string) (cols : list string) (ds : list dest) : bool :=
  match cols, ds with
  | [], [] => true
  | c :: cols', d :: ds' =>
      match find_column t c with
      | Some col => (negb (col_nullable col) || match d with DStringPtr | DIntPtr => true | _ => false end)
                    && never_null t cols' ds'
      | None => false
      end
  | _, _ => false
  end.

(** ** Reading rows *)

Lemma of_val_total (ty : col_type) (d : dest) (v : sqlval) (nullable : bool) :
  dest_matches ty d = true →
  negb nullable || match d with DStringPtr | DIntPtr => true | _ => false end = true →
  v = QNull ∧ nullable = true ∨ v ≠ QNull ∧ has_type ty v = true →
  is_Some (of_val d v).
Proof.
  intros Hd Hn [[-> ->]|[Hv Hty]].
  - destruct d; done.
  - destruct ty, d, v; done.
Qed.

Lemma read_row_total {A} (e : entity A) (row : Row) :
  entity_ok e → never_null (e_table e) (e_cols e) (e_dests e) = true → row_ok (e_table e) row = true →
  is_Some (read_row e row).
Proof.
  destruct e as [t cols ds f]. unfold entity_ok, read_row. cbn [e_table e_cols e_dests e_of].
  intros Hm Hn Hr.
  assert (Hx : ∃ vals x, project cols row = Some vals ∧ of_vals ds vals = Some x).
  { clear f. revert ds Hm Hn. induction cols as [|c cols IH]; intros [|d ds] Hm Hn; try done.
    { by exists [], tt. }
    cbn [scan_matches never_null] in Hm, Hn. destruct (find_column t c) as [col|] eqn:Ef; [|done].
    apply andb_prop in Hm as [Hd Hm]. apply andb_prop in Hn as [Hnull Hn].
    destruct (IH ds Hm Hn) as (vals & x & Hp & Ho).
    destruct (row_ok_column t c row col Hr Ef) as (v & Hv & Hty).
    destruct (of_val_total _ _ _ _ Hd Hnull Hty) as [y Hy].
    exists (v :: vals), (y, x). unfold project in *. cbn [mapM]. rewrite Hv. cbn. rewrite Hp. cbn.
    by rewrite Hy, Ho. }
  destruct Hx as (vals & x & -> & Hx). cbn. rewrite Hx. by eexists.
Qed.

Lemma gateway_readable (row : Row) : row_ok "gateways" row = true → is_Some (read_row gateways row).
Proof. by apply (read_row_total gateways). Qed.
Lemma route_readable (row : Row) : row_ok "routes" row = true → is_Some (read_row routes row).
Proof. by apply (read_row_total routes). Qed.
Lemma threat_readable (row : Row) : row_ok "threat_events" row = true → is_Some (read_row threats row).
Proof. by apply (read_row_total threats). Qed.

(** The value a destination's content comes from. *)
Definition to_val (d : dest) : dest_ty d → sqlval :=
  match d with
  | DUuid => QUuid
  | DString => QText
  | DInt => QInt
  | DBool => QBool
  | DTime => QTime
  | DStringPtr => q_text_ptr
  | DIntPtr => q_int_ptr
  end.

Lemma of_val_Some (d : dest) (v : sqlval) (x : dest_ty d) : of_val d v = Some x ↔ v = to_val d x.
Proof.
  destruct d, v; cbn in *; first [naive_solver | destruct x; cbn; naive_solver].
Qed.

(** Column by column. *)
Fixpoint reads (row : Row) (cols : list string) (ds : list dest) : dests ds → Prop :=
  match cols, ds with
  | [], [] => λ _, True
  | c :: cols', d :: ds' => λ x, row !! c = Some (to_val d x.1) ∧ reads row cols' ds' x.2
  | _, _ => λ _, False
  end.

Lemma reads_spec (row : Row) (cols : list string) (ds : list dest) (x : dests ds) :
  (∃ vals, project cols row = Some vals ∧ of_vals ds vals = Some x) ↔ reads row cols ds x.
Proof.
  revert ds x. induction cols as [|c cols IH]; intros [|d ds] x; cbn [reads].
  - destruct x. split; [done|]. by exists [].
  - split; [|done]. intros (vals & Hp & Ho). cbn in Hp. by injection Hp as <-.
  - split; [|done]. intros (vals & Hp & Ho). unfold project in Hp. cbn [mapM] in Hp.
    destruct (row !! c); [|done]. cbn in Hp. destruct (mapM _ cols); [|done]. by injection Hp as <-.
  - destruct x as [y x]. cbn [fst snd]. rewrite <- IH. unfold project. cbn [mapM]. split.
    + intros (vals & Hp & Ho). destruct (row !! c) as [v|]; [|done]. cbn in Hp.
      destruct (mapM _ cols) as [vals'|]; [|done]. injection Hp as <-. cbn [of_vals] in Ho.
      destruct (of_val d v) as [y'|] eqn:Ev; [|done].
      destruct (of_vals ds vals') as [x'|] eqn:Ex; [|done]. injection Ho as -> ->.
      apply of_val_Some in Ev as ->. eauto.
    + intros (-> & vals & Hp & Ho). exists (to_val d y :: vals). cbn. rewrite Hp. split; [done|].
      cbn [of_vals]. by rewrite (proj2 (of_val_Some d _ y) eq_refl), Ho.
Qed.

Lemma read_row_Some {A} (e : entity A) (row : Row) (a : A) :
  read_row e row = Some a ↔ ∃ x, reads row (e_cols e) (e_dests e) x ∧ a = e_of e x.
Proof.
  unfold read_row. split.
  - intros H. destruct (project _ row) as [vals|] eqn:Ep; [|done]. cbn in H.
    destruct (of_vals _ vals) as [x|] eqn:Eo; [|done]. injection H as <-. exists x.
    split; [|done]. apply reads_spec. by exists vals.
  - intros (x & Hx & ->). apply reads_spec in Hx as (vals & -> & Ho). cbn. by rewrite Ho.
Qed.

Definition gateway_row (row : Row) (g : Gateway) : Prop :=
  row !! "id" = Some (QUuid (gw_ID g)) ∧ row !! "name" = Some (QText (gw_Name g))
  ∧ row !! "hostname" = Some (QText (gw_Hostname g)) ∧ row !! "port" = Some (QInt (gw_Port g))
  ∧ row !! "status" = Some (QText (gw_Status g)) ∧ row !! "tls_policy" = Some (QText (gw_TlsPolicy g))
  ∧ row !! "max_connections" = Some (QInt (gw_MaxConnections g))
  ∧ row !! "created_by" = Some (QText (gw_CreatedBy g))
  ∧ row !! "created_at" = Some (QTime (gw_CreatedAt g)) ∧ row !! "updated_at" = Some (QTime (gw_UpdatedAt g)).

Lemma read_gateway (row : Row) (g : Gateway) : read_row gateways row = Some g ↔ gateway_row row g.
Proof.
  rewrite read_row_Some. unfold gateway_row. split.
  - intros (x & Hx & ->). cbn [e_of gateways] in *. repeat (destruct x as [? x]). cbn in Hx |- *. tauto.
  - destruct g as [a1 a2 a3 a4 a5 a6 a7 a8 a9 a10]. intros H.
    exists (a1, (a2, (a3, (a4, (a5, (a6, (a7, (a8, (a9, (a10, tt)))))))))). split; [|reflexivity]. cbn in *. tauto.
Qed.

Definition upstream_row (row : Row) (u : Upstream) : Prop :=
  row !! "id" = Some (QUuid (up_ID u)) ∧ row !! "name" = Some (QText (up_Name u))
  ∧ row !! "host" = Some (QText (up_Host u)) ∧ row !! "port" = Some (QInt (up_Port u))
  ∧ row !! "protocol" = Some (QText (up_Protocol u)) ∧ row !! "tls_verify" = Some (QBool (up_TlsVerify u))
  ∧ row !! "health_check_path" = Some (QText (up_HealthCheckPath u))
  ∧ row !! "health_check_interval_secs" = Some (QInt (up_HealthCheckIntervalS u))
  ∧ row !! "is_healthy" = Some (QBool (up_IsHealthy u))
  ∧ row !! "created_at" = Some (QTime (up_CreatedAt u)) ∧ row !! "updated_at" = Some (QTime (up_UpdatedAt u)).

Lemma read_upstream (row : Row) (u : Upstream) : read_row upstreams row = Some u ↔ upstream_row row u.
Proof.
  rewrite read_row_Some. unfold upstream_row. split.
  - intros (x & Hx & ->). cbn [e_of upstreams] in *. repeat (destruct x as [? x]). cbn in Hx |- *. tauto.
  - destruct u as [a1 a2 a3 a4 a5 a6 a7 a8 a9 a10 a11]. intros H.
    exists (a1, (a2, (a3, (a4, (a5, (a6, (a7, (a8, (a9, (a10, (a11, tt))))))))))). split; [|reflexivity]. cbn in *. tauto.
Qed.

Definition route_row (row : Row) (r : Route) : Prop :=
  row !! "id" = Some (QUuid (rt_ID r)) ∧ row !! "gateway_id" = Some (QUuid (rt_GatewayID r))
  ∧ row !! "upstream_id" = Some (QUuid (rt_UpstreamID r)) ∧ row !! "path_prefix" = Some (QText (rt_PathPrefix r))
  ∧ row !! "strip_prefix" = Some (QBool (rt_StripPrefix r)) ∧ row !! "priority" = Some (QInt (rt_Priority r))
  ∧ row !! "tls_policy" = Some (q_text_ptr (rt_TlsPolicy r))
  ∧ row !! "rate_limit_rps" = Some (q_int_ptr (rt_RateLimitRPS r))
  ∧ row !! "enabled" = Some (QBool (rt_Enabled r))
  ∧ row !! "created_at" = Some (QTime (rt_CreatedAt r)) ∧ row !! "updated_at" = Some (QTime (rt_UpdatedAt r)).

Lemma read_route (row : Row) (r : Route) : read_row routes row = Some r ↔ route_row row r.
Proof.
  rewrite read_row_Some. unfold route_row. split.
  - intros (x & Hx & ->). cbn [e_of routes] in *. repeat (destruct x as [? x]). cbn in Hx |- *. tauto.
  - destruct r as [a1 a2 a3 a4 a5 a6 a7 a8 a9 a10 a11]. intros H.
    exists (a1, (a2, (a3, (a4, (a5, (a6, (a7, (a8, (a9, (a10, (a11, tt))))))))))). split; [|reflexivity]. cbn in *. tauto.
Qed.

Definition threat_row (row : Row) (t : ThreatEvent) : Prop :=
  row !! "id" = Some (QUuid (te_ID t)) ∧ row !! "gateway_id" = Some (QUuid (te_GatewayID t))
  ∧ row !! "threat_type" = Some (QText (te_ThreatType t)) ∧ row !! "severity" = Some (QText (te_Severity t))
  ∧ row !! "source_ip" = Some (q_text_ptr (te_SourceIP t))
  ∧ row !! "description" = Some (QText (te_Description t)) ∧ row !! "mitigated" = Some (QBool (te_Mitigated t))
  ∧ row !! "detected_at" = Some (QTime (te_DetectedAt t)).

Lemma read_threat (row : Row) (t : ThreatEvent) : read_row threats row = Some t ↔ threat_row row t.
Proof.
  rewrite read_row_Some. unfold threat_row. split.
  - intros (x & Hx & ->). cbn [e_of threats] in *. repeat (destruct x as [? x]). cbn in Hx |- *. tauto.
  - destruct t as [a1 a2 a3 a4 a5 a6 a7 a8]. intros H.
    exists (a1, (a2, (a3, (a4, (a5, (a6, (a7, (a8, tt)))))))). split; [|reflexivity]. cbn in *. tauto.
Qed.

(** ** The statements of the query strings *)

Definition gateway_insert : stmt :=
  Insert "gateways" ["id"; "name"; "hostname"; "port"; "status"; "tls_policy"; "max_connections"; "created_by"; "created_at"]
    [1; 2; 3; 4; 5; 6; 7; 8; 9]%nat.
Definition upstream_insert : stmt :=
  Insert "upstreams" ["id"; "name"; "host"; "port"; "protocol"; "tls_verify"; "health_check_path"; "health_check_interval_secs"; "created_at"]
    [1; 2; 3; 4; 5; 6; 7; 8; 9]%nat.
Definition route_insert : stmt :=
  Insert "routes" ["id"; "gateway_id"; "upstream_id"; "path_prefix"; "strip_prefix"; "priority"; "tls_policy"; "rate_limit_rps"; "enabled"; "created_at"]
    [1; 2; 3; 4; 5; 6; 7; 8; 9; 10]%nat.
Definition threat_insert : stmt :=
  Insert "threat_events" ["id"; "gateway_id"; "threat_type"; "severity"; "source_ip"; "description"; "mitigated"; "detected_at"]
    [1; 2; 3; 4; 5; 6; 7; 8]%nat.
Definition status_update : stmt :=
  Update "gateways" [("status", 1%nat); ("updated_at", 2%nat)] [("id", 3%nat)].
Definition health_update : stmt := Update "upstreams" [("is_healthy", 1%nat)] [("id", 2%nat)].
Definition route_delete : stmt := Delete "routes" [("id", 1%nat)].

Definition get_stmt {A} (e : entity A) : stmt :=
  Select (e_cols e) (e_table e) [("id", 1%nat)] None None.

Definition list_stmt {A} (e : entity A) : stmt :=
  Select (e_cols e) (e_table e) [] (Some "created_at") (Some (1%nat, 2%nat)).

Lemma parse_gateway_queries :
  parse_stmt insert_gateway_sql = Some gateway_insert ∧ parse_stmt get_gateway_sql = Some (get_stmt gateways)
  ∧ parse_stmt count_gateways_sql = Some (Count "gateways" [])
  ∧ parse_stmt list_gateways_sql = Some (list_stmt gateways) ∧ parse_stmt update_status_sql = Some status_update.
Proof. by vm_compute. Qed.

Lemma parse_upstream_queries :
  parse_stmt insert_upstream_sql = Some upstream_insert ∧ parse_stmt get_upstream_sql = Some (get_stmt upstreams)
  ∧ parse_stmt count_upstreams_sql = Some (Count "upstreams" [])
  ∧ parse_stmt list_upstreams_sql = Some (list_stmt upstreams) ∧ parse_stmt update_health_sql = Some health_update.
Proof. by vm_compute. Qed.

Lemma parse_route_queries :
  parse_stmt insert_route_sql = Some route_insert ∧ parse_stmt get_route_sql = Some (get_stmt routes)
  ∧ parse_stmt list_routes_sql
    = Some (Select (e_cols routes) "routes" [("gateway_id", 1%nat)] (Some "priority") None)
  ∧ parse_stmt delete_route_sql = Some route_delete.
Proof. by vm_compute. Qed.

(** The conditions of the threat queries. *)
Definition threat_conds (severity : string) : list (string * nat) :=
  ("gateway_id", 1%nat) :: (if String.eqb severity "" then [] else [("severity", 2%nat)]).

(** With or without the filter, the placeholders of both queries point at the
    arguments they mean. *)
Lemma threat_queries_spec (gid : UUID) (severity : string) (offset limit : Z) :
  let '(cq, cargs, (lq, largs)) := threat_queries gid severity offset limit in
  let base := QUuid gid :: (if String.eqb severity "" then [] else [QText severity]) in
  let k := List.length base in
  cargs = base ∧ largs = (base ++ [QInt offset; QInt limit])%list
  ∧ parse_stmt cq = Some (Count "threat_events" (threat_conds severity))
  ∧ parse_stmt lq = Some (Select (e_cols threats) "threat_events" (threat_conds severity) (Some "detected_at")
                            (Some (S k, S (S k)))).
Proof.
  unfold threat_queries, threat_conds. destruct (String.eqb severity ""); cbn [negb];
    (split; [reflexivity|]; split; [reflexivity|]; by vm_compute).
Qed.

(** ** Query shapes under the database's contract *)

Section laws.
Context {S E : Type} `{UuidLib} `{HasClock S} `{PgLaws S E}.

Lemma exec_wrapped_spec (prefix q : string) (args : list sqlval) (st : stmt) (s : S) :
  parse_stmt q = Some st →
  match exec_wrapped prefix q args s with
  | (Ok _, s') => ∃ n, executes args st (db_of s) (db_of s') n
  | (Err _, s') => db_of s' = db_of s ∨ ∃ n, executes args st (db_of s) (db_of s') n
  end.
Proof.
  intros Hp. unfold exec_wrapped. run_program. pose proof (Exec_law q args st s Hp) as Hl.
  destruct (Exec q args s) as [[n|e] s']; [by exists n|done].
Qed.

Lemma exec_found_spec (prefix q missing : string) (args : list sqlval) (st : stmt) (s : S) :
  parse_stmt q = Some st →
  match exec_found prefix q args missing s with
  | (Ok _, s') => ∃ n, n ≠ 0 ∧ executes args st (db_of s) (db_of s') n
  | (Err (NotFound m), s') => m = missing ∧ executes args st (db_of s) (db_of s') 0
  | (Err _, s') => db_of s' = db_of s ∨ ∃ n, executes args st (db_of s) (db_of s') n
  end.
Proof.
  intros Hp. unfold exec_found. run_program. pose proof (Exec_law q args st s Hp) as Hl.
  destruct (Exec q args s) as [[n|e] s']; [|done].
  destruct (Z.eqb_spec n 0) as [->|Hn]; [done|by exists n].
Qed.

Section entity.
Context {A : Type} (e : entity A) (Hok : entity_ok e).

(** A typed row of the table, projected, is scanned as [read_row] reads it. *)
Lemma typed_project (s : S) (row : Row) (vals : list sqlval) :
  row ∈ table (db_of s) (e_table e) → project (e_cols e) row = Some vals →
  all_fit (e_dests e) vals = true ∧ read_row e row = (x ← of_vals (e_dests e) vals; Some (e_of e x)).
Proof.
  intros Hrow Hp. destruct (project_fits (e_table e) (e_cols e) (e_dests e) row) as (vals' & Hp' & Hf);
    [by apply (db_typed s)|done|].
  rewrite Hp in Hp'. injection Hp' as <-. split; [done|]. unfold read_row. by rewrite Hp.
Qed.

Lemma get_one_spec (q missing prefix : string) (id : UUID) (s : S) :
  parse_stmt q = Some (get_stmt e) →
  match get_one q (e_of e) id missing prefix s with
  | (Ok a, s') =>
      db_of s' = db_of s ∧ ∃ row, row ∈ table (db_of s) (e_table e)
        ∧ row !! "id" = Some (QUuid id) ∧ read_row e row = Some a
  | (Err (NotFound m), s') =>
      m = missing ∧ db_of s' = db_of s
      ∧ ∀ row, row ∈ table (db_of s) (e_table e) → row !! "id" ≠ Some (QUuid id)
  | (Err _, s') => db_of s' = db_of s
  end.
Proof.
  intros Hp. unfold get_one. run_program.
  pose proof (QueryRow_law q [QUuid id] _ (e_dests e) s Hp) as Hl.
  assert (Hone : ∀ row, row_matches [QUuid id] [("id", 1%nat)] row = true ↔ row !! "id" = Some (QUuid id))
    by (intros row; by apply row_matches_one).
  destruct (QueryRow q _ _ s) as [[x|[|err]] s'].
  - destruct Hl as (Hdb & vals & rest & Hsel & Hx). split; [done|].
    apply selects_rows in Hsel as (rows & rows' & Hperm & _ & -> & Hvals).
    destruct rows as [|row rows]; [done|]. cbn [mapM] in Hvals.
    destruct (project (e_cols e) row) as [v|] eqn:Ep; [|done]. cbn in Hvals.
    destruct (mapM _ rows); [|done]. injection Hvals as -> _.
    assert (Hin : row ∈ matching [QUuid id] [("id", 1%nat)] (table (db_of s) (e_table e)))
      by (rewrite <- Hperm; by apply list_elem_of_here).
    apply matching_elem in Hin as [Hin Hm]. exists row. split; [done|]. split; [by apply Hone|].
    destruct (typed_project s row vals Hin Ep) as [Hf ->]. by rewrite (Hx Hf).
  - destruct Hl as (Hdb & Hsel). split; [done|]. split; [done|]. intros row Hrow Hid.
    apply selects_rows in Hsel as (rows & rows' & Hperm & _ & -> & Hvals).
    assert (Hin : row ∈ rows) by (rewrite Hperm; apply matching_elem; split; [done|by apply Hone]).
    destruct rows as [|row0 rows]; [by apply elem_of_nil in Hin|]. cbn [mapM] in Hvals.
    destruct (project _ row0); [|done]. cbn in Hvals. by destruct (mapM _ rows).
  - done.
Qed.

(** All rows scanned: the records of the rows. *)
Lemma rows_result_read (prefix : string) (s : S) (rows : list Row) (vals rest : list (list sqlval))
    (rs : list (result (dests (e_dests e)) E)) (err : option E) (l : list A) :
  (∀ row, row ∈ rows → row ∈ table (db_of s) (e_table e)) →
  mapM (project (e_cols e)) rows = Some (vals ++ rest)%list →
  Forall2 (scanned (e_dests e)) vals rs → (err = None → rest = []) →
  rows_result prefix (e_of e) (rs, err) = Ok l →
  mapM (read_row e) rows = Some l.
Proof.
  intros Hin Hv Hsc Herr Hr. unfold rows_result in Hr. cbn [fst snd] in Hr.
  apply rbind_Ok in Hr as (l' & Hc & Hr). destruct err as [x|]; [done|]. injection Hr as ->.
  rewrite Herr, app_nil_r in Hv by done. clear Herr. revert vals rs l Hv Hsc Hc.
  induction rows as [|row rows IH]; intros vals rs l Hv Hsc Hc; cbn [mapM] in Hv |- *.
  { injection Hv as <-. inversion Hsc; subst. by injection Hc as <-. }
  destruct (project (e_cols e) row) as [v|] eqn:Ep; [|done]. cbn in Hv.
  destruct (mapM _ rows) as [vs|] eqn:Em; [|done]. injection Hv as <-.
  inversion Hsc as [|? r ? rs' Hscan Hrest]; subst.
  destruct (typed_project s row v) as [Hf Hread]; [set_solver|done|]. specialize (Hscan Hf).
  destruct (of_vals (e_dests e) v) as [x|]; [|by destruct Hscan as [? ->]]. subst r. cbn [collect] in Hc.
  apply rbind_Ok in Hc as (l' & Hc & Hl). injection Hl as <-.
  rewrite (IH ltac:(set_solver) _ _ _ eq_refl Hrest Hc), Hread. done.
Qed.

Lemma query_all_spec (q list_prefix scan_prefix : string) (args : list sqlval) conds order page (s : S) :
  parse_stmt q = Some (Select (e_cols e) (e_table e) conds order page) →
  match query_all q args (e_of e) list_prefix scan_prefix s with
  | (Ok l, s') =>
      db_of s' = db_of s ∧ ∃ rows rows', rows ≡ₚ matching args conds (table (db_of s) (e_table e))
        ∧ ordered order rows ∧ on_page args page rows rows' ∧ mapM (read_row e) rows' = Some l
  | (Err _, s') => db_of s' = db_of s
  end.
Proof.
  intros Hp. unfold query_all. run_program. pose proof (Query_law q args _ (e_dests e) s Hp) as Hl.
  destruct (Query q args _ s) as [[[rs err]|x] s']; [|done].
  destruct Hl as (Hdb & vals & rest & Hsel & Hsc & Herr).
  destruct (rows_result scan_prefix (e_of e) (rs, err)) as [l|er] eqn:Er; [|done]. split; [done|].
  apply selects_rows in Hsel as (rows & rows' & Hperm & Hord & Hpage & Hvals).
  exists rows, rows'. split; [done|]. split; [done|]. split; [done|].
  eapply (rows_result_read scan_prefix s); [|done..].
  intros row Hrow. apply on_page_submseteq in Hpage.
  assert (row ∈ rows) as Hin by (by eapply elem_of_sublist). rewrite Hperm in Hin.
  by apply matching_elem in Hin as [Hin _].
Qed.

Lemma count_and_list_spec (cq lq cp lp sp : string) (cargs largs : list sqlval) cconds conds order page (s : S) :
  parse_stmt cq = Some (Count (e_table e) cconds) →
  parse_stmt lq = Some (Select (e_cols e) (e_table e) conds order page) →
  match count_and_list cq cargs lq largs (e_of e) cp lp sp s with
  | (Ok (l, total), s') =>
      db_of s' = db_of s ∧ total = affected cargs cconds (table (db_of s) (e_table e))
      ∧ ∃ rows rows', rows ≡ₚ matching largs conds (table (db_of s) (e_table e))
        ∧ ordered order rows ∧ on_page largs page rows rows' ∧ mapM (read_row e) rows' = Some l
  | (Err _, s') => db_of s' = db_of s
  end.
Proof.
  intros Hc Hp. unfold count_and_list. run_program.
  pose proof (QueryRow_law cq cargs _ [DInt] s Hc) as Hl.
  destruct (QueryRow cq cargs _ s) as [[[total []]|[|er]] s1]; [|tauto..].
  destruct Hl as (Hdb1 & vals & rest & Hsel & Hx). apply selects_count in Hsel. injection Hsel as -> ->.
  specialize (Hx eq_refl). injection Hx as <-. run_program.
  pose proof (query_all_spec lq lp sp largs conds order page s1 Hp) as Hq.
  destruct (query_all lq largs _ lp sp s1) as [[l|er] s']; cbn [rbind].
  - destruct Hq as [Hdb Hq]. rewrite Hdb1 in Hdb, Hq. done.
  - by rewrite Hq.
Qed.
End entity.
End laws.
