(* ===== verification/RepoSpec.v ===== *)
(** * The repositories as operations on lists of records

    The abstract content of a table is the list [entities]; the theorems here are
    the refinement: each repository method, whatever the database does within its
    contract, is an operation on that list.  [saved] relates a record to the one
    read back: the same but for the timestamps, kept to the microsecond, and for the
    spaces a VARCHAR column cuts off a text too long for it. *)

From Stdlib Require Import Sorting.Sorted.
From S2P Require Import Prelude GoNum GoTime Http Model Sql Schema Postgres Memory Repository RepoFacts.

(** ** Specification *)

(** A timestamp as it is read back. *)
Definition stored_time (t t' : Time) : Prop := wall t' = wall t - wall t mod 1000 ∧ mono t' = None.

(** The record read back after [g] was inserted.  Its texts are as VARCHAR columns
    of their lengths keep them: the same, unless they are longer and only spaces are
    beyond the length, which are lost. *)
Definition gateway_saved (g g' : Gateway) : Prop :=
  g' = mkGateway (gw_ID g) (varchar 255 (gw_Name g)) (varchar 512 (gw_Hostname g)) (gw_Port g) (gw_Status g)
         (gw_TlsPolicy g) (gw_MaxConnections g) (varchar 255 (gw_CreatedBy g)) (gw_CreatedAt g') (gw_UpdatedAt g')
  ∧ stored_time (gw_CreatedAt g) (gw_CreatedAt g').

Definition upstream_saved (u u' : Upstream) : Prop :=
  u' = mkUpstream (up_ID u) (varchar 255 (up_Name u)) (varchar 512 (up_Host u)) (up_Port u) (up_Protocol u)
         (up_TlsVerify u) (varchar 512 (up_HealthCheckPath u)) (up_HealthCheckIntervalS u) true (up_CreatedAt u') (up_UpdatedAt u')
  ∧ stored_time (up_CreatedAt u) (up_CreatedAt u').

Definition route_saved (r r' : Route) : Prop :=
  r' = mkRoute (rt_ID r) (rt_GatewayID r) (rt_UpstreamID r) (varchar 1024 (rt_PathPrefix r)) (rt_StripPrefix r)
         (rt_Priority r) (rt_TlsPolicy r) (rt_RateLimitRPS r) (rt_Enabled r) (rt_CreatedAt r') (rt_UpdatedAt r')
  ∧ stored_time (rt_CreatedAt r) (rt_CreatedAt r').

(** Tables other than [t] are as before. *)
Definition only_changes (t : string) (db db' : Database) : Prop := ∀ t', t' ≠ t → table db' t' = table db t'.

(** A row of the table has that ID. *)
Definition has_id (db : Database) (t : string) (id : UUID) : Prop :=
  ∃ row, row ∈ table db t ∧ row !! "id" = Some (QUuid id).

Definition has_gateway (db : Database) (id : UUID) : Prop := ∃ g, g ∈ entities gateways db ∧ gw_ID g = id.

Lemma gateway_saved_id (g g' : Gateway) : gateway_saved g g' → gw_ID g' = gw_ID g.
Proof. by intros [-> _]. Qed.
Lemma upstream_saved_id (u u' : Upstream) : upstream_saved u u' → up_ID u' = up_ID u.
Proof. by intros [-> _]. Qed.
Lemma route_saved_id (r r' : Route) : route_saved r r' → rt_ID r' = rt_ID r.
Proof. by intros [-> _]. Qed.

(** What the API can create: the records of a table, which of them clash (UNIQUE)
    and what they refer to (REFERENCES). *)
Record resource (A : Type) := mkResource {
  res_entity : entity A;
  res_id : A → UUID;
  res_saved : A → A → Prop;
  res_clash : A → A → Prop;
  res_refers : Database → A → Prop;
  res_saved_id a a' : res_saved a a' → res_id a' = res_id a;
  res_clash_id a b : res_id a = res_id b → res_clash a b
}.
Arguments mkResource {A} _ _ _ _ _ _ _.
Arguments res_entity {A} _.
Arguments res_id {A} _.
Arguments res_saved {A} _.
Arguments res_clash {A} _.
Arguments res_refers {A} _.
Arguments res_saved_id {A} _.
Arguments res_clash_id {A} _.

Definition gateway_resource : resource Gateway :=
  mkResource gateways gw_ID gateway_saved (λ a b, gw_ID a = gw_ID b ∨ gw_Name a = gw_Name b) (λ _ _, True)
    gateway_saved_id (λ _ _ Heq, or_introl Heq).

Definition upstream_resource : resource Upstream :=
  mkResource upstreams up_ID upstream_saved (λ a b, up_ID a = up_ID b) (λ _ _, True)
    upstream_saved_id (λ _ _ Heq, Heq).

Definition route_resource : resource Route :=
  mkResource routes rt_ID route_saved
    (λ a b, rt_ID a = rt_ID b ∨ rt_GatewayID a = rt_GatewayID b ∧ rt_PathPrefix a = rt_PathPrefix b)
    (λ db r, has_gateway db (rt_GatewayID r) ∧ has_id db "upstreams" (rt_UpstreamID r))
    route_saved_id (λ _ _ Heq, or_introl Heq).

(** One more record in its table, as the table stores it, which no record there
    clashes with, and what it refers to is there. *)
Definition added {A} (rs : resource A) (a : A) (db db' : Database) : Prop :=
  ∃ a', res_saved rs a a' ∧ entities (res_entity rs) db' = (entities (res_entity rs) db ++ [a'])%list
    ∧ (∀ b, b ∈ entities (res_entity rs) db → ¬ res_clash rs a' b) ∧ res_refers rs db a
    ∧ (∀ t id, has_id db t id → has_id db' t id) ∧ only_changes (e_table (res_entity rs)) db db'.

(** The gateway with a new status, updated at some time. *)
Definition with_status (status : string) (g g' : Gateway) : Prop :=
  g' = mkGateway (gw_ID g) (gw_Name g) (gw_Hostname g) (gw_Port g) status (gw_TlsPolicy g)
         (gw_MaxConnections g) (gw_CreatedBy g) (gw_CreatedAt g) (gw_UpdatedAt g').

(** Items [offset, offset + limit) of an enumeration by descending key. *)
Definition is_page {A} (key : A → Z) (items : list A) (offset limit : Z) (page : list A) : Prop :=
  ∃ all, all ≡ₚ items ∧ StronglySorted (λ a b, key b ≤ key a) all
    ∧ 0 ≤ offset ∧ 0 ≤ limit ∧ page = take (Z.to_nat limit) (drop (Z.to_nat offset) all).

(** The events of a gateway, of one severity when one is given. *)
Definition threat_selected (gid : UUID) (severity : string) (t : ThreatEvent) : bool :=
  String.eqb (te_GatewayID t) gid && (String.eqb severity "" || String.eqb (te_Severity t) severity).

(** ** Lemmas on reading tables *)

Lemma omap_mapM {A B} (f : A → option B) (l : list A) (k : list B) : mapM f l = Some k → omap f l = k.
Proof.
  intros H. apply mapM_Some in H. induction H as [|x y l k Hxy _ IH]; [done|].
  cbn [omap list_omap]. by rewrite Hxy, IH.
Qed.

Lemma mapM_total {A B} (f : A → option B) (l : list A) :
  (∀ x, x ∈ l → is_Some (f x)) → ∃ k, mapM f l = Some k.
Proof.
  intros H. induction l as [|x l IH]; [by exists []|].
  destruct (H x) as [y Hy]; [by apply list_elem_of_here|].
  destruct IH as [k Hk]; [intros; apply H; by apply list_elem_of_further|].
  exists (y :: k). cbn [mapM]. rewrite Hy. cbn. by rewrite Hk.
Qed.

Lemma mapM_take_drop {A B} (f : A → option B) (n m : nat) (l : list A) (k : list B) :
  mapM f l = Some k → mapM f (take m (drop n l)) = Some (take m (drop n k)).
Proof. rewrite !mapM_Some. intros H. by apply Forall2_take, Forall2_drop. Qed.

Lemma omap_filter {A B} (f : A → option B) (q : A → bool) (p : B → bool) (l : list A) :
  (∀ x y, x ∈ l → f x = Some y → q x = p y) → omap f (List.filter q l) = List.filter p (omap f l).
Proof.
  induction l as [|x l IH]; [done|]. intros H. cbn [List.filter omap list_omap].
  specialize (IH (λ y z Hy, H y z (list_elem_of_further _ _ _ Hy))).
  pose proof (H x) as Hx. destruct (f x) as [y|] eqn:E.
  - rewrite (Hx y) by (done || by apply list_elem_of_here). cbn [List.filter].
    destruct (p y); [cbn [omap list_omap]; by rewrite E, IH|done].
  - destruct (q x); [cbn [omap list_omap]; by rewrite E|done].
Qed.

Lemma filter_some {A} (p : A → bool) (l : list A) (n : Z) :
  n = Z.of_nat (List.length (List.filter p l)) → n ≠ 0 → ∃ x, x ∈ l ∧ p x = true.
Proof.
  intros -> Hn. destruct (List.filter p l) as [|x k] eqn:E; [done|]. exists x.
  assert (Hin : In x (x :: k)) by by left. rewrite <- E in Hin. apply filter_In in Hin as [Hin Hp].
  by rewrite list_elem_of_In.
Qed.

Lemma filter_none {A} (p : A → bool) (l : list A) :
  0 = Z.of_nat (List.length (List.filter p l)) → ∀ x, x ∈ l → p x = false.
Proof.
  intros Hn x Hx. destruct (p x) eqn:Hp; [|done]. exfalso.
  assert (Hin : In x (List.filter p l)) by (apply filter_In; by rewrite <- list_elem_of_In).
  destruct (List.filter p l); [done|]. cbn in Hn. lia.
Qed.

Lemma filter_all {A} (l : list A) : List.filter (λ _, true) l = l.
Proof. induction l as [|x l IH]; [done|]. cbn. by f_equal. Qed.

Lemma matching_all (args : list sqlval) (rows : list Row) : matching args [] rows = rows.
Proof. unfold matching. induction rows as [|r rows IH]; [done|]. cbn. by f_equal. Qed.

Lemma elem_of_entities {A} (e : entity A) (db : Database) (a : A) :
  a ∈ entities e db ↔ ∃ row, row ∈ table db (e_table e) ∧ read_row e row = Some a.
Proof. unfold entities. by rewrite list_elem_of_omap. Qed.

Lemma entities_app {A} (e : entity A) (db : Database) (row : Row) (a : A) :
  read_row e row = Some a →
  entities e (<[e_table e := (table db (e_table e) ++ [row])%list]> db) = (entities e db ++ [a])%list.
Proof.
  intros H. unfold entities. rewrite table_insert, omap_app. f_equal. cbn. by rewrite H.
Qed.

Lemma only_changes_insert (t : string) (db : Database) (rows : list Row) : only_changes t db (<[t := rows]> db).
Proof. intros t' Ht. by apply table_insert_ne. Qed.

Lemma Forall2_elem_r {A B} (P : A → B → Prop) (l : list A) (k : list B) (y : B) :
  Forall2 P l k → y ∈ k → ∃ x, x ∈ l ∧ P x y.
Proof. intros H. induction H; set_solver. Qed.

Lemma sorted_by_key {A} (e : entity A) (c : string) (key : A → Z) (rows : list Row) (l : list A) :
  (∀ row a, read_row e row = Some a → order_key (row !! c) = key a) →
  mapM (read_row e) rows = Some l → StronglySorted (not_before c) rows →
  StronglySorted (λ a b, key b ≤ key a) l.
Proof.
  intros Hkey Hl Hs. apply mapM_Some in Hl. revert Hs.
  induction Hl as [|row a rows l Hra Hl IH]; intros Hs; [constructor|].
  inversion Hs as [|? ? Hs' Hall]; subst. constructor; [by apply IH|].
  apply Forall_forall. intros b Hb%list_elem_of_In. destruct (Forall2_elem_r _ _ _ _ Hl Hb) as (row' & Hrow' & Hr).
  rewrite Forall_forall in Hall. specialize (Hall row' (proj1 (list_elem_of_In _ _) Hrow')). unfold not_before in Hall.
  by rewrite (Hkey row a), (Hkey row' b) in Hall.
Qed.

(** The page of rows a list query reads is a page of the table's records. *)
Lemma page_of_records {A} (e : entity A) (c : string) (key : A → Z) (p : A → bool)
    (args : list sqlval) conds (o l : nat) (offset limit : Z) (db : Database) (rows rows' : list Row) (items : list A) :
  (∀ row, row ∈ table db (e_table e) → is_Some (read_row e row)) →
  (∀ row a, read_row e row = Some a → order_key (row !! c) = key a) →
  (∀ row a, read_row e row = Some a → row_matches args conds row = p a) →
  arg args o = Some (QInt offset) → arg args l = Some (QInt limit) →
  rows ≡ₚ matching args conds (table db (e_table e)) → ordered (Some c) rows →
  on_page args (Some (o, l)) rows rows' → mapM (read_row e) rows' = Some items →
  is_page key (List.filter p (entities e db)) offset limit items.
Proof.
  intros Hread Hkey Hp Ho Hl Hperm Hord (n & m & Hn & Hm & Hn0 & Hm0 & ->) Hitems.
  rewrite Ho in Hn. rewrite Hl in Hm. injection Hn as <-. injection Hm as <-.
  destruct (mapM_total (read_row e) rows) as [all Hall].
  { intros row Hrow. rewrite Hperm in Hrow. apply matching_elem in Hrow as [Hrow _]. by apply Hread. }
  exists all. split.
  { apply omap_mapM in Hall as <-. rewrite Hperm. unfold matching, entities.
    rewrite (omap_filter (read_row e) _ p); [done|]. intros row a _. apply Hp. }
  split; [by apply (sorted_by_key e c key rows)|]. split; [done|]. split; [done|].
  apply (mapM_take_drop _ (Z.to_nat offset) (Z.to_nat limit)) in Hall. rewrite Hitems in Hall.
  by injection Hall.
Qed.

Lemma affected_length {A} (e : entity A) (args : list sqlval) conds (p : A → bool) (db : Database) :
  (∀ row, row ∈ table db (e_table e) → is_Some (read_row e row)) →
  (∀ row a, read_row e row = Some a → row_matches args conds row = p a) →
  affected args conds (table db (e_table e)) = Z.of_nat (List.length (List.filter p (entities e db))).
Proof.
  intros Hread Hp. unfold affected, entities. f_equal.
  rewrite <- (omap_filter (read_row e) (row_matches args conds) p) by (intros row a _; apply Hp).
  destruct (mapM_total (read_row e) (matching args conds (table db (e_table e)))) as [k Hk].
  { intros row Hrow. apply matching_elem in Hrow as [Hrow _]. by apply Hread. }
  fold (matching args conds (table db (e_table e))). rewrite (omap_mapM _ _ _ Hk).
  exact (length_mapM _ _ _ Hk).
Qed.

(** ** Lemmas on inserted rows *)

Section inserted.
Context (args : list sqlval) (t : string) (cols : list string) (params : list nat) (row : Row).
Hypothesis Hins : inserted args t cols params row.

Lemma inserted_value (j : nat) (c : string) (i : nat) (v : sqlval) :
  cols !! j = Some c → params !! j = Some i → arg args i = Some v → (∀ tm, v ≠ QTime tm) →
  row !! c = Some (assigned (column_type t c) v).
Proof.
  intros Hc Hi Ha Hv. destruct Hins as (H & _). destruct (H j c i Hc Hi) as (w & w' & Hw & Hs & Hr).
  rewrite Ha in Hw. injection Hw as <-. rewrite Hr. f_equal. destruct v; try done. by destruct (Hv t0).
Qed.

Lemma inserted_time (j : nat) (c : string) (i : nat) (tm : Time) :
  cols !! j = Some c → params !! j = Some i → arg args i = Some (QTime tm) →
  ∃ tm', row !! c = Some (QTime tm') ∧ stored_time tm tm'.
Proof.
  intros Hc Hi Ha. destruct Hins as (H & _). destruct (H j c i Hc Hi) as (w & w' & Hw & Hs & Hr).
  rewrite Ha in Hw. injection Hw as <-. destruct Hs as (tm' & -> & Hw & Hm). by exists tm'.
Qed.

Lemma inserted_default_time (c : string) :
  find_column t c = Some (mkColumn c TTimestamptz false Now) → ∃ tm, row !! c = Some (QTime tm).
Proof.
  intros Hc. destruct Hins as (_ & _ & Hty). destruct (row_ok_column t c row _ Hty Hc) as (v & Hv & Hcase).
  cbn in Hcase. destruct Hcase as [[_ ?]|[_ Hcase]]; [done|]. destruct v; try done. by eexists.
Qed.
End inserted.

Ltac plain_value Hins j :=
  rewrite (inserted_value _ _ _ _ _ Hins j _ _ _ eq_refl eq_refl eq_refl); [reflexivity|discriminate].

Definition gateway_args (g : Gateway) : list sqlval :=
  [QUuid (gw_ID g); QText (gw_Name g); QText (gw_Hostname g); QInt (gw_Port g); QText (gw_Status g);
   QText (gw_TlsPolicy g); QInt (gw_MaxConnections g); QText (gw_CreatedBy g); QTime (gw_CreatedAt g)].

Definition upstream_args (u : Upstream) : list sqlval :=
  [QUuid (up_ID u); QText (up_Name u); QText (up_Host u); QInt (up_Port u); QText (up_Protocol u);
   QBool (up_TlsVerify u); QText (up_HealthCheckPath u); QInt (up_HealthCheckIntervalS u); QTime (up_CreatedAt u)].

Definition route_args (r : Route) : list sqlval :=
  [QUuid (rt_ID r); QUuid (rt_GatewayID r); QUuid (rt_UpstreamID r); QText (rt_PathPrefix r);
   QBool (rt_StripPrefix r); QInt (rt_Priority r); q_text_ptr (rt_TlsPolicy r);
   q_int_ptr (rt_RateLimitRPS r); QBool (rt_Enabled r); QTime (rt_CreatedAt r)].

Lemma gateway_inserted (g : Gateway) (cols : list string) (params : list nat) (row : Row) :
  gateway_insert = Insert "gateways" cols params → inserted (gateway_args g) "gateways" cols params row →
  ∃ g', gateway_saved g g' ∧ read_row gateways row = Some g'.
Proof.
  intros [= <- <-] Hins.
  destruct (inserted_time _ _ _ _ _ Hins 8 "created_at" 9 _ eq_refl eq_refl eq_refl) as (created & Hc & Hst).
  destruct (inserted_default_time _ _ _ _ _ Hins "updated_at" eq_refl) as [upd Hu].
  exists (mkGateway (gw_ID g) (varchar 255 (gw_Name g)) (varchar 512 (gw_Hostname g)) (gw_Port g) (gw_Status g)
            (gw_TlsPolicy g) (gw_MaxConnections g) (varchar 255 (gw_CreatedBy g)) created upd).
  split; [done|]. apply read_gateway. unfold gateway_row. cbn [gw_ID gw_Name gw_Hostname gw_Port gw_Status gw_TlsPolicy
    gw_MaxConnections gw_CreatedBy gw_CreatedAt gw_UpdatedAt].
  split; [plain_value Hins 0%nat|]. split; [plain_value Hins 1%nat|]. split; [plain_value Hins 2%nat|].
  split; [plain_value Hins 3%nat|]. split; [plain_value Hins 4%nat|]. split; [plain_value Hins 5%nat|].
  split; [plain_value Hins 6%nat|]. split; [plain_value Hins 7%nat|]. done.
Qed.

Lemma upstream_inserted (u : Upstream) (cols : list string) (params : list nat) (row : Row) :
  upstream_insert = Insert "upstreams" cols params → inserted (upstream_args u) "upstreams" cols params row →
  ∃ u', upstream_saved u u' ∧ read_row upstreams row = Some u'.
Proof.
  intros [= <- <-] Hins.
  destruct (inserted_time _ _ _ _ _ Hins 8 "created_at" 9 _ eq_refl eq_refl eq_refl) as (created & Hc & Hst).
  destruct (inserted_default_time _ _ _ _ _ Hins "updated_at" eq_refl) as [upd Hu].
  assert (Hh : row !! "is_healthy" = Some (QBool true)).
  { destruct Hins as (_ & Hdef & _).
    destruct (Hdef (mkColumn "is_healthy" TBoolean false (Constant (QBool true)))) as (v & Hv & ->); [|set_solver|done].
    cbn. tauto. }
  exists (mkUpstream (up_ID u) (varchar 255 (up_Name u)) (varchar 512 (up_Host u)) (up_Port u) (up_Protocol u)
            (up_TlsVerify u) (varchar 512 (up_HealthCheckPath u)) (up_HealthCheckIntervalS u) true created upd).
  split; [done|]. apply read_upstream. unfold upstream_row. cbn [up_ID up_Name up_Host up_Port up_Protocol up_TlsVerify
    up_HealthCheckPath up_HealthCheckIntervalS up_IsHealthy up_CreatedAt up_UpdatedAt].
  split; [plain_value Hins 0%nat|]. split; [plain_value Hins 1%nat|]. split; [plain_value Hins 2%nat|].
  split; [plain_value Hins 3%nat|]. split; [plain_value Hins 4%nat|]. split; [plain_value Hins 5%nat|].
  split; [plain_value Hins 6%nat|]. split; [plain_value Hins 7%nat|]. done.
Qed.

Lemma route_inserted (r : Route) (cols : list string) (params : list nat) (row : Row) :
  route_insert = Insert "routes" cols params → inserted (route_args r) "routes" cols params row →
  ∃ r', route_saved r r' ∧ read_row routes row = Some r'.
Proof.
  intros [= <- <-] Hins.
  destruct (inserted_time _ _ _ _ _ Hins 9 "created_at" 10 _ eq_refl eq_refl eq_refl) as (created & Hc & Hst).
  destruct (inserted_default_time _ _ _ _ _ Hins "updated_at" eq_refl) as [upd Hu].
  exists (mkRoute (rt_ID r) (rt_GatewayID r) (rt_UpstreamID r) (varchar 1024 (rt_PathPrefix r)) (rt_StripPrefix r)
            (rt_Priority r) (rt_TlsPolicy r) (rt_RateLimitRPS r) (rt_Enabled r) created upd).
  split; [done|]. apply read_route. unfold route_row. cbn [rt_ID rt_GatewayID rt_UpstreamID rt_PathPrefix rt_StripPrefix
    rt_Priority rt_TlsPolicy rt_RateLimitRPS rt_Enabled rt_CreatedAt rt_UpdatedAt].
  split; [plain_value Hins 0%nat|]. split; [plain_value Hins 1%nat|]. split; [plain_value Hins 2%nat|].
  split; [plain_value Hins 3%nat|]. split; [plain_value Hins 4%nat|]. split; [plain_value Hins 5%nat|].
  split; [rewrite (inserted_value _ _ _ _ _ Hins 6%nat _ _ _ eq_refl eq_refl eq_refl); by destruct (rt_TlsPolicy r)|].
  split; [rewrite (inserted_value _ _ _ _ _ Hins 7%nat _ _ _ eq_refl eq_refl eq_refl); by destruct (rt_RateLimitRPS r)|].
  split; [plain_value Hins 8%nat|]. done.
Qed.

(** The ID column of a readable row is the record's ID. *)
Lemma gateway_id (row : Row) (g : Gateway) : read_row gateways row = Some g → row !! "id" = Some (QUuid (gw_ID g)).
Proof. rewrite read_gateway. unfold gateway_row. tauto. Qed.
Lemma upstream_id (row : Row) (u : Upstream) : read_row upstreams row = Some u → row !! "id" = Some (QUuid (up_ID u)).
Proof. rewrite read_upstream. unfold upstream_row. tauto. Qed.
Lemma route_id (row : Row) (r : Route) : read_row routes row = Some r → row !! "id" = Some (QUuid (rt_ID r)).
Proof. rewrite read_route. unfold route_row. tauto. Qed.

(** An insert of a row that breaks no key and no reference. *)
Lemma insert_added {A} (rs : resource A) (args : list sqlval) (cols : list string) (params : list nat) (a : A)
    (db db' : Database) (n : Z) :
  let e := res_entity rs in
  (∀ row, inserted args (e_table e) cols params row → ∃ a', res_saved rs a a' ∧ read_row e row = Some a') →
  (∀ row row' a' b, read_row e row = Some a' → read_row e row' = Some b → res_saved rs a a' → res_clash rs a' b →
     ∃ key, In key (unique_keys (e_table e)) ∧ ∀ c, In c key → row !! c = row' !! c) →
  (∀ row a', read_row e row = Some a' → res_saved rs a a' → references_ok (e_table e) row db = true → res_refers rs db a) →
  executes args (Insert (e_table e) cols params) db db' n → added rs a db db'.
Proof.
  intros e Hread Hclash Hrefers Hex. inversion Hex as [? ? ? ? row Hins Huniq Href| |]; subst.
  destruct (Hread row Hins) as (a' & Hs & Hr). exists a'. split; [done|].
  split; [by apply entities_app|]. split; [|split; [by apply (Hrefers row a')|split; [|apply only_changes_insert]]].
  - intros b Hb Hcl. apply elem_of_entities in Hb as (row' & Hrow' & Hr').
    destruct (Hclash row row' a' b Hr Hr' Hs Hcl) as (key & Hkey & Hsame).
    unfold unique_in in Huniq. rewrite forallb_forall in Huniq. specialize (Huniq _ Hkey).
    apply negb_true_iff in Huniq. apply not_true_iff_false in Huniq. apply Huniq, existsb_exists.
    exists row'. split; [by apply list_elem_of_In|]. apply forallb_forall. intros c Hc.
    by apply bool_decide_eq_true, Hsame.
  - intros t id (row' & Hrow' & Hid). exists row'. split; [|done]. destruct (decide (t = e_table e)) as [->|Hne].
    + rewrite table_insert. apply elem_of_app. by left.
    + by rewrite table_insert_ne.
Qed.

Lemma gateway_added (g : Gateway) (db db' : Database) (n : Z) :
  executes (gateway_args g) gateway_insert db db' n → added gateway_resource g db db'.
Proof.
  unfold gateway_insert. apply (insert_added gateway_resource (gateway_args g)).
  - intros row. by apply gateway_inserted.
  - intros row row' g' b (Hi & Hn & _)%read_gateway (Hi' & Hn' & _)%read_gateway _ [Heq|Heq].
    + exists ["id"]. split; [by left|]. intros c [<-|[]]. by rewrite Hi, Hi', Heq.
    + exists ["name"]. split; [by right; left|]. intros c [<-|[]]. by rewrite Hn, Hn', Heq.
  - done.
Qed.

Lemma upstream_added (u : Upstream) (db db' : Database) (n : Z) :
  executes (upstream_args u) upstream_insert db db' n → added upstream_resource u db db'.
Proof.
  unfold upstream_insert. apply (insert_added upstream_resource (upstream_args u)).
  - intros row. by apply upstream_inserted.
  - intros row row' u' b Hi%upstream_id Hi'%upstream_id _ Heq.
    exists ["id"]. split; [by left|]. intros c [<-|[]]. rewrite Hi, Hi'. do 2 f_equal. exact Heq.
  - done.
Qed.

Lemma references_elem (t : string) (row : Row) (db : Database) (c t' : string) (id : UUID) :
  references_ok t row db = true → In (c, t') (foreign_keys t) → row !! c = Some (QUuid id) → has_id db t' id.
Proof.
  unfold references_ok. rewrite forallb_forall. intros Hr Hin Hc. specialize (Hr _ Hin).
  apply existsb_exists in Hr as (target & Ht & Heq). apply bool_decide_eq_true in Heq. cbn [fst snd] in *.
  exists target. split; [by apply list_elem_of_In|congruence].
Qed.

Lemma route_added (r : Route) (db db' : Database) (n : Z) :
  (∀ row, row ∈ table db "gateways" → is_Some (read_row gateways row)) →
  executes (route_args r) route_insert db db' n → added route_resource r db db'.
Proof.
  intros Hread. unfold route_insert. apply (insert_added route_resource (route_args r)).
  - intros row. by apply route_inserted.
  - intros row row' r' b (Hi & Hg & _ & Hp & _)%read_route (Hi' & Hg' & _ & Hp' & _)%read_route _ [Heq|[Hq1 Hq2]].
    + exists ["id"]. split; [by left|]. intros c [<-|[]]. by rewrite Hi, Hi', Heq.
    + exists ["gateway_id"; "path_prefix"]. split; [by right; left|].
      intros c [<-|[<-|[]]]; [by rewrite Hg, Hg', Hq1|by rewrite Hp, Hp', Hq2].
  - intros row r' (_ & Hg & Hu & _)%read_route [Hr _] Href. rewrite Hr in Hg, Hu. split.
    + apply (references_elem _ _ _ "gateway_id" "gateways") with (2 := or_introl eq_refl) (3 := Hg) in Href as (target & Ht & Hid).
      destruct (Hread target Ht) as [g Hg']. exists g. split; [apply elem_of_entities; by exists target|].
      apply gateway_id in Hg'. rewrite Hg' in Hid. by injection Hid.
    + by apply (references_elem _ _ _ "upstream_id" "upstreams") with (2 := or_intror (or_introl eq_refl)) (3 := Hu) in Href.
Qed.

(** ** Lemmas on updates and deletes *)

Definition status_rel (id : UUID) (status : string) (g g' : Gateway) : Prop :=
  if String.eqb (gw_ID g) id then with_status status g g' else g' = g.

Lemma one_matches (args : list sqlval) (c : string) (i : nat) (row : Row) (u id : UUID) :
  row !! c = Some (QUuid u) → arg args i = Some (QUuid id) →
  row_matches args [(c, i)] row = String.eqb u id.
Proof.
  intros Hr Ha. unfold row_matches. cbn [forallb]. by rewrite (cond_holds_uuid _ _ _ _ _ id Hr Ha), andb_true_r.
Qed.

Lemma gateway_matches (args : list sqlval) (i : nat) (id : UUID) (row : Row) (g : Gateway) :
  arg args i = Some (QUuid id) → read_row gateways row = Some g →
  row_matches args [("id", i)] row = String.eqb (gw_ID g) id.
Proof.
  intros Ha Hg. apply one_matches; [by apply gateway_id|done].
Qed.

Lemma gateway_row_updated (id : UUID) (status : string) (now : Time) (row row' : Row) (g : Gateway) :
  read_row gateways row = Some g →
  updated [QText status; QTime now; QUuid id] "gateways" [("status", 1%nat); ("updated_at", 2%nat)] [("id", 3%nat)] row row' →
  ∃ g', read_row gateways row' = Some g' ∧ status_rel id status g g'.
Proof.
  intros Hg Hup. unfold updated in Hup.
  rewrite (gateway_matches [QText status; QTime now; QUuid id] 3 id row g eq_refl Hg) in Hup. unfold status_rel.
  destruct (String.eqb (gw_ID g) id); [|subst row'; by exists g].
  destruct Hup as (Hsame & Hset & Hok).
  assert (Hs : row' !! "status" = Some (QText status)).
  { destruct (Hset "status" 1%nat) as (v & v' & Hv & Hst & Hr); [set_solver|set_solver|].
    injection Hv as <-. cbn in Hst. by subst v'. }
  assert (Hu : ∃ tm, row' !! "updated_at" = Some (QTime tm)).
  { destruct (row_ok_column "gateways" "updated_at" row' _ Hok eq_refl) as (v & Hv & [[_ Hn]|[_ Ht]]); [done|].
    destruct v; try done. by eexists. }
  destruct Hu as [tm Hu]. apply read_gateway in Hg as (H1 & H2 & H3 & H4 & H5 & H6 & H7 & H8 & H9 & H10).
  exists (mkGateway (gw_ID g) (gw_Name g) (gw_Hostname g) (gw_Port g) status (gw_TlsPolicy g)
            (gw_MaxConnections g) (gw_CreatedBy g) (gw_CreatedAt g) tm).
  split; [|done]. apply read_gateway. unfold gateway_row. cbn [gw_ID gw_Name gw_Hostname gw_Port gw_Status gw_TlsPolicy
    gw_MaxConnections gw_CreatedBy gw_CreatedAt gw_UpdatedAt].
  assert (Hkeep : ∀ c, existsb (String.eqb c) ["status"; "updated_at"] = false → row' !! c = row !! c).
  { intros c Hc. apply existsb_eqb_false in Hc. apply Hsame; set_solver. }
  by repeat split; try (rewrite Hkeep by reflexivity).
Qed.

Lemma entities_Forall2 {A} (e : entity A) (R : A → A → Prop) (P : Row → Row → Prop) (rows rows' : list Row) :
  (∀ row row' a, row ∈ rows → read_row e row = Some a → P row row' → ∃ a', read_row e row' = Some a' ∧ R a a') →
  (∀ row, row ∈ rows → is_Some (read_row e row)) →
  Forall2 P rows rows' → Forall2 R (omap (read_row e) rows) (omap (read_row e) rows').
Proof.
  intros HP Hr H. induction H as [|row row' rows rows' Hrow Hrest IH]; [constructor|].
  destruct (Hr row) as [a Ha]; [by apply list_elem_of_here|].
  destruct (HP row row' a) as (a' & Ha' & HR); [by apply list_elem_of_here|done|done|].
  cbn [omap list_omap]. rewrite Ha, Ha'. constructor; [done|]. apply IH.
  - intros x x' b Hx. apply HP. by apply list_elem_of_further.
  - intros x Hx. apply Hr. by apply list_elem_of_further.
Qed.

Section under_contract.
Context {S E : Type} `{UuidLib} `{HasClock S} `{PgLaws S E}.

Lemma gateways_readable (s : S) (row : Row) :
  row ∈ table (db_of s) "gateways" → is_Some (read_row gateways row).
Proof. intros Hr. by apply gateway_readable, (db_typed s). Qed.

Lemma threats_readable (s : S) (row : Row) :
  row ∈ table (db_of s) "threat_events" → is_Some (read_row threats row).
Proof. intros Hr. by apply threat_readable, (db_typed s). Qed.

Lemma routes_readable (s : S) (row : Row) :
  row ∈ table (db_of s) "routes" → is_Some (read_row routes row).
Proof. intros Hr. by apply route_readable, (db_typed s). Qed.

(** An update of the status, on the records. *)
Lemma status_updated (id : UUID) (status : string) (now : Time) (s : S) (db' : Database) (n : Z) :
  executes [QText status; QTime now; QUuid id] status_update (db_of s) db' n →
  Forall2 (status_rel id status) (entities gateways (db_of s)) (entities gateways db')
  ∧ only_changes "gateways" (db_of s) db'
  ∧ n = Z.of_nat (List.length (List.filter (λ g, String.eqb (gw_ID g) id) (entities gateways (db_of s)))).
Proof.
  intros Hex. inversion Hex as [|? ? ? ? rows Hrows|]; subst. split; [|split].
  - unfold entities. cbn [e_table gateways]. rewrite table_insert.
    eapply (entities_Forall2 gateways _ _ _ _); [|intros row; apply gateways_readable|exact Hrows].
    intros row row' g _. apply gateway_row_updated.
  - apply only_changes_insert.
  - apply (affected_length gateways); [intros row; apply gateways_readable|].
    intros row g Hg. by apply gateway_matches.
Qed.

(** A delete of a route, on the records. *)
Lemma route_deleted (id : UUID) (s : S) (db' : Database) (n : Z) :
  executes [QUuid id] route_delete (db_of s) db' n →
  entities routes db' = List.filter (λ r, negb (String.eqb (rt_ID r) id)) (entities routes (db_of s))
  ∧ only_changes "routes" (db_of s) db'
  ∧ n = Z.of_nat (List.length (List.filter (λ r, String.eqb (rt_ID r) id) (entities routes (db_of s)))).
Proof.
  intros Hex.
  assert (Hm : ∀ row r, read_row routes row = Some r →
            row_matches [QUuid id] [("id", 1%nat)] row = String.eqb (rt_ID r) id).
  { intros row r Hr. apply one_matches; [by apply route_id|done]. }
  inversion Hex as [| |? ? ? _]; subst. split; [|split].
  - unfold entities. cbn [e_table routes]. rewrite table_insert. apply omap_filter.
    intros row r _ Hr. by rewrite (Hm row r Hr).
  - apply only_changes_insert.
  - apply (affected_length routes); [intros row; apply routes_readable|done].
Qed.
End under_contract.

(** ** Repository methods on records *)

Section methods.
Context {S E : Type} `{UuidLib} `{HasClock S} `{PgLaws S E}.

(** A method that inserts: on an error the record may be there or not. *)
Definition inserts {A} (rs : resource A) (a : A) (s : S) (res : result unit (repo_error E) * S) : Prop :=
  match res with
  | (Ok _, s') => added rs a (db_of s) (db_of s')
  | (Err _, s') => db_of s' = db_of s ∨ added rs a (db_of s) (db_of s')
  end.

Lemma gateway_create_inserts (g : Gateway) (s : S) :
  inserts gateway_resource g s (GatewayRepository_Create g s).
Proof.
  pose proof (exec_wrapped_spec "failed to insert gateway: " _ (gateway_args g) _ s (proj1 parse_gateway_queries)) as Hx.
  unfold inserts, GatewayRepository_Create. fold (gateway_args g).
  destruct (exec_wrapped _ _ _ s) as [[u|e] s'].
  - destruct Hx as [n Hx]. by apply gateway_added with n.
  - destruct Hx as [Hx|[n Hx]]; [by left|right; by apply gateway_added with n].
Qed.

Lemma upstream_create_inserts (u : Upstream) (s : S) :
  inserts upstream_resource u s (UpstreamRepository_Create u s).
Proof.
  pose proof (exec_wrapped_spec "failed to insert upstream: " _ (upstream_args u) _ s (proj1 parse_upstream_queries)) as Hx.
  unfold inserts, UpstreamRepository_Create. fold (upstream_args u).
  destruct (exec_wrapped _ _ _ s) as [[v|e] s'].
  - destruct Hx as [n Hx]. by apply upstream_added with n.
  - destruct Hx as [Hx|[n Hx]]; [by left|right; by apply upstream_added with n].
Qed.

Lemma route_create_inserts (r : Route) (s : S) :
  inserts route_resource r s (RouteRepository_Create r s).
Proof.
  pose proof (exec_wrapped_spec "failed to insert route: " _ (route_args r) _ s (proj1 parse_route_queries)) as Hx.
  unfold inserts, RouteRepository_Create. fold (route_args r).
  destruct (exec_wrapped _ _ _ s) as [[v|e] s'].
  - destruct Hx as [n Hx]. exact (route_added r _ _ n (gateways_readable s) Hx).
  - destruct Hx as [Hx|[n Hx]]; [by left|right]. exact (route_added r _ _ n (gateways_readable s) Hx).
Qed.

(** What a lookup by ID returns: a record of the table with that ID, or not found when there is
    none. *)
Definition finds {A} (e : entity A) (id_of : A → UUID) (id : UUID) (missing : string)
    (s : S) (res : result A (repo_error E) * S) : Prop :=
  match res with
  | (Ok a, s') => db_of s' = db_of s ∧ a ∈ entities e (db_of s) ∧ id_of a = id
  | (Err (NotFound m), s') =>
      m = missing ∧ db_of s' = db_of s ∧ ∀ a, a ∈ entities e (db_of s) → id_of a ≠ id
  | (Err _, s') => db_of s' = db_of s
  end.

Lemma get_one_finds {A} (e : entity A) (id_of : A → UUID) (q missing prefix : string) (id : UUID) (s : S) :
  entity_ok e → (∀ row b, read_row e row = Some b → row !! "id" = Some (QUuid (id_of b))) →
  parse_stmt q = Some (get_stmt e) →
  finds e id_of id missing s (get_one q (e_of e) id missing prefix s).
Proof.
  intros Hok Hid Hp. pose proof (get_one_spec e Hok q missing prefix id s Hp) as Hg. unfold finds.
  destruct (get_one q _ id missing prefix s) as [[a|[p x|m|x]] s']; [| |  |exact Hg].
  - destruct Hg as (Hdb & row & Hrow & Hrid & Hr). split; [done|]. split.
    + apply elem_of_entities. by exists row.
    + rewrite (Hid _ _ Hr) in Hrid. by injection Hrid.
  - exact Hg.
  - destruct Hg as (Hm & Hdb & Hno). split; [done|]. split; [done|]. intros a Ha Heq.
    apply elem_of_entities in Ha as (row & Hrow & Hr). apply (Hno row Hrow).
    by rewrite (Hid _ _ Hr), Heq.
Qed.

Lemma gateway_get_finds (id : UUID) (s : S) :
  finds gateways gw_ID id ("gateway not found: " ++ uuid_String id) s (GatewayRepository_GetByID id s).
Proof. apply (get_one_finds gateways); [done|apply gateway_id|apply parse_gateway_queries]. Qed.

Lemma upstream_get_finds (id : UUID) (s : S) :
  finds upstreams up_ID id ("upstream not found: " ++ uuid_String id) s (UpstreamRepository_GetByID id s).
Proof. apply (get_one_finds upstreams); [done|apply upstream_id|apply parse_upstream_queries]. Qed.

Lemma route_get_finds (id : UUID) (s : S) :
  finds routes rt_ID id ("route not found: " ++ uuid_String id) s (RouteRepository_GetByID id s).
Proof. apply (get_one_finds routes); [done|apply route_id|apply parse_route_queries]. Qed.

(** An added record is there, the only one with its ID. *)
Lemma added_in {A} (rs : resource A) (a : A) (db db' : Database) :
  added rs a db db' → ∃ a', res_saved rs a a' ∧ a' ∈ entities (res_entity rs) db'.
Proof.
  intros (a' & Ha & Hent & _). exists a'. split; [done|]. rewrite Hent. apply elem_of_app. right.
  by apply list_elem_of_singleton.
Qed.

Lemma added_unique {A} (rs : resource A) (a b : A) (db db' : Database) :
  added rs a db db' → b ∈ entities (res_entity rs) db' → res_id rs b = res_id rs a → res_saved rs a b.
Proof.
  intros (a' & Ha & Hent & Hno & _) Hb Heq. rewrite Hent, elem_of_app, list_elem_of_singleton in Hb.
  destruct Hb as [Hb| ->]; [|done]. destruct (Hno b Hb). apply res_clash_id. by rewrite Heq, (res_saved_id rs a a' Ha).
Qed.
End methods.

(** Without a gateway of that ID the relation is equality. *)
Lemma status_rel_none (id : UUID) (status : string) (l l' : list Gateway) :
  (∀ g, g ∈ l → gw_ID g ≠ id) → Forall2 (status_rel id status) l l' → l' = l.
Proof.
  intros Hno Hf. induction Hf as [|g g' l l' Hg _ IH]; [done|]. f_equal.
  - unfold status_rel in Hg. rewrite (proj2 (String.eqb_neq _ _)) in Hg; [done|].
    apply Hno. by apply list_elem_of_here.
  - apply IH. intros x Hx. apply Hno. by apply list_elem_of_further.
Qed.

(** The one statement of [UpdateStatus]. *)
Lemma update_exec_effect {S E} `{UuidLib} `{PgLaws S E} (id : UUID) (status : string) (now : Time) (s : S) :
  let before := entities gateways (db_of s) in
  match exec_found "failed to update gateway status: " update_status_sql [QText status; QTime (UTC now); QUuid id]
          ("gateway not found: " ++ uuid_String id) s with
  | (Ok _, s') =>
      Forall2 (status_rel id status) before (entities gateways (db_of s'))
      ∧ only_changes "gateways" (db_of s) (db_of s') ∧ ∃ g, g ∈ before ∧ gw_ID g = id
  | (Err (NotFound m), s') =>
      m = ("gateway not found: " ++ uuid_String id)%string
      ∧ entities gateways (db_of s') = before ∧ only_changes "gateways" (db_of s) (db_of s')
      ∧ ∀ g, g ∈ before → gw_ID g ≠ id
  | (Err _, s') =>
      db_of s' = db_of s
      ∨ Forall2 (status_rel id status) before (entities gateways (db_of s'))
        ∧ only_changes "gateways" (db_of s) (db_of s')
  end.
Proof.
  intros before. subst before.
  pose proof (exec_found_spec "failed to update gateway status: " update_status_sql
    ("gateway not found: " ++ uuid_String id) [QText status; QTime (UTC now); QUuid id] status_update s
    (proj2 (proj2 (proj2 (proj2 parse_gateway_queries))))) as Hx.
  destruct (exec_found _ _ _ _ s) as [[u|[p e|m|e]] s'].
  - destruct Hx as (n & Hn & Hx). apply status_updated in Hx as (Hf & Ho & Hc). split; [done|]. split; [done|].
    destruct (filter_some _ _ n Hc Hn) as (g & Hg & Hid). exists g. by apply String.eqb_eq in Hid.
  - destruct Hx as [->|(n & Hx)]; [by left|right]. by apply status_updated in Hx as (? & ? & _).
  - destruct Hx as [-> Hx]. apply status_updated in Hx as (Hf & Ho & Hc).
    assert (Hno : ∀ g, g ∈ entities gateways (db_of s) → gw_ID g ≠ id).
    { intros g Hg. by apply String.eqb_neq, (filter_none _ _ Hc). }
    split; [done|]. split; [by apply (status_rel_none id status)|]. by split.
  - destruct Hx as [->|(n & Hx)]; [by left|right]. by apply status_updated in Hx as (? & ? & _).
Qed.

Lemma update_status_effect {S E} `{UuidLib} `{FrameLaws S E} (id : UUID) (status : string) (s : S) :
  let before := entities gateways (db_of s) in
  match GatewayRepository_UpdateStatus id status s with
  | (Ok _, s') =>
      Forall2 (status_rel id status) before (entities gateways (db_of s'))
      ∧ only_changes "gateways" (db_of s) (db_of s') ∧ ∃ g, g ∈ before ∧ gw_ID g = id
  | (Err (NotFound m), s') =>
      m = ("gateway not found: " ++ uuid_String id)%string
      ∧ entities gateways (db_of s') = before ∧ ∀ g, g ∈ before → gw_ID g ≠ id
  | (Err _, s') =>
      entities gateways (db_of s') = before
      ∨ Forall2 (status_rel id status) before (entities gateways (db_of s'))
  end.
Proof.
  intros before. subst before. unfold GatewayRepository_UpdateStatus. run_program.
  pose proof (clock_keeps_db s) as Hclk. destruct (time_Now s) as [now s1]. cbn [snd] in Hclk.
  pose proof (update_exec_effect id status now s1) as Hx. cbv zeta in Hx. rewrite <- Hclk.
  destruct (exec_found _ _ _ _ s1) as [[u|[p e|m|e]] s'].
  - exact Hx.
  - destruct Hx as [Hx|[Hx _]]; [left; by rewrite Hx|by right].
  - destruct Hx as (Hm & Heq & _ & Hno). exact (conj Hm (conj Heq Hno)).
  - destruct Hx as [Hx|[Hx _]]; [left; by rewrite Hx|by right].
Qed.

Lemma route_delete_effect {S E} `{UuidLib} `{PgLaws S E} (id : UUID) (s : S) :
  let before := entities routes (db_of s) in
  let others := List.filter (λ r, negb (String.eqb (rt_ID r) id)) before in
  match RouteRepository_Delete id s with
  | (Ok _, s') =>
      entities routes (db_of s') = others ∧ only_changes "routes" (db_of s) (db_of s')
      ∧ ∃ r, r ∈ before ∧ rt_ID r = id
  | (Err (NotFound m), s') =>
      m = ("route not found: " ++ uuid_String id)%string
      ∧ entities routes (db_of s') = before ∧ only_changes "routes" (db_of s) (db_of s')
      ∧ ∀ r, r ∈ before → rt_ID r ≠ id
  | (Err _, s') =>
      db_of s' = db_of s
      ∨ entities routes (db_of s') = others ∧ only_changes "routes" (db_of s) (db_of s')
  end.
Proof.
  intros before others. subst before others. unfold RouteRepository_Delete.
  pose proof (exec_found_spec "failed to delete route: " delete_route_sql
    ("route not found: " ++ uuid_String id) [QUuid id] route_delete s
    (proj2 (proj2 (proj2 parse_route_queries)))) as Hx.
  destruct (exec_found _ _ _ _ s) as [[u|[p e|m|e]] s'].
  - destruct Hx as (n & Hn & Hx). apply route_deleted in Hx as (Hf & Ho & Hc). split; [done|]. split; [done|].
    destruct (filter_some _ _ n Hc Hn) as (r & Hr & Hid). exists r. by apply String.eqb_eq in Hid.
  - destruct Hx as [->|(n & Hx)]; [by left|right]. by apply route_deleted in Hx as (? & ? & _).
  - destruct Hx as [-> Hx]. apply route_deleted in Hx as (Hf & Ho & Hc).
    assert (Hno : ∀ r, r ∈ entities routes (db_of s) → rt_ID r ≠ id).
    { intros r Hr. by apply String.eqb_neq, (filter_none _ _ Hc). }
    split; [done|]. split; [|by split]. rewrite Hf. clear -Hno.
    induction (entities routes (db_of s)) as [|r l IH]; [done|]. cbn [List.filter].
    rewrite (proj2 (String.eqb_neq _ _)) by (apply Hno, list_elem_of_here). cbn [negb].
    f_equal. apply IH. intros x Hx. apply Hno. by apply list_elem_of_further.
  - destruct Hx as [->|(n & Hx)]; [by left|right]. by apply route_deleted in Hx as (? & ? & _).
Qed.

(** ** Properties *)

(** Round trip: a gateway that was created, looked up while the tables are as
    [Create] left them, comes back with the fields it was created with, as their
    columns keep them, and its creation time to the microsecond; it is not reported
    missing. *)
Theorem gateway_create_get {S E} `{UuidLib} `{HasClock S} `{PgLaws S E} (g : Gateway) (s s2 : S) :
  (GatewayRepository_Create g s).1 = Ok tt → db_of s2 = db_of (GatewayRepository_Create g s).2 →
  match (GatewayRepository_GetByID (gw_ID g) s2).1 with
  | Ok g' => gateway_saved g g'
  | Err (NotFound _) => False
  | Err _ => True
  end.
Proof.
  intros Hok Hdb. pose proof (gateway_create_inserts g s) as Hc. unfold inserts in Hc.
  destruct (GatewayRepository_Create g s) as [r s1]. cbn [fst snd] in *. subst r.
  pose proof (gateway_get_finds (gw_ID g) s2) as Hf. unfold finds in Hf. rewrite Hdb in Hf.
  destruct (GatewayRepository_GetByID (gw_ID g) s2) as [[g'|[| |]] s3]; cbn [fst]; [|done| |done].
  - destruct Hf as (_ & Hin & Hid). exact (added_unique gateway_resource g g' _ _ Hc Hin Hid).
  - destruct Hf as (_ & _ & Hno). destruct (added_in _ _ _ _ Hc) as (g' & Hs & Hin).
    apply (Hno g' Hin). by apply gateway_saved_id.
Qed.

(** C25. [List] of gateways returns the requested page of the gateways in
    descending order of creation, together with the number of all gateways, and
    changes nothing. *)
Theorem GatewayRepository_List_spec {S E} `{UuidLib} `{PgLaws S E} (offset limit : Z) (s : S) :
  match GatewayRepository_List offset limit s with
  | (Ok (page, total), s') =>
      db_of s' = db_of s
      ∧ total = Z.of_nat (List.length (entities gateways (db_of s)))
      ∧ is_page (λ g, wall (gw_CreatedAt g)) (entities gateways (db_of s)) offset limit page
  | (Err _, s') => db_of s' = db_of s
  end.
Proof.
  destruct parse_gateway_queries as (_ & _ & Hc & Hl & _).
  pose proof (count_and_list_spec gateways eq_refl _ _ "failed to count gateways: " "failed to list gateways: "
    "failed to scan gateway: " [] [QInt offset; QInt limit] [] [] (Some "created_at") (Some (1%nat, 2%nat)) s Hc Hl) as Hx.
  unfold GatewayRepository_List. change gateway_of with (e_of gateways).
  destruct (count_and_list _ _ _ _ _ _ _ _ s) as [[[page total]|e] s']; [|done].
  destruct Hx as (Hdb & Ht & rows & rows' & Hperm & Hord & Hpage & Hitems). split; [done|].
  assert (Hall : ∀ row (g : Gateway), read_row gateways row = Some g → row_matches [] [] row = (λ _ : Gateway, true) g) by done.
  split.
  - rewrite Ht, (affected_length gateways _ _ (λ _, true)); [by rewrite filter_all|apply gateways_readable|done].
  - rewrite <- (filter_all (entities gateways (db_of s))).
    apply (page_of_records gateways "created_at" (λ g, wall (gw_CreatedAt g)) (λ _, true)
      [QInt offset; QInt limit] [] 1%nat 2%nat offset limit (db_of s) rows rows' page); try done.
    + apply gateways_readable.
    + intros row g Hg. apply read_gateway in Hg. destruct Hg as (_ & _ & _ & _ & _ & _ & _ & _ & Hcr & _).
      by rewrite Hcr.
Qed.

(** The conditions of the threat queries, whatever arguments follow theirs. *)
Lemma threat_matches (gid : UUID) (severity : string) (extra : list sqlval) (row : Row) (t : ThreatEvent) :
  read_row threats row = Some t →
  row_matches ((QUuid gid :: (if String.eqb severity "" then [] else [QText severity])) ++ extra)
    (threat_conds severity) row = threat_selected gid severity t.
Proof.
  intros Hr. apply read_threat in Hr as (_ & Hg & _ & Hs & _).
  unfold threat_conds, threat_selected, row_matches. destruct (String.eqb severity ""); cbn [forallb].
  - by rewrite (cond_holds_uuid _ _ _ _ _ gid Hg).
  - rewrite (cond_holds_uuid _ _ _ _ _ gid Hg), (cond_holds_text _ _ _ _ _ severity Hs) by done.
    by rewrite andb_true_r.
Qed.

(** C24. The threat listing, with and without a severity: a page of the events of
    that gateway and severity in descending order of detection, and their
    number; the placeholders of the assembled queries point at the arguments
    they mean. *)
Theorem ThreatRepository_ListByGateway_spec {S E} `{UuidLib} `{PgLaws S E} (gid : UUID) (severity : string)
    (offset limit : Z) (s : S) :
  let selected := List.filter (threat_selected gid severity) (entities threats (db_of s)) in
  match ThreatRepository_ListByGateway gid severity offset limit s with
  | (Ok (page, total), s') =>
      db_of s' = db_of s ∧ total = Z.of_nat (List.length selected)
      ∧ is_page (λ t, wall (te_DetectedAt t)) selected offset limit page
  | (Err _, s') => db_of s' = db_of s
  end.
Proof.
  intros selected. unfold ThreatRepository_ListByGateway. pose proof (threat_queries_spec gid severity offset limit) as Hq.
  destruct (threat_queries gid severity offset limit) as [[cq cargs] [lq largs]].
  destruct Hq as (-> & -> & Hc & Hl).
  set (base := QUuid gid :: (if String.eqb severity "" then [] else [QText severity])) in *.
  pose proof (count_and_list_spec threats eq_refl cq lq "failed to count threats: " "failed to list threats: "
    "failed to scan threat: " base (base ++ [QInt offset; QInt limit]) _ _ _ _ s Hc Hl) as Hx.
  change threat_of with (e_of threats). destruct (count_and_list _ _ _ _ _ _ _ _ s) as [[[page total]|e] s']; [|done].
  destruct Hx as (Hdb & Ht & rows & rows' & Hperm & Hord & Hpage & Hitems). split; [done|].
  assert (Hsel : ∀ extra row t, read_row threats row = Some t →
            row_matches (base ++ extra) (threat_conds severity) row = threat_selected gid severity t)
    by (intros; by apply threat_matches).
  split.
  - rewrite Ht. apply (affected_length threats); [apply threats_readable|].
    intros row t Hr. rewrite <- (app_nil_r base). by apply Hsel.
  - apply (page_of_records threats "detected_at" (λ t, wall (te_DetectedAt t)) (threat_selected gid severity)
      (base ++ [QInt offset; QInt limit]) (threat_conds severity) (Datatypes.S (List.length base))
      (Datatypes.S (Datatypes.S (List.length base))) offset limit (db_of s) rows rows' page); try done.
    + apply threats_readable.
    + intros row t Hr. apply read_threat in Hr as (_ & _ & _ & _ & _ & _ & _ & Hd). by rewrite Hd.
    + intros row t Hr. by apply Hsel.
    + unfold base. by destruct (String.eqb severity "").
    + unfold base. by destruct (String.eqb severity "").
Qed.

(** C26. Deleting a route removes exactly the routes with the ID, and reports not
    found exactly when there is none. *)
Theorem RouteRepository_Delete_spec {S E} `{UuidLib} `{PgLaws S E} (id : UUID) (s : S) :
  let before := entities routes (db_of s) in
  let others := List.filter (λ r, negb (String.eqb (rt_ID r) id)) before in
  match RouteRepository_Delete id s with
  | (Ok _, s') =>
      entities routes (db_of s') = others ∧ only_changes "routes" (db_of s) (db_of s')
      ∧ ∃ r, r ∈ before ∧ rt_ID r = id
  | (Err (NotFound m), s') =>
      m = ("route not found: " ++ uuid_String id)%string
      ∧ entities routes (db_of s') = before ∧ only_changes "routes" (db_of s) (db_of s')
      ∧ ∀ r, r ∈ before → rt_ID r ≠ id
  | (Err _, s') =>
      db_of s' = db_of s
      ∨ entities routes (db_of s') = others ∧ only_changes "routes" (db_of s) (db_of s')
  end.
Proof. apply route_delete_effect. Qed.

(** ** Witnesses, on the database in memory *)

Definition m0 : memory := fresh_memory (1700000000 * Second).

Definition gateway_a : Gateway :=
  mkGateway "aaaaaaaaaaaaaaaa" "edge-1" "edge.example.com" 443 "INACTIVE" "PQC_PREFERRED" 10000 "svc-1"
    (mkTime (1700000000 * Second + 1234567) None 0) zeroTime.

Definition gateway_b : Gateway :=
  mkGateway "bbbbbbbbbbbbbbbb" "edge-2" "edge.example.org" 8443 "INACTIVE" "HYBRID" 500 "svc-1"
    (mkTime (1700000001 * Second) None 0) zeroTime.

(** Both gateways. *)
Definition m1 : memory := (GatewayRepository_Create gateway_b (GatewayRepository_Create gateway_a m0).2).2.

Lemma gateway_create_get_witness :
  ∃ g', (GatewayRepository_GetByID "aaaaaaaaaaaaaaaa" (GatewayRepository_Create gateway_a m0).2).1 = Ok g'
        ∧ gateway_saved gateway_a g'.
Proof.
  assert (Hc : (GatewayRepository_Create gateway_a m0).1 = Ok tt) by (vm_compute; reflexivity).
  pose proof (gateway_create_get gateway_a m0 (GatewayRepository_Create gateway_a m0).2 Hc eq_refl) as H.
  assert (Hok : is_ok (GatewayRepository_GetByID "aaaaaaaaaaaaaaaa" (GatewayRepository_Create gateway_a m0).2).1 = true)
    by (vm_compute; reflexivity).
  change (gw_ID gateway_a) with "aaaaaaaaaaaaaaaa" in H.
  destruct (GatewayRepository_GetByID _ _).1 as [g'|e]; [by exists g'|discriminate Hok].
Defined.

Lemma GatewayRepository_List_spec_witness :
  ∃ page, (GatewayRepository_List 0 1 m1).1 = Ok (page, 2)
          ∧ is_page (λ g, wall (gw_CreatedAt g)) (entities gateways (m_db m1)) 0 1 page.
Proof.
  pose proof (GatewayRepository_List_spec 0 1 m1) as H.
  assert (Hok : ∃ page, (GatewayRepository_List 0 1 m1).1 = Ok (page, 2)) by (eexists; vm_compute; reflexivity).
  destruct Hok as [page Hok]. exists page. split; [exact Hok|].
  destruct (GatewayRepository_List 0 1 m1) as [r m']. cbn in Hok. subst r. apply H.
Defined.

Definition threat_a : ThreatEvent :=
  mkThreat "cccccccccccccccc" "aaaaaaaaaaaaaaaa" "WEAK_CIPHER" "HIGH" (Some "203.0.113.9") "RC4 offered" false
    (mkTime (1700000002 * Second) None 0).

Lemma ThreatRepository_ListByGateway_spec_witness :
  ∃ page, (ThreatRepository_ListByGateway "aaaaaaaaaaaaaaaa" "HIGH" 0 50 (ThreatRepository_Create threat_a m1).2).1
          = Ok (page, 1)
          ∧ is_page (λ t, wall (te_DetectedAt t))
              (List.filter (threat_selected "aaaaaaaaaaaaaaaa" "HIGH")
                 (entities threats (m_db (ThreatRepository_Create threat_a m1).2))) 0 50 page.
Proof.
  pose proof (ThreatRepository_ListByGateway_spec "aaaaaaaaaaaaaaaa" "HIGH" 0 50 (ThreatRepository_Create threat_a m1).2) as H.
  assert (Hok : ∃ page, (ThreatRepository_ListByGateway "aaaaaaaaaaaaaaaa" "HIGH" 0 50
                           (ThreatRepository_Create threat_a m1).2).1 = Ok (page, 1))
    by (eexists; vm_compute; reflexivity).
  destruct Hok as [page Hok]. exists page. split; [exact Hok|].
  destruct (ThreatRepository_ListByGateway _ _ _ _ _) as [r m']. cbn in Hok. subst r. apply H.
Defined.

Lemma RouteRepository_Delete_spec_witness :
  ∃ m, (RouteRepository_Delete "dddddddddddddddd" m1).1 = Err (NotFound m)
       ∧ entities routes (m_db (RouteRepository_Delete "dddddddddddddddd" m1).2) = entities routes (m_db m1).
Proof.
  pose proof (RouteRepository_Delete_spec "dddddddddddddddd" m1) as H.
  assert (Hok : ∃ m, (RouteRepository_Delete "dddddddddddddddd" m1).1 = Err (NotFound m))
    by (eexists; vm_compute; reflexivity).
  destruct Hok as [m Hok]. exists m. split; [exact Hok|].
  destruct (RouteRepository_Delete _ m1) as [r m']. cbn in Hok. subst r. apply H.
Defined.
