(* ===== verification/Service.v ===== *)
(** * Services ([control-plane/internal/service])

    Defaults, identifiers and timestamps between the handlers and the
    repositories.  A request is taken by value: the handlers do not look at theirs
    again after the service filled in its defaults. *)

From S2P Require Import Prelude GoNum GoTime Http Model Sql Postgres Repository.

(** The two [invalid ..._id] errors of [RouteService.Create], or a repository's. *)
Inductive service_error (E : Type) :=
| InvalidID (message : string)
| RepoError (e : repo_error E).
Arguments InvalidID {E} _.
Arguments RepoError {E} _.

(** The defaults of [GatewayService.Create]. *)
Definition gateway_defaults (req : CreateGatewayRequest) : CreateGatewayRequest :=
  mkCreateGateway (cg_Name req) (cg_Hostname req)
    (if cg_Port req =? 0 then 443 else cg_Port req)
    (if String.eqb (cg_TlsPolicy req) "" then "PQC_PREFERRED" else cg_TlsPolicy req)
    (if cg_MaxConnections req =? 0 then 10000 else cg_MaxConnections req)
    (cg_CreatedBy req).

(** The defaults of [UpstreamService.Create]. *)
Definition upstream_defaults (req : CreateUpstreamRequest) : CreateUpstreamRequest :=
  mkCreateUpstream (cu_Name req) (cu_Host req) (cu_Port req)
    (if String.eqb (cu_Protocol req) "" then "HTTPS" else cu_Protocol req)
    (cu_TlsVerify req)
    (if String.eqb (cu_HealthCheckPath req) "" then "/health" else cu_HealthCheckPath req)
    (if cu_HealthCheckIntervalS req =? 0 then 30 else cu_HealthCheckIntervalS req).

(** [if limit <= 0 || limit > 100 { limit = 50 }] *)
Definition clamp_limit (limit : Z) : Z := if (limit <=? 0) || (100 <? limit) then 50 else limit.

Section services.
Context {S E : Type} `{UuidLib} `{HasClock S} `{HasUuid S} `{PgPool S E}.

(** *** gateway_service.go *)

Definition GatewayService_Create (req : CreateGatewayRequest) : M S (result Gateway (repo_error E)) :=
  let req := gateway_defaults req in
  let* id := uuid_New in
  let* now := time_Now in
  let g := mkGateway id (cg_Name req) (cg_Hostname req) (cg_Port req) "INACTIVE" (cg_TlsPolicy req)
             (cg_MaxConnections req) (cg_CreatedBy req) (UTC now) zeroTime in
  let* res := GatewayRepository_Create g in
  mreturn (match res with Err e => Err e | Ok _ => Ok g end).

Definition GatewayService_Get (id : UUID) : M S (result Gateway (repo_error E)) :=
  GatewayRepository_GetByID id.

Definition GatewayService_List (offset limit : Z) : M S (result (list Gateway * Z) (repo_error E)) :=
  GatewayRepository_List offset (clamp_limit limit).

Definition GatewayService_Activate (id : UUID) : M S (result unit (repo_error E)) :=
  GatewayRepository_UpdateStatus id "ACTIVE".

Definition GatewayService_Deactivate (id : UUID) : M S (result unit (repo_error E)) :=
  GatewayRepository_UpdateStatus id "INACTIVE".

(** *** upstream_service.go *)

Definition UpstreamService_Create (req : CreateUpstreamRequest) : M S (result Upstream (repo_error E)) :=
  let req := upstream_defaults req in
  let* id := uuid_New in
  let* now := time_Now in
  let u := mkUpstream id (cu_Name req) (cu_Host req) (cu_Port req) (cu_Protocol req) (cu_TlsVerify req)
             (cu_HealthCheckPath req) (cu_HealthCheckIntervalS req) true (UTC now) zeroTime in
  let* res := UpstreamRepository_Create u in
  mreturn (match res with Err e => Err e | Ok _ => Ok u end).

Definition UpstreamService_Get (id : UUID) : M S (result Upstream (repo_error E)) :=
  UpstreamRepository_GetByID id.

Definition UpstreamService_List (offset limit : Z) : M S (result (list Upstream * Z) (repo_error E)) :=
  UpstreamRepository_List offset (clamp_limit limit).

(** *** route_service.go *)

Definition RouteService_Create (req : CreateRouteRequest) : M S (result Route (service_error E)) :=
  match uuid_Parse (cr_GatewayID req) with
  | None => mreturn (Err (InvalidID "invalid gateway_id"))
  | Some gatewayID =>
      match uuid_Parse (cr_UpstreamID req) with
      | None => mreturn (Err (InvalidID "invalid upstream_id"))
      | Some upstreamID =>
          let* id := uuid_New in
          let* now := time_Now in
          let route := mkRoute id gatewayID upstreamID (cr_PathPrefix req) (cr_StripPrefix req) (cr_Priority req)
                         (if negb (String.eqb (cr_TlsPolicy req) "") then Some (cr_TlsPolicy req) else None)
                         (if 0 <? cr_RateLimitRPS req then Some (cr_RateLimitRPS req) else None)
                         true (UTC now) zeroTime in
          let* res := RouteRepository_Create route in
          mreturn (match res with Err e => Err (RepoError e) | Ok _ => Ok route end)
      end
  end.

Definition RouteService_ListByGateway (gatewayID : UUID) : M S (result (list Route) (repo_error E)) :=
  RouteRepository_ListByGateway gatewayID.

Definition RouteService_Delete (id : UUID) : M S (result unit (repo_error E)) :=
  RouteRepository_Delete id.
End services.
