(* ===== verification/Handlers.v ===== *)
(** * Handlers ([control-plane/internal/handler])

    Every HTTP handler of the control plane: decoding and validation of the
    request, the service call, and the response.  [chi.URLParam(r, key)] is the
    argument [urlParam] of the handlers that use it: what the router matched. *)

From S2P Require Import Prelude GoNum GoStrings GoTime Json Http Auth Helpers Respond Model Sql Postgres.
From S2P Require Import Repository Service.

Definition maxNameLength : Z := 255.

(** [json.NewDecoder(r.Body).Decode(&req)] into a zero [req]. *)
Definition decode_body {T} (fields : list (field T)) (zero : T) (r : Request) : option T :=
  let '(data, eof) := body_read (Body r) in
  match Decode data eof with
  | Some v => decode_struct fields v zero
  | None => None
  end.

Definition actorFromRequest (r : Request) : string :=
  let subject := SubjectFromContext (Context r) in
  if negb (String.eqb subject "") then subject else "system".

(** [if req.CreatedBy == "" { req.CreatedBy = actor }] *)
Definition with_actor (req : CreateGatewayRequest) (actor : string) : CreateGatewayRequest :=
  if String.eqb (cg_CreatedBy req) "" then
    mkCreateGateway (cg_Name req) (cg_Hostname req) (cg_Port req) (cg_TlsPolicy req) (cg_MaxConnections req) actor
  else req.

Definition status_json (status : string) : json := JObject [("status", JString status)].

(** The keys of a [map[string]string] are encoded in order. *)
Definition health_json : json :=
  JObject [("service", JString "qsgw-control-plane"); ("status", JString "ok")].

Section handlers.
Context {S E : Type} `{UuidLib} `{HasClock S} `{HasUuid S} `{PgPool S E}.

(** *** health.go *)

Definition HealthHandler_Check : Handler S := λ r, writeJSON 200 health_json.

(** *** gateway.go *)

Definition GatewayHandler_Create : Handler S := λ r,
  match decode_body create_gateway_fields zeroCreateGateway r with
  | None => writeError 400 "invalid request body"
  | Some req =>
      if String.eqb (cg_Name req) "" || String.eqb (cg_Hostname req) "" then
        writeError 400 "name and hostname are required"
      else if (maxNameLength <? len (cg_Name req)) || (maxNameLength <? len (cg_Hostname req)) then
        writeError 400 "name or hostname exceeds maximum length"
      else
        let req := with_actor req (actorFromRequest r) in
        let! gw := on_state (GatewayService_Create req) in
        match gw with
        | Err _ => writeError 500 "failed to create gateway"
        | Ok gw => writeJSON 201 (GatewayResponse_json (Gateway_ToResponse gw))
        end
  end.

Definition GatewayHandler_Get (urlParam : string → string) : Handler S := λ r,
  match uuid_Parse (urlParam "id") with
  | None => writeError 400 "invalid gateway ID"
  | Some id =>
      let! gw := on_state (GatewayService_Get id) in
      match gw with
      | Err _ => writeError 404 "gateway not found"
      | Ok gw => writeJSON 200 (GatewayResponse_json (Gateway_ToResponse gw))
      end
  end.

Definition GatewayHandler_List : Handler S := λ r,
  let pg := ParsePagination r in
  let! res := on_state (GatewayService_List (pg_Offset pg) (pg_Limit pg)) in
  match res with
  | Err _ => writeError 500 "failed to list gateways"
  | Ok (gateways, total) =>
      writeJSON 200 (GatewayListResponse_json
        (mkGatewayList (map Gateway_ToResponse gateways) total (pg_Offset pg) (pg_Limit pg)))
  end.

Definition GatewayHandler_Activate (urlParam : string → string) : Handler S := λ r,
  match uuid_Parse (urlParam "id") with
  | None => writeError 400 "invalid gateway ID"
  | Some id =>
      let! res := on_state (GatewayService_Activate id) in
      match res with
      | Err _ => writeError 500 "failed to activate gateway"
      | Ok _ => writeJSON 200 (status_json "activated")
      end
  end.

Definition GatewayHandler_Deactivate (urlParam : string → string) : Handler S := λ r,
  match uuid_Parse (urlParam "id") with
  | None => writeError 400 "invalid gateway ID"
  | Some id =>
      let! res := on_state (GatewayService_Deactivate id) in
      match res with
      | Err _ => writeError 500 "failed to deactivate gateway"
      | Ok _ => writeJSON 200 (status_json "deactivated")
      end
  end.

(** *** upstream.go *)

Definition UpstreamHandler_Create : Handler S := λ r,
  match decode_body create_upstream_fields zeroCreateUpstream r with
  | None => writeError 400 "invalid request body"
  | Some req =>
      if String.eqb (cu_Name req) "" || String.eqb (cu_Host req) "" || (cu_Port req =? 0) then
        writeError 400 "name, host, and port are required"
      else
        let! u := on_state (UpstreamService_Create req) in
        match u with
        | Err _ => writeError 500 "failed to create upstream"
        | Ok u => writeJSON 201 (UpstreamResponse_json (Upstream_ToResponse u))
        end
  end.

Definition UpstreamHandler_Get (urlParam : string → string) : Handler S := λ r,
  match uuid_Parse (urlParam "id") with
  | None => writeError 400 "invalid upstream ID"
  | Some id =>
      let! u := on_state (UpstreamService_Get id) in
      match u with
      | Err _ => writeError 404 "upstream not found"
      | Ok u => writeJSON 200 (UpstreamResponse_json (Upstream_ToResponse u))
      end
  end.

(** The errors of [Atoi] are dropped, its values kept. *)
Definition UpstreamHandler_List : Handler S := λ r,
  let offset := (Atoi (query_Get (RawQuery r) "offset")).1 in
  let limit := (Atoi (query_Get (RawQuery r) "limit")).1 in
  let! res := on_state (UpstreamService_List offset limit) in
  match res with
  | Err _ => writeError 500 "failed to list upstreams"
  | Ok (upstreams, total) =>
      writeJSON 200 (UpstreamListResponse_json (mkUpstreamList (map Upstream_ToResponse upstreams) total))
  end.

(** *** route.go *)

Definition RouteHandler_Create : Handler S := λ r,
  match decode_body create_route_fields zeroCreateRoute r with
  | None => writeError 400 "invalid request body"
  | Some req =>
      if String.eqb (cr_GatewayID req) "" || String.eqb (cr_UpstreamID req) "" || String.eqb (cr_PathPrefix req) "" then
        writeError 400 "gateway_id, upstream_id, and path_prefix are required"
      else
        let! route := on_state (RouteService_Create req) in
        match route with
        | Err _ => writeError 500 "failed to create route"
        | Ok route => writeJSON 201 (RouteResponse_json (Route_ToResponse route))
        end
  end.

Definition RouteHandler_List : Handler S := λ r,
  let gatewayIDStr := query_Get (RawQuery r) "gateway_id" in
  if String.eqb gatewayIDStr "" then writeError 400 "gateway_id is required"
  else
    match uuid_Parse gatewayIDStr with
    | None => writeError 400 "invalid gateway_id"
    | Some gatewayID =>
        let! res := on_state (RouteService_ListByGateway gatewayID) in
        match res with
        | Err _ => writeError 500 "failed to list routes"
        | Ok routes =>
            writeJSON 200 (RouteListResponse_json (mkRouteList (map Route_ToResponse routes) (len_list routes)))
        end
    end.

Definition RouteHandler_Delete (urlParam : string → string) : Handler S := λ r,
  match uuid_Parse (urlParam "id") with
  | None => writeError 400 "invalid route ID"
  | Some id =>
      let! res := on_state (RouteService_Delete id) in
      match res with
      | Err _ => writeError 500 "failed to delete route"
      | Ok _ => writeJSON 200 (status_json "deleted")
      end
  end.

(** *** threat.go *)

Definition ThreatHandler_List : Handler S := λ r,
  let gatewayIDStr := query_Get (RawQuery r) "gateway_id" in
  if String.eqb gatewayIDStr "" then writeError 400 "gateway_id is required"
  else
    match uuid_Parse gatewayIDStr with
    | None => writeError 400 "invalid gateway_id"
    | Some gatewayID =>
        let offset := (Atoi (query_Get (RawQuery r) "offset")).1 in
        let limit := (Atoi (query_Get (RawQuery r) "limit")).1 in
        let severity := query_Get (RawQuery r) "severity" in
        let limit := clamp_limit limit in
        let! res := on_state (ThreatRepository_ListByGateway gatewayID severity offset limit) in
        match res with
        | Err _ => writeError 500 "failed to list threats"
        | Ok (events, total) =>
            writeJSON 200 (ThreatEventListResponse_json
              (mkThreatList (map ThreatEvent_ToResponse events) total offset limit))
        end
    end.
End handlers.
