(* ===== verification/HandlerSpec.v ===== *)
(** * What the handlers answer and do

    The status and JSON a handler answers on each of its branches, and its effect on
    the records of the database: creation and activation of gateways as lemmas,
    which ServerPath.v carries through the whole server, and the properties that
    stand on their own. *)

From Stdlib Require Import Sorting.Sorted.
From S2P Require Import Prelude GoNum GoStrings GoTime Json Http Auth Helpers Respond Model Sql Schema.
From S2P Require Import Postgres Memory Repository RepoFacts RepoSpec Service Handlers.

(** ** Specification *)

(** The gateway a valid request asks for. *)
Definition requested_gateway (req : CreateGatewayRequest) (actor : string) (id : UUID) (now : Time) : Gateway :=
  mkGateway id (cg_Name req) (cg_Hostname req)
    (if decide (cg_Port req = 0) then 443 else cg_Port req)
    "INACTIVE"
    (if decide (cg_TlsPolicy req = "") then "PQC_PREFERRED" else cg_TlsPolicy req)
    (if decide (cg_MaxConnections req = 0) then 10000 else cg_MaxConnections req)
    (if decide (cg_CreatedBy req = "") then actor else cg_CreatedBy req)
    (UTC now) zeroTime.

Definition requested_upstream (req : CreateUpstreamRequest) (id : UUID) (now : Time) : Upstream :=
  mkUpstream id (cu_Name req) (cu_Host req) (cu_Port req)
    (if decide (cu_Protocol req = "") then "HTTPS" else cu_Protocol req)
    (cu_TlsVerify req)
    (if decide (cu_HealthCheckPath req = "") then "/health" else cu_HealthCheckPath req)
    (if decide (cu_HealthCheckIntervalS req = 0) then 30 else cu_HealthCheckIntervalS req)
    true (UTC now) zeroTime.

(** ** Lemmas *)

Lemma if_Z_eqb {A} (x y : Z) (a b : A) : (if x =? y then a else b) = if decide (x = y) then a else b.
Proof. destruct (Z.eqb_spec x y); case_decide; done. Qed.

Lemma if_string_eqb {A} (x y : string) (a b : A) :
  (if String.eqb x y then a else b) = if decide (x = y) then a else b.
Proof. destruct (String.eqb_spec x y); case_decide; done. Qed.

(** What the services build is what was asked for. *)
Lemma gateway_requested (req : CreateGatewayRequest) (id : UUID) (now : Time) :
  mkGateway id (cg_Name (gateway_defaults req)) (cg_Hostname (gateway_defaults req))
    (cg_Port (gateway_defaults req)) "INACTIVE" (cg_TlsPolicy (gateway_defaults req))
    (cg_MaxConnections (gateway_defaults req)) (cg_CreatedBy (gateway_defaults req)) (UTC now) zeroTime
  = requested_gateway req (cg_CreatedBy req) id now.
Proof.
  unfold gateway_defaults, requested_gateway. cbn. rewrite !if_Z_eqb, if_string_eqb. f_equal. by case_decide.
Qed.

Lemma upstream_requested (req : CreateUpstreamRequest) (id : UUID) (now : Time) :
  mkUpstream id (cu_Name (upstream_defaults req)) (cu_Host (upstream_defaults req))
    (cu_Port (upstream_defaults req)) (cu_Protocol (upstream_defaults req))
    (cu_TlsVerify (upstream_defaults req)) (cu_HealthCheckPath (upstream_defaults req))
    (cu_HealthCheckIntervalS (upstream_defaults req)) true (UTC now) zeroTime
  = requested_upstream req id now.
Proof. unfold upstream_defaults, requested_upstream. cbn. by rewrite if_Z_eqb, !if_string_eqb. Qed.

(** The route a request with valid IDs asks for. *)
Definition requested_route (req : CreateRouteRequest) (gid uid id : UUID) (now : Time) : Route :=
  mkRoute id gid uid (cr_PathPrefix req) (cr_StripPrefix req) (cr_Priority req)
    (if decide (cr_TlsPolicy req = "") then None else Some (cr_TlsPolicy req))
    (if decide (0 < cr_RateLimitRPS req) then Some (cr_RateLimitRPS req) else None)
    true (UTC now) zeroTime.

Lemma route_requested (req : CreateRouteRequest) (gid uid id : UUID) (now : Time) :
  mkRoute id gid uid (cr_PathPrefix req) (cr_StripPrefix req) (cr_Priority req)
    (if negb (String.eqb (cr_TlsPolicy req) "") then Some (cr_TlsPolicy req) else None)
    (if 0 <? cr_RateLimitRPS req then Some (cr_RateLimitRPS req) else None)
    true (UTC now) zeroTime = requested_route req gid uid id now.
Proof.
  unfold requested_route. f_equal.
  - destruct (String.eqb_spec (cr_TlsPolicy req) ""); case_decide; done.
  - destruct (Z.ltb_spec 0 (cr_RateLimitRPS req)); case_decide; done || lia.
Qed.

Section effects.
Context {S E : Type} `{UuidLib} `{FrameLaws S E}.

(** The database seen by the next step after a clock and a UUID. *)
Lemma uuid_then_clock (s : S) : db_of (time_Now (uuid_New s).2).2 = db_of s.
Proof. by rewrite clock_keeps_db, uuid_keeps_db. Qed.

Lemma GatewayService_Create_spec (req : CreateGatewayRequest) (s : S) :
  let g := requested_gateway req (cg_CreatedBy req) (uuid_New s).1 (time_Now (uuid_New s).2).1 in
  match GatewayService_Create req s with
  | (Ok g', s') => g' = g ∧ added gateway_resource g (db_of s) (db_of s')
  | (Err _, s') => db_of s' = db_of s ∨ added gateway_resource g (db_of s) (db_of s')
  end.
Proof.
  unfold GatewayService_Create. run_program. cbv zeta. pose proof (uuid_then_clock s) as Hdb.
  destruct (uuid_New s) as [id s1]. cbn [fst snd] in *. run_program.
  destruct (time_Now s1) as [now s2]. cbn [fst snd] in *. run_program. rewrite <- Hdb.
  rewrite gateway_requested. pose proof (gateway_create_inserts (requested_gateway req (cg_CreatedBy req) id now) s2) as Hc.
  unfold inserts in Hc. destruct (GatewayRepository_Create _ s2) as [[u|e] s']; done.
Qed.

Lemma UpstreamService_Create_spec (req : CreateUpstreamRequest) (s : S) :
  let u := requested_upstream req (uuid_New s).1 (time_Now (uuid_New s).2).1 in
  match UpstreamService_Create req s with
  | (Ok u', s') => u' = u ∧ added upstream_resource u (db_of s) (db_of s')
  | (Err _, s') => db_of s' = db_of s ∨ added upstream_resource u (db_of s) (db_of s')
  end.
Proof.
  unfold UpstreamService_Create. run_program. cbv zeta. pose proof (uuid_then_clock s) as Hdb.
  destruct (uuid_New s) as [id s1]. cbn [fst snd] in *. run_program.
  destruct (time_Now s1) as [now s2]. cbn [fst snd] in *. run_program. rewrite <- Hdb.
  rewrite upstream_requested. pose proof (upstream_create_inserts (requested_upstream req id now) s2) as Hc.
  unfold inserts in Hc. destruct (UpstreamRepository_Create _ s2) as [[v|e] s']; done.
Qed.

Lemma RouteService_Create_spec (req : CreateRouteRequest) (gid uid : UUID) (s : S) :
  uuid_Parse (cr_GatewayID req) = Some gid → uuid_Parse (cr_UpstreamID req) = Some uid →
  let r := requested_route req gid uid (uuid_New s).1 (time_Now (uuid_New s).2).1 in
  match RouteService_Create req s with
  | (Ok r', s') => r' = r ∧ added route_resource r (db_of s) (db_of s')
  | (Err _, s') => db_of s' = db_of s ∨ added route_resource r (db_of s) (db_of s')
  end.
Proof.
  intros Hg Hu. unfold RouteService_Create. rewrite Hg, Hu. run_program. cbv zeta.
  pose proof (uuid_then_clock s) as Hdb.
  destruct (uuid_New s) as [id s1]. cbn [fst snd] in *. run_program.
  destruct (time_Now s1) as [now s2]. cbn [fst snd] in *. run_program. rewrite <- Hdb.
  rewrite route_requested. pose proof (route_create_inserts (requested_route req gid uid id now) s2) as Hc.
  unfold inserts in Hc. destruct (RouteRepository_Create _ s2) as [[v|e] s']; done.
Qed.

(** Run a handler's single call and answer by its result. *)
Lemma on_state_answer {A Er} (m : M S (result A Er)) (ok : A → hio S unit) (err : Er → hio S unit)
    (w : ResponseWriter) (s : S) :
  hseq (on_state m) (λ res, match res with Err e => err e | Ok a => ok a end) (w, s)
  = match m s with
    | (Ok a, s') => ok a (w, s')
    | (Err e, s') => err e (w, s')
    end.
Proof. rewrite run_hseq, run_on_state. by destruct (m s) as [[a|e] s']. Qed.
End effects.

(** An actor is never empty. *)
Lemma actorFromRequest_nonempty (r : Request) : actorFromRequest r ≠ "".
Proof. unfold actorFromRequest. by destruct (String.eqb_spec (SubjectFromContext (Context r)) ""). Qed.

(** The guards of [Create] as propositions. *)
Lemma name_missing {A} (req : CreateGatewayRequest) (a b : A) :
  (if String.eqb (cg_Name req) "" || String.eqb (cg_Hostname req) "" then a else b)
  = if decide (cg_Name req = "" ∨ cg_Hostname req = "") then a else b.
Proof. destruct (String.eqb_spec (cg_Name req) ""), (String.eqb_spec (cg_Hostname req) ""); case_decide; tauto. Qed.

Lemma name_long {A} (req : CreateGatewayRequest) (a b : A) :
  (if (maxNameLength <? len (cg_Name req)) || (maxNameLength <? len (cg_Hostname req)) then a else b)
  = if decide (255 < len (cg_Name req) ∨ 255 < len (cg_Hostname req)) then a else b.
Proof.
  unfold maxNameLength.
  destruct (Z.ltb_spec 255 (len (cg_Name req))), (Z.ltb_spec 255 (len (cg_Hostname req))); case_decide; lia || done.
Qed.

Lemma with_actor_requested (req : CreateGatewayRequest) (actor : string) (id : UUID) (now : Time) :
  requested_gateway (with_actor req actor) (cg_CreatedBy (with_actor req actor)) id now
  = requested_gateway req actor id now.
Proof.
  unfold with_actor. rewrite if_string_eqb. unfold requested_gateway.
  case_decide; cbn; f_equal; by repeat case_decide.
Qed.

(** [POST /gateways]: a body that does not decode, a missing name or hostname,
    and one over 255 bytes are answered 400 without touching any state; otherwise
    the gateway asked for, with its defaults, a new ID and the authenticated
    subject as creator unless the body names one, is stored INACTIVE and answered
    with 201, or the answer is 500. *)
Lemma gateway_create_effect {S E} `{UuidLib} `{FrameLaws S E} (r : Request) (w : ResponseWriter) (s : S) :
  unsent w →
  let answers status v s' := GatewayHandler_Create r (w, s) = (tt, (json_written w status v, s')) in
  match decode_body create_gateway_fields zeroCreateGateway r with
  | None => answers 400 (error_json "invalid request body") s
  | Some req =>
      if decide (cg_Name req = "" ∨ cg_Hostname req = "") then
        answers 400 (error_json "name and hostname are required") s
      else if decide (255 < len (cg_Name req) ∨ 255 < len (cg_Hostname req)) then
        answers 400 (error_json "name or hostname exceeds maximum length") s
      else
        let g := requested_gateway req (actorFromRequest r) (uuid_New s).1 (time_Now (uuid_New s).2).1 in
        ∃ s', (answers 201 (GatewayResponse_json (Gateway_ToResponse g)) s'
               ∧ added gateway_resource g (db_of s) (db_of s'))
            ∨ (answers 500 (error_json "failed to create gateway") s'
               ∧ (db_of s' = db_of s ∨ added gateway_resource g (db_of s) (db_of s')))
  end.
Proof.
  intros Hw answers. subst answers. unfold GatewayHandler_Create.
  destruct (decode_body _ _ r) as [req|]; [|by apply writeError_eq].
  rewrite name_missing, name_long. case_decide; [by apply writeError_eq|]. case_decide; [by apply writeError_eq|].
  cbv zeta. rewrite on_state_answer.
  pose proof (GatewayService_Create_spec (with_actor req (actorFromRequest r)) s) as Hs. cbv zeta in Hs.
  rewrite with_actor_requested in Hs. destruct (GatewayService_Create _ s) as [[g|e] s'].
  - destruct Hs as [-> Hadd]. exists s'. left. split; [by apply writeJSON_eq|done].
  - exists s'. right. split; [by apply writeError_eq|done].
Qed.

(** Activation: an ID that does not parse is answered 400 and nothing is
    touched; for an existing gateway a 200 means its status, and only its
    status and update time, is now ACTIVE; an unknown ID changes nothing and is
    answered 500. *)
Lemma gateway_activate_effect {S E} `{UuidLib} `{FrameLaws S E} (urlParam : string → string)
    (r : Request) (w : ResponseWriter) (s : S) :
  unsent w →
  let before := entities gateways (db_of s) in
  let answers status v s' := GatewayHandler_Activate urlParam r (w, s) = (tt, (json_written w status v, s')) in
  match uuid_Parse (urlParam "id") with
  | None => answers 400 (error_json "invalid gateway ID") s
  | Some id =>
      ∃ s', (answers 200 (status_json "activated") s'
             ∧ Forall2 (status_rel id "ACTIVE") before (entities gateways (db_of s'))
             ∧ only_changes "gateways" (db_of s) (db_of s')
             ∧ ∃ g, g ∈ before ∧ gw_ID g = id)
          ∨ (answers 500 (error_json "failed to activate gateway") s'
             ∧ (entities gateways (db_of s') = before
                ∨ Forall2 (status_rel id "ACTIVE") before (entities gateways (db_of s')))
             ∧ ((∀ g, g ∈ before → gw_ID g ≠ id) → entities gateways (db_of s') = before))
  end.
Proof.
  intros Hw before answers. subst answers. unfold GatewayHandler_Activate.
  destruct (uuid_Parse _) as [id|]; [|by apply writeError_eq]. rewrite on_state_answer.
  unfold GatewayService_Activate. pose proof (update_status_effect id "ACTIVE" s) as Hu.
  fold before in Hu. destruct (GatewayRepository_UpdateStatus id "ACTIVE" s) as [[u|e] s']; exists s'.
  - left. split; [by apply writeJSON_eq|done].
  - right. split; [by apply writeError_eq|].
    assert (Hsame : (∀ g, g ∈ before → gw_ID g ≠ id) →
              Forall2 (status_rel id "ACTIVE") before (entities gateways (db_of s')) →
              entities gateways (db_of s') = before).
    { intros Hno Hf. by apply (status_rel_none id "ACTIVE"). }
    destruct e as [p e|m|e].
    + split; [done|]. intros Hno. destruct Hu as [?|Hf]; [done|by apply Hsame].
    + destruct Hu as (_ & Heq & _). split; [by left|done].
    + split; [done|]. intros Hno. destruct Hu as [?|Hf]; [done|by apply Hsame].
Qed.

(** ** Properties *)

(** Round trip over HTTP: when [POST /gateways] answers 201 to a valid
    request, [GET /gateways/{id}] with the new ID answers 200 with the gateway
    asked for as its columns keep it, timestamps to the microsecond; 404 is possible only when the
    database itself fails. *)
Theorem gateway_post_get {S E} `{UuidLib} `{FrameLaws S E} (r r2 : Request) (w w2 : ResponseWriter)
    (s s2 : S) (req : CreateGatewayRequest) (urlParam : string → string) :
  unsent w → unsent w2 →
  decode_body create_gateway_fields zeroCreateGateway r = Some req →
  cg_Name req ≠ "" → cg_Hostname req ≠ "" → len (cg_Name req) ≤ 255 → len (cg_Hostname req) ≤ 255 →
  let g := requested_gateway req (actorFromRequest r) (uuid_New s).1 (time_Now (uuid_New s).2).1 in
  let posted := GatewayHandler_Create r (w, s) in
  resp_status (finish posted.2.1) = 201 → db_of s2 = db_of posted.2.2 →
  uuid_Parse (urlParam "id") = Some (gw_ID g) →
  ∃ s3, db_of s3 = db_of s2 ∧
    ((∃ g', gateway_saved g g' ∧
        GatewayHandler_Get urlParam r2 (w2, s2)
          = (tt, (json_written w2 200 (GatewayResponse_json (Gateway_ToResponse g')), s3)))
     ∨ (∃ e, (GatewayRepository_GetByID (gw_ID g) s2).1 = Err e ∧ (∀ m, e ≠ NotFound m)
          ∧ GatewayHandler_Get urlParam r2 (w2, s2)
              = (tt, (json_written w2 404 (error_json "gateway not found"), s3)))).
Proof.
  intros Hw Hw2 Hdec Hn Hh Hln Hlh g posted Hst Hdb Hid. subst posted.
  pose proof (gateway_create_effect r w s Hw) as Hc. rewrite Hdec in Hc. cbv zeta in Hc.
  rewrite decide_False, decide_False in Hc by (lia || naive_solver). fold g in Hc.
  destruct Hc as (s1 & [[Hans Hadd]|[Hans _]]); rewrite Hans in Hst, Hdb; cbn [fst snd] in Hst, Hdb;
    [|by rewrite finish_json_written in Hst].
  unfold GatewayHandler_Get. rewrite Hid, on_state_answer.
  unfold GatewayService_Get. pose proof (gateway_get_finds (gw_ID g) s2) as Hf. unfold finds in Hf.
  rewrite Hdb in Hf |- *.
  destruct (GatewayRepository_GetByID (gw_ID g) s2) as [[g'|e] s3]; exists s3.
  - destruct Hf as (Hs & Hin & Hgid). split; [done|]. left. exists g'. split; [|by apply writeJSON_eq].
    exact (added_unique gateway_resource g g' _ _ Hadd Hin Hgid).
  - assert (Hno : ∀ m, e ≠ NotFound m).
    { intros m ->. destruct Hf as (_ & _ & Hno). destruct (added_in _ _ _ _ Hadd) as (g' & Hs & Hg').
      apply (Hno g' Hg'). by apply gateway_saved_id. }
    split; [by destruct e as [| |]; [|destruct (Hno message)|]|]. right. exists e.
    split; [done|]. split; [done|]. by apply writeError_eq.
Qed.

(** A negative offset is passed on to the database, which rejects it: the
    upstream listing answers 500, where the gateway listing falls back to its
    default. *)
Theorem UpstreamHandler_List_negative_offset {S E} `{UuidLib} `{FrameLaws S E} (r : Request)
    (w : ResponseWriter) (s : S) (offset limit : Z) :
  unsent w → RawQuery r = page_query offset limit → int64_min ≤ offset < 0 →
  ∃ s', db_of s' = db_of s ∧
    UpstreamHandler_List r (w, s) = (tt, (json_written w 500 (error_json "failed to list upstreams"), s')).
Proof.
  intros Hw Hq Ho. unfold UpstreamHandler_List. rewrite Hq. destruct (page_query_Get offset limit) as [-> ->].
  rewrite Atoi_Itoa by (unfold int64_min, int64_max in *; lia). cbn [fst]. cbv zeta. rewrite on_state_answer.
  unfold UpstreamService_List. set (l := clamp_limit _).
  destruct parse_upstream_queries as (_ & _ & Hc & Hl & _).
  pose proof (count_and_list_spec upstreams eq_refl _ _ "failed to count upstreams: " "failed to list upstreams: "
    "failed to scan upstream: " [] [QInt offset; QInt l] [] [] (Some "created_at") (Some (1%nat, 2%nat)) s Hc Hl) as Hx.
  unfold UpstreamRepository_List. change upstream_of with (e_of upstreams).
  destruct (count_and_list _ _ _ _ _ _ _ _ s) as [[[page total]|e] s'].
  - exfalso. destruct Hx as (_ & _ & rows & rows' & _ & _ & (n & m & Hn & _ & Hn0 & _) & _).
    injection Hn as <-. lia.
  - exists s'. split; [done|]. by apply writeError_eq.
Qed.

(** [POST /routes]: an undecodable body or a missing field is a 400; an ID that
    does not parse is a 500 that touches nothing; otherwise the route asked for
    is stored enabled, with an optional policy and a positive rate limit only,
    and answered with 201, or the answer is 500. *)
Theorem RouteHandler_Create_spec {S E} `{UuidLib} `{FrameLaws S E} (r : Request) (w : ResponseWriter) (s : S) :
  unsent w →
  let answers status v s' := RouteHandler_Create r (w, s) = (tt, (json_written w status v, s')) in
  match decode_body create_route_fields zeroCreateRoute r with
  | None => answers 400 (error_json "invalid request body") s
  | Some req =>
      if decide (cr_GatewayID req = "" ∨ cr_UpstreamID req = "" ∨ cr_PathPrefix req = "") then
        answers 400 (error_json "gateway_id, upstream_id, and path_prefix are required") s
      else
        match uuid_Parse (cr_GatewayID req), uuid_Parse (cr_UpstreamID req) with
        | Some gid, Some uid =>
            let rt := requested_route req gid uid (uuid_New s).1 (time_Now (uuid_New s).2).1 in
            ∃ s', (answers 201 (RouteResponse_json (Route_ToResponse rt)) s'
                   ∧ added route_resource rt (db_of s) (db_of s'))
                ∨ (answers 500 (error_json "failed to create route") s'
                   ∧ (db_of s' = db_of s ∨ added route_resource rt (db_of s) (db_of s')))
        | _, _ => answers 500 (error_json "failed to create route") s
        end
  end.
Proof.
  intros Hw answers. subst answers. unfold RouteHandler_Create.
  destruct (decode_body _ _ r) as [req|]; [|by apply writeError_eq].
  assert (Hreq : String.eqb (cr_GatewayID req) "" || String.eqb (cr_UpstreamID req) "" || String.eqb (cr_PathPrefix req) ""
                 = bool_decide (cr_GatewayID req = "" ∨ cr_UpstreamID req = "" ∨ cr_PathPrefix req = "")).
  { apply eq_true_iff_eq. rewrite !orb_true_iff, !String.eqb_eq, bool_decide_eq_true. tauto. }
  rewrite Hreq.
  destruct (decide (cr_GatewayID req = "" ∨ cr_UpstreamID req = "" ∨ cr_PathPrefix req = "")) as [Hm|Hm].
  { rewrite bool_decide_eq_true_2 by done. by apply writeError_eq. }
  rewrite bool_decide_eq_false_2 by done. rewrite on_state_answer.
  destruct (uuid_Parse (cr_GatewayID req)) as [gid|] eqn:Eg.
  - destruct (uuid_Parse (cr_UpstreamID req)) as [uid|] eqn:Eu.
    + pose proof (RouteService_Create_spec req gid uid s Eg Eu) as Hs. cbv zeta in Hs |- *.
      destruct (RouteService_Create req s) as [[rt|e] s']; exists s'.
      * left. destruct Hs as [-> Hs]. split; [by apply writeJSON_eq|done].
      * right. split; [by apply writeError_eq|done].
    + unfold RouteService_Create. rewrite Eg, Eu. by apply writeError_eq.
  - unfold RouteService_Create. rewrite Eg. by apply writeError_eq.
Qed.

(** ** Witnesses, on the database in memory *)

Definition json_request (path : string) (body : json) : Request :=
  mkRequest "POST" path "" ∅ (mkBody (encode body) None) (len (encode body)) "10.0.0.1:5000" [].

(** A create request that leaves the defaults to the service. *)
Definition post_gateway : Request :=
  json_request "/api/v1/gateways" (JObject [("name", JString "edge-3"); ("hostname", JString "edge.example.net")]).

Definition decoded_gateway : CreateGatewayRequest := mkCreateGateway "edge-3" "edge.example.net" 0 "" 0 "".

Lemma post_gateway_decoded : decode_body create_gateway_fields zeroCreateGateway post_gateway = Some decoded_gateway.
Proof. vm_compute. reflexivity. Qed.

Lemma gateway_post_get_witness :
  resp_status (finish (GatewayHandler_Get (λ _, to_hex (uuid_New m1).1) post_gateway
    (newResponseWriter, (GatewayHandler_Create post_gateway (newResponseWriter, m1)).2.2)).2.1) = 200.
Proof.
  assert (Hst : resp_status (finish (GatewayHandler_Create post_gateway (newResponseWriter, m1)).2.1) = 201)
    by (vm_compute; reflexivity).
  destruct (gateway_post_get post_gateway post_gateway newResponseWriter newResponseWriter m1
    (GatewayHandler_Create post_gateway (newResponseWriter, m1)).2.2 decoded_gateway (λ _, to_hex (uuid_New m1).1))
    as (s3 & _ & [(g' & _ & Hans)|(e & He & _ & _)]).
  - apply unsent_new.
  - apply unsent_new.
  - apply post_gateway_decoded.
  - discriminate.
  - discriminate.
  - vm_compute. discriminate.
  - vm_compute. discriminate.
  - exact Hst.
  - reflexivity.
  - vm_compute. reflexivity.
  - rewrite Hans. reflexivity.
  - exfalso. revert He. vm_compute. discriminate.
Defined.

Definition list_request (offset limit : Z) : Request :=
  mkRequest "GET" "/api/v1/upstreams" (page_query offset limit) ∅ (mkBody "" None) 0 "10.0.0.1:5000" [].

Lemma UpstreamHandler_List_negative_offset_witness :
  resp_status (finish (UpstreamHandler_List (list_request (-1) 10) (newResponseWriter, m1)).2.1) = 500.
Proof.
  destruct (UpstreamHandler_List_negative_offset (list_request (-1) 10) newResponseWriter m1 (-1) 10) as (s' & _ & Hans).
  - apply unsent_new.
  - reflexivity.
  - unfold int64_min. lia.
  - rewrite Hans. reflexivity.
Defined.

Lemma RouteHandler_Create_spec_witness :
  (RouteHandler_Create (json_request "/api/v1/routes" (JObject [("gateway_id", JString "x"); ("upstream_id", JString "y");
     ("path_prefix", JString "/")])) (newResponseWriter, m1)).2.2 = m1.
Proof.
  pose proof (RouteHandler_Create_spec (json_request "/api/v1/routes" (JObject [("gateway_id", JString "x");
    ("upstream_id", JString "y"); ("path_prefix", JString "/")])) newResponseWriter m1 unsent_new) as H.
  assert (Hd : decode_body create_route_fields zeroCreateRoute (json_request "/api/v1/routes"
    (JObject [("gateway_id", JString "x"); ("upstream_id", JString "y"); ("path_prefix", JString "/")]))
    = Some (mkCreateRoute "x" "y" "/" false 0 "" 0)) by (vm_compute; reflexivity).
  rewrite Hd in H. rewrite decide_False in H by (intros [H'|[H'|H']]; discriminate H').
  cbn in H. rewrite H. reflexivity.
Defined.
