(* ===== verification/Effects.v ===== *)
(** * What a request does to the database, whatever runs beside it

    The abstract specification of the API is [db_change]: the changes of the
    database it can make, one at a time.  A request is [atomic]: all its steps but
    at most one leave the database alone, and that one is such a change.  Here the
    services are shown to be so, with the results of their reads, by [wp] and hence
    under every interleaving; Endpoints.v goes on with the handlers. *)

From Stdlib Require Import Sorting.Sorted.
From S2P Require Import Prelude GoNum GoStrings GoTime Json Http Respond Threads Auth Helpers Model Sql Schema.
From S2P Require Import Postgres Memory Repository RepoFacts RepoSpec Service Handlers HandlerSpec.

(** ** Specification *)

Definition valid_name (s : string) : Prop := s ≠ "" ∧ len s ≤ 255.

(** What the service makes sure of in the records it stores. *)
Definition gateway_ok (g : Gateway) : Prop :=
  (gw_Status g = "ACTIVE" ∨ gw_Status g = "INACTIVE") ∧ valid_name (gw_Name g) ∧ valid_name (gw_Hostname g)
  ∧ gw_Port g ≠ 0 ∧ gw_TlsPolicy g ≠ "" ∧ gw_MaxConnections g ≠ 0 ∧ gw_CreatedBy g ≠ "".

Definition upstream_ok (u : Upstream) : Prop :=
  up_Name u ≠ "" ∧ up_Host u ≠ "" ∧ up_Port u ≠ 0 ∧ up_Protocol u ≠ "" ∧ up_HealthCheckPath u ≠ ""
  ∧ up_HealthCheckIntervalS u ≠ 0.

Definition route_ok (r : Route) : Prop :=
  rt_PathPrefix r ≠ "" ∧ rt_TlsPolicy r ≠ Some "" ∧ ∀ n, rt_RateLimitRPS r = Some n → 0 < n.

(** A resource is created. *)
Inductive db_create (db db' : Database) : Prop :=
| create_gateway g :
    gw_Status g = "INACTIVE" → gateway_ok g → added gateway_resource g db db' → db_create db db'
| create_upstream u : upstream_ok u → added upstream_resource u db db' → db_create db db'
| create_route r : route_ok r → added route_resource r db db' → db_create db db'.

(** The changes of the database the API can make. *)
Inductive db_change (db db' : Database) : Prop :=
| change_create : db_create db db' → db_change db db'
| change_status id status :
    status = "ACTIVE" ∨ status = "INACTIVE" →
    Forall2 (status_rel id status) (entities gateways db) (entities gateways db') →
    only_changes "gateways" db db' → db_change db db'
| change_delete id :
    entities routes db' = List.filter (λ r, negb (String.eqb (rt_ID r) id)) (entities routes db) →
    only_changes "routes" db db' → db_change db db'.

Section traces.
Context {S E : Type} `{PgLaws S E}.

(** A trace that leaves the database alone. *)
Definition quiet (tr : list (S * S)) : Prop := Forall (λ p, db_of p.2 = db_of p.1) tr.

(** A trace with a single effect. *)
Definition once (R : relation Database) (tr : list (S * S)) : Prop :=
  ∃ tr1 p tr2, tr = (tr1 ++ p :: tr2)%list ∧ quiet tr1 ∧ R (db_of p.1) (db_of p.2) ∧ quiet tr2.

Definition atomic (R : relation Database) (tr : list (S * S)) : Prop := quiet tr ∨ once R tr.

(** *** Lemmas *)

Lemma quiet_nil : quiet [].
Proof. apply Forall_nil_2. Qed.

Lemma quiet_cons (s s' : S) (tr : list (S * S)) : db_of s' = db_of s → quiet tr → quiet ((s, s') :: tr).
Proof. intros. by apply Forall_cons_2. Qed.

Lemma quiet_app (tr1 tr2 : list (S * S)) : quiet tr1 → quiet tr2 → quiet (tr1 ++ tr2).
Proof. intros. by apply Forall_app. Qed.

Lemma once_app_l (R : relation Database) (tr1 tr2 : list (S * S)) : quiet tr1 → once R tr2 → once R (tr1 ++ tr2).
Proof.
  intros Hq (a & p & b & -> & Ha & Hp & Hb). exists (tr1 ++ a)%list, p, b. rewrite <- app_assoc.
  by repeat split; [apply quiet_app|..].
Qed.

Lemma once_cons (R : relation Database) (s s' : S) (tr : list (S * S)) :
  db_of s' = db_of s → once R tr → once R ((s, s') :: tr).
Proof. intros Hs. apply (once_app_l R [(s, s')]). by apply quiet_cons; [|apply quiet_nil]. Qed.

Lemma once_single (R : relation Database) (s s' : S) : R (db_of s) (db_of s') → once R [(s, s')].
Proof. intros HR. exists [], (s, s'), []. repeat split; [apply quiet_nil|done|apply quiet_nil]. Qed.

Lemma once_mono (R R' : relation Database) (tr : list (S * S)) :
  (∀ d d', R d d' → R' d d') → once R tr → once R' tr.
Proof. intros HR (a & p & b & -> & Ha & Hp & Hb). exists a, p, b. repeat split; [done|by apply HR|done]. Qed.

Lemma atomic_mono (R R' : relation Database) (tr : list (S * S)) :
  (∀ d d', R d d' → R' d d') → atomic R tr → atomic R' tr.
Proof. intros HR [Hq|Ho]; [by left|right; by eapply once_mono]. Qed.

Lemma atomic_cons (R : relation Database) (s s' : S) (tr : list (S * S)) :
  db_of s' = db_of s → atomic R tr → atomic R ((s, s') :: tr).
Proof. intros Hs [Hq|Ho]; [left; by apply quiet_cons|right; by apply once_cons]. Qed.

Lemma atomic_app_l (R : relation Database) (tr1 tr2 : list (S * S)) : quiet tr1 → atomic R tr2 → atomic R (tr1 ++ tr2).
Proof. intros Hq [Ho|Ho]; [left; by apply quiet_app|right; by apply once_app_l]. Qed.

Lemma atomic_single (R : relation Database) (s s' : S) :
  db_of s' = db_of s ∨ R (db_of s) (db_of s') → atomic R [(s, s')].
Proof. intros [Hs|HR]; [left; by apply quiet_cons; [|apply quiet_nil]|right; by apply once_single]. Qed.

(** Every step of an atomic trace is quiet or a change. *)
Lemma atomic_step (R : relation Database) (tr : list (S * S)) (p : S * S) :
  atomic R tr → p ∈ tr → db_of p.2 = db_of p.1 ∨ R (db_of p.1) (db_of p.2).
Proof.
  unfold atomic, once, quiet. intros [Hq|(a & q & b & -> & Ha & HR & Hb)] Hp.
  - left. by apply (proj1 (list.Forall_forall _ _) Hq).
  - apply elem_of_app in Hp as [Hp|[->|Hp]%elem_of_cons]; [left|by right|left].
    + by apply (proj1 (list.Forall_forall _ _) Ha).
    + by apply (proj1 (list.Forall_forall _ _) Hb).
Qed.

(** What has been done so far of an atomic trace. *)
Lemma atomic_prefix (R : relation Database) (tr1 tr2 : list (S * S)) : atomic R (tr1 ++ tr2) → atomic R tr1.
Proof.
  intros [Hq|(a & p & b & Heq & Ha & HR & Hb)].
  - left. by apply Forall_app in Hq as [? _].
  - apply app_eq_app in Heq as (c & [[-> Hc]|[-> Hc]]).
    + destruct c as [|q c]; [by rewrite app_nil_r; left|]. injection Hc as <- ->. right. exists a, p, c.
      repeat split; [done|done|]. by apply Forall_app in Hb as [? _].
    + left. by apply Forall_app in Ha as [? _].
Qed.

(** The number of effects of a trace. *)
Definition effects (tr : list (S * S)) : nat := List.length (filter (λ p, db_of p.2 ≠ db_of p.1) tr).

Lemma effects_app (tr1 tr2 : list (S * S)) : effects (tr1 ++ tr2) = (effects tr1 + effects tr2)%nat.
Proof. unfold effects. by rewrite list.filter_app, length_app. Qed.

Lemma effects_quiet (tr : list (S * S)) : quiet tr → effects tr = 0%nat.
Proof.
  unfold effects. induction 1 as [|p tr Hp _ IH]; [done|]. by rewrite filter_cons_False by (intros Hne; by apply Hne).
Qed.

Lemma effects_single (s s' : S) :
  db_of s' = db_of s ∧ effects [(s, s')] = 0%nat ∨ effects [(s, s')] = 1%nat.
Proof.
  unfold effects. destruct (decide (db_of s' = db_of s)) as [Heq|Hne].
  - left. split; [done|]. by rewrite filter_cons_False by (intros Hne; by apply Hne).
  - right. by rewrite filter_cons_True by done.
Qed.

Lemma effects_atomic (R : relation Database) (tr : list (S * S)) : atomic R tr → (effects tr ≤ 1)%nat.
Proof.
  intros [Hq|(a & [s s'] & b & -> & Ha & _ & Hb)]; [by rewrite effects_quiet; [lia|]|].
  change ((s, s') :: b) with ([(s, s')] ++ b)%list.
  rewrite !effects_app, (effects_quiet a Ha), (effects_quiet b Hb).
  destruct (effects_single s s') as [[_ ->]| ->]; lia.
Qed.
End traces.

Create HintDb db discriminated.
#[export] Hint Resolve quiet_nil quiet_cons quiet_app : db.

(** ** Services *)

Section services.
Context {S E : Type} `{UuidLib} `{FrameLaws S E}.

Lemma clock_step (s : S) : db_of (read_clock s).2 = db_of s.
Proof. rewrite <- (clock_keeps_db s). unfold time_Now. by rewrite run_prim. Qed.

Lemma uuid_step (s : S) : db_of (draw_uuid s).2 = db_of s.
Proof. rewrite <- (uuid_keeps_db s). unfold uuid_New. by rewrite run_prim. Qed.

Lemma exec_wrapped_one (prefix q : string) (args : list sqlval) : one_step (exec_wrapped prefix q args : M S _).
Proof. by intros [n|e]. Qed.

Lemma exec_found_one (prefix q missing : string) (args : list sqlval) :
  one_step (exec_found prefix q args missing : M S _).
Proof. intros [n|e]; [|done]. cbn. by destruct (n =? 0). Qed.

Lemma get_one_one {A ds} (q missing prefix : string) (f : dests ds → A) (id : UUID) :
  one_step (get_one q f id missing prefix : M S _).
Proof. by intros [x|[|e]]. Qed.

(** An insert ends in one step, with an error or with one more record. *)
Definition inserted_once {A} (rs : resource A) (a : A) {Er}
    (res : result A Er) (tr : list (S * S)) : Prop :=
  (List.length tr ≤ 3)%nat
  ∧ match res with
    | Ok a' => a' = a ∧ once (added rs a) tr
    | Err _ => atomic (added rs a) tr
    end.

(** New ID, clock, insert: what the three [Create] services have in common. *)
Lemma mwp_create {A Er} (rs : resource A) (make : UUID → Time → A)
    (insert : A → M S (result unit (repo_error E))) (wrap : repo_error E → Er) (P : A → Prop) :
  (∀ a, one_step (insert a)) → (∀ a s, inserts rs a s (insert a s)) → (∀ id now, P (make id now)) →
  mwp (let* id := uuid_New in
       let* now := time_Now in
       let* res := insert (make id now) in
       mreturn (match res with Err e => Err (wrap e) | Ok _ => Ok (make id now) end))
    (λ res tr, ∃ a, P a ∧ inserted_once rs a res tr).
Proof.
  intros Hone Hins HP. apply mwp_mseq, mwp_prim. intros s0. apply mwp_mseq, mwp_prim. intros s1.
  apply mwp_mseq, mwp_one_step; [apply Hone|]. intros s2. apply mwp_mreturn.
  set (a := make _ _). exists a. split; [apply HP|]. specialize (Hins a s2). unfold inserts in Hins.
  destruct (insert a s2) as [[[]|er] s3]; cbn [fst snd app]; (split; [cbn; lia|]).
  - split; [done|]. apply once_cons; [apply uuid_step|]. apply once_cons; [apply clock_step|]. by apply once_single.
  - apply atomic_cons; [apply uuid_step|]. apply atomic_cons; [apply clock_step|]. by apply atomic_single.
Qed.

Lemma mwp_GatewayService_Create (req : CreateGatewayRequest) :
  mwp (GatewayService_Create req : M S _)
    (λ res tr, ∃ g, (∃ id now, g = requested_gateway req (cg_CreatedBy req) id now)
                    ∧ inserted_once gateway_resource g res tr).
Proof.
  apply (mwp_create gateway_resource
    (λ id now, mkGateway id (cg_Name (gateway_defaults req)) (cg_Hostname (gateway_defaults req))
       (cg_Port (gateway_defaults req)) "INACTIVE" (cg_TlsPolicy (gateway_defaults req))
       (cg_MaxConnections (gateway_defaults req)) (cg_CreatedBy (gateway_defaults req)) (UTC now) zeroTime)
    GatewayRepository_Create id).
  - intros g. apply exec_wrapped_one.
  - intros g s. apply gateway_create_inserts.
  - intros id now. exists id, now. apply gateway_requested.
Qed.

Lemma mwp_UpstreamService_Create (req : CreateUpstreamRequest) :
  mwp (UpstreamService_Create req : M S _)
    (λ res tr, ∃ u, (∃ id now, u = requested_upstream req id now)
                    ∧ inserted_once upstream_resource u res tr).
Proof.
  apply (mwp_create upstream_resource
    (λ id now, mkUpstream id (cu_Name (upstream_defaults req)) (cu_Host (upstream_defaults req))
       (cu_Port (upstream_defaults req)) (cu_Protocol (upstream_defaults req))
       (cu_TlsVerify (upstream_defaults req)) (cu_HealthCheckPath (upstream_defaults req))
       (cu_HealthCheckIntervalS (upstream_defaults req)) true (UTC now) zeroTime)
    UpstreamRepository_Create id).
  - intros u. apply exec_wrapped_one.
  - intros u s. apply upstream_create_inserts.
  - intros id now. exists id, now. apply upstream_requested.
Qed.

Lemma mwp_RouteService_Create (req : CreateRouteRequest) (gid uid : UUID) :
  uuid_Parse (cr_GatewayID req) = Some gid → uuid_Parse (cr_UpstreamID req) = Some uid →
  mwp (RouteService_Create req : M S _)
    (λ res tr, ∃ r, (∃ id now, r = requested_route req gid uid id now)
                    ∧ inserted_once route_resource r res tr).
Proof.
  intros Hg Hu. unfold RouteService_Create. rewrite Hg, Hu.
  apply (mwp_create route_resource
    (λ id now, mkRoute id gid uid (cr_PathPrefix req) (cr_StripPrefix req) (cr_Priority req)
       (if negb (String.eqb (cr_TlsPolicy req) "") then Some (cr_TlsPolicy req) else None)
       (if 0 <? cr_RateLimitRPS req then Some (cr_RateLimitRPS req) else None)
       true (UTC now) zeroTime)
    RouteRepository_Create RepoError).
  - intros r. apply exec_wrapped_one.
  - intros r s. apply route_create_inserts.
  - intros id now. exists id, now. apply route_requested.
Qed.

(** Activation and deactivation. *)
Definition status_set (id : UUID) (status : string) : relation Database := λ db db',
  Forall2 (status_rel id status) (entities gateways db) (entities gateways db') ∧ only_changes "gateways" db db'.

Lemma status_rel_same (id : UUID) (status : string) (l : list Gateway) :
  (∀ g, g ∈ l → gw_ID g ≠ id) → Forall2 (status_rel id status) l l.
Proof.
  intros Hno. induction l as [|g l IH]; constructor.
  - unfold status_rel. rewrite (proj2 (String.eqb_neq _ _)); [done|]. apply Hno, list_elem_of_here.
  - apply IH. intros x Hx. by apply Hno, list_elem_of_further.
Qed.

Lemma mwp_UpdateStatus (id : UUID) (status : string) :
  mwp (GatewayRepository_UpdateStatus id status : M S _)
    (λ res tr, (List.length tr ≤ 3)%nat
       ∧ match res with
         | Ok _ => once (λ db db', status_set id status db db' ∧ ∃ g, g ∈ entities gateways db ∧ gw_ID g = id) tr
         | Err _ => atomic (status_set id status) tr
         end).
Proof.
  apply mwp_mseq, mwp_prim. intros s0. apply mwp_one_step; [apply exec_found_one|]. intros s1.
  pose proof (update_exec_effect id status (read_clock s0).1 s1) as Hx. cbv zeta in Hx.
  destruct (exec_found _ _ _ _ s1) as [[u|er] s2]; cbn [fst snd app]; (split; [cbn; lia|]).
  - destruct Hx as (Hf & Ho & Hg). apply once_cons; [apply clock_step|]. by apply once_single.
  - apply atomic_cons; [apply clock_step|]. apply atomic_single. destruct er as [p e|m|e]; [exact Hx| |exact Hx].
    destruct Hx as (_ & Heq & Ho & Hno). right. split; [|done]. rewrite Heq. by apply status_rel_same.
Qed.

(** Deletion of a route. *)
Definition route_removed (id : UUID) : relation Database := λ db db',
  entities routes db' = List.filter (λ r, negb (String.eqb (rt_ID r) id)) (entities routes db)
  ∧ only_changes "routes" db db'.

Lemma mwp_RouteService_Delete (id : UUID) :
  mwp (RouteService_Delete id : M S _)
    (λ res tr, (List.length tr ≤ 3)%nat
       ∧ match res with
         | Ok _ => once (λ db db', route_removed id db db' ∧ ∃ r, r ∈ entities routes db ∧ rt_ID r = id) tr
         | Err _ => atomic (route_removed id) tr
         end).
Proof.
  apply mwp_one_step; [apply exec_found_one|]. intros s.
  pose proof (route_delete_effect id s) as Hx. cbv zeta in Hx. unfold RouteService_Delete.
  destruct (RouteRepository_Delete id s) as [[u|er] s']; cbn [fst snd]; (split; [cbn; lia|]).
  - destruct Hx as (Hf & Ho & Hr). by apply once_single.
  - apply atomic_single. destruct er as [p e|m|e]; [exact Hx| |exact Hx].
    destruct Hx as (_ & Heq & Ho & Hno). right. split; [|done]. rewrite Heq. symmetry. clear -Hno.
    induction (entities routes (db_of s)) as [|r l IH]; [done|]. cbn [List.filter].
    rewrite (proj2 (String.eqb_neq _ _)) by (apply Hno, list_elem_of_here). cbn [negb].
    f_equal. apply IH. intros x Hx. apply Hno. by apply list_elem_of_further.
Qed.

(** *** Reads *)

(** The call itself fails in [s], as opposed to finding nothing. *)
Definition fails {A} (m : M S (result A (repo_error E))) (s : S) : Prop :=
  ∃ e, (m s).1 = Err e ∧ ∀ message, e ≠ NotFound message.

(** A lookup by ID: one step that changes nothing. *)
Definition looked_up {A} (e : entity A) (id_of : A → UUID) (id : UUID) (get : M S (result A (repo_error E)))
    (res : result A (repo_error E)) (tr : list (S * S)) : Prop :=
  ∃ s s', tr = [(s, s')] ∧ db_of s' = db_of s
    ∧ match res with
      | Ok a => a ∈ entities e (db_of s) ∧ id_of a = id
      | Err _ => (∀ a, a ∈ entities e (db_of s) → id_of a ≠ id) ∨ fails get s
      end.

Lemma mwp_get {A} (e : entity A) (id_of : A → UUID) (id : UUID) (missing : string) (get : M S (result A (repo_error E))) :
  one_step get → (∀ s, finds e id_of id missing s (get s)) → mwp get (looked_up e id_of id get).
Proof.
  intros Hone Hf. apply mwp_one_step; [done|]. intros s. specialize (Hf s). unfold finds in Hf.
  exists s, (get s).2. split; [done|]. unfold fails.
  destruct (get s) as [[a|[p x|m|x]] s']; cbn [fst snd].
  - exact Hf.
  - split; [done|]. right. by exists (Wrap p x).
  - split; [tauto|]. left. tauto.
  - split; [done|]. right. by exists (Raw x).
Qed.

Lemma mwp_GatewayService_Get (id : UUID) :
  mwp (GatewayService_Get id) (looked_up gateways gw_ID id (GatewayRepository_GetByID id)).
Proof. eapply mwp_get; [apply get_one_one|]. intros s. apply gateway_get_finds. Qed.

Lemma mwp_UpstreamService_Get (id : UUID) :
  mwp (UpstreamService_Get id) (looked_up upstreams up_ID id (UpstreamRepository_GetByID id)).
Proof. eapply mwp_get; [apply get_one_one|]. intros s. apply upstream_get_finds. Qed.

(** Every row of the table can be scanned. *)
Definition all_read {A} (e : entity A) (db : Database) : Prop :=
  ∀ row, row ∈ table db (e_table e) → is_Some (read_row e row).

(** A count and a page, read by two steps that change nothing: each is right at its
    own step, and another request may come between them. *)
Definition listed {A} (e : entity A) (key : A → Z) (p : A → bool) (offset limit : Z)
    (res : result (list A * Z) (repo_error E)) (tr : list (S * S)) : Prop :=
  quiet tr ∧ (List.length tr ≤ 3)%nat
  ∧ match res with
    | Ok (page, total) =>
        ∃ s1 s1' s2 s2', tr = [(s1, s1'); (s2, s2')]
          ∧ (all_read e (db_of s1) → total = len_list (List.filter p (entities e (db_of s1))))
          ∧ (all_read e (db_of s2) → is_page key (List.filter p (entities e (db_of s2))) offset limit page)
    | Err _ => True
    end.

(** A listing in one step. *)
Definition listed_all {A} (e : entity A) (key : A → Z) (p : A → bool)
    (res : result (list A) (repo_error E)) (tr : list (S * S)) : Prop :=
  ∃ s s', tr = [(s, s')] ∧ db_of s' = db_of s
    ∧ match res with
      | Ok items => items ≡ₚ List.filter p (entities e (db_of s)) ∧ StronglySorted (λ a b, key b ≤ key a) items
      | Err _ => True
      end.

Section listing.
Context {A : Type} (e : entity A) (c : string) (key : A → Z) (p : A → bool).
Hypothesis Hok : entity_ok e.
Hypothesis Hkey : ∀ row a, read_row e row = Some a → order_key (row !! c) = key a.

Lemma mwp_count_and_list (cq lq cp lp sp : string) (cargs largs : list sqlval) cconds conds (o l : nat) (offset limit : Z) :
  parse_stmt cq = Some (Count (e_table e) cconds) →
  parse_stmt lq = Some (Select (e_cols e) (e_table e) conds (Some c) (Some (o, l))) →
  (∀ row a, read_row e row = Some a → row_matches cargs cconds row = p a) →
  (∀ row a, read_row e row = Some a → row_matches largs conds row = p a) →
  arg largs o = Some (QInt offset) → arg largs l = Some (QInt limit) →
  mwp (count_and_list cq cargs lq largs (e_of e) cp lp sp) (listed e key p offset limit).
Proof.
  intros Hc Hl Hpc Hpl Ho Hlim. apply mwp_mseq, mwp_prim. intros s1.
  pose proof (QueryRow_law cq cargs _ [DInt] s1 Hc) as Hq. unfold QueryRow in Hq. rewrite run_prim in Hq.
  destruct (db_query_row cq cargs [DInt] s1) as [[[total []]|er] s1']; cbn [fst snd].
  2: { split; [|split; [cbn; lia|done]]. apply quiet_cons; [destruct er; tauto|apply quiet_nil]. }
  destruct Hq as (Hdb1 & vals & rest & Hsel & Hx). apply selects_count in Hsel. injection Hsel as -> ->.
  specialize (Hx eq_refl). injection Hx as <-.
  apply mwp_mseq, mwp_one_step; [by intros [x|er]|]. intros s2. apply mwp_mreturn. cbn [app].
  pose proof (query_all_spec e Hok lq lp sp largs conds _ _ s2 Hl) as Hq.
  destruct (query_all lq largs (e_of e) lp sp s2) as [[page|er] s2']; cbn [fst snd rbind].
  - destruct Hq as (Hdb2 & rows & rows' & Hperm & Hord & Hpage & Hitems).
    split; [by apply quiet_cons; [|apply quiet_cons; [|apply quiet_nil]]|]. split; [cbn; lia|].
    exists s1, s1', s2, s2'. split; [done|]. split; intros Hread.
    + by apply affected_length.
    + by eapply (page_of_records e c key p largs conds o l).
  - split; [by apply quiet_cons; [|apply quiet_cons; [|apply quiet_nil]]|]. split; [cbn; lia|done].
Qed.

Lemma mwp_query_all (q lp sp : string) (args : list sqlval) conds :
  parse_stmt q = Some (Select (e_cols e) (e_table e) conds (Some c) None) →
  (∀ row a, read_row e row = Some a → row_matches args conds row = p a) →
  mwp (query_all q args (e_of e) lp sp) (listed_all e key p).
Proof.
  intros Hq Hp. apply mwp_one_step; [by intros [x|er]|]. intros s.
  pose proof (query_all_spec e Hok q lp sp args conds _ _ s Hq) as Hx. exists s, (query_all q args (e_of e) lp sp s).2.
  split; [done|]. destruct (query_all q args (e_of e) lp sp s) as [[l|er] s']; cbn [fst snd]; [|done].
  destruct Hx as (Hdb & rows & rows' & Hperm & Hord & -> & Hl). split; [done|]. split; [|by eapply sorted_by_key].
  apply omap_mapM in Hl as <-. rewrite Hperm. unfold matching, entities.
  rewrite (omap_filter (read_row e) _ p); [done|]. intros row a _. apply Hp.
Qed.
End listing.

Lemma mwp_GatewayService_List (offset limit : Z) :
  mwp (GatewayService_List offset limit)
    (listed gateways (λ g, wall (gw_CreatedAt g)) (λ _, true) offset (clamp_limit limit)).
Proof.
  destruct parse_gateway_queries as (_ & _ & Hc & Hl & _).
  apply (mwp_count_and_list gateways "created_at" (λ g, wall (gw_CreatedAt g)) (λ _, true) eq_refl) with
    (cconds := []) (conds := []) (o := 1%nat) (l := 2%nat); try done.
  intros row g Hg. apply read_gateway in Hg. destruct Hg as (_ & _ & _ & _ & _ & _ & _ & _ & Hcr & _). by rewrite Hcr.
Qed.

Lemma mwp_UpstreamService_List (offset limit : Z) :
  mwp (UpstreamService_List offset limit)
    (listed upstreams (λ u, wall (up_CreatedAt u)) (λ _, true) offset (clamp_limit limit)).
Proof.
  destruct parse_upstream_queries as (_ & _ & Hc & Hl & _).
  apply (mwp_count_and_list upstreams "created_at" (λ u, wall (up_CreatedAt u)) (λ _, true) eq_refl) with
    (cconds := []) (conds := []) (o := 1%nat) (l := 2%nat); try done.
  intros row u Hu. apply read_upstream in Hu. destruct Hu as (_ & _ & _ & _ & _ & _ & _ & _ & _ & Hcr & _). by rewrite Hcr.
Qed.

Lemma mwp_RouteService_ListByGateway (gid : UUID) :
  mwp (RouteService_ListByGateway gid)
    (listed_all routes rt_Priority (λ r, String.eqb (rt_GatewayID r) gid)).
Proof.
  destruct parse_route_queries as (_ & _ & Hl & _).
  apply (mwp_query_all routes "priority" rt_Priority (λ r, String.eqb (rt_GatewayID r) gid) eq_refl) with
    (conds := [("gateway_id", 1%nat)]); [|done|].
  - intros row r Hr. apply read_route in Hr. destruct Hr as (_ & _ & _ & _ & _ & Hp & _). by rewrite Hp.
  - intros row r Hr. apply one_matches; [|done]. apply read_route in Hr. by destruct Hr as (_ & Hg & _).
Qed.

Lemma mwp_ThreatRepository_ListByGateway (gid : UUID) (severity : string) (offset limit : Z) :
  mwp (ThreatRepository_ListByGateway gid severity offset limit)
    (listed threats (λ t, wall (te_DetectedAt t)) (threat_selected gid severity) offset limit).
Proof.
  unfold ThreatRepository_ListByGateway. pose proof (threat_queries_spec gid severity offset limit) as Hq.
  destruct (threat_queries gid severity offset limit) as [[cq cargs] [lq largs]].
  destruct Hq as (-> & -> & Hc & Hl). eapply (mwp_count_and_list threats "detected_at"); [done| |exact Hc|exact Hl|..].
  - intros row t Hr. apply read_threat in Hr as (_ & _ & _ & _ & _ & _ & _ & Hd). by rewrite Hd.
  - intros row t Hr. rewrite <- (app_nil_r (_ :: _)). by apply threat_matches.
  - intros row t Hr. by apply threat_matches.
  - by destruct (String.eqb severity "").
  - by destruct (String.eqb severity "").
Qed.
End services.
