(* ===== verification/Consistency.v ===== *)
(** * A consistent database

    What the service and the constraints of the schema keep true together: the
    records are as the service writes them, no two share an ID or another unique
    key, and every reference has its target.  The changes of the abstract
    specification [db_change] preserve it; ServerSafety.v carries that to every
    schedule of the server. *)

From S2P Require Import Prelude GoNum GoTime Json Http Threads Model Sql Schema Postgres Memory Repository RepoFacts.
From S2P Require Import RepoSpec Service Handlers HandlerSpec Effects.

(** What makes two routes collide. *)
Definition route_key (r : Route) : UUID * string := (rt_GatewayID r, rt_PathPrefix r).

Record consistent (db : Database) : Prop := mkConsistent {
  con_gateways g : g ∈ entities gateways db → gateway_ok g;
  con_upstreams u : u ∈ entities upstreams db → upstream_ok u;
  con_routes r : r ∈ entities routes db → route_ok r;
  con_gateway_ids : NoDup (map gw_ID (entities gateways db));
  con_gateway_names : NoDup (map gw_Name (entities gateways db));
  con_upstream_ids : NoDup (map up_ID (entities upstreams db));
  con_route_ids : NoDup (map rt_ID (entities routes db));
  con_route_keys : NoDup (map route_key (entities routes db));
  con_route_refers r : r ∈ entities routes db → res_refers route_resource db r;
  con_threat_refers t : t ∈ entities threats db → has_gateway db (te_GatewayID t)
}.

(** ** Lemmas *)

Lemma NoDup_map_snoc {A B} (f : A → B) (l : list A) (a : A) :
  NoDup (map f l) → (∀ b, b ∈ l → f a ≠ f b) → NoDup (map f (l ++ [a])).
Proof.
  intros Hl Ha. rewrite map_app. apply list.NoDup_app. split; [done|]. split; [|apply NoDup_singleton].
  intros x Hx Hin. apply list_elem_of_singleton in Hin as ->. apply list_elem_of_fmap in Hx as (b & Heq & Hb).
  by apply (Ha b Hb).
Qed.

Lemma NoDup_map_filter {A B} (f : A → B) (p : A → bool) (l : list A) :
  NoDup (map f l) → NoDup (map f (List.filter p l)).
Proof.
  induction l as [|a l IH]; [done|]. cbn [map List.filter]. intros [Ha Hl]%list.NoDup_cons.
  destruct (p a); [|by apply IH]. cbn [map]. apply list.NoDup_cons. split; [|by apply IH].
  intros Hin. apply Ha. apply list_elem_of_fmap in Hin as (b & -> & Hb%list_elem_of_In).
  apply filter_In in Hb as [Hb _]. apply list_elem_of_fmap. exists b. split; [done|by apply list_elem_of_In].
Qed.

Lemma Forall2_map_eq {A B} (f : A → B) (R : A → A → Prop) (l l' : list A) :
  (∀ a a', R a a' → f a' = f a) → Forall2 R l l' → map f l' = map f l.
Proof. intros HR. induction 1 as [|a a' l l' Ha _ IH]; [done|]. cbn. by rewrite (HR a a'), IH. Qed.

Section tables.
Context {A : Type} (e : entity A).

Lemma entities_other (t : string) (db db' : Database) :
  e_table e ≠ t → only_changes t db db' → entities e db' = entities e db.
Proof. intros Hne Ho. unfold entities. by rewrite Ho. Qed.
End tables.

(** The records of the tables a change leaves alone. *)
Tactic Notation "unchanged" constr(e) "as" ident(H) "by" hyp(Ho) :=
  lazymatch type of Ho with
  | only_changes ?t ?db ?db' => try (assert (H := entities_other e t db db' ltac:(done) Ho))
  end.
Ltac same_records Ho :=
  unchanged gateways as Hg by Ho; unchanged upstreams as Hu by Ho;
  unchanged routes as Hr by Ho; unchanged threats as Ht by Ho.

(** What was there is still there. *)
Definition grows (db db' : Database) : Prop :=
  (∀ id, has_gateway db id → has_gateway db' id)
  ∧ (∀ id, has_id db "upstreams" id → has_id db' "upstreams" id).

Lemma refers_grow (r : Route) (db db' : Database) :
  grows db db' → res_refers route_resource db r → res_refers route_resource db' r.
Proof. intros [Hg Hu] [H1 H2]. split; [by apply Hg|by apply Hu]. Qed.

Lemma has_gateway_same (db db' : Database) (id : UUID) :
  entities gateways db' = entities gateways db → has_gateway db id → has_gateway db' id.
Proof. unfold has_gateway. by intros ->. Qed.

Lemma has_id_other (t t' : string) (db db' : Database) (id : UUID) :
  t' ≠ t → only_changes t db db' → has_id db t' id → has_id db' t' id.
Proof. intros Hne Ho. unfold has_id. by rewrite Ho. Qed.

(** Columns an activation leaves alone. *)
Lemma status_rel_keeps (id : UUID) (status : string) (g g' : Gateway) :
  status_rel id status g g' →
  gw_ID g' = gw_ID g ∧ gw_Name g' = gw_Name g
  ∧ (status = "ACTIVE" ∨ status = "INACTIVE" → gateway_ok g → gateway_ok g').
Proof.
  unfold status_rel, with_status. destruct (String.eqb (gw_ID g) id); intros ->; [|done].
  split; [done|]. split; [done|]. unfold gateway_ok. cbn. tauto.
Qed.

(** A record that is as it should be is so when it is stored. *)
Lemma gateway_saved_ok (g g' : Gateway) : gateway_saved g g' → gateway_ok g → gateway_ok g'.
Proof.
  intros [-> _] (Hst & Hn & Hh & Hp & Ht & Hm & Hc). unfold gateway_ok, valid_name in *.
  cbn [gw_Status gw_Name gw_Hostname gw_Port gw_TlsPolicy gw_MaxConnections gw_CreatedBy].
  rewrite (varchar_fits 255 (gw_Name g)), (varchar_fits 512 (gw_Hostname g)) by lia.
  do 6 (split; [done|]). by apply varchar_nonempty.
Qed.

Lemma upstream_saved_ok (u u' : Upstream) : upstream_saved u u' → upstream_ok u → upstream_ok u'.
Proof.
  intros [-> _] (Hn & Hh & Hp & Hpr & Hc & Hi). unfold upstream_ok.
  cbn [up_Name up_Host up_Port up_Protocol up_HealthCheckPath up_HealthCheckIntervalS].
  repeat split; try done; by apply varchar_nonempty.
Qed.

Lemma route_saved_ok (r r' : Route) : route_saved r r' → route_ok r → route_ok r'.
Proof.
  intros [-> _] (Hp & Ht & Hn). unfold route_ok. cbn [rt_PathPrefix rt_TlsPolicy rt_RateLimitRPS].
  split; [by apply varchar_nonempty|done].
Qed.

(** ** Every change preserves it *)

Lemma added_gateway_consistent (g : Gateway) (db db' : Database) :
  gateway_ok g → added gateway_resource g db db' → consistent db → consistent db'.
Proof.
  intros Hok (g' & Hg & Hent & Hno & _ & Hid & Ho) HC. cbn [res_entity gateway_resource e_table gateways] in *.
  assert (Hfresh : ∀ b, b ∈ entities gateways db → gw_ID g' ≠ gw_ID b ∧ gw_Name g' ≠ gw_Name b).
  { intros b Hb. specialize (Hno b Hb). cbn in Hno. tauto. }
  assert (Hgrows : grows db db').
  { split; [|apply Hid]. intros id (x & Hx & Hxid). exists x. split; [|done]. rewrite Hent. apply elem_of_app. by left. }
  same_records Ho.
  destruct HC. split; rewrite ?Hu, ?Hr, ?Ht, ?Hent; try done.
  - intros x. rewrite elem_of_app, list_elem_of_singleton. intros [Hx| ->]; [by auto|]. by apply (gateway_saved_ok g).
  - apply NoDup_map_snoc; [done|]. intros b Hb. by apply Hfresh.
  - apply NoDup_map_snoc; [done|]. intros b Hb. by apply Hfresh.
  - intros r Hin. apply (refers_grow r db); auto.
  - intros t Hin. apply Hgrows; auto.
Qed.

Lemma added_upstream_consistent (u : Upstream) (db db' : Database) :
  upstream_ok u → added upstream_resource u db db' → consistent db → consistent db'.
Proof.
  intros Hok (u' & Hu' & Hent & Hno & _ & Hid & Ho) HC. cbn [res_entity upstream_resource e_table upstreams] in *.
  same_records Ho.
  assert (Hgrows : grows db db') by (split; [intros id; by apply has_gateway_same|apply Hid]).
  destruct HC. split; rewrite ?Hg, ?Hr, ?Ht, ?Hent; try done.
  - intros x. rewrite elem_of_app, list_elem_of_singleton. intros [Hx| ->]; [by auto|]. by apply (upstream_saved_ok u).
  - apply NoDup_map_snoc; [done|]. intros b Hb. exact (Hno b Hb).
  - intros r Hin. apply (refers_grow r db); auto.
  - intros t Hin. apply Hgrows; auto.
Qed.

Lemma added_route_consistent (r : Route) (db db' : Database) :
  route_ok r → added route_resource r db db' → consistent db → consistent db'.
Proof.
  intros Hok (r' & Hr' & Hent & Hno & Href & Hid & Ho) HC. cbn [res_entity route_resource e_table routes] in *.
  same_records Ho.
  assert (Hgrows : grows db db') by (split; [intros id; by apply has_gateway_same|apply Hid]).
  destruct HC. split; rewrite ?Hg, ?Hu, ?Ht, ?Hent; try done.
  - intros x. rewrite elem_of_app, list_elem_of_singleton. intros [Hx| ->]; [by auto|]. by apply (route_saved_ok r).
  - apply NoDup_map_snoc; [done|]. intros b Hb Heq. by apply (Hno b Hb); left.
  - apply NoDup_map_snoc; [done|]. intros b Hb Heq. apply (Hno b Hb). right. by injection Heq.
  - intros x. rewrite elem_of_app, list_elem_of_singleton. intros [Hx| ->]; apply (refers_grow _ db); [done|by auto|done|].
    destruct Hr' as [-> _]. exact Href.
  - intros t Hin. apply Hgrows; auto.
Qed.

Lemma status_consistent (id : UUID) (status : string) (db db' : Database) :
  status = "ACTIVE" ∨ status = "INACTIVE" → status_set id status db db' → consistent db → consistent db'.
Proof.
  intros Hst [Hf Ho] HC.
  same_records Ho.
  assert (Hgrows : grows db db').
  { split; [|intros x; by apply has_id_other with "gateways"]. intros x (g & Hg & Hx).
    apply list_elem_of_lookup in Hg as [i Hi]. destruct (Forall2_lookup_l _ _ _ _ _ Hf Hi) as (g' & Hg' & Hrel).
    exists g'. split; [by eapply list_elem_of_lookup_2|]. destruct (status_rel_keeps _ _ _ _ Hrel) as [-> _]. done. }
  destruct HC. split; rewrite ?Hu, ?Hr, ?Ht; try done.
  - intros g' Hg'. destruct (Forall2_elem_r _ _ _ _ Hf Hg') as (g & Hg & Hrel).
    destruct (status_rel_keeps _ _ _ _ Hrel) as (_ & _ & Hk). by auto.
  - rewrite (Forall2_map_eq gw_ID _ _ _ (λ a a' Hrel, proj1 (status_rel_keeps id status a a' Hrel)) Hf). done.
  - rewrite (Forall2_map_eq gw_Name _ _ _ (λ a a' Hrel, proj1 (proj2 (status_rel_keeps id status a a' Hrel))) Hf). done.
  - intros r Hin. apply (refers_grow r db); auto.
  - intros t Hin. apply Hgrows; auto.
Qed.

Lemma removed_consistent (id : UUID) (db db' : Database) : route_removed id db db' → consistent db → consistent db'.
Proof.
  intros [Hent Ho] HC.
  same_records Ho.
  assert (Hgrows : grows db db').
  { split; intros x; [by apply has_gateway_same|by apply has_id_other with "routes"]. }
  assert (Hsub : ∀ r, r ∈ entities routes db' → r ∈ entities routes db).
  { intros r. rewrite Hent. intros [Hin _]%list_elem_of_In%filter_In. by apply list_elem_of_In. }
  destruct HC. split; rewrite ?Hg, ?Hu, ?Ht; try done.
  - auto.
  - rewrite Hent. by apply NoDup_map_filter.
  - rewrite Hent. by apply NoDup_map_filter.
  - intros r Hin. apply (refers_grow r db); auto.
  - intros t Hin. apply Hgrows; auto.
Qed.

Lemma db_change_consistent (db db' : Database) : db_change db db' → consistent db → consistent db'.
Proof.
  intros [[g _ Hok Ha|u Hok Ha|r Hok Ha]|id status Hst Hf Ho|id Hf Ho].
  - by apply (added_gateway_consistent g).
  - by apply (added_upstream_consistent u).
  - by apply (added_route_consistent r).
  - by apply (status_consistent id status).
  - by apply (removed_consistent id).
Qed.

(** The gateways stay well formed by themselves, in whatever database. *)
Definition gateways_ok (db : Database) : Prop := ∀ g, g ∈ entities gateways db → gateway_ok g.

Lemma db_change_gateways_ok (db db' : Database) : db_change db db' → gateways_ok db → gateways_ok db'.
Proof.
  unfold gateways_ok.
  intros [[g _ Hok (g' & Hg' & Hent & _)|u _ (u' & _ & _ & _ & _ & _ & Ho)|r _ (r' & _ & _ & _ & _ & _ & Ho)]
         |id status Hst Hf _|id _ Ho] HG.
  - cbn [res_entity gateway_resource] in *. intros x. rewrite Hent, elem_of_app, list_elem_of_singleton.
    intros [Hx| ->]; [by apply HG|by apply (gateway_saved_ok g)].
  - by rewrite (entities_other gateways "upstreams" db db' ltac:(done) Ho).
  - by rewrite (entities_other gateways "routes" db db' ltac:(done) Ho).
  - intros g' Hg'. destruct (Forall2_elem_r _ _ _ _ Hf Hg') as (g & Hg & Hrel).
    destruct (status_rel_keeps _ _ _ _ Hrel) as (_ & _ & Hk). by auto.
  - by rewrite (entities_other gateways "routes" db db' ltac:(done) Ho).
Qed.
