(* ===== verification/Endpoints.v ===== *)
(** * The endpoints of the API and what they promise

    [endpoint] lists the operations of the API; [promises] says, for each, which
    status and JSON answer a request and what the request does to the database at
    the same time, whatever runs beside it: a relation between the status, the
    JSON and the steps the request makes on the shared state.  [wp_endpoint] is
    the refinement: the handlers keep the promises.  [outcome] is the part of the
    promises a status tells without its endpoint. *)

From Stdlib Require Import Sorting.Sorted.
From S2P Require Import Prelude GoNum GoStrings GoTime Json Http Respond Threads Auth Helpers Model Sql Schema.
From S2P Require Import Postgres Memory Repository RepoFacts RepoSpec Service Handlers HandlerSpec Effects.

(** ** The operations, with the ID in their path *)

Inductive endpoint :=
| CreateGateway | ListGateways | GetGateway (id : string) | ActivateGateway (id : string) | DeactivateGateway (id : string)
| CreateUpstream | ListUpstreams | GetUpstream (id : string)
| CreateRoute | ListRoutes | DeleteRoute (id : string)
| ListThreats.

Definition endpoint_method (ep : endpoint) : string :=
  match ep with
  | CreateGateway | ActivateGateway _ | DeactivateGateway _ | CreateUpstream | CreateRoute => "POST"
  | DeleteRoute _ => "DELETE"
  | _ => "GET"
  end.

Definition endpoint_id (ep : endpoint) : option string :=
  match ep with
  | GetGateway id | ActivateGateway id | DeactivateGateway id | GetUpstream id | DeleteRoute id => Some id
  | _ => None
  end.

(** ** Promises *)

Section promises.
Context {S E : Type} `{UuidLib} `{FrameLaws S E}.

Definition behaviour : Type := Z → json → list (S * S) → Prop.

(** An error, without a step. *)
Definition rejects (status : Z) (message : string) : behaviour := λ st v tr,
  st = status ∧ v = error_json message ∧ tr = [].

(** 201 with the resource, added in one step; or 500, having added it or not. *)
Definition creates {A} (rs : resource A) (wanted : UUID → Time → A)
    (reply : A → json) (failure : string) : behaviour := λ st v tr,
  ∃ id now, let a := wanted id now in
    st = 201 ∧ v = reply a ∧ once (added rs a) tr
    ∨ st = 500 ∧ v = error_json failure ∧ atomic (added rs a) tr.

(** 200 when something was there to change and has been changed; or 500, having
    changed what was there or not. *)
Definition changes (change : relation Database) (present : Database → Prop) (reply : json) (failure : string)
    : behaviour := λ st v tr,
  st = 200 ∧ v = reply ∧ once (λ db db', change db db' ∧ present db) tr
  ∨ st = 500 ∧ v = error_json failure ∧ atomic change tr.

(** 200 with a record that is there; 404 when there is none, or the query failed. *)
Definition looks_up {A} (e : entity A) (id_of : A → UUID) (id : UUID) (get : M S (result A (repo_error E)))
    (reply : A → json) (missing : string) : behaviour := λ st v tr,
  ∃ s s', tr = [(s, s')] ∧ db_of s' = db_of s
    ∧ ((∃ a, a ∈ entities e (db_of s) ∧ id_of a = id ∧ st = 200 ∧ v = reply a)
       ∨ st = 404 ∧ v = error_json missing
         ∧ ((∀ a, a ∈ entities e (db_of s) → id_of a ≠ id) ∨ fails get s)).

(** 200 with a page and a total, each right at the step that read it; or 500. *)
Definition lists {A} (e : entity A) (readable : Database → Prop) (key : A → Z) (p : A → bool) (offset limit : Z)
    (reply : list A → Z → json) (failure : string) : behaviour := λ st v tr,
  quiet tr
  ∧ ((∃ page total s1 s1' s2 s2', tr = [(s1, s1'); (s2, s2')] ∧ st = 200 ∧ v = reply page total
        ∧ (readable (db_of s1) → total = len_list (List.filter p (entities e (db_of s1))))
        ∧ (readable (db_of s2) → is_page key (List.filter p (entities e (db_of s2))) offset limit page))
     ∨ st = 500 ∧ v = error_json failure).

(** 200 with all of them; or 500. *)
Definition lists_all {A} (e : entity A) (key : A → Z) (p : A → bool) (reply : list A → json) (failure : string)
    : behaviour := λ st v tr,
  ∃ s s', tr = [(s, s')] ∧ db_of s' = db_of s
    ∧ ((∃ items, st = 200 ∧ v = reply items ∧ items ≡ₚ List.filter p (entities e (db_of s))
          ∧ StronglySorted (λ a b, key b ≤ key a) items)
       ∨ st = 500 ∧ v = error_json failure).

Definition with_id (text bad : string) (b : UUID → behaviour) : behaviour :=
  match uuid_Parse text with None => rejects 400 bad | Some id => b id end.

(** The gateway a listing is for. *)
Definition of_gateway (r : Request) (b : UUID → behaviour) : behaviour :=
  let text := query_Get (RawQuery r) "gateway_id" in
  if decide (text = "") then rejects 400 "gateway_id is required" else with_id text "invalid gateway_id" b.

Definition query_int (r : Request) (name : string) : Z := (Atoi (query_Get (RawQuery r) name)).1.

Definition any {A} : A → bool := λ _, true.

Definition creates_gateway (r : Request) (actor : string) : behaviour :=
  match decode_body create_gateway_fields zeroCreateGateway r with
  | None => rejects 400 "invalid request body"
  | Some req =>
      if decide (cg_Name req = "" ∨ cg_Hostname req = "") then rejects 400 "name and hostname are required"
      else if decide (255 < len (cg_Name req) ∨ 255 < len (cg_Hostname req)) then
        rejects 400 "name or hostname exceeds maximum length"
      else creates gateway_resource (requested_gateway req actor)
             (λ g, GatewayResponse_json (Gateway_ToResponse g)) "failed to create gateway"
  end.

Definition creates_upstream (r : Request) : behaviour :=
  match decode_body create_upstream_fields zeroCreateUpstream r with
  | None => rejects 400 "invalid request body"
  | Some req =>
      if decide (cu_Name req = "" ∨ cu_Host req = "" ∨ cu_Port req = 0) then
        rejects 400 "name, host, and port are required"
      else creates upstream_resource (requested_upstream req)
             (λ u, UpstreamResponse_json (Upstream_ToResponse u)) "failed to create upstream"
  end.

Definition creates_route (r : Request) : behaviour :=
  match decode_body create_route_fields zeroCreateRoute r with
  | None => rejects 400 "invalid request body"
  | Some req =>
      if decide (cr_GatewayID req = "" ∨ cr_UpstreamID req = "" ∨ cr_PathPrefix req = "") then
        rejects 400 "gateway_id, upstream_id, and path_prefix are required"
      else
        match uuid_Parse (cr_GatewayID req), uuid_Parse (cr_UpstreamID req) with
        | Some gid, Some uid =>
            creates route_resource (requested_route req gid uid)
              (λ rt, RouteResponse_json (Route_ToResponse rt)) "failed to create route"
        | _, _ => rejects 500 "failed to create route"
        end
  end.

Definition sets_status (status reply failure : string) (id : UUID) : behaviour :=
  changes (status_set id status) (λ db, ∃ g, g ∈ entities gateways db ∧ gw_ID g = id) (status_json reply) failure.

(** What an endpoint promises to a request made by [actor]. *)
Definition promises (ep : endpoint) (r : Request) (actor : string) : behaviour :=
  match ep with
  | CreateGateway => creates_gateway r actor
  | ListGateways =>
      let pg := ParsePagination r in
      lists gateways (λ _, True) (λ g, wall (gw_CreatedAt g)) any (pg_Offset pg) (clamp_limit (pg_Limit pg))
        (λ page total, GatewayListResponse_json
           (mkGatewayList (map Gateway_ToResponse page) total (pg_Offset pg) (pg_Limit pg)))
        "failed to list gateways"
  | GetGateway text => with_id text "invalid gateway ID" (λ id,
      looks_up gateways gw_ID id (GatewayRepository_GetByID id)
        (λ g, GatewayResponse_json (Gateway_ToResponse g)) "gateway not found")
  | ActivateGateway text =>
      with_id text "invalid gateway ID" (sets_status "ACTIVE" "activated" "failed to activate gateway")
  | DeactivateGateway text =>
      with_id text "invalid gateway ID" (sets_status "INACTIVE" "deactivated" "failed to deactivate gateway")
  | CreateUpstream => creates_upstream r
  | ListUpstreams =>
      lists upstreams (all_read upstreams) (λ u, wall (up_CreatedAt u)) any
        (query_int r "offset") (clamp_limit (query_int r "limit"))
        (λ page total, UpstreamListResponse_json (mkUpstreamList (map Upstream_ToResponse page) total))
        "failed to list upstreams"
  | GetUpstream text => with_id text "invalid upstream ID" (λ id,
      looks_up upstreams up_ID id (UpstreamRepository_GetByID id)
        (λ u, UpstreamResponse_json (Upstream_ToResponse u)) "upstream not found")
  | CreateRoute => creates_route r
  | ListRoutes => of_gateway r (λ gid,
      lists_all routes rt_Priority (λ rt, String.eqb (rt_GatewayID rt) gid)
        (λ items, RouteListResponse_json (mkRouteList (map Route_ToResponse items) (len_list items)))
        "failed to list routes")
  | DeleteRoute text => with_id text "invalid route ID" (λ id,
      changes (route_removed id) (λ db, ∃ rt, rt ∈ entities routes db ∧ rt_ID rt = id)
        (status_json "deleted") "failed to delete route")
  | ListThreats => of_gateway r (λ gid,
      let offset := query_int r "offset" in
      let limit := clamp_limit (query_int r "limit") in
      lists threats (λ _, True) (λ t, wall (te_DetectedAt t)) (threat_selected gid (query_Get (RawQuery r) "severity"))
        offset limit
        (λ page total, ThreatEventListResponse_json (mkThreatList (map ThreatEvent_ToResponse page) total offset limit))
        "failed to list threats")
  end.

(** ** The handlers keep the promises *)

(** The handler of an endpoint, given the parameters of its path. *)
Definition endpoint_handler (ep : endpoint) (up : string → string) : Handler S :=
  match ep with
  | CreateGateway => GatewayHandler_Create
  | ListGateways => GatewayHandler_List
  | GetGateway _ => GatewayHandler_Get up
  | ActivateGateway _ => GatewayHandler_Activate up
  | DeactivateGateway _ => GatewayHandler_Deactivate up
  | CreateUpstream => UpstreamHandler_Create
  | ListUpstreams => UpstreamHandler_List
  | GetUpstream _ => UpstreamHandler_Get up
  | CreateRoute => RouteHandler_Create
  | ListRoutes => RouteHandler_List
  | DeleteRoute _ => RouteHandler_Delete up
  | ListThreats => ThreatHandler_List
  end.

(** A handler that answers with JSON, after at most three steps. *)
Definition handled (B : behaviour) (w w' : ResponseWriter) (tr : list (S * S)) : Prop :=
  (List.length tr ≤ 3)%nat ∧ ∃ st v, w' = json_written w st v ∧ B st v tr.

Lemma wp_rejects (status : Z) (message : string) (w : ResponseWriter) :
  unsent w → wp (writeError status message) (λ _, handled (rejects status message) w) w.
Proof.
  intros Hw. apply wp_writeError; [done|]. split; [cbn; lia|]. by exists status, (error_json message).
Qed.

(** A single call, and an answer by its result. *)
Lemma wp_answer {A Er} (B : behaviour) (m : M S (result A Er)) (ok : A → hio S unit) (err : Er → hio S unit)
    (w : ResponseWriter) :
  unsent w →
  mwp m (λ res tr, (List.length tr ≤ 3)%nat
    ∧ match res with
      | Ok a => ∃ st v, ok a = writeJSON st v ∧ B st v tr
      | Err e => ∃ st v, err e = writeJSON st v ∧ B st v tr
      end) →
  wp (hseq (on_state m) (λ res, match res with Err e => err e | Ok a => ok a end)) (λ _, handled B w) w.
Proof.
  intros Hw Hm. apply wp_hseq, wp_on_state. eapply mwp_mono; [exact Hm|].
  intros [a|e] tr [Hl (st & v & -> & HB)]; (apply wp_writeJSON; [done|]); rewrite app_nil_r;
    (split; [done|]); by exists st, v.
Qed.

Lemma wp_creates {A Er} (rs : resource A) (wanted : UUID → Time → A)
    (reply : A → json) (failure : string) (m : M S (result A Er)) (w : ResponseWriter) :
  unsent w → mwp m (λ res tr, ∃ a, (∃ id now, a = wanted id now) ∧ inserted_once rs a res tr) →
  wp (hseq (on_state m) (λ res, match res with Err _ => writeError 500 failure | Ok a => writeJSON 201 (reply a) end))
    (λ _, handled (creates rs wanted reply failure) w) w.
Proof.
  intros Hw Hm. apply wp_answer; [done|]. eapply mwp_mono; [exact Hm|].
  intros [a|er] tr (a' & (id & now & ->) & Hl & Ha); (split; [done|]).
  - destruct Ha as [-> Ha]. exists 201, (reply (wanted id now)). split; [done|]. exists id, now. by left.
  - exists 500, (error_json failure). split; [done|]. exists id, now. by right.
Qed.

Lemma wp_changes {Er} (change : relation Database) (present : Database → Prop) (reply : json) (failure : string)
    (m : M S (result unit Er)) (w : ResponseWriter) :
  unsent w →
  mwp m (λ res tr, (List.length tr ≤ 3)%nat
    ∧ match res with Ok _ => once (λ db db', change db db' ∧ present db) tr | Err _ => atomic change tr end) →
  wp (hseq (on_state m) (λ res, match res with Err _ => writeError 500 failure | Ok _ => writeJSON 200 reply end))
    (λ _, handled (changes change present reply failure) w) w.
Proof.
  intros Hw Hm. apply wp_answer; [done|]. eapply mwp_mono; [exact Hm|].
  intros [[]|er] tr [Hl Ha]; (split; [done|]).
  - exists 200, reply. split; [done|]. by left.
  - exists 500, (error_json failure). split; [done|]. by right.
Qed.

Lemma wp_looks_up {A} (e : entity A) (id_of : A → UUID) (id : UUID) (get : M S (result A (repo_error E)))
    (reply : A → json) (missing : string) (w : ResponseWriter) :
  unsent w → mwp get (looked_up e id_of id get) →
  wp (hseq (on_state get) (λ res, match res with Err _ => writeError 404 missing | Ok a => writeJSON 200 (reply a) end))
    (λ _, handled (looks_up e id_of id get reply missing) w) w.
Proof.
  intros Hw Hm. apply wp_answer; [done|]. eapply mwp_mono; [exact Hm|].
  intros [a|er] tr (s & s' & -> & Hs & Ha); (split; [cbn; lia|]).
  - exists 200, (reply a). split; [done|]. exists s, s'. split; [done|]. split; [done|]. left.
    exists a. tauto.
  - exists 404, (error_json missing). split; [done|]. exists s, s'. split; [done|]. split; [done|]. by right.
Qed.

Lemma lists_listed {A} (e : entity A) (readable : Database → Prop) (key : A → Z) (p : A → bool) (offset limit : Z)
    (reply : list A → Z → json) (failure : string) (ok : list A * Z → hio S unit) (res : result (list A * Z) (repo_error E)) tr :
  (∀ s : S, readable (db_of s) → all_read e (db_of s)) → (∀ page total, ok (page, total) = writeJSON 200 (reply page total)) →
  listed e key p offset limit res tr →
  (List.length tr ≤ 3)%nat
  ∧ match res with
    | Ok x => ∃ st v, ok x = writeJSON st v ∧ lists e readable key p offset limit reply failure st v tr
    | Err _ => ∃ st v, (writeError 500 failure : hio S unit) = writeJSON st v
                       ∧ lists e readable key p offset limit reply failure st v tr
    end.
Proof.
  intros Hread Hok (Hq & Hl & Hres). split; [done|]. destruct res as [[page total]|er].
  - exists 200, (reply page total). split; [apply Hok|]. split; [done|]. left. exists page, total.
    destruct Hres as (s1 & s1' & s2 & s2' & -> & Ht & Hp). exists s1, s1', s2, s2'.
    split; [done|]. split; [done|]. split; [done|]. split; intros Hr; [by apply Ht, Hread|by apply Hp, Hread].
  - exists 500, (error_json failure). split; [done|]. split; [done|]. by right.
Qed.

Lemma typed_read {A} (e : entity A) (s : S) :
  entity_ok e → never_null (e_table e) (e_cols e) (e_dests e) = true → all_read e (db_of s).
Proof. intros Hok Hn row Hrow. apply read_row_total; [done|done|by apply (db_typed s)]. Qed.

Lemma wp_lists {A} (e : entity A) (readable : Database → Prop) (key : A → Z) (p : A → bool) (offset limit : Z)
    (reply : list A → Z → json) (failure : string) (m : M S (result (list A * Z) (repo_error E))) (w : ResponseWriter) :
  unsent w → (∀ s : S, readable (db_of s) → all_read e (db_of s)) → mwp m (listed e key p offset limit) →
  wp (hseq (on_state m) (λ res, match res with
        | Err _ => writeError 500 failure
        | Ok (page, total) => writeJSON 200 (reply page total)
        end))
    (λ _, handled (lists e readable key p offset limit reply failure) w) w.
Proof.
  intros Hw Hread Hm. apply wp_answer; [done|]. eapply mwp_mono; [exact Hm|]. intros res tr Hres.
  destruct (lists_listed e readable key p offset limit reply failure
    (λ x, let (page, total) := x in writeJSON 200 (reply page total)) res tr) as [Hl Hx]; [done|done|done|].
  split; [exact Hl|]. by destruct res.
Qed.

Lemma wp_lists_all {A} (e : entity A) (key : A → Z) (p : A → bool) (reply : list A → json) (failure : string)
    (m : M S (result (list A) (repo_error E))) (w : ResponseWriter) :
  unsent w → mwp m (listed_all e key p) →
  wp (hseq (on_state m) (λ res, match res with Err _ => writeError 500 failure | Ok l => writeJSON 200 (reply l) end))
    (λ _, handled (lists_all e key p reply failure) w) w.
Proof.
  intros Hw Hm. apply wp_answer; [done|]. eapply mwp_mono; [exact Hm|].
  intros [l|er] tr (s & s' & -> & Hs & Hl); (split; [cbn; lia|]).
  - exists 200, (reply l). split; [done|]. exists s, s'. split; [done|]. split; [done|]. left. by exists l.
  - exists 500, (error_json failure). split; [done|]. exists s, s'. split; [done|]. split; [done|]. by right.
Qed.

(** An ID in the path or in the query. *)
Lemma wp_with_id (text bad : string) (b : UUID → behaviour) (h : UUID → hio S unit) (w : ResponseWriter) :
  unsent w → (∀ id, wp (h id) (λ _, handled (b id) w) w) →
  wp (match uuid_Parse text with None => writeError 400 bad | Some id => h id end) (λ _, handled (with_id text bad b) w) w.
Proof. intros Hw Hh. unfold with_id. destruct (uuid_Parse text); [apply Hh|by apply wp_rejects]. Qed.

Lemma wp_of_gateway (r : Request) (b : UUID → behaviour) (h : UUID → hio S unit) (w : ResponseWriter) :
  unsent w → (∀ id, wp (h id) (λ _, handled (b id) w) w) →
  wp (if String.eqb (query_Get (RawQuery r) "gateway_id") "" then writeError 400 "gateway_id is required"
      else match uuid_Parse (query_Get (RawQuery r) "gateway_id") with
           | None => writeError 400 "invalid gateway_id"
           | Some id => h id
           end)
    (λ _, handled (of_gateway r b) w) w.
Proof.
  intros Hw Hh. unfold of_gateway. rewrite if_string_eqb. case_decide; [by apply wp_rejects|]. by apply wp_with_id.
Qed.

Lemma wp_sets_status (id : UUID) (status reply failure : string) (w : ResponseWriter) :
  unsent w →
  wp (hseq (on_state (GatewayRepository_UpdateStatus id status))
       (λ res, match res with Err _ => writeError 500 failure | Ok _ => writeJSON 200 (status_json reply) end))
    (λ _, handled (sets_status status reply failure id) w) w.
Proof. intros Hw. apply wp_changes; [done|]. apply mwp_UpdateStatus. Qed.

Lemma wp_GatewayHandler_Create (r : Request) (w : ResponseWriter) :
  unsent w → wp (GatewayHandler_Create r) (λ _, handled (creates_gateway r (actorFromRequest r)) w) w.
Proof.
  intros Hw. unfold GatewayHandler_Create, creates_gateway.
  destruct (decode_body _ _ r) as [req|]; [|by apply wp_rejects].
  rewrite name_missing, name_long. case_decide; [by apply wp_rejects|]. case_decide; [by apply wp_rejects|].
  apply wp_creates; [done|]. eapply mwp_mono; [apply mwp_GatewayService_Create|].
  intros res tr (g & (id & now & ->) & Hi). eexists. split; [|exact Hi]. exists id, now. apply with_actor_requested.
Qed.

Lemma wp_UpstreamHandler_Create (r : Request) (w : ResponseWriter) :
  unsent w → wp (UpstreamHandler_Create r) (λ _, handled (creates_upstream r) w) w.
Proof.
  intros Hw. unfold UpstreamHandler_Create, creates_upstream.
  destruct (decode_body _ _ r) as [req|]; [|by apply wp_rejects].
  destruct (String.eqb_spec (cu_Name req) ""), (String.eqb_spec (cu_Host req) ""), (Z.eqb_spec (cu_Port req) 0);
    cbn [orb]; case_decide; try tauto; try (by apply wp_rejects).
  apply wp_creates; [done|]. apply mwp_UpstreamService_Create.
Qed.

Lemma wp_RouteHandler_Create (r : Request) (w : ResponseWriter) :
  unsent w → wp (RouteHandler_Create r) (λ _, handled (creates_route r) w) w.
Proof.
  intros Hw. unfold RouteHandler_Create, creates_route.
  destruct (decode_body _ _ r) as [req|]; [|by apply wp_rejects].
  destruct (String.eqb_spec (cr_GatewayID req) ""), (String.eqb_spec (cr_UpstreamID req) ""),
    (String.eqb_spec (cr_PathPrefix req) ""); cbn [orb]; case_decide; try tauto; try (by apply wp_rejects).
  destruct (uuid_Parse (cr_GatewayID req)) as [gid|] eqn:Eg.
  2: { unfold RouteService_Create. rewrite Eg. by apply wp_rejects. }
  destruct (uuid_Parse (cr_UpstreamID req)) as [uid|] eqn:Eu.
  2: { unfold RouteService_Create. rewrite Eg, Eu. by apply wp_rejects. }
  apply wp_creates; [done|]. by apply mwp_RouteService_Create.
Qed.

(** The refinement. *)
Lemma wp_endpoint (ep : endpoint) (up : string → string) (r : Request) (w : ResponseWriter) :
  unsent w → (∀ text, endpoint_id ep = Some text → up "id" = text) →
  wp (endpoint_handler ep up r) (λ _, handled (promises ep r (actorFromRequest r)) w) w.
Proof.
  intros Hw Hup. destruct ep as [| |text|text|text| | |text| | |text|]; cbn [endpoint_handler promises];
    try rewrite <- (Hup text eq_refl).
  - by apply wp_GatewayHandler_Create.
  - apply wp_lists; [done| |apply mwp_GatewayService_List]. intros s _. by apply typed_read.
  - apply wp_with_id; [done|]. intros id. apply wp_looks_up; [done|]. apply mwp_GatewayService_Get.
  - apply wp_with_id; [done|]. intros id. by apply wp_sets_status.
  - apply wp_with_id; [done|]. intros id. by apply wp_sets_status.
  - by apply wp_UpstreamHandler_Create.
  - apply wp_lists; [done|done|apply mwp_UpstreamService_List].
  - apply wp_with_id; [done|]. intros id. apply wp_looks_up; [done|]. apply mwp_UpstreamService_Get.
  - by apply wp_RouteHandler_Create.
  - apply wp_of_gateway; [done|]. intros gid. apply wp_lists_all; [done|]. apply mwp_RouteService_ListByGateway.
  - apply wp_with_id; [done|]. intros id. apply wp_changes; [done|]. apply mwp_RouteService_Delete.
  - apply wp_of_gateway; [done|]. intros gid. apply wp_lists; [done| |apply mwp_ThreatRepository_ListByGateway].
    intros s _. by apply typed_read.
Qed.
End promises.

(** ** What a status tells by itself *)

Definition answered_statuses : list Z := [200; 201; 400; 404; 500].

(** What a status says about the database. *)
Inductive outcome {S E} `{PgLaws S E} (st : Z) (tr : list (S * S)) : Prop :=
| out_quiet : st ∈ [200; 204; 400; 401; 404; 405; 413; 429; 500] → quiet tr → outcome st tr
| out_created : st = 201 → once db_create tr → outcome st tr
| out_changed : st = 200 → once db_change tr → outcome st tr
| out_failed : st = 500 → atomic db_change tr → outcome st tr.

Section outcomes.
Context {S E : Type} `{UuidLib} `{FrameLaws S E}.

Definition quiet_outcome (st : Z) (tr : list (S * S)) : Prop := outcome st tr ∧ quiet tr.

Lemma outcome_now (st : Z) : st ∈ [200; 204; 400; 401; 404; 405; 413; 429; 500] → outcome st ([] : list (S * S)).
Proof. intros Hst. by apply out_quiet; [|apply quiet_nil]. Qed.

Lemma quiet_now (st : Z) : st ∈ [200; 204; 400; 401; 404; 405; 413; 429; 500] → quiet_outcome st [].
Proof. intros Hst. split; [by apply outcome_now|apply quiet_nil]. Qed.

(** A behaviour whose statuses are those of the handlers and tell what was done;
    [R] is what more is known of its steps. *)
Definition tells (R : list (S * S) → Prop) (B : behaviour) : Prop :=
  ∀ st v tr, B st v tr → outcome st tr ∧ st ∈ answered_statuses ∧ R tr.

Definition anything : list (S * S) → Prop := λ _, True.

Lemma tells_mono (R R' : list (S * S) → Prop) (B : behaviour) : (∀ tr, R tr → R' tr) → tells R B → tells R' B.
Proof. intros HR HB st v tr HBtr. destruct (HB st v tr HBtr) as (? & ? & ?). auto. Qed.

Lemma tells_rejects (status : Z) (message : string) : status ∈ [400; 404; 500] → tells quiet (rejects status message).
Proof.
  intros Hst st v tr (-> & _ & ->). split; [|split; [|apply quiet_nil]].
  - apply outcome_now. set_solver.
  - unfold answered_statuses. set_solver.
Qed.

Lemma tells_creates {A} (rs : resource A) (wanted : UUID → Time → A)
    (reply : A → json) (failure : string) :
  (∀ id now d d', added rs (wanted id now) d d' → db_create d d') →
  tells anything (creates rs wanted reply failure).
Proof.
  intros Hadd st v tr (id & now & [(-> & _ & Ho)|(-> & _ & Ha)]); (split; [|split; [unfold answered_statuses; set_solver|done]]).
  - apply out_created; [done|]. eapply once_mono; [|exact Ho]. apply Hadd.
  - apply out_failed; [done|]. eapply atomic_mono; [|exact Ha]. intros d d' Hd. by eapply change_create, Hadd.
Qed.

Lemma tells_changes (change : relation Database) (present : Database → Prop) (reply : json) (failure : string) :
  (∀ d d', change d d' → db_change d d') → tells anything (changes change present reply failure).
Proof.
  intros Hc st v tr [(-> & _ & Ho)|(-> & _ & Ha)]; (split; [|split; [unfold answered_statuses; set_solver|done]]).
  - apply out_changed; [done|]. eapply once_mono; [|exact Ho]. intros d d' [Hd _]. by apply Hc.
  - apply out_failed; [done|]. by eapply atomic_mono.
Qed.

Lemma tells_sets_status (status reply failure : string) (id : UUID) :
  status = "ACTIVE" ∨ status = "INACTIVE" → tells anything (sets_status status reply failure id).
Proof. intros Hst. apply tells_changes. intros d d' [Hf Ho]. by apply (change_status _ _ id status). Qed.

Lemma tells_quiet (B : behaviour) :
  (∀ st v tr, B st v tr → quiet tr ∧ (st = 200 ∨ st = 404 ∨ st = 500)) → tells quiet B.
Proof.
  intros HB st v tr HBtr. destruct (HB st v tr HBtr) as [Hq Hst]. split; [|split; [|done]].
  - apply out_quiet; [|done]. set_solver.
  - unfold answered_statuses. set_solver.
Qed.

Lemma quiet_single (s s' : S) : db_of s' = db_of s → quiet [(s, s')].
Proof. intros Hs. by apply quiet_cons; [|apply quiet_nil]. Qed.

Lemma tells_looks_up {A} (e : entity A) (id_of : A → UUID) (id : UUID) (get : M S (result A (repo_error E)))
    (reply : A → json) (missing : string) : tells quiet (looks_up e id_of id get reply missing).
Proof.
  apply tells_quiet. intros st v tr (s & s' & -> & Hs & [(a & _ & _ & -> & _)|(-> & _)]); (split; [by apply quiet_single|]); auto.
Qed.

Lemma tells_lists {A} (e : entity A) (readable : Database → Prop) (key : A → Z) (p : A → bool) (offset limit : Z)
    (reply : list A → Z → json) (failure : string) :
  tells quiet (lists e readable key p offset limit reply failure : behaviour (S := S)).
Proof.
  apply tells_quiet. intros st v tr (Hq & [(page & total & s1 & s1' & s2 & s2' & _ & -> & _)|(-> & _)]); auto.
Qed.

Lemma tells_lists_all {A} (e : entity A) (key : A → Z) (p : A → bool) (reply : list A → json) (failure : string) :
  tells quiet (lists_all e key p reply failure : behaviour (S := S)).
Proof.
  apply tells_quiet. intros st v tr (s & s' & -> & Hs & [(l & -> & _)|(-> & _)]); (split; [by apply quiet_single|]); auto.
Qed.

Lemma tells_with_id (R : list (S * S) → Prop) (text bad : string) (b : UUID → behaviour) :
  (∀ tr, quiet tr → R tr) → (∀ id, tells R (b id)) → tells R (with_id text bad b).
Proof.
  intros HR Hb. unfold with_id. destruct (uuid_Parse text); [apply Hb|].
  apply (tells_mono quiet); [done|]. apply tells_rejects. set_solver.
Qed.

Lemma tells_of_gateway (R : list (S * S) → Prop) (r : Request) (b : UUID → behaviour) :
  (∀ tr, quiet tr → R tr) → (∀ id, tells R (b id)) → tells R (of_gateway r b).
Proof.
  intros HR Hb. unfold of_gateway. cbv zeta. case_decide; [|by apply tells_with_id].
  apply (tells_mono quiet); [done|]. apply tells_rejects. set_solver.
Qed.

Lemma tells_400 (message : string) : tells anything (rejects 400 message).
Proof. apply (tells_mono quiet); [done|]. apply tells_rejects. set_solver. Qed.

Lemma requested_gateway_ok (req : CreateGatewayRequest) (actor : string) (id : UUID) (now : Time) :
  actor ≠ "" → valid_name (cg_Name req) → valid_name (cg_Hostname req) → gateway_ok (requested_gateway req actor id now).
Proof.
  intros Ha Hn Hh. unfold gateway_ok, requested_gateway. cbn. split; [by right|]. do 2 (split; [done|]).
  repeat split; by case_decide.
Qed.

Lemma requested_upstream_ok (req : CreateUpstreamRequest) (id : UUID) (now : Time) :
  cu_Name req ≠ "" → cu_Host req ≠ "" → cu_Port req ≠ 0 → upstream_ok (requested_upstream req id now).
Proof. intros Hn Hh Hp. unfold upstream_ok, requested_upstream. cbn. repeat split; try done; by case_decide. Qed.

Lemma requested_route_ok (req : CreateRouteRequest) (gid uid id : UUID) (now : Time) :
  cr_PathPrefix req ≠ "" → route_ok (requested_route req gid uid id now).
Proof.
  intros Hp. unfold route_ok, requested_route. cbn. split; [done|]. split; [case_decide; congruence|].
  intros n. case_decide; by intros [= <-].
Qed.

Lemma tells_creates_gateway (r : Request) (actor : string) : actor ≠ "" → tells anything (creates_gateway r actor).
Proof.
  intros Ha. unfold creates_gateway. destruct (decode_body _ _ r) as [req|]; [|apply tells_400].
  case_decide as Hn; [apply tells_400|]. case_decide as Hl; [apply tells_400|].
  apply tells_creates. intros id now d d'. apply create_gateway; [done|].
  apply requested_gateway_ok; [done|split; [tauto|lia]..].
Qed.

Lemma tells_creates_upstream (r : Request) : tells anything (creates_upstream r).
Proof.
  unfold creates_upstream. destruct (decode_body _ _ r) as [req|]; [|apply tells_400].
  case_decide as Hn; [apply tells_400|]. apply tells_creates. intros id now d d'. apply create_upstream, requested_upstream_ok; tauto.
Qed.

Lemma tells_creates_route (r : Request) : tells anything (creates_route r).
Proof.
  unfold creates_route. destruct (decode_body _ _ r) as [req|]; [|apply tells_400].
  case_decide as Hn; [apply tells_400|].
  assert (Hbad : tells anything (rejects 500 "failed to create route")).
  { apply (tells_mono quiet); [done|]. apply tells_rejects. set_solver. }
  destruct (uuid_Parse _); [|done]. destruct (uuid_Parse _); [|done].
  apply tells_creates. intros id now d d'. apply create_route, requested_route_ok. tauto.
Qed.

(** The promises in terms of the status; a GET changes nothing. *)
Lemma promises_tell (ep : endpoint) (r : Request) (actor : string) :
  actor ≠ "" → tells (λ tr, endpoint_method ep = "GET" → quiet tr) (promises ep r actor).
Proof.
  intros Hactor. assert (Hany : ∀ B, endpoint_method ep ≠ "GET" → tells anything B → tells (λ tr, endpoint_method ep = "GET" → quiet tr) B).
  { intros B Hm. apply tells_mono. by intros tr _ ?. }
  assert (Hread : ∀ B, tells quiet B → tells (λ tr, endpoint_method ep = "GET" → quiet tr) B).
  { intros B. by apply tells_mono. }
  destruct ep as [| |text|text|text| | |text| | |text|]; cbn [promises];
    first [apply Hany; [discriminate|]|apply Hread].
  - by apply tells_creates_gateway.
  - apply tells_lists.
  - apply tells_with_id; [done|]. intros id. apply tells_looks_up.
  - apply tells_with_id; [done|]. intros id. apply tells_sets_status. by left.
  - apply tells_with_id; [done|]. intros id. apply tells_sets_status. by right.
  - apply tells_creates_upstream.
  - apply tells_lists.
  - apply tells_with_id; [done|]. intros id. apply tells_looks_up.
  - apply tells_creates_route.
  - apply tells_of_gateway; [done|]. intros gid. apply tells_lists_all.
  - apply tells_with_id; [done|]. intros id. apply tells_changes. intros d d' [Hf Ho]. by apply (change_delete _ _ id).
  - apply tells_of_gateway; [done|]. intros gid. apply tells_lists.
Qed.
End outcomes.
