(* ===== verification/Steady.v ===== *)
(** * Steps that leave the rate limiter alone

    [SteadyLaws]: the clock, the database and the source of UUIDs leave the limiter
    alone, and nothing turns the clock back.  Every program behind the limiter
    takes such steps only ([steps_endpoint]), so the limiter changes in its own
    critical section and in its cleanup. *)

From S2P Require Import Prelude GoNum GoStrings GoTime Json Http Jwt Respond Threads RateLimit Auth Helpers.
From S2P Require Import Model Sql Schema Postgres Memory Repository Service Handlers HandlerSpec Effects Endpoints.

(** ** Programs all of whose steps are in a relation *)

Section steps.
Context {S : Type} (G : relation S).

Fixpoint msteps {A} (m : M S A) : Prop :=
  match m with
  | Done _ => True
  | Step f k => (∀ s, G s (f s).2) ∧ ∀ b, msteps (k b)
  end.

Fixpoint hsteps {A} (m : hio S A) : Prop :=
  match m with
  | HDone _ => True
  | HWriter _ k => hsteps k
  | HStep f k => (∀ s, G s (f s).2) ∧ ∀ b, hsteps (k b)
  end.

Lemma msteps_mreturn {A} (a : A) : msteps (mreturn a).
Proof. done. Qed.

Lemma msteps_mseq {A B} (m : M S A) (k : A → M S B) : msteps m → (∀ a, msteps (k a)) → msteps (mseq m k).
Proof. intros Hm Hk. induction m as [a|C f k' IH]; [apply Hk|]. destruct Hm as [Hf Hm]. split; [done|auto]. Qed.

Lemma msteps_prim {A} (f : S → A * S) : (∀ s, G s (prim f s).2) → msteps (prim f).
Proof. intros Hf. split; [|done]. intros s. specialize (Hf s). by rewrite run_prim in Hf. Qed.

Lemma hsteps_hseq {A B} (m : hio S A) (k : A → hio S B) : hsteps m → (∀ a, hsteps (k a)) → hsteps (hseq m k).
Proof.
  intros Hm Hk. induction m as [a|f m IH|C f k' IH]; [apply Hk|by apply IH|].
  destruct Hm as [Hf Hm]. split; [done|]. intros b. by apply IH.
Qed.

Lemma hsteps_on_state {A} (m : M S A) : msteps m → hsteps (on_state m).
Proof. induction m as [a|C f k IH]; [done|]. intros [Hf Hm]. split; [done|]. intros b. by apply IH. Qed.

Lemma hsteps_writeJSON (status : Z) (v : json) : hsteps (writeJSON status v).
Proof. done. Qed.

Lemma hsteps_writeError (status : Z) (message : string) : hsteps (writeError status message).
Proof. done. Qed.

Lemma wp_hsteps {A} (m : hio S A) (w : ResponseWriter) :
  hsteps m → wp m (λ _ _ tr, Forall (λ p, G p.1 p.2) tr) w.
Proof.
  revert w. induction m as [a|f m IH|C f k IH]; intros w Hm; [apply Forall_nil_2|by apply IH|].
  destruct Hm as [Hf Hm]. intros s. eapply wp_mono; [by apply IH|]. intros a w' tr Htr. by apply Forall_cons_2.
Qed.
End steps.

Create HintDb steps.
#[export] Hint Resolve msteps_mreturn msteps_mseq msteps_prim hsteps_hseq hsteps_on_state hsteps_writeJSON
  hsteps_writeError : steps.

(** Both postconditions. *)
Lemma wp_and {S A} (m : hio S A) (Q Q' : A → ResponseWriter → list (S * S) → Prop) (w : ResponseWriter) :
  wp m Q w → wp m Q' w → wp m (λ a w' tr, Q a w' tr ∧ Q' a w' tr) w.
Proof.
  revert Q Q' w. induction m as [a|f m IH|C f k IH]; intros Q Q' w HQ HQ'; [done|by apply IH|].
  intros s. by apply IH.
Qed.

(** ** The laws *)

Class SteadyLaws (S E : Type) `{HasClock S} `{HasUuid S} `{HasLimiter S} `{PgPool S E} := {
  (** the monotonic clock *)
  clock_of : S → Z;
  Now_reads s : reading (time_Now s).1 = clock_of s;
  Now_clock s : 0 ≤ clock_of s ≤ int64_max → clock_time (time_Now s).1;
  put_limiter_clock rl s : clock_of (put_limiter rl s) = clock_of s;
  Now_steady s : get_limiter (time_Now s).2 = get_limiter s ∧ clock_of s ≤ clock_of (time_Now s).2;
  uuid_steady s : get_limiter (uuid_New s).2 = get_limiter s ∧ clock_of s ≤ clock_of (uuid_New s).2;
  Exec_steady q args s :
    get_limiter (Exec q args s).2 = get_limiter s ∧ clock_of s ≤ clock_of (Exec q args s).2;
  QueryRow_steady q args ds s :
    get_limiter (QueryRow q args ds s).2 = get_limiter s ∧ clock_of s ≤ clock_of (QueryRow q args ds s).2;
  Query_steady q args ds s :
    get_limiter (Query q args ds s).2 = get_limiter s ∧ clock_of s ≤ clock_of (Query q args ds s).2
}.

Section steady.
Context {S E : Type} `{UuidLib} `{SteadyLaws S E}.

Definition steady : relation S := λ s s', get_limiter s' = get_limiter s ∧ clock_of s ≤ clock_of s'.

Lemma steady_refl (s : S) : steady s s.
Proof. split; [done|lia]. Qed.

Lemma steady_trans (s1 s2 s3 : S) : steady s1 s2 → steady s2 s3 → steady s1 s3.
Proof. intros [L1 C1] [L2 C2]. split; [congruence|lia]. Qed.

Lemma steps_time_Now : msteps steady time_Now.
Proof. apply msteps_prim. apply Now_steady. Qed.

Lemma steps_uuid_New : msteps steady uuid_New.
Proof. apply msteps_prim. apply uuid_steady. Qed.

Lemma steps_Exec (q : string) (args : list sqlval) : msteps steady (Exec q args).
Proof. apply msteps_prim. apply Exec_steady. Qed.

Lemma steps_QueryRow (q : string) (args : list sqlval) (ds : list dest) : msteps steady (QueryRow q args ds).
Proof. apply msteps_prim. apply QueryRow_steady. Qed.

Lemma steps_Query (q : string) (args : list sqlval) (ds : list dest) : msteps steady (Query q args ds).
Proof. apply msteps_prim. apply Query_steady. Qed.
End steady.

#[export] Hint Resolve steps_time_Now steps_uuid_New steps_Exec steps_QueryRow steps_Query : steps.

Ltac steps := repeat first
  [ progress intros
  | solve [auto with steps]
  | apply hsteps_hseq | apply hsteps_on_state | apply msteps_mseq | apply msteps_mreturn
  | case_match ].

Section programs.
Context {S E : Type} `{UuidLib} `{SteadyLaws S E}.

(** *** Repositories *)

Lemma steps_exec_wrapped (prefix q : string) (args : list sqlval) :
  msteps steady (exec_wrapped (E := E) prefix q args).
Proof. unfold exec_wrapped. steps. Qed.

Lemma steps_exec_found (prefix q : string) (args : list sqlval) (missing : string) :
  msteps steady (exec_found (E := E) prefix q args missing).
Proof. unfold exec_found. steps. Qed.

Lemma steps_get_one {A ds} (q : string) (f : dests ds → A) (id : UUID) (missing prefix : string) :
  msteps steady (get_one (E := E) q f id missing prefix).
Proof. unfold get_one. steps. Qed.

Lemma steps_query_all {A ds} (q : string) (args : list sqlval) (f : dests ds → A) (list_prefix scan_prefix : string) :
  msteps steady (query_all (E := E) q args f list_prefix scan_prefix).
Proof. unfold query_all. steps. Qed.

Lemma steps_count_and_list {A ds} (count_q : string) (count_args : list sqlval) (list_q : string)
    (list_args : list sqlval) (f : dests ds → A) (count_prefix list_prefix scan_prefix : string) :
  msteps steady (count_and_list (E := E) count_q count_args list_q list_args f count_prefix list_prefix scan_prefix).
Proof. unfold count_and_list. steps. Qed.

#[local] Hint Resolve steps_exec_wrapped steps_exec_found steps_get_one steps_query_all steps_count_and_list : steps.

(** *** Services *)

Lemma steps_UpdateStatus (id : UUID) (status : string) : msteps steady (GatewayRepository_UpdateStatus (E := E) id status).
Proof. unfold GatewayRepository_UpdateStatus. steps. Qed.

Lemma steps_GatewayService_Create (req : CreateGatewayRequest) : msteps steady (GatewayService_Create (E := E) req).
Proof. unfold GatewayService_Create, GatewayRepository_Create. steps. Qed.

Lemma steps_UpstreamService_Create (req : CreateUpstreamRequest) : msteps steady (UpstreamService_Create (E := E) req).
Proof. unfold UpstreamService_Create, UpstreamRepository_Create. steps. Qed.

Lemma steps_RouteService_Create (req : CreateRouteRequest) : msteps steady (RouteService_Create (E := E) req).
Proof. unfold RouteService_Create, RouteRepository_Create. steps. Qed.

Lemma steps_ThreatRepository_ListByGateway (id : UUID) (severity : string) (offset limit : Z) :
  msteps steady (ThreatRepository_ListByGateway (E := E) id severity offset limit).
Proof. unfold ThreatRepository_ListByGateway. steps. Qed.

#[local] Hint Resolve steps_UpdateStatus steps_GatewayService_Create steps_UpstreamService_Create
  steps_RouteService_Create steps_ThreatRepository_ListByGateway : steps.

(** *** Handlers *)

Lemma steps_endpoint (ep : endpoint) (up : string → string) (r : Request) :
  hsteps steady (endpoint_handler ep up r).
Proof.
  destruct ep; cbn [endpoint_handler].
  - unfold GatewayHandler_Create. steps.
  - unfold GatewayHandler_List, GatewayService_List, GatewayRepository_List. steps.
  - unfold GatewayHandler_Get, GatewayService_Get, GatewayRepository_GetByID. steps.
  - unfold GatewayHandler_Activate, GatewayService_Activate. steps.
  - unfold GatewayHandler_Deactivate, GatewayService_Deactivate. steps.
  - unfold UpstreamHandler_Create. steps.
  - unfold UpstreamHandler_List, UpstreamService_List, UpstreamRepository_List. steps.
  - unfold UpstreamHandler_Get, UpstreamService_Get, UpstreamRepository_GetByID. steps.
  - unfold RouteHandler_Create. steps.
  - unfold RouteHandler_List, RouteService_ListByGateway, RouteRepository_ListByGateway. steps.
  - unfold RouteHandler_Delete, RouteService_Delete, RouteRepository_Delete. steps.
  - unfold ThreatHandler_List. steps.
Qed.
End programs.

(** ** The reference state *)

#[export] Instance memory_steady : SteadyLaws memory string.
Proof.
  refine {| clock_of := m_now |}; try done.
  - intros m H. by exists (m_now m).
  - intros m. cbn. split; [done|lia].
  - intros q args m. unfold Exec. rewrite run_prim. unfold db_exec, memory_pool, memory_exec.
    repeat case_match; cbn; (split; [done|lia]).
Defined.
