(* ===== verification/Server.v ===== *)
(** * The server ([control-plane/cmd/server/main.go] and the [Routes] methods)

    The routers, built as the code builds them, the middleware in the order of
    [r.Use], and the start of the process.  [chi] is the interface [Chi]: its own
    middleware, the fallback handlers, and the matching of a path against the
    patterns registered at one router; [ChiLaws] states what the code relies on. *)

From S2P Require Import Prelude GoNum GoStrings GoTime Json Http Jwt Respond Threads RateLimit Auth Helpers.
From S2P Require Import Security.
From S2P Require Import Config Pool Model Sql Schema Postgres Repository Service Handlers.

(** ** [go-chi/chi] *)

(** The [i]-th route with its URL parameters, the [j]-th mount with the rest of the
    path, or nothing. *)
Inductive chi_match :=
| FoundRoute (i : nat) (urlParam : string → string)
| FoundMount (j : nat) (rest : string)
| FoundNothing
| FoundOtherMethod.

Class Chi (S : Type) := {
  chi_RequestID : Middleware S;
  chi_RealIP : Middleware S;
  (** the address [RealIP] finds in the headers *)
  chi_real_ip : Header → option string;
  chi_Logger : Middleware S;
  chi_Recoverer : Middleware S;
  chi_Timeout : Z → Middleware S;
  chi_NotFound : Handler S;
  chi_MethodNotAllowed : Handler S;
  (** the path to route by, from [r.URL.Path] *)
  chi_route_path : string → string;
  (** routes (method and pattern), mounts (pattern), method, path *)
  chi_find : list (string * string) → list string → string → string → chi_match
}.

(** A handler below a mount point: given the rest of the path, or [None] at the
    top. *)
Definition MountedHandler (S : Type) : Type := option string → Handler S.

Record Router (S : Type) := mkRouter {
  rt_middlewares : list (Middleware S);
  rt_routes : list (string * string * ((string → string) → Handler S));
  rt_mounts : list (string * MountedHandler S)
}.
Arguments mkRouter {S} _ _ _.
Arguments rt_middlewares {S} _.
Arguments rt_routes {S} _.
Arguments rt_mounts {S} _.

Definition NewRouter {S} : Router S := mkRouter [] [] [].

Definition Use {S} (mw : Middleware S) (r : Router S) : Router S :=
  mkRouter (rt_middlewares r ++ [mw]) (rt_routes r) (rt_mounts r).

(** [if cond { r.Use(mw) }] *)
Definition UseIf {S} (cond : bool) (mw : Middleware S) (r : Router S) : Router S :=
  if cond then Use mw r else r.

Definition Handle {S} (method pattern : string) (h : (string → string) → Handler S) (r : Router S) : Router S :=
  mkRouter (rt_middlewares r) (rt_routes r ++ [(method, pattern, h)]) (rt_mounts r).
Definition Get {S} := @Handle S "GET".
Definition Post {S} := @Handle S "POST".
Definition Delete_ {S} := @Handle S "DELETE".

Definition Mount {S} (pattern : string) (h : MountedHandler S) (r : Router S) : Router S :=
  mkRouter (rt_middlewares r) (rt_routes r) (rt_mounts r ++ [(pattern, h)]).

Notation "r '|>' f" := (f r) (at level 50, left associativity, only parsing) : go_scope.

(** The first middleware is the outermost. *)
Fixpoint chain {S} (mws : list (Middleware S)) (h : Handler S) : Handler S :=
  match mws with
  | [] => h
  | mw :: mws' => mw (chain mws' h)
  end.

Section serve.
Context {S : Type} `{Chi S}.

Definition dispatch (rt : Router S) (path : option string) : Handler S := λ r,
  match chi_find (map fst (rt_routes rt)) (map fst (rt_mounts rt)) (Method r)
          (default (chi_route_path (Path r)) path) with
  | FoundRoute i urlParam =>
      match rt_routes rt !! i with
      | Some (_, h) => h urlParam r
      | None => chi_NotFound r
      end
  | FoundMount j rest =>
      match rt_mounts rt !! j with
      | Some (_, h) => h (Some rest) r
      | None => chi_NotFound r
      end
  | FoundNothing => chi_NotFound r
  | FoundOtherMethod => chi_MethodNotAllowed r
  end.

(** A router as a handler: its middleware around the dispatch. *)
Definition serve (rt : Router S) : MountedHandler S := λ path,
  chain (rt_middlewares rt) (dispatch rt path).
End serve.

(** [auth_enabled] of main.go *)
Definition auth_enabled (cfg : Config) : bool :=
  negb (String.eqb (cfg_JWTSecret cfg) "") || (0 <? len_list (cfg_APIKeys cfg)).

Definition auth_config (cfg : Config) : AuthConfig :=
  mkAuthConfig (cfg_JWTSecret cfg) (cfg_JWTIssuer cfg) (ParseAPIKeyEntries (cfg_APIKeys cfg)) ["/health"].

Section server.
Context {S E : Type} `{UuidLib} `{HasClock S} `{HasUuid S} `{HasLimiter S} `{PgPool S E} `{Chi S}.

(** *** The [Routes] methods of the handlers *)

Definition GatewayHandler_Routes : Router S :=
  NewRouter
  |> Post "/" (λ _, GatewayHandler_Create)
  |> Get "/" (λ _, GatewayHandler_List)
  |> Get "/{id}" GatewayHandler_Get
  |> Post "/{id}/activate" GatewayHandler_Activate
  |> Post "/{id}/deactivate" GatewayHandler_Deactivate.

Definition UpstreamHandler_Routes : Router S :=
  NewRouter
  |> Post "/" (λ _, UpstreamHandler_Create)
  |> Get "/" (λ _, UpstreamHandler_List)
  |> Get "/{id}" UpstreamHandler_Get.

Definition RouteHandler_Routes : Router S :=
  NewRouter
  |> Post "/" (λ _, RouteHandler_Create)
  |> Get "/" (λ _, RouteHandler_List)
  |> Delete_ "/{id}" RouteHandler_Delete.

Definition ThreatHandler_Routes : Router S :=
  NewRouter
  |> Get "/" (λ _, ThreatHandler_List).

(** *** main.go *)

(** The function given to [r.Route("/api/v1", ...)]. *)
Definition api_router (cfg : Config) : Router S :=
  NewRouter
  |> UseIf (auth_enabled cfg) (Auth (auth_config cfg))
  |> Mount "/gateways" (serve GatewayHandler_Routes)
  |> Mount "/upstreams" (serve UpstreamHandler_Routes)
  |> Mount "/routes" (serve RouteHandler_Routes)
  |> Mount "/threats" (serve ThreatHandler_Routes).

Definition server_router (cfg : Config) : Router S :=
  NewRouter
  |> Use chi_RequestID
  |> Use chi_RealIP
  |> Use chi_Logger
  |> Use chi_Recoverer
  |> Use (chi_Timeout (30 * Second))
  |> Use (SecurityHeaders DefaultSecurityHeadersConfig)
  |> Use (MaxBodySize (MaxBodyBytes cfg))
  |> UseIf (0 <? len_list (CORSOrigins cfg)) (CORS (with_origins DefaultCORSConfig (CORSOrigins cfg)))
  |> Use limit_requests
  |> Get "/health" (λ _, HealthHandler_Check)
  |> Mount "/api/v1" (serve (api_router cfg)).

(** [srv.Handler] *)
Definition server (cfg : Config) : Handler S := serve (server_router cfg) None.
End server.

(** ** Start of the process *)

Inductive start_error (E : Type) := ErrConfig (e : config_error) | ErrDatabase (e : pool_error E).
Arguments ErrConfig {E} _.
Arguments ErrDatabase {E} _.

(** What [main] sets up before it serves; a [logger.Fatal] ends the process. *)
Record started (H : Type) := mkStarted {
  st_config : Config;
  st_pool : H;
  st_limiter : RateLimiter;
  st_addr : string
}.
Arguments mkStarted {H} _ _ _ _.
Arguments st_config {H} _.
Arguments st_pool {H} _.
Arguments st_limiter {H} _.
Arguments st_addr {H} _.

Definition start {S H R E} `{PgxPool S H R E} (env : Env) : M S (result (started H) (start_error E)) :=
  match Load env with
  | Err e => mreturn (Err (ErrConfig e))
  | Ok cfg =>
      let* pool := NewPool (DefaultPoolConfig (DatabaseURL cfg)) in
      match pool with
      | Err e => mreturn (Err (ErrDatabase e))
      | Ok pool =>
          mreturn (Ok (mkStarted cfg pool (NewRateLimiter DefaultRateLimitConfig) (":" ++ Port cfg)))
      end
  end.

(** ** Laws *)

(** The fields of a request a middleware of [chi] may not change. *)
Definition same_request (r r' : Request) : Prop :=
  Method r' = Method r ∧ Path r' = Path r ∧ RawQuery r' = RawQuery r ∧ ReqHeader r' = ReqHeader r
  ∧ Body r' = Body r ∧ ContentLength r' = ContentLength r
  ∧ ∀ k, k ∈ [ContextKeySubject; ContextKeyRole; ContextKeyAuthMethod] →
      ctx_Value (Context r') k = ctx_Value (Context r) k.

(** It calls the next handler, once, with the same request but for values of its
    own in the context, and the remote address [address]. *)
Definition transparent {S} (address : Request → string) (mw : Middleware S) : Prop :=
  ∀ next r, ∃ r', same_request r r' ∧ RemoteAddr r' = address r ∧ mw next r = next r'.

(** The address of the client, behind [RealIP]. *)
Definition client_address {S} `{Chi S} (r : Request) : string :=
  default (RemoteAddr r) (chi_real_ip (ReqHeader r)).

(** Path segments against a pattern: literal segments are equal, and [{name}]
    binds a non-empty segment. *)
Fixpoint match_segments (pattern path : list string) : option (list (string * string)) :=
  match pattern, path with
  | [], [] => Some []
  | p :: pattern', x :: path' =>
      match p with
      | String "{" name =>
          if String.eqb x "" then None
          else match match_segments pattern' path' with
               | Some ps => Some ((string_take (String.length name - 1) name, x) :: ps)
               | None => None
               end
      | _ => if String.eqb p x then match_segments pattern' path' else None
      end
  | _, _ => None
  end.

Definition match_pattern (pattern path : string) : option (list (string * string)) :=
  match_segments (Split "/" pattern) (Split "/" path).

(** The rest of a path below a mount point. *)
Definition match_mount (pattern path : string) : option string :=
  match cut_prefix pattern path with
  | Some EmptyString => Some "/"
  | Some (String "/" rest) => Some (String "/" rest)
  | _ => None
  end.

(** The routes that match, in order, with their parameters. *)
Definition matching_routes (routes : list (string * string)) (method path : string)
    : list (nat * list (string * string)) :=
  omap (λ ir, if String.eqb ir.2.1 method then
                match match_pattern ir.2.2 path with Some ps => Some (ir.1, ps) | None => None end
              else None)
    (imap (λ i r, (i, r)) routes).

Definition matching_mounts (mounts : list string) (path : string) : list (nat * string) :=
  omap (λ im, match match_mount im.2 path with Some rest => Some (im.1, rest) | None => None end)
    (imap (λ i m, (i, m)) mounts).

(** [http.NotFound], and [WriteHeader(405)] without a body. *)
Definition not_found_body : string := "404 page not found" ++ String "010" "".

Definition fallback_answer (st : Z) (b : string) : Prop := st = 404 ∧ b = not_found_body ∨ st = 405 ∧ b = "".

(** A fallback, with its status and body. *)
Definition falls_back {S} `{Chi S} (h : Handler S) (st : Z) (b : string) : Prop :=
  h = chi_NotFound ∧ st = 404 ∧ b = not_found_body ∨ h = chi_MethodNotAllowed ∧ st = 405 ∧ b = "".

(** The methods [chi] knows (version 5.2.1, to which nothing is registered). *)
Definition chi_methods : list string :=
  ["CONNECT"; "DELETE"; "GET"; "HEAD"; "OPTIONS"; "PATCH"; "POST"; "PUT"; "TRACE"].

Class ChiLaws (S : Type) `{Chi S} := {
  chi_transparent :
    transparent RemoteAddr chi_RequestID ∧ transparent client_address chi_RealIP
    ∧ transparent RemoteAddr chi_Logger ∧ transparent RemoteAddr chi_Recoverer
    ∧ ∀ d, transparent RemoteAddr (chi_Timeout d);
  (** a route found has the request's method *)
  chi_find_sound routes mounts method path i urlParam :
    chi_find routes mounts method path = FoundRoute i urlParam →
    ∃ pattern, routes !! i = Some (method, pattern);
  (** a method unknown to [chi] is refused before the path is looked at *)
  chi_find_unknown routes mounts method path :
    method ∉ chi_methods → chi_find routes mounts method path = FoundOtherMethod;
  (** the only route that matches is found, with its parameters *)
  chi_find_route routes mounts method path i ps :
    method ∈ chi_methods → matching_routes routes method path = [(i, ps)] → matching_mounts mounts path = [] → NoDup (map fst ps) →
    ∃ urlParam, chi_find routes mounts method path = FoundRoute i urlParam
      ∧ ∀ k v, (k, v) ∈ ps → urlParam k = v;
  (** the only mount below which the path is, when no route matches *)
  chi_find_mount routes mounts method path j rest :
    method ∈ chi_methods → (∀ r, r ∈ routes → match_pattern r.2 path = None) → matching_mounts mounts path = [(j, rest)] →
    chi_find routes mounts method path = FoundMount j rest;
  (** the fallbacks answer 404 and 405 without looking at the application state, and
      keep the security headers set before them *)
  chi_fallback (h : Handler S) st b r w :
    falls_back h st b → unsent w →
    wp (h r) (λ _ w' tr, tr = [] ∧ sent_status w' = st ∧ rw_body w' = b
      ∧ (header_Get (rw_header w) "X-Content-Type-Options" = "nosniff" →
         ∀ k, k ∈ security_names → header_Get (sent_header w') k = header_Get (rw_header w) k)) w
}.

(** The limiter is not the database, and neither is the clock's reading affected
    by it. *)
Class ServerLaws (S E : Type) `{FrameLaws S E} `{HasLimiter S} := {
  server_limiter_laws :: LimiterLaws S;
  limiter_keeps_db rl s : db_of (put_limiter rl s) = db_of s;
  limiter_keeps_clock rl s : (time_Now (put_limiter rl s)).1 = (time_Now s).1
}.
