(* ===== verification/ChiRef.v ===== *)
(** * A reference router

    An executable instance of the interface [Chi]: middleware that passes every
    request on (with [RealIP] reading one header), [http.NotFound] and chi's 405 as fallbacks, and matching by the
    declarative relation of Server.v.  It shows that [ChiLaws] and [ServerLaws]
    can hold; the witnesses of the server's properties run on it. *)

From S2P Require Import Prelude GoNum GoStrings GoTime Json Http Jwt Respond Threads RateLimit Auth Helpers.
From S2P Require Import Security.
From S2P Require Import Config Pool Model Sql Schema Postgres Memory Repository Service Handlers Server.

Definition passes {S} : Middleware S := λ next r, next r.

Lemma passes_transparent {S} : transparent RemoteAddr (passes : Middleware S).
Proof. intros next r. exists r. by repeat split. Qed.

(** [RealIP] with the [X-Real-IP] header only. *)
Definition ref_real_ip (h : Header) : option string :=
  let ip := header_Get h "X-Real-IP" in if String.eqb ip "" then None else Some ip.

Definition ref_RealIP {S} : Middleware S := λ next r,
  next (mkRequest (Method r) (Path r) (RawQuery r) (ReqHeader r) (Body r) (ContentLength r)
          (default (RemoteAddr r) (ref_real_ip (ReqHeader r))) (Context r)).

(** [http.NotFound]: [http.Error] sets the type and [nosniff]. *)
Definition ref_not_found {S} : Handler S := λ _,
  Header_Set "Content-Type" "text/plain; charset=utf-8" ;!
  Header_Set "X-Content-Type-Options" "nosniff" ;!
  WriteHeader 404 ;!
  Write not_found_body.

Definition ref_method_not_allowed {S} : Handler S := λ _, WriteHeader 405.

Definition url_param (ps : list (string * string)) (name : string) : string :=
  match List.find (λ kv, String.eqb kv.1 name) ps with Some kv => kv.2 | None => "" end.

Definition ref_find (routes : list (string * string)) (mounts : list string) (method path : string) : chi_match :=
  if negb (existsb (String.eqb method) chi_methods) then FoundOtherMethod
  else match matching_routes routes method path, matching_mounts mounts path with
  | (i, ps) :: _, _ => FoundRoute i (url_param ps)
  | [], (j, rest) :: _ => FoundMount j rest
  | [], [] =>
      if existsb (λ r, match match_pattern r.2 path with Some _ => true | None => false end) routes
      then FoundOtherMethod else FoundNothing
  end.

#[export] Instance ref_chi {S} : Chi S := {
  chi_RequestID := passes;
  chi_RealIP := ref_RealIP;
  chi_real_ip := ref_real_ip;
  chi_Logger := passes;
  chi_Recoverer := passes;
  chi_Timeout _ := passes;
  chi_NotFound := ref_not_found;
  chi_MethodNotAllowed := ref_method_not_allowed;
  chi_route_path p := if String.eqb p "" then "/" else p;
  chi_find := ref_find
}.

(** ** The laws *)

Lemma matching_routes_sound (routes : list (string * string)) (method path : string) (i : nat)
    (ps : list (string * string)) :
  (i, ps) ∈ matching_routes routes method path →
  ∃ pattern, routes !! i = Some (method, pattern) ∧ match_pattern pattern path = Some ps.
Proof.
  unfold matching_routes. intros H. apply list_elem_of_omap in H as ([i' [m p]] & Hin & Hx). cbn [fst snd] in Hx.
  apply list_elem_of_lookup in Hin as [k Hk]. rewrite list_lookup_imap in Hk.
  destruct (routes !! k) as [mp|] eqn:Ek; [|done]. cbn in Hk. injection Hk as <- ->.
  destruct (String.eqb_spec m method) as [->|]; [|done].
  destruct (match_pattern p path) as [ps'|] eqn:Ep; [|done]. injection Hx as <- <-. by exists p.
Qed.

Lemma url_param_bound (ps : list (string * string)) (k v : string) :
  NoDup (map fst ps) → (k, v) ∈ ps → url_param ps k = v.
Proof.
  unfold url_param. induction ps as [|[k' v'] ps IH]; [by intros _ ?%elem_of_nil|].
  cbn [map fst]. intros [Hni Hd]%list.NoDup_cons [[= -> ->]|Hin]%elem_of_cons; cbn [List.find fst].
  - by rewrite String.eqb_refl.
  - destruct (String.eqb_spec k' k) as [->|_]; [|by apply IH]. destruct Hni.
    apply list_elem_of_fmap. by exists (k, v).
Qed.

Lemma fallback_wp {S} (h : Handler S) (st : Z) (b : string) (r : Request) (w : ResponseWriter) :
  h = ref_not_found ∧ st = 404 ∧ b = not_found_body ∨ h = ref_method_not_allowed ∧ st = 405 ∧ b = "" → unsent w →
  wp (h r) (λ _ w' tr, tr = [] ∧ sent_status w' = st ∧ rw_body w' = b
    ∧ (header_Get (rw_header w) "X-Content-Type-Options" = "nosniff" →
       ∀ k, k ∈ security_names → header_Get (sent_header w') k = header_Get (rw_header w) k)) w.
Proof.
  destruct w as [hd sent body]. intros Hh [Hs Hb]. cbn in Hs, Hb. subst sent body. destruct Hh as [(-> & -> & ->)|(-> & -> & ->)]; cbn.
  - split; [done|]. split; [done|]. split; [done|]. intros Hn k Hk. unfold security_names in Hk.
    apply elem_of_cons in Hk as [->|Hk]; [by rewrite header_Get_Set|].
    rewrite !header_Get_Set_ne; [done|..]; (eapply other_than_ne; [|exact Hk]); by vm_compute.
  - by split.
Qed.

#[export] Instance ref_chi_laws {S} : ChiLaws S.
Proof.
  split.
  - refine (conj _ (conj _ (conj _ (conj _ (λ _, _))))); try apply passes_transparent.
    intros next r. eexists. split; [|split; [|reflexivity]]; [by repeat split|done].
  - intros routes mounts method path i up H. cbn [chi_find ref_chi] in H. unfold ref_find in H.
    destruct (negb _); [discriminate H|].
    destruct (matching_routes routes method path) as [|[i' ps] l] eqn:E.
    + destruct (matching_mounts mounts path) as [|[j rest] l]; [|discriminate H].
      destruct (existsb _ _); discriminate H.
    + injection H as -> _. destruct (matching_routes_sound routes method path i ps) as (p & Hp & _).
      * rewrite E. apply list_elem_of_here.
      * by exists p.
  - intros routes mounts method path Hm. cbn [chi_find ref_chi]. unfold ref_find.
    by rewrite (proj2 (existsb_eqb_false _ _) Hm).
  - intros routes mounts method path i ps Hm Hr _ Hd. cbn [chi_find ref_chi]. unfold ref_find.
    rewrite (proj2 (existsb_eqb _ _) Hm), Hr.
    exists (url_param ps). split; [done|]. intros k v. by apply url_param_bound.
  - intros routes mounts method path j rest Hmethod Hno Hm. cbn [chi_find ref_chi]. unfold ref_find.
    rewrite (proj2 (existsb_eqb _ _) Hmethod), Hm. cbn [negb].
    destruct (matching_routes routes method path) as [|[i ps] l] eqn:E; [done|].
    destruct (matching_routes_sound routes method path i ps) as (p & Hp & Hmatch).
    + rewrite E. apply list_elem_of_here.
    + apply list_elem_of_lookup_2 in Hp. apply Hno in Hp. cbn [snd] in Hp. congruence.
  - intros h st b r w. apply fallback_wp.
Qed.

#[export] Instance memory_server_laws : ServerLaws memory string.
Proof. by split. Defined.

(** ** Requests for the witnesses *)

(** One API key, the defaults of main.go otherwise. *)
Definition demo_config : Config :=
  mkConfig "8085" "postgres://localhost/qsgw" "localhost:2379" "info" "" "quantun" ["k1:svc-1:admin"]
    ["https://admin.example.com"] (1024 * 1024).

Definition api_request (method path auth body : string) : Request :=
  mkRequest method path "" (header_Set ∅ "Authorization" auth) (mkBody body None) (len body) "10.0.0.1:5000" [].

Definition activate_request (auth : string) : Request :=
  api_request "POST" ("/api/v1/gateways/" ++ to_hex "aaaaaaaaaaaaaaaa" ++ "/activate") auth "".

Definition create_request (auth : string) : Request :=
  api_request "POST" "/api/v1/gateways" auth
    (encode (JObject [("name", JString "edge-3"); ("hostname", JString "edge.example.net")])).

Lemma demo_credentials (now : Z) :
  credentials (auth_config demo_config) now "ApiKey k1" "svc-1" "admin" AuthMethodAPIKey.
Proof.
  apply (by_key (auth_config demo_config) now "ApiKey k1" "ApiKey" "k1" (mkAPIKey "k1" "svc-1" "admin") [] []);
    try reflexivity.
  intros e He. by apply elem_of_nil in He.
Qed.

Lemma demo_no_credentials (now : Z) (sub role m : string) :
  ¬ credentials (auth_config demo_config) now "ApiKey other" sub role m.
Proof.
  intros Hc. apply (credentials_cases _ _ "ApiKey" "other") in Hc as [(Hb & _)|(_ & e & He & _)]; [|  |done].
  - discriminate Hb.
  - vm_compute in He. discriminate He.
Qed.
