(* ===== verification/ServerSpec.v ===== *)
(** * What the server promises

    [inner] is what main.go puts inside [SecurityHeaders], and [server_program]
    takes a request to it past the middleware of [chi].  [serves] is what a handler
    owes to a request under every interleaving: a bound on its steps on the shared
    state, the security headers on its response, and a relation between the answer
    and the steps.  Its closure under the middleware and the routers is proved once,
    for any such relation and any set of requests the middleware cannot lead out of;
    ServerSafety.v instantiates it. *)

From S2P Require Import Prelude GoNum GoStrings GoTime Json Http Jwt Respond Threads RateLimit Auth Helpers.
From S2P Require Import Security Config Pool Model Sql Schema Postgres Memory Repository RepoFacts RepoSpec Service.
From S2P Require Import Handlers HandlerSpec Effects Endpoints Server ChiRef.

(** ** Responses on their way *)

Definition has_headers (kvs : list (string * string)) (h : Header) : Prop :=
  ∀ k v, (k, v) ∈ kvs → header_Get h k = v.

(** The headers main.go asks for. *)
Abbreviation default_headers := (security_headers DefaultSecurityHeadersConfig).

(** Nothing is sent yet and the security headers are set. *)
Definition ready (w : ResponseWriter) : Prop := unsent w ∧ has_headers default_headers (rw_header w).

(** A handler that has ended: its status, headers and body, and its steps. *)
Definition served {S} (n : nat) (R : Z → string → list (S * S) → Prop) (w : ResponseWriter) (tr : list (S * S)) : Prop :=
  (List.length tr ≤ n)%nat ∧ has_headers default_headers (sent_header w) ∧ R (sent_status w) (rw_body w) tr.

(** A relation that does not look at the body. *)
Definition by_status {S} (R : Z → list (S * S) → Prop) : Z → string → list (S * S) → Prop := λ st _ tr, R st tr.

Definition serves {S} (n : nat) (R : Z → string → list (S * S) → Prop) (Q : Request → Prop) (h : Handler S) : Prop :=
  ∀ r w, Q r → ready w → wp (h r) (λ _, served n R) w.

(** A chain of [Set]s and [Add]s of headers other than [K]. *)
Ltac other_headers :=
  intros h k Hk;
  repeat first
    [ rewrite header_Get_Set_ne by (apply (other_than_ne security_names); [vm_compute; reflexivity|exact Hk])
    | rewrite header_Get_Add_ne by (apply (other_than_ne security_names); [vm_compute; reflexivity|exact Hk]) ];
  reflexivity.

Lemma cors_headers_other (cfg : CORSConfig) (origin : string) (h : Header) (k : string) :
  k ∈ security_names → header_Get (cors_headers cfg origin h) k = header_Get h k.
Proof.
  revert h k. unfold cors_headers. cbv zeta.
  destruct (is_wildcard cfg), (AllowCredentials _), (String.eqb _ ""); other_headers.
Qed.

Lemma preflight_headers_other (cfg : CORSConfig) (h : Header) (k : string) :
  k ∈ security_names → header_Get (preflight_headers cfg h) k = header_Get h k.
Proof. revert h k. unfold preflight_headers. cbv zeta. other_headers. Qed.

Lemma limit_headers_other (cfg : RateLimitConfig) (n : Z) (h : Header) (k : string) :
  k ∈ security_names → header_Get (limit_headers cfg n h) k = header_Get h k.
Proof. revert h k. unfold limit_headers. other_headers. Qed.


Lemma ready_update (f : Header → Header) (w : ResponseWriter) :
  (∀ h k, k ∈ security_names → header_Get (f h) k = header_Get h k) → ready w → ready (rw_update_header f w).
Proof.
  intros Hf [Hu Hh]. split; [by apply unsent_update|]. intros k v Hkv. cbn [rw_header rw_update_header].
  rewrite Hf; [by apply Hh|by eapply security_headers_names].
Qed.

Lemma json_written_headers (w : ResponseWriter) (st : Z) (v : json) :
  ready w → has_headers default_headers (sent_header (json_written w st v)).
Proof.
  intros [_ Hh] k x Hkv. cbn. rewrite header_Get_Set_ne; [by apply Hh|].
  apply (other_than_ne security_names); [by vm_compute|by eapply security_headers_names].
Qed.

Lemma served_json {S} (n : nat) (R : Z → string → list (S * S) → Prop) (w : ResponseWriter) (st : Z) (v : json)
    (tr : list (S * S)) :
  ready w → (List.length tr ≤ n)%nat → R st (encode_line v) tr → served n R (json_written w st v) tr.
Proof. intros Hw Hl HR. split; [done|]. split; [by apply json_written_headers|done]. Qed.

(** Steps made before. *)
Lemma served_app {S} (n p : nat) (R R' : Z → string → list (S * S) → Prop) (w : ResponseWriter) (tr1 tr2 : list (S * S)) :
  served n R w tr2 → (List.length tr1 ≤ p)%nat → (∀ st b, R st b tr2 → R' st b (tr1 ++ tr2)%list) →
  served (p + n) R' w (tr1 ++ tr2).
Proof. intros (Hl & Hh & HR) Hp HR'. split; [rewrite length_app; lia|]. split; [done|by apply HR']. Qed.

(** ** The request path in one equation *)

Lemma same_request_refl (r : Request) : same_request r r.
Proof. by repeat split. Qed.

Lemma same_request_trans (r1 r2 r3 : Request) : same_request r1 r2 → same_request r2 r3 → same_request r1 r3.
Proof.
  intros (? & ? & ? & ? & ? & ? & Hc1) (? & ? & ? & ? & ? & ? & Hc2).
  repeat split; try congruence. intros k Hk. by rewrite Hc2, Hc1.
Qed.

(** The same method, path, headers and length. *)
Definition same_head (r r' : Request) : Prop :=
  Method r' = Method r ∧ Path r' = Path r ∧ ReqHeader r' = ReqHeader r ∧ ContentLength r' = ContentLength r.

Lemma same_request_head (r r' : Request) : same_request r r' → same_head r r'.
Proof. intros (? & ? & ? & ? & ? & ? & ?). done. Qed.

Section request_path.
Context {S E : Type} `{UuidLib} `{ServerLaws S E} `{ChiLaws S}.

(** What main.go puts inside [SecurityHeaders]. *)
Definition inner (cfg : Config) : Handler S :=
  MaxBodySize (MaxBodyBytes cfg)
    (chain (if 0 <? len_list (CORSOrigins cfg) then [CORS (with_origins DefaultCORSConfig (CORSOrigins cfg))] else [])
      (limit_requests (dispatch (server_router cfg) None))).

Lemma server_eq (cfg : Config) :
  server cfg = chi_RequestID (chi_RealIP (chi_Logger (chi_Recoverer (chi_Timeout (30 * Second)
                 (SecurityHeaders DefaultSecurityHeadersConfig (inner cfg)))))).
Proof.
  unfold server, serve, inner. generalize (dispatch (server_router cfg) None). intros d.
  unfold server_router, UseIf. by destruct (0 <? len_list (CORSOrigins cfg)).
Qed.

Lemma api_router_parts (cfg : Config) :
  rt_middlewares (api_router cfg) = (if auth_enabled cfg then [Auth (auth_config cfg)] else [])
  ∧ rt_routes (api_router cfg) = []
  ∧ rt_mounts (api_router cfg)
    = [("/gateways", serve GatewayHandler_Routes); ("/upstreams", serve UpstreamHandler_Routes);
       ("/routes", serve RouteHandler_Routes); ("/threats", serve ThreatHandler_Routes)].
Proof. unfold api_router, UseIf. by destruct (auth_enabled cfg). Qed.

Lemma server_router_parts (cfg : Config) :
  rt_routes (server_router cfg) = [("GET", "/health", λ _, HealthHandler_Check)]
  ∧ rt_mounts (server_router cfg) = [("/api/v1", serve (api_router cfg))].
Proof. unfold server_router, UseIf. by destruct (0 <? len_list (CORSOrigins cfg)). Qed.

(** A request reaches [SecurityHeaders] as it came. *)
Lemma server_program (cfg : Config) (r : Request) :
  ∃ r', same_request r r' ∧ RemoteAddr r' = client_address r
        ∧ server cfg r = SecurityHeaders DefaultSecurityHeadersConfig (inner cfg) r'.
Proof.
  rewrite server_eq. destruct chi_transparent as (T1 & T2 & T3 & T4 & T5).
  edestruct T1 as (r1 & R1 & A1 & ->). edestruct T2 as (r2 & R2 & A2 & ->). edestruct T3 as (r3 & R3 & A3 & ->).
  edestruct T4 as (r4 & R4 & A4 & ->). edestruct T5 as (r5 & R5 & A5 & ->). exists r5. split; [|split; [|reflexivity]].
  2: { rewrite A5, A4, A3, A2. unfold client_address. rewrite A1. by destruct R1 as (_ & _ & _ & -> & _). }
  eapply same_request_trans; [|exact R5]. eapply same_request_trans; [|exact R4].
  eapply same_request_trans; [|exact R3]. by eapply same_request_trans.
Qed.

Lemma server_reduces (cfg : Config) (r : Request) (w : ResponseWriter) (s : S) :
  ∃ r', same_request r r' ∧
    server cfg r (w, s)
    = inner cfg r' (rw_update_header (with_security_headers DefaultSecurityHeadersConfig) w, s).
Proof.
  destruct (server_program cfg r) as (r' & Hr & _ & ->). exists r'. split; [done|]. apply SecurityHeaders_eq.
Qed.

(** Paths below the API go to its router. *)
Lemma api_mount_only (cfg : Config) (path rest : string) (method : string) :
  method ∈ chi_methods → match_mount "/api/v1" path = Some rest →
  chi_find (map fst (rt_routes (server_router cfg))) (map fst (rt_mounts (server_router cfg))) method path
  = FoundMount 0 rest.
Proof.
  intros Hmethod Hm. destruct (server_router_parts cfg) as (-> & ->). apply chi_find_mount; [done|..].
  - intros r Hr. apply list_elem_of_singleton in Hr as ->. unfold match_mount in Hm.
    destruct (cut_prefix "/api/v1" path) as [x|] eqn:Ex; [|done]. apply cut_prefix_app in Ex as ->.
    unfold match_pattern. cbn [snd].
    change ("/api/v1" ++ x)%string with ("" ++ String "/" ("api" ++ String "/" ("v1" ++ x)))%string.
    by rewrite !Split_app by done.
  - unfold matching_mounts. cbn [map fst imap omap list_omap]. cbn. by rewrite Hm.
Qed.

(** A method [chi] does not know. *)
Lemma dispatch_unknown (rt : Router S) (path : option string) (r : Request) :
  Method r ∉ chi_methods → dispatch rt path r = chi_MethodNotAllowed r.
Proof. intros Hm. unfold dispatch. by rewrite chi_find_unknown. Qed.

Lemma server_dispatch_api (cfg : Config) (r : Request) (rest : string) :
  Method r ∈ chi_methods → match_mount "/api/v1" (chi_route_path (Path r)) = Some rest →
  dispatch (server_router cfg) None r = serve (api_router cfg) (Some rest) r.
Proof.
  intros Hmethod Hm. unfold dispatch at 1. cbn [default]. rewrite (api_mount_only cfg _ rest (Method r) Hmethod Hm).
  by destruct (server_router_parts cfg) as (_ & ->).
Qed.
End request_path.

(** ** Programs that set headers *)

Section setters.
Context {S : Type}.

(** [m] sets headers other than the security headers. *)
Definition sets (m : hio S unit) : Prop := ∀ w, ready w → wp m (λ _ w' tr, ready w' ∧ tr = []) w.

Lemma sets_hreturn : sets (hreturn tt).
Proof. by intros w Hw. Qed.

Lemma sets_update (f : Header → Header) :
  (∀ h k, k ∈ security_names → header_Get (f h) k = header_Get h k) → sets (on_writer (rw_update_header f)).
Proof. intros Hf w Hw. split; [by apply ready_update|done]. Qed.

Lemma sets_Header_Set (k v : string) : other_than security_names k = true → sets (Header_Set k v).
Proof.
  intros Hk. apply sets_update. intros h k' Hk'. apply header_Get_Set_ne. by apply (other_than_ne security_names).
Qed.

Lemma sets_Header_Add (k v : string) : other_than security_names k = true → sets (Header_Add k v).
Proof.
  intros Hk. apply sets_update. intros h k' Hk'. apply header_Get_Add_ne. by apply (other_than_ne security_names).
Qed.

Lemma sets_when (b : bool) (m : hio S unit) : sets m → sets (when b m).
Proof. destruct b; [done|]. intros _. apply sets_hreturn. Qed.

Lemma wp_sets (m k : hio S unit) (Q : unit → ResponseWriter → list (S * S) → Prop) (w : ResponseWriter) :
  sets m → ready w → (∀ w', ready w' → wp k Q w') → wp (m ;! k) Q w.
Proof.
  intros Hm Hw Hk. apply wp_hseq. eapply wp_mono; [by apply Hm|]. intros [] w' tr [Hw' ->]. by apply Hk.
Qed.

Lemma sets_hseq (m k : hio S unit) : sets m → sets k → sets (m ;! k).
Proof. intros Hm Hk w Hw. apply wp_sets; [done|done|]. intros w' Hw'. by apply Hk. Qed.

Lemma sets_limit_headers (limit remaining window : Z) : sets (setRateLimitHeaders limit remaining window).
Proof. repeat apply sets_hseq; apply sets_Header_Set; by vm_compute. Qed.
End setters.

(** ** Middleware *)

Lemma wp_SecurityHeaders {S} (cfg : SecurityHeadersConfig) (next : Handler S) (r : Request)
    (Q : unit → ResponseWriter → list (S * S) → Prop) (w : ResponseWriter) :
  wp (next r) Q (rw_update_header (with_security_headers cfg) w) → wp (SecurityHeaders cfg next r) Q w.
Proof.
  unfold SecurityHeaders, with_security_headers, security_headers. cbv zeta.
  rewrite hsts_value_nonempty. by destruct (0 <? HSTSMaxAge cfg).
Qed.

(** The body of an error. *)
Definition error_line (message : string) : string := encode_line (error_json message).

Definition too_large (cfg : Config) : string :=
  error_line ("request body too large (max " ++ Itoa (MaxBodyBytes cfg) ++ " bytes)").

(** Steps that read the clock. *)
Definition idle {S} `{HasClock S} (tr : list (S * S)) : Prop := Forall (λ p, p.2 = (read_clock p.1).2) tr.

Section limiter_steps.
Context {S : Type} `{HasClock S} `{HasLimiter S}.

(** The critical section of the limiter for [r] in [s1], with the clock of [s0]. *)
Definition charged (r : Request) (s0 s1 : S) : decision * RateLimiter :=
  take (get_limiter s1) (rate_key (rl_cfg (get_limiter s1)) r) (read_clock s0).1.

Definition lets_pass (r : Request) (s0 s1 : S) : bool := allowed (rl_cfg (get_limiter s1)) (charged r s0 s1).1.

(** The two steps of the limiter. *)
Definition limiter_steps (r : Request) (s0 s1 : S) : list (S * S) :=
  [(s0, (read_clock s0).2); (s1, put_limiter (charged r s0 s1).2 s1)].
End limiter_steps.

(** What the relations between answers and steps must admit for the middleware to
    answer by itself: [R] before the limiter and [Ri] behind it, for the requests
    [Q]. *)
Record admits {S E} `{PgLaws S E} `{HasClock S} `{HasLimiter S} (cfg : Config) (Q : Request → Prop)
    (R Ri : Z → string → list (S * S) → Prop) : Prop := mkAdmits {
  admits_preflight r : Q r → Method r = "OPTIONS" → R 204 "" [];
  admits_pass r s0 s1 st b tr : Q r → lets_pass r s0 s1 = true → Ri st b tr → R st b (limiter_steps r s0 s1 ++ tr)%list;
  admits_limited r s0 s1 : Q r → lets_pass r s0 s1 = false → R 429 (error_line "rate limit exceeded") (limiter_steps r s0 s1);
  admits_later st b tr1 tr2 : idle tr1 → Ri st b tr2 → Ri st b (tr1 ++ tr2)%list;
  admits_unauthorized r msg :
    auth_enabled cfg = true → Q r → refusal (auth_config cfg) (header_Get (ReqHeader r) "Authorization") msg →
    Ri 401 (error_line msg) []
}.

(** The answers of the routers to a path or method they do not know. *)
Definition admits_fallback {S} (Ri : Z → string → list (S * S) → Prop) : Prop :=
  ∀ st b, fallback_answer st b → Ri st b [].

(** The request behind [MaxBodySize]. *)
Definition limited (cfg : Config) (r : Request) : Request := with_body r (MaxBytesReader (Body r) (MaxBodyBytes cfg)).

Section quiet_steps.
Context {S E : Type} `{UuidLib} `{ServerLaws S E}.

Lemma idle_quiet (tr : list (S * S)) : idle tr → quiet tr.
Proof.
  unfold idle, quiet. intros Hi. eapply list.Forall_impl; [exact Hi|]. intros [s s'] Hs. cbn in *. subst s'. apply clock_step.
Qed.

Lemma limiter_steps_quiet (r : Request) (s0 s1 : S) : quiet (limiter_steps r s0 s1).
Proof.
  apply quiet_cons; [apply clock_step|]. apply quiet_cons; [apply limiter_keeps_db|apply quiet_nil].
Qed.

(** A relation on the effects on the database only. *)
Lemma admits_quiet (cfg : Config) (Q : Request → Prop) (R : Z → string → list (S * S) → Prop) :
  (∀ st b tr1 tr2, quiet tr1 → R st b tr2 → R st b (tr1 ++ tr2)%list) →
  (∀ r, Q r → Method r = "OPTIONS" → R 204 "" []) → R 429 (error_line "rate limit exceeded") [] →
  (∀ r msg, auth_enabled cfg = true → Q r →
     refusal (auth_config cfg) (header_Get (ReqHeader r) "Authorization") msg → R 401 (error_line msg) []) →
  admits cfg Q R R.
Proof.
  intros Hl Hpre Hlim Hno. split; [done|..].
  - intros r s0 s1 st b tr _ _. apply Hl, limiter_steps_quiet.
  - intros r s0 s1 _ _. rewrite <- (app_nil_r (limiter_steps r s0 s1)). apply Hl; [apply limiter_steps_quiet|done].
  - intros st b tr1 tr2 Hi. by apply Hl, idle_quiet.
  - done.
Qed.
End quiet_steps.

Section middleware.
Context {S E : Type} `{UuidLib} `{ServerLaws S E} `{ChiLaws S}.
Context (cfg : Config) (Q : Request → Prop) (R Ri : Z → string → list (S * S) → Prop) (HR : admits cfg Q R Ri).

Lemma serves_MaxBodySize (n : nat) (Qo : Request → Prop) (next : Handler S) :
  (∀ r, Qo r → MaxBodyBytes cfg < ContentLength r → R 413 (too_large cfg) []) → (∀ r, Qo r → Q (limited cfg r)) →
  serves n R Q next → serves n R Qo (MaxBodySize (MaxBodyBytes cfg) next).
Proof.
  intros Hbig HQ Hn r w Hr Hw. unfold MaxBodySize. destruct (Z.ltb_spec (MaxBodyBytes cfg) (ContentLength r)).
  - apply wp_writeAuthError; [apply Hw|]. apply served_json; [done|cbn; lia|by apply (Hbig r)].
  - apply Hn; [by apply HQ|done].
Qed.

Lemma serves_CORS (n : nat) (c : CORSConfig) (next : Handler S) : serves n R Q next → serves n R Q (CORS c next).
Proof.
  intros Hn r w Hr Hw. unfold CORS. cbv zeta. destruct (String.eqb _ ""); [by apply Hn|].
  destruct (negb _); [by apply Hn|].
  apply wp_sets; [|done|intros w1 Hw1].
  { destruct (is_wildcard c); [by apply sets_Header_Set|].
    apply sets_hseq; [by apply sets_Header_Set|by apply sets_Header_Add]. }
  apply wp_sets; [by apply sets_when, sets_Header_Set|done|intros w2 Hw2].
  apply wp_sets; [by apply sets_when, sets_Header_Set|done|intros w3 Hw3].
  destruct (String.eqb_spec (Method r) "OPTIONS") as [Ho|_]; [|by apply Hn].
  apply wp_sets; [by apply sets_Header_Set|done|intros w4 Hw4].
  apply wp_sets; [by apply sets_Header_Set|done|intros w5 Hw5].
  apply wp_sets; [by apply sets_Header_Set|done|intros w6 Hw6]. destruct w6 as [h sent b], Hw6 as [[Hs Hb] Hh].
  cbn in Hs, Hb, Hh. subst sent b.
  apply wp_on_writer. split; [cbn; lia|]. split; [exact Hh|]. by eapply admits_preflight.
Qed.

(** The two steps of the limiter. *)
Lemma serves_limit_requests (n : nat) (next : Handler S) : serves n Ri Q next → serves (2 + n) R Q (limit_requests next).
Proof.
  intros Hn r w Hr Hw. unfold limit_requests. apply wp_hseq, wp_on_state, mwp_prim. intros s0.
  apply wp_hseq, wp_on_state, mwp_prim. intros s1. cbv beta zeta.
  pose proof (λ st b tr, admits_pass _ _ _ _ HR r s0 s1 st b tr Hr) as Hpass.
  pose proof (admits_limited _ _ _ _ HR r s0 s1 Hr) as Hlim.
  unfold limiter_steps, lets_pass, charged in Hpass, Hlim.
  destruct (take (get_limiter s1) _ _) as [d rl']. cbn [fst snd] in *.
  set (p0 := (s0, (read_clock s0).2)) in *. set (p1 := (s1, put_limiter rl' s1)) in *.
  assert (Hnext : ∀ w', ready w' → allowed (rl_cfg (get_limiter s1)) d = true →
            wp (next r) (λ _ w2 tr2, served (2 + n) R w2 ([p0] ++ [p1] ++ tr2)%list) w').
  { intros w' Hw' Ha. eapply wp_mono; [by apply Hn|]. intros [] w2 tr2 Hs.
    apply (served_app n 2 Ri R w2 [p0; p1] tr2 Hs); [cbn; lia|]. intros st b. by apply Hpass. }
  assert (Href : ∀ w', ready w' → allowed (rl_cfg (get_limiter s1)) d = false →
            wp (writeAuthError 429 "rate limit exceeded") (λ _ w2 tr2, served (2 + n) R w2 ([p0] ++ [p1] ++ tr2)%list) w').
  { intros w' Hw' Ha. apply wp_writeAuthError; [apply Hw'|]. apply served_json; [done|cbn; lia|by apply Hlim]. }
  clearbody p0 p1. destruct d as [| |c ws]; cbn [allowed] in *.
  - apply wp_sets; [apply sets_limit_headers|done|intros w1 Hw1].
    apply wp_sets; [by apply sets_Header_Set|done|]. intros w2 Hw2. by apply Href.
  - apply wp_sets; [apply sets_limit_headers|done|]. intros w1 Hw1. by apply Hnext.
  - apply wp_sets; [apply sets_limit_headers|done|intros w1 Hw1].
    destruct (c <=? _); cbn [negb]; [by apply Hnext|].
    apply wp_sets; [by apply sets_Header_Set|done|]. intros w2 Hw2. by apply Href.
Qed.

(** *** Authentication *)

Lemma mwp_validateJWT (token secret iss : string) :
  mwp (validateJWT token secret iss : M S _) (λ res tr,
    idle tr ∧ (List.length tr ≤ 1)%nat ∧ ∃ now,
      match res with
      | Ok claims => valid_token secret iss now token claims
      | Err _ => ∀ claims, ¬ valid_token secret iss now token claims
      end).
Proof.
  unfold validateJWT. destruct (verify_token token secret) as [c|e] eqn:Ev.
  - apply mwp_mseq, mwp_prim. intros s. apply mwp_mreturn. cbn [app]. split; [|split; [cbn; lia|]].
    + by apply Forall_cons_2; [|apply Forall_nil_2].
    + exists (Unix (read_clock s).1). destruct (check_claims c (Unix (read_clock s).1) iss) as [c'|e] eqn:Ec.
      * pose proof Ec as (-> & _)%check_claims_Ok. by apply valid_token_checks.
      * intros claims [Hv Hc]%valid_token_checks. rewrite Ev in Hv. injection Hv as <-. congruence.
  - apply mwp_mreturn. split; [apply Forall_nil_2|]. split; [cbn; lia|]. exists 0.
    intros claims [Hv _]%valid_token_checks. congruence.
Qed.

(** Beyond [Auth] are the requests of a skipped path and, with the identity it
    proves, those with credentials. *)
Lemma serves_Auth (n : nat) (Qa : Request → Prop) (next : Handler S) :
  auth_enabled cfg = true →
  (∀ r, Q r → Path r ∈ SkipPaths (auth_config cfg) → Qa r) →
  (∀ r now sub role m, Q r → credentials (auth_config cfg) now (header_Get (ReqHeader r) "Authorization") sub role m →
     Qa (with_identity r sub role m)) →
  serves n Ri Qa next → serves (1 + n) Ri Q (Auth (auth_config cfg) next).
Proof.
  intros He Hskip Hcred Hn r w Hr Hw.
  assert (Hno : ∀ msg tr, idle tr → (List.length tr ≤ 1)%nat →
            refusal (auth_config cfg) (header_Get (ReqHeader r) "Authorization") msg → wp (writeAuthError 401 msg) (λ _ w' tr', served (1 + n) Ri w' (tr ++ tr')%list) w).
  { intros msg tr Hq Hl Href. apply wp_writeAuthError; [apply Hw|]. apply served_json; [done|rewrite app_nil_r; lia|].
    apply (admits_later _ _ _ _ HR); [done|]. by apply (admits_unauthorized _ _ _ _ HR r). }
  assert (Hyes : ∀ tr r', idle tr → (List.length tr ≤ 1)%nat → Qa r' →
            wp (next r') (λ _ w' tr', served (1 + n) Ri w' (tr ++ tr')%list) w).
  { intros tr r' Hq Hl Hr'. eapply wp_mono; [by apply Hn|]. intros [] w' tr' Hs.
    apply (served_app n 1 Ri Ri); [done|done|]. intros st b. by apply (admits_later _ _ _ _ HR). }
  assert (idle_nil : idle ([] : list (S * S))) by apply Forall_nil_2.
  assert (Hl0 : (@List.length (S * S) [] ≤ 1)%nat) by (cbn; lia).
  pose proof (λ msg, Hno msg [] idle_nil Hl0) as Hno0. cbn [app] in Hno0.
  unfold Auth. destruct (existsb _ _) eqn:Es.
  { apply (Hyes [] r idle_nil Hl0). apply Hskip; [done|by apply existsb_eqb]. }
  pose proof (λ now sub role m, Hcred r now sub role m Hr) as Hc. clear Hcred Hskip.
  set (ac := auth_config cfg) in *. set (h := header_Get _ _) in *. clearbody h ac.
  destruct (String.eqb_spec h "") as [->|Hne]; [by apply Hno0, refused_missing|].
  destruct (SplitN2_cases " " h) as [(scheme & cred & -> & -> & Hnb)|[-> Hnb]]; [|by apply Hno0, refused_malformed].
  destruct (String.eqb_spec (ToLower scheme) "bearer") as [Hb|Hb].
  { unfold auth_bearer. destruct (String.eqb_spec (JWTSecret ac) "") as [Hs|Hs]; [by apply Hno0, (refused_no_secret _ _ scheme cred)|].
    apply wp_hseq, wp_on_state. eapply mwp_mono; [apply mwp_validateJWT|].
    intros [claims|e] tr (Hq & Hl & now & Hv); [|by apply Hno; [..|apply (refused_token _ _ scheme cred now)]].
    apply Hyes; [done|done|]. apply (Hc now). by apply (by_token ac now _ scheme cred claims). }
  destruct (String.eqb_spec (ToLower scheme) "apikey") as [Ha|Ha]; [|by apply Hno0, (refused_scheme _ _ scheme cred)].
  unfold auth_apikey. destruct (Z.eqb_spec (len_list (APIKeys ac)) 0) as [Hk|Hk].
  { apply Hno0, (refused_no_keys _ _ scheme cred); [done..|]. by destruct (APIKeys ac). }
  destruct (validateAPIKey cred (APIKeys ac)) as [entry|] eqn:Ek.
  - apply validateAPIKey_Some in Ek as (before & after & Hkeys & Hkey & Hafter).
    apply (Hyes [] _ idle_nil Hl0). apply (Hc 0). by apply (by_key ac 0 _ scheme cred entry before after).
  - apply Hno0, (refused_key _ _ scheme cred); [done..| |by apply validateAPIKey_None]. by intros Hnil; rewrite Hnil in Hk.
Qed.
End middleware.

(** ** Routers *)

Section routers.
Context {S E : Type} `{UuidLib} `{ServerLaws S E} `{ChiLaws S}.

(** The routes of the four resources. *)
Definition api_routes : list (string * string * ((string → string) → Handler S)) :=
  rt_routes GatewayHandler_Routes ++ rt_routes UpstreamHandler_Routes
  ++ rt_routes RouteHandler_Routes ++ rt_routes ThreatHandler_Routes.

Lemma api_routes_sub :
  rt_routes GatewayHandler_Routes ⊆ api_routes ∧ rt_routes UpstreamHandler_Routes ⊆ api_routes
  ∧ rt_routes RouteHandler_Routes ⊆ api_routes ∧ rt_routes ThreatHandler_Routes ⊆ api_routes.
Proof.
  unfold api_routes.
  generalize (rt_routes GatewayHandler_Routes) (rt_routes UpstreamHandler_Routes)
    (rt_routes RouteHandler_Routes) (rt_routes ThreatHandler_Routes). intros a b c d.
  repeat split; intros x Hx; rewrite !elem_of_app; auto.
Qed.

Section policy.
Context (cfg : Config) (R Ri : Z → string → list (S * S) → Prop).

Lemma served_fallback (n : nat) (h : Handler S) (st : Z) (b : string) (r : Request) (w : ResponseWriter) :
  falls_back h st b → Ri st b [] → ready w → wp (h r) (λ _, served n Ri) w.
Proof.
  intros Hh Hfb [Hu Hk]. eapply wp_mono; [by apply (chi_fallback h st b)|]. intros [] w' tr (-> & <- & <- & Hkeep).
  split; [cbn; lia|]. split; [|exact Hfb].
  intros k v Hkv. rewrite Hkeep; [by apply Hk|apply Hk, list_elem_of_here|by eapply security_headers_names].
Qed.

Lemma serves_fallback (n : nat) (h : Handler S) (r : Request) (w : ResponseWriter) :
  h = chi_NotFound ∨ h = chi_MethodNotAllowed → admits_fallback Ri → ready w → wp (h r) (λ _, served n Ri) w.
Proof.
  intros [->| ->] Hfb.
  - apply (served_fallback _ _ 404 not_found_body); [by left|]. apply Hfb. by left.
  - apply (served_fallback _ _ 405 ""); [by right|]. apply Hfb. by right.
Qed.

(** A dispatch: only routes of the request's method can run. *)
Lemma serves_dispatch (n : nat) (Q : Request → Prop) (rt : Router S) (path : option string) :
  (∀ r, Q r → admits_fallback Ri) →
  (∀ r p h up w, Q r → (Method r, p, h) ∈ rt_routes rt → ready w → wp (h up r) (λ _, served n Ri) w) →
  (∀ p h rest, (p, h) ∈ rt_mounts rt → serves n Ri Q (h rest)) →
  serves n Ri Q (dispatch rt path).
Proof.
  intros Hfb Hr Hm r w HQ Hw. specialize (Hfb r HQ). unfold dispatch.
  destruct (chi_find _ _ _ _) as [i up|j rest| |] eqn:Ef.
  - apply chi_find_sound in Ef as [pattern Hp].
    assert (Hi : fst <$> (rt_routes rt !! i) = Some (Method r, pattern)) by (rewrite <- list_lookup_fmap; exact Hp).
    clear Hp. destruct (rt_routes rt !! i) as [[[m p] h]|] eqn:Ei; [|discriminate Hi].
    cbn in Hi. injection Hi as -> ->. apply (Hr r pattern); [done|by apply list_elem_of_lookup_2 with i|done].
  - destruct (rt_mounts rt !! j) as [[p h]|] eqn:Ej; [|by apply serves_fallback; [left|..]].
    apply (Hm p); [by apply list_elem_of_lookup_2 with j|done|done].
  - by apply serves_fallback; [left|..].
  - by apply serves_fallback; [right|..].
Qed.

(** Below authentication. *)
Lemma serves_api_dispatch (n : nat) (Qa : Request → Prop) (path : option string) :
  (∀ r, Qa r → admits_fallback Ri) →
  (∀ r p h up w, Qa r → (Method r, p, h) ∈ api_routes → ready w → wp (h up r) (λ _, served n Ri) w) →
  serves n Ri Qa (dispatch (api_router cfg) path).
Proof.
  intros Hfb Hroutes. destruct (api_router_parts cfg) as (_ & Hrt & Hmt). apply serves_dispatch; [exact Hfb|..].
  - intros r p h up w _ Hin. rewrite Hrt in Hin. by apply elem_of_nil in Hin.
  - intros p h rest Hin. rewrite Hmt in Hin.
    assert (Hleaf : ∀ rt : Router S, rt_middlewares rt = [] → rt_mounts rt = [] → rt_routes rt ⊆ api_routes →
              serves n Ri Qa (serve rt rest)).
    { intros rt Hmw Hno Hsub. unfold serve. rewrite Hmw. cbn [chain]. apply serves_dispatch; [exact Hfb|..].
      - intros r q k up w Hr Hq. apply (Hroutes r q k up w Hr). by apply Hsub.
      - intros q k rest' Hq. rewrite Hno in Hq. by apply elem_of_nil in Hq. }
    destruct api_routes_sub as (S1 & S2 & S3 & S4).
    apply elem_of_cons in Hin as [Heq|Hin]; [injection Heq as -> ->; exact (Hleaf GatewayHandler_Routes eq_refl eq_refl S1)|].
    apply elem_of_cons in Hin as [Heq|Hin]; [injection Heq as -> ->; exact (Hleaf UpstreamHandler_Routes eq_refl eq_refl S2)|].
    apply elem_of_cons in Hin as [Heq|Hin]; [injection Heq as -> ->; exact (Hleaf RouteHandler_Routes eq_refl eq_refl S3)|].
    apply list_elem_of_singleton in Hin. injection Hin as -> ->. exact (Hleaf ThreatHandler_Routes eq_refl eq_refl S4).
Qed.

(** The requests [Qo] before the body limit, [Q] behind it and [Qa] behind
    authentication. *)
Record policy (Qo Q Qa : Request → Prop) : Prop := mkPolicy {
  policy_admits : admits cfg Q R Ri;
  policy_too_large r : Qo r → MaxBodyBytes cfg < ContentLength r → R 413 (too_large cfg) [];
  policy_limited r : Qo r → Q (limited cfg r);
  policy_open r : auth_enabled cfg = false → Q r → Qa r;
  policy_skip r : auth_enabled cfg = true → Q r → Path r = "/health" → Qa r;
  policy_identity r now sub role m :
    auth_enabled cfg = true → Q r →
    credentials (auth_config cfg) now (header_Get (ReqHeader r) "Authorization") sub role m →
    Qa (with_identity r sub role m)
}.

Lemma serves_mono (n p : nat) (Q : Request → Prop) (h : Handler S) : (n ≤ p)%nat → serves n Ri Q h → serves p Ri Q h.
Proof. intros Hn Hh r w Hr Hw. eapply wp_mono; [by apply Hh|]. intros [] w' tr [Hl ?]. split; [lia|done]. Qed.

Lemma serves_api (n : nat) (Qo Q Qa : Request → Prop) (path : option string) :
  policy Qo Q Qa → serves n Ri Qa (dispatch (api_router cfg) path) → serves (1 + n) Ri Q (serve (api_router cfg) path).
Proof.
  intros HP Hd. unfold serve. destruct (api_router_parts cfg) as (-> & _ & _).
  destruct (auth_enabled cfg) eqn:He; cbn [chain].
  - apply (serves_Auth cfg Q R Ri (policy_admits _ _ _ HP) n Qa); [done| | |done].
    + intros r Hr Hp. apply (policy_skip _ _ _ HP); [done|done|]. by apply list_elem_of_singleton in Hp.
    + intros r now sub role m Hr. by apply (policy_identity _ _ _ HP).
  - apply (serves_mono n (1 + n)); [lia|]. intros r w Hr Hw. apply Hd; [by apply (policy_open _ _ _ HP)|done].
Qed.

(** Above the dispatch. *)
Lemma serves_inner (n : nat) (Qo Q Qa : Request → Prop) :
  policy Qo Q Qa → serves n Ri Q (dispatch (server_router cfg) None) → serves (2 + n) R Qo (inner cfg).
Proof.
  intros HP Hd. pose proof (policy_admits _ _ _ HP) as HR. apply (serves_MaxBodySize cfg Q R (2 + n) Qo); [apply HP|apply HP|].
  destruct (0 <? len_list (CORSOrigins cfg)); cbn [chain].
  - apply (serves_CORS cfg Q R Ri HR). by apply (serves_limit_requests cfg Q R Ri HR).
  - by apply (serves_limit_requests cfg Q R Ri HR).
Qed.

Lemma serves_server (n : nat) (Qo Q Qa : Request → Prop) (r : Request) :
  policy Qo Q Qa → (∀ r', same_request r r' → RemoteAddr r' = client_address r → Qo r') → serves n Ri Q (dispatch (server_router cfg) None) →
  wp (server cfg r) (λ _, served (2 + n) R) newResponseWriter.
Proof.
  intros HP Hr Hd. destruct (server_program cfg r) as (r' & Hs & Ha & ->).
  apply wp_SecurityHeaders, (serves_inner n Qo Q Qa HP Hd); [by apply Hr|].
  split; [apply unsent_update, unsent_new|]. intros k v Hkv. by apply with_security_headers_Get.
Qed.

(** The whole server, whatever the path. *)
Lemma server_serves (Qo Q Qa : Request → Prop) (r : Request) :
  policy Qo Q Qa → (∀ r', same_request r r' → RemoteAddr r' = client_address r → Qo r') →
  Ri 200 (encode_line health_json) [] → admits_fallback Ri →
  (∀ r p h up w, Qa r → (Method r, p, h) ∈ api_routes → ready w → wp (h up r) (λ _, served 3 Ri) w) →
  wp (server cfg r) (λ _, served 6 R) newResponseWriter.
Proof.
  intros HP Hr Hok Hfb Hroutes. apply (serves_server 4 Qo Q Qa); [done|done|].
  destruct (server_router_parts cfg) as (Hrt & Hmt). apply serves_dispatch; [done|..].
  - intros r' p h up w _ Hin Hw. rewrite Hrt in Hin. apply list_elem_of_singleton in Hin as [= _ -> ->].
    apply wp_writeJSON; [apply Hw|]. apply served_json; [done|cbn; lia|done].
  - intros p h rest Hin. rewrite Hmt in Hin. apply list_elem_of_singleton in Hin as [= -> ->].
    apply (serves_api 3 Qo Q Qa); [done|]. by apply serves_api_dispatch.
Qed.
End policy.
End routers.
