(* ===== verification/Routing.v ===== *)
(** * Which requests reach which endpoint

    The paths of the endpoints, and that the routers built by main.go and the
    [Routes] methods take a request with the method and a path of an endpoint to
    its handler with the ID of the path, under the laws of [chi]. *)

From S2P Require Import Prelude GoNum GoStrings GoTime Json Http Jwt Respond Threads RateLimit Auth Helpers.
From S2P Require Import Security Config Pool Model Sql Schema Postgres Memory Repository RepoFacts RepoSpec Service.
From S2P Require Import Handlers HandlerSpec Effects Endpoints Server ChiRef ServerSpec.

(** ** Paths *)

(** Where the router of the endpoint is mounted below [/api/v1]. *)
Definition endpoint_mount (ep : endpoint) : string :=
  match ep with
  | CreateGateway | ListGateways | GetGateway _ | ActivateGateway _ | DeactivateGateway _ => "/gateways"
  | CreateUpstream | ListUpstreams | GetUpstream _ => "/upstreams"
  | CreateRoute | ListRoutes | DeleteRoute _ => "/routes"
  | ListThreats => "/threats"
  end.

(** The rest of the path at that router. *)
Definition endpoint_below (ep : endpoint) : string :=
  match ep with
  | GetGateway id | GetUpstream id | DeleteRoute id => "/" ++ id
  | ActivateGateway id => "/" ++ id ++ "/activate"
  | DeactivateGateway id => "/" ++ id ++ "/deactivate"
  | _ => "/"
  end.

(** A final slash may be left out at the root of a router. *)
Definition endpoint_paths (ep : endpoint) : list string :=
  ("/api/v1" ++ endpoint_mount ep ++ endpoint_below ep)%string
  :: match endpoint_id ep with None => [("/api/v1" ++ endpoint_mount ep)%string] | Some _ => [] end.

(** An ID is one segment of the path. *)
Definition endpoint_ok (ep : endpoint) : Prop :=
  match endpoint_id ep with None => True | Some id => no_byte "/" id = true ∧ id ≠ "" end.

Lemma method_known (ep : endpoint) (r : Request) : Method r = endpoint_method ep → Method r ∈ chi_methods.
Proof. intros ->. apply list_elem_of_In. destruct ep; cbn; tauto. Qed.

(** ** Routers *)

Section routing.
Context {S E : Type} `{UuidLib} `{ServerLaws S E} `{ChiLaws S}.

Definition endpoint_router (ep : endpoint) : Router S :=
  match ep with
  | CreateGateway | ListGateways | GetGateway _ | ActivateGateway _ | DeactivateGateway _ => GatewayHandler_Routes
  | CreateUpstream | ListUpstreams | GetUpstream _ => UpstreamHandler_Routes
  | CreateRoute | ListRoutes | DeleteRoute _ => RouteHandler_Routes
  | ListThreats => ThreatHandler_Routes
  end.

Lemma match_api (x : string) : match_mount "/api/v1" ("/api/v1" ++ String "/" x) = Some (String "/" x).
Proof. reflexivity. Qed.

Lemma endpoint_rest (ep : endpoint) (path : string) :
  path ∈ endpoint_paths ep →
  ∃ rest, match_mount "/api/v1" path = Some rest ∧ match_mount (endpoint_mount ep) rest = Some (endpoint_below ep).
Proof.
  unfold endpoint_paths. intros [->|Hp]%elem_of_cons.
  - exists (endpoint_mount ep ++ endpoint_below ep)%string. split; destruct ep; reflexivity.
  - exists (endpoint_mount ep). destruct ep; cbn [endpoint_id] in Hp; try (by apply elem_of_nil in Hp);
      apply list_elem_of_singleton in Hp as ->; split; reflexivity.
Qed.

(** At most one resource is mounted above a path. *)
Lemma resource_mounts (ep : endpoint) (rest x : string) :
  match_mount (endpoint_mount ep) rest = Some x →
  ∃ j, matching_mounts ["/gateways"; "/upstreams"; "/routes"; "/threats"] rest = [(j, x)]
    ∧ ["/gateways"; "/upstreams"; "/routes"; "/threats"] !! j = Some (endpoint_mount ep).
Proof.
  intros Hm. assert (Hall : ∀ m, m ∈ ["/gateways"; "/upstreams"; "/routes"; "/threats"] → m ≠ endpoint_mount ep →
                       match_mount m rest = None).
  { intros m Hin Hne. revert Hm. unfold match_mount.
    destruct (cut_prefix (endpoint_mount ep) rest) as [y|] eqn:Ey; [|done]. apply cut_prefix_app in Ey as ->.
    repeat (apply elem_of_cons in Hin as [->|Hin]; [by destruct ep|]). by apply elem_of_nil in Hin. }
  unfold matching_mounts. cbn -[match_mount].
  assert (Hcase : ∃ j, ["/gateways"; "/upstreams"; "/routes"; "/threats"] !! j = Some (endpoint_mount ep))
    by (destruct ep; first [(by exists 0%nat)|(by exists 1%nat)|(by exists 2%nat)|(by exists 3%nat)]).
  destruct Hcase as [j Hj]. exists j. split; [|done].
  destruct ep; (destruct j as [|[|[|[|j]]]]; cbn in Hj; try discriminate Hj; cbn [endpoint_mount] in *;
    rewrite Hm, ?(Hall "/gateways"), ?(Hall "/upstreams"), ?(Hall "/routes"), ?(Hall "/threats") by (done || set_solver);
    reflexivity).
Qed.

Lemma api_dispatch_resource (cfg : Config) (ep : endpoint) (rest x : string) (r : Request) :
  Method r ∈ chi_methods → match_mount (endpoint_mount ep) rest = Some x →
  dispatch (api_router cfg) (Some rest) r = dispatch (endpoint_router ep) (Some x) r.
Proof.
  intros Hmethod Hm. destruct (resource_mounts ep rest x Hm) as (j & Hj & Hep).
  unfold dispatch at 1. destruct (api_router_parts cfg) as (_ & -> & ->). cbn [default map fst].
  rewrite (chi_find_mount _ _ _ _ j x); [|exact Hmethod|intros rt Hrt; by apply elem_of_nil in Hrt|exact Hj].
  destruct ep; (destruct j as [|[|[|[|j]]]]; cbn in Hep; try discriminate Hep; reflexivity).
Qed.

(** The only route that matches a path below a router without mounts. *)
Lemma dispatch_route (rt : Router S) (i : nat) (pattern : string) h (path : string) ps (r : Request) :
  Method r ∈ chi_methods → rt_mounts rt = [] → rt_routes rt !! i = Some (Method r, pattern, h) →
  matching_routes (map fst (rt_routes rt)) (Method r) path = [(i, ps)] → NoDup (map fst ps) →
  ∃ up, (∀ k v, (k, v) ∈ ps → up k = v) ∧ dispatch rt (Some path) r = h up r.
Proof.
  intros Hmethod Hno Hi Hm Hd. unfold dispatch. cbn [default id]. rewrite Hno. cbn [map].
  destruct (chi_find_route (map fst (rt_routes rt)) [] (Method r) path i ps) as (up & -> & Hup); [done..|].
  exists up. split; [exact Hup|]. by rewrite Hi.
Qed.

(** The parameters of an endpoint's path. *)
Definition endpoint_params (ep : endpoint) : list (string * string) :=
  match endpoint_id ep with None => [] | Some text => [("id", text)] end.

(** The endpoint is the [i]-th route of its router, and the only one that matches. *)
Lemma by_route (ep : endpoint) (i : nat) (r : Request) :
  Method r = endpoint_method ep → rt_mounts (endpoint_router ep) = [] →
  (∃ pattern h, rt_routes (endpoint_router ep) !! i = Some (endpoint_method ep, pattern, h)
     ∧ ∀ up, h up = endpoint_handler ep up) →
  matching_routes (map fst (rt_routes (endpoint_router ep))) (endpoint_method ep) (endpoint_below ep)
    = [(i, endpoint_params ep)] →
  ∃ up, (∀ text, endpoint_id ep = Some text → up "id" = text)
    ∧ dispatch (endpoint_router ep) (Some (endpoint_below ep)) r = endpoint_handler ep up r.
Proof.
  intros Hm Hno (pattern & h & Hi & Hh) Hmatch. rewrite <- Hm in Hi, Hmatch.
  destruct (dispatch_route (endpoint_router ep) i pattern h _ _ r (method_known ep r Hm) Hno Hi Hmatch) as (up & Hup & ->).
  - unfold endpoint_params. destruct (endpoint_id ep); [apply NoDup_singleton|constructor].
  - exists up. split; [|by rewrite Hh]. intros text Ht. apply Hup. unfold endpoint_params. rewrite Ht.
    apply list_elem_of_here.
Qed.

Lemma split_id (text : string) : no_byte "/" text = true → Split "/" ("/" ++ text) = ["";  text].
Proof.
  intros Hno. change ("/" ++ text)%string with ("" ++ String "/" text)%string. rewrite Split_app by done.
  by rewrite Split_single.
Qed.

Lemma split_id_action (text action : string) :
  no_byte "/" text = true → no_byte "/" action = true →
  Split "/" ("/" ++ text ++ String "/" action) = ["";  text; action].
Proof.
  intros Hno Ha. change ("/" ++ text ++ String "/" action)%string with ("" ++ String "/" (text ++ String "/" action))%string.
  rewrite !Split_app by done. by rewrite Split_single.
Qed.

Ltac matching := match goal with H : endpoint_ok _ |- _ =>
  let Hno := fresh in let Hne := fresh in destruct H as [Hno Hne];
  unfold matching_routes, match_pattern; cbn [endpoint_below endpoint_method endpoint_params endpoint_id];
  first [rewrite split_id by done
        |match goal with |- context [(_ ++ ?text ++ String "/" ?action)%string] =>
           rewrite (split_id_action text action) by done end] end.

Lemma endpoint_route (ep : endpoint) (r : Request) :
  Method r = endpoint_method ep → endpoint_ok ep →
  ∃ up, (∀ text, endpoint_id ep = Some text → up "id" = text)
    ∧ dispatch (endpoint_router ep) (Some (endpoint_below ep)) r = endpoint_handler ep up r.
Proof.
  intros Hm Hok.
  assert (Hby : ∀ i, (∃ pattern h, rt_routes (endpoint_router ep) !! i = Some (endpoint_method ep, pattern, h)
                        ∧ ∀ up, h up = endpoint_handler ep up) →
            matching_routes (map fst (rt_routes (endpoint_router ep))) (endpoint_method ep) (endpoint_below ep)
              = [(i, endpoint_params ep)] →
            ∃ up, (∀ text, endpoint_id ep = Some text → up "id" = text)
              ∧ dispatch (endpoint_router ep) (Some (endpoint_below ep)) r = endpoint_handler ep up r).
  { intros i. apply by_route; [done|by destruct ep]. }
  clear Hm. destruct ep as [| |text|text|text| | |text| | |text|].
  - apply (Hby 0%nat); [by eexists _, _|reflexivity].
  - apply (Hby 1%nat); [by eexists _, _|reflexivity].
  - apply (Hby 2%nat); [by eexists _, _|matching; by destruct text].
  - apply (Hby 3%nat); [by eexists _, _|matching; by destruct text].
  - apply (Hby 4%nat); [by eexists _, _|matching; by destruct text].
  - apply (Hby 0%nat); [by eexists _, _|reflexivity].
  - apply (Hby 1%nat); [by eexists _, _|reflexivity].
  - apply (Hby 2%nat); [by eexists _, _|matching; by destruct text].
  - apply (Hby 0%nat); [by eexists _, _|reflexivity].
  - apply (Hby 1%nat); [by eexists _, _|reflexivity].
  - apply (Hby 2%nat); [by eexists _, _|matching; by destruct text].
  - apply (Hby 0%nat); [by eexists _, _|reflexivity].
Qed.
End routing.

(** C17. Routing: a request with the method and a path of an endpoint goes to the
    API's router, and behind its middleware to the handler of that endpoint, which
    is given the ID in the path; no other route or resource takes it. *)
Theorem api_routing {S E} `{UuidLib} `{ServerLaws S E} `{ChiLaws S} (cfg : Config) (ep : endpoint) (r : Request) :
  Method r = endpoint_method ep → chi_route_path (Path r) ∈ endpoint_paths ep → endpoint_ok ep →
  ∃ rest, dispatch (server_router cfg) None r = serve (api_router cfg) (Some rest) r
    ∧ ∀ r', Method r' = Method r →
        ∃ up, (∀ text, endpoint_id ep = Some text → up "id" = text)
          ∧ dispatch (api_router cfg) (Some rest) r' = endpoint_handler ep up r'.
Proof.
  intros Hm Hp Hok. destruct (endpoint_rest ep _ Hp) as (rest & Hrest & Hres). exists rest.
  pose proof (method_known ep r Hm) as Hknown.
  split; [by apply server_dispatch_api|]. intros r' Hm'.
  rewrite (api_dispatch_resource cfg ep rest _ r') by (done || by rewrite Hm').
  apply endpoint_route; [congruence|done].
Qed.

Lemma api_routing_witness :
  let r := activate_request "ApiKey k1" in
  ∃ rest up, up "id" = to_hex "aaaaaaaaaaaaaaaa"
    ∧ dispatch (server_router demo_config) None r = (serve (api_router demo_config) (Some rest) r : hio memory unit)
    ∧ dispatch (api_router demo_config) (Some rest) r = (GatewayHandler_Activate up r : hio memory unit).
Proof.
  destruct (api_routing demo_config (ActivateGateway (to_hex "aaaaaaaaaaaaaaaa")) (activate_request "ApiKey k1"))
    as (rest & Hd & Hr).
  - reflexivity.
  - apply list_elem_of_here.
  - split; [vm_compute; reflexivity|discriminate].
  - destruct (Hr (activate_request "ApiKey k1") eq_refl) as (up & Hup & Heq).
    exists rest, up. split; [by apply Hup|]. split; [exact Hd|exact Heq].
Defined.
