(* ===== verification/ServerSafety.v ===== *)
(** * Every schedule of the server

    Requests are served concurrently: [schedule] is any interleaving of the steps
    of any requests, with any activity beside them that leaves the database alone.
    Whatever it is, each request takes effect at one moment or not at all, as its
    status says; a consistent database stays consistent; requests that only read or
    prove no identity change nothing; every response has the security headers; and
    no request waits for another.  The properties hold for every [chi] and every
    database within their laws. *)

From S2P Require Import Prelude GoNum GoStrings GoTime Json Http Jwt Respond Threads RateLimit Auth Helpers.
From S2P Require Import Security Config Pool Model Sql Schema Postgres Memory Repository RepoFacts RepoSpec Service.
From S2P Require Import Handlers HandlerSpec Effects Consistency Endpoints Server ChiRef ServerSpec.

(** Time passes, the limiter purges its entries, and the like. *)
Definition outside {S E} `{PgLaws S E} : relation S := λ s s', db_of s' = db_of s.

(** The server starts at [s0] and has come to [s] with the threads [ts]. *)
Definition schedule {S E} `{UuidLib} `{ServerLaws S E} `{ChiLaws S} (cfg : Config) (s0 : S)
    (ts : list (thread S)) (s : S) : Prop :=
  rtc (pool_step (server cfg) outside) ([], s0) (ts, s).

(** ** What the routes do *)

Section routes.
Context {S E : Type} `{UuidLib} `{ServerLaws S E} `{ChiLaws S}.

(** The registered routes are the endpoints. *)
Lemma api_routes_endpoints (method pattern : string) h (up : string → string) :
  (method, pattern, h) ∈ (api_routes : list (string * string * ((string → string) → Handler S))) →
  ∃ ep, h up = endpoint_handler ep up ∧ method = endpoint_method ep
        ∧ ∀ text, endpoint_id ep = Some text → up "id" = text.
Proof.
  set (ok := λ x : string * string * ((string → string) → Handler S),
    ∃ ep, x.2 up = endpoint_handler ep up ∧ x.1.1 = endpoint_method ep ∧ ∀ text, endpoint_id ep = Some text → up "id" = text).
  assert (Hall : Forall ok api_routes).
  { unfold api_routes. cbn [rt_routes GatewayHandler_Routes UpstreamHandler_Routes RouteHandler_Routes
      ThreatHandler_Routes Post Get Delete_ Handle NewRouter rt_middlewares rt_mounts app].
    assert (Hep : ∀ ep (k : (string → string) → Handler S) m p, k up = endpoint_handler ep up → m = endpoint_method ep →
              endpoint_id ep = None ∨ endpoint_id ep = Some (up "id") → ok (m, p, k)).
    { intros ep k m p Hk Hm Hid. exists ep. split; [exact Hk|]. split; [exact Hm|].
      intros text Ht. destruct Hid as [Hid|Hid]; congruence. }
    clearbody ok.
    repeat apply Forall_cons_2; [..|apply Forall_nil_2].
    - exact (Hep CreateGateway _ _ _ eq_refl eq_refl (or_introl eq_refl)).
    - exact (Hep ListGateways _ _ _ eq_refl eq_refl (or_introl eq_refl)).
    - exact (Hep (GetGateway (up "id")) _ _ _ eq_refl eq_refl (or_intror eq_refl)).
    - exact (Hep (ActivateGateway (up "id")) _ _ _ eq_refl eq_refl (or_intror eq_refl)).
    - exact (Hep (DeactivateGateway (up "id")) _ _ _ eq_refl eq_refl (or_intror eq_refl)).
    - exact (Hep CreateUpstream _ _ _ eq_refl eq_refl (or_introl eq_refl)).
    - exact (Hep ListUpstreams _ _ _ eq_refl eq_refl (or_introl eq_refl)).
    - exact (Hep (GetUpstream (up "id")) _ _ _ eq_refl eq_refl (or_intror eq_refl)).
    - exact (Hep CreateRoute _ _ _ eq_refl eq_refl (or_introl eq_refl)).
    - exact (Hep ListRoutes _ _ _ eq_refl eq_refl (or_introl eq_refl)).
    - exact (Hep (DeleteRoute (up "id")) _ _ _ eq_refl eq_refl (or_intror eq_refl)).
    - exact (Hep ListThreats _ _ _ eq_refl eq_refl (or_introl eq_refl)). }
  intros Hin. rewrite Forall_forall in Hall. apply list_elem_of_In in Hin. apply (Hall _ Hin).
Qed.

(** An endpoint served by itself. *)
Lemma endpoint_served (R : Z → string → list (S * S) → Prop) (ep : endpoint) (up : string → string) (r : Request)
    (w : ResponseWriter) :
  (∀ text, endpoint_id ep = Some text → up "id" = text) →
  (∀ st v tr, promises ep r (actorFromRequest r) st v tr → R st (encode_line v) tr) →
  ready w → wp (endpoint_handler ep up r) (λ _, served 3 R) w.
Proof.
  intros Hup HR Hw. eapply wp_mono; [by apply wp_endpoint; [apply Hw|]|].
  intros [] w' tr (Hl & st & v & -> & HB). apply served_json; [done|done|by apply HR].
Qed.

(** A route served by what its endpoint tells. *)
Lemma route_served (R : Z → list (S * S) → Prop) (method pattern : string) h (up : string → string) (r : Request)
    (w : ResponseWriter) :
  (method, pattern, h) ∈ api_routes →
  (∀ st tr, outcome st tr → (method = "GET" → quiet tr) → method = "GET" ∨ method = "POST" ∨ method = "DELETE" → R st tr) →
  ready w → wp (h up r) (λ _, served 3 (by_status R)) w.
Proof.
  intros Hin HR Hw. apply (api_routes_endpoints _ _ _ up) in Hin as (ep & -> & -> & Hup).
  apply endpoint_served; [done| |done]. intros st v tr HB. apply (promises_tell _ _ _ (actorFromRequest_nonempty _)) in HB as (Ho & _ & Hq).
  apply HR; [done|done|]. destruct ep; cbn; auto.
Qed.
End routes.

(** ** Policies *)

Section policies.
Context {S E : Type} `{UuidLib} `{ServerLaws S E} `{ChiLaws S} (cfg : Config).

Lemma outcome_later (st : Z) (tr1 tr2 : list (S * S)) : quiet tr1 → outcome st tr2 → outcome st (tr1 ++ tr2).
Proof.
  intros Hq [Hst Ho|Hst Ho|Hst Ho|Hst Ho].
  - apply out_quiet; [done|by apply quiet_app].
  - apply out_created; [done|by apply once_app_l].
  - apply out_changed; [done|by apply once_app_l].
  - apply out_failed; [done|by apply atomic_app_l].
Qed.

Lemma quiet_outcome_later (st : Z) (tr1 tr2 : list (S * S)) :
  quiet tr1 → quiet_outcome st tr2 → quiet_outcome st (tr1 ++ tr2).
Proof. intros Hq [Ho Hq2]. split; [by apply outcome_later|by apply quiet_app]. Qed.

(** Any request. *)
Lemma any_request (r : Request) : wp (server cfg r) (λ _, served 6 (by_status outcome)) newResponseWriter.
Proof.
  apply (server_serves cfg (by_status outcome) (by_status outcome) (λ _, True) (λ _, True) (λ _, True));
    [|done|apply outcome_now; set_solver|intros st b [[-> _]|[-> _]]; apply outcome_now; set_solver|].
  - split; [|by intros; apply outcome_now; set_solver|done..].
    apply admits_quiet; intros; try (apply outcome_now; set_solver). by apply outcome_later.
  - intros r' p h up w _ Hin Hw. by apply (route_served outcome _ _ _ up r' w Hin).
Qed.

(** Requests that are neither POST nor DELETE. *)
Definition read_only (r : Request) : Prop := Method r ≠ "POST" ∧ Method r ≠ "DELETE".

Lemma reading_request (r : Request) :
  read_only r → wp (server cfg r) (λ _, served 6 (by_status quiet_outcome)) newResponseWriter.
Proof.
  intros Hr. apply (server_serves cfg (by_status quiet_outcome) (by_status quiet_outcome) read_only read_only read_only);
    [|..|apply quiet_now; set_solver|intros st b [[-> _]|[-> _]]; apply quiet_now; set_solver|].
  - split; [|by intros; apply quiet_now; set_solver|done..].
    apply admits_quiet; intros; try (apply quiet_now; set_solver). by apply quiet_outcome_later.
  - intros r' (Hm & _) _. unfold read_only. by rewrite Hm.
  - intros r' p h up w [Hp Hd] Hin Hw. apply (route_served quiet_outcome _ _ _ up r' w Hin); [|done].
    intros st tr Ho Hq [Hm|[Hm|Hm]]; [|by destruct (Hp Hm)|by destruct (Hd Hm)]. split; [done|by apply Hq].
Qed.

(** Requests that prove no identity. *)
Definition no_identity (r : Request) : Prop :=
  ∀ now sub role m, ¬ credentials (auth_config cfg) now (header_Get (ReqHeader r) "Authorization") sub role m.

Lemma unauthenticated_policy (R : Z → string → list (S * S) → Prop) (r0 : Request) :
  auth_enabled cfg = true → Path r0 ≠ "/health" → no_identity r0 →
  admits cfg (same_head r0) R R → (MaxBodyBytes cfg < ContentLength r0 → R 413 (too_large cfg) []) →
  policy cfg R R (same_head r0) (same_head r0) (λ _, False).
Proof.
  intros He Hp Hno HR Hbig. split; [done| |by intros r|..].
  - intros r (_ & _ & _ & Hcl). rewrite Hcl. apply Hbig.
  - intros r He'. by rewrite He in He'.
  - intros r _ (_ & Hpath & _) Hp'. congruence.
  - intros r now sub role m _ (_ & _ & Hh & _) Hc. rewrite Hh in Hc. by apply Hno in Hc.
Qed.

Lemma unauthenticated_quiet (r : Request) :
  auth_enabled cfg = true → Path r ≠ "/health" → no_identity r →
  wp (server cfg r) (λ _, served 6 (by_status (λ _, quiet))) newResponseWriter.
Proof.
  intros He Hp Hno. apply (server_serves cfg (by_status (λ _, quiet)) (by_status (λ _, quiet)) (same_head r) (same_head r) (λ _, False)); [|..|done].
  - apply unauthenticated_policy; [done..| |intros; apply quiet_nil].
    apply admits_quiet; intros; try apply quiet_nil. by apply quiet_app.
  - intros r' Hs _. by apply same_request_head.
  - apply quiet_nil.
  - intros st b _. apply quiet_nil.
Qed.

(** The answers to an unauthenticated request below the API. *)
Definition refused (r : Request) (st : Z) (tr : list (S * S)) : Prop :=
  st = 401 ∨ st = 413 ∧ MaxBodyBytes cfg < ContentLength r ∨ st = 204 ∧ Method r = "OPTIONS" ∨ st = 429
  ∨ st = 405 ∧ Method r ∉ chi_methods.

Lemma unauthenticated_refused (r : Request) (rest : string) :
  auth_enabled cfg = true → Path r ≠ "/health" → no_identity r →
  match_mount "/api/v1" (chi_route_path (Path r)) = Some rest →
  wp (server cfg r) (λ _, served 6 (by_status (refused r))) newResponseWriter.
Proof.
  intros He Hp Hno Hrest. assert (HP : policy cfg (by_status (refused r)) (by_status (refused r)) (same_head r) (same_head r) (λ _, False)).
  { apply unauthenticated_policy; [done..| |unfold by_status, refused; tauto].
    unfold by_status, refused. apply admits_quiet; [tauto|..]; [|tauto|tauto].
    intros r' (Hm & _) Ho. rewrite Hm in Ho. tauto. }
  apply (serves_server cfg _ _ 4 (same_head r) (same_head r) (λ _, False) r HP); [by intros r' Hs _; apply same_request_head|].
  intros r' w Hr' Hw. destruct (decide (Method r' ∈ chi_methods)) as [Hknown|Hunknown].
  2: { rewrite dispatch_unknown by done. apply (served_fallback _ _ _ 405 ""); [by right| |done].
       unfold by_status, refused. destruct Hr' as (Hm & _). rewrite Hm in Hunknown. tauto. }
  rewrite (server_dispatch_api cfg r' rest Hknown) by (destruct Hr' as (_ & -> & _); done).
  apply (serves_api cfg _ _ 3 (same_head r) (same_head r) (λ _, False) _ HP); [by intros r2 w2 []|done|done].
Qed.
End policies.

(** ** Properties *)

Section properties.
Context {S E : Type} `{UuidLib} `{ServerLaws S E} `{ChiLaws S}.

Lemma schedule_threads (cfg : Config) (s0 s : S) (ts : list (thread S)) Q :
  (∀ r, wp (server cfg r) (λ _, Q r) newResponseWriter) → schedule cfg s0 ts s → Forall (thread_ok Q) ts.
Proof. intros HQ Hs. exact (pool_adequate _ _ _ _ _ HQ Hs). Qed.

(** The threads of the requests [P], when these are served so. *)
Lemma schedule_thread (cfg : Config) (s0 s : S) (ts : list (thread S)) (t : thread S)
    (P : Request → Prop) (R : Request → Z → string → list (S * S) → Prop) :
  (∀ r, P r → wp (server cfg r) (λ _, served 6 (R r)) newResponseWriter) →
  schedule cfg s0 ts s → t ∈ ts → P (th_request t) →
  (∃ st b tr, (List.length (th_trace t) ≤ 6)%nat ∧ R (th_request t) st b (th_trace t ++ tr)%list)
  ∧ (ended t → R (th_request t) (resp_status (finish (th_writer t))) (resp_body (finish (th_writer t))) (th_trace t)
                  ∧ has_headers default_headers (resp_header (finish (th_writer t)))).
Proof.
  intros HR Hs Hin HP.
  assert (Hall : Forall (thread_ok (λ r w tr, P r → served 6 (R r) w tr)) ts).
  { refine (schedule_threads cfg s0 s ts _ _ Hs). intros r. apply wp_demonic. intros Hr. by apply HR. }
  apply (proj1 (list.Forall_forall _ _) Hall) in Hin. split.
  - destruct (thread_ok_trace _ _ s Hin) as (w & tr & Hw). destruct (Hw HP) as (Hl & _ & Hst).
    exists (sent_status w), (rw_body w), tr. split; [|done]. rewrite length_app in Hl. lia.
  - intros Hf. destruct (thread_ok_ended _ _ Hin Hf HP) as (_ & Hh & Hst). by rewrite finish_eq.
Qed.

Lemma any_thread (cfg : Config) (s0 s : S) (ts : list (thread S)) (t : thread S) :
  schedule cfg s0 ts s → t ∈ ts → (List.length (th_trace t) ≤ 6)%nat ∧ atomic db_change (th_trace t).
Proof.
  intros Hs Hin.
  destruct (schedule_thread cfg s0 s ts t (λ _, True) (λ _, by_status outcome) (λ r _, any_request cfg r) Hs Hin I)
    as [(st & b & tr & Hl & Ho) _]. split; [done|]. apply (atomic_prefix _ _ tr).
  destruct Ho as [_ Hq|_ Ho|_ Ho|_ Ho]; [by left| |by right|done].
  right. eapply once_mono; [|exact Ho]. apply change_create.
Qed.

(** The effects of all threads together lead to the database. *)
Lemma schedule_effects (cfg : Config) (s0 s : S) (ts : list (thread S)) :
  schedule cfg s0 ts s →
  nsteps db_change (sum_list_with (λ t, effects (th_trace t)) ts) (db_of s0) (db_of s).
Proof.
  intros Hsch. refine (rtc_ind_r (λ c, nsteps db_change (sum_list_with (λ t, effects (th_trace t)) c.1)
    (db_of s0) (db_of c.2)) _ _ _ _ Hsch); [apply nsteps_O|]. clear Hsch ts s.
  intros [ts1 s1] c Hs Hstep IH. cbn [fst snd] in IH.
  inversion Hstep as [r ts' s'|a t t' b s' s2 Ht|ts' s' s2 He]; subst; cbn [fst snd].
  - rewrite sum_list_with_app. cbn. by rewrite !Nat.add_0_r.
  - assert (Hin : t' ∈ (a ++ t' :: b)%list) by (apply elem_of_app; right; apply list_elem_of_here).
    destruct (any_thread cfg s0 s2 _ t' (rtc_r _ _ _ Hs Hstep) Hin) as [_ Hat].
    rewrite sum_list_with_app in IH |- *. cbn [sum_list_with] in IH |- *.
    destruct Ht as [r w f k tr s|r w B f k tr s]; cbn [th_trace] in *; [exact IH|].
    rewrite effects_app. destruct (effects_single s (f s).2) as [[Hdb ->]|He].
    + rewrite Nat.add_0_r, Hdb. exact IH.
    + rewrite He. assert (HR : db_change (db_of s) (db_of (f s).2)).
      { destruct (atomic_step _ _ (s, (f s).2) Hat) as [Heq|HR]; [|exfalso|exact HR].
        - apply elem_of_app. right. by apply list_elem_of_singleton.
        - unfold effects in He. rewrite filter_cons_False in He; [done|]. intros Hne. by apply Hne. }
      match goal with |- nsteps _ ?n _ _ => replace n with (1 + (sum_list_with (λ t, effects (th_trace t)) a
        + (effects tr + sum_list_with (λ t, effects (th_trace t)) b)))%nat by lia end.
      by eapply nsteps_r.
  - unfold outside in He. by rewrite He.
Qed.
End properties.

(** Refinement: whatever the schedule and whatever the database answers, the
    database goes through changes of the API's abstract specification only, and
    through at most one for each request accepted. *)
Theorem schedule_refines {S E} `{UuidLib} `{ServerLaws S E} `{ChiLaws S} (cfg : Config) (s0 s : S) (ts : list (thread S)) :
  schedule cfg s0 ts s → ∃ k, (k ≤ List.length ts)%nat ∧ nsteps db_change k (db_of s0) (db_of s).
Proof.
  intros Hs. exists (sum_list_with (λ t, effects (th_trace t)) ts). split; [|by apply (schedule_effects cfg)].
  assert (Hall : Forall (λ t, (effects (th_trace t) ≤ 1)%nat) ts).
  { apply list.Forall_forall. intros t Hin. destruct (any_thread cfg s0 s ts t Hs Hin) as [_ Ha].
    by apply (effects_atomic db_change). }
  clear Hs. induction Hall as [|t ts Ht _ IH]; cbn; lia.
Qed.

(** What every change preserves, every schedule does. *)
Lemma schedule_preserves {S E} `{UuidLib} `{ServerLaws S E} `{ChiLaws S} (cfg : Config) (I : Database → Prop)
    (s0 s : S) (ts : list (thread S)) :
  (∀ db db', db_change db db' → I db → I db') → schedule cfg s0 ts s → I (db_of s0) → I (db_of s).
Proof.
  intros HI Hs. pose proof (schedule_effects cfg s0 s ts Hs) as Hn. revert Hn.
  generalize (sum_list_with (λ t, effects (th_trace t)) ts). intros k Hn.
  induction Hn as [d|n d d1 d2 Hd _ IH]; [done|]. intros Hok. by eapply IH, HI.
Qed.

(** C10. Invariant: whatever the schedule, a consistent database stays consistent.
    The stored gateways, upstreams and routes are well formed, no two share an ID, a
    gateway name or a gateway and path prefix, and the gateways and upstreams that
    routes and threat events refer to exist. *)
Theorem database_invariant {S E} `{UuidLib} `{ServerLaws S E} `{ChiLaws S} (cfg : Config) (s0 s : S) (ts : list (thread S)) :
  schedule cfg s0 ts s → consistent (db_of s0) → consistent (db_of s).
Proof. apply schedule_preserves, db_change_consistent. Qed.

(** Every stored gateway stays ACTIVE or INACTIVE, with a name and a hostname of 1
    to 255 bytes, whatever the other tables hold. *)
Theorem gateways_invariant {S E} `{UuidLib} `{ServerLaws S E} `{ChiLaws S} (cfg : Config) (s0 s : S) (ts : list (thread S)) :
  schedule cfg s0 ts s → gateways_ok (db_of s0) → gateways_ok (db_of s).
Proof. apply schedule_preserves, db_change_gateways_ok. Qed.

(** C7. Atomicity: a request makes at most six steps on the shared state, and at most
    one of them changes the database.  The status it ends with tells what was done:
    a creation for 201, nothing for a client's error, and for 500 nothing or all. *)
Theorem request_atomic {S E} `{UuidLib} `{ServerLaws S E} `{ChiLaws S} (cfg : Config) (s0 s : S)
    (ts : list (thread S)) (t : thread S) :
  schedule cfg s0 ts s → t ∈ ts →
  (List.length (th_trace t) ≤ 6)%nat ∧ atomic db_change (th_trace t)
  ∧ (ended t → outcome (resp_status (finish (th_writer t))) (th_trace t)).
Proof.
  intros Hs Hin. destruct (any_thread cfg s0 s ts t Hs Hin) as [Hl Ha]. split; [done|]. split; [done|].
  intros He. destruct (schedule_thread cfg s0 s ts t (λ _, True) (λ _, by_status outcome) (λ r _, any_request cfg r) Hs Hin I)
    as [_ Ho]. by destruct (Ho He).
Qed.

(** C20. A request whose method is neither POST nor DELETE changes nothing in the
    database, whatever runs beside it. *)
Theorem reads_change_nothing {S E} `{UuidLib} `{ServerLaws S E} `{ChiLaws S} (cfg : Config) (s0 s : S)
    (ts : list (thread S)) (t : thread S) :
  schedule cfg s0 ts s → t ∈ ts → Method (th_request t) ≠ "POST" → Method (th_request t) ≠ "DELETE" →
  quiet (th_trace t).
Proof.
  intros Hs Hin Hp Hd.
  destruct (schedule_thread cfg s0 s ts t read_only (λ _, by_status quiet_outcome) (reading_request cfg) Hs Hin (conj Hp Hd))
    as [(st & b & tr & _ & _ & Hq) _]. by apply Forall_app in Hq as [? _].
Qed.

(** C21. Every response of the server carries the default security headers,
    whichever layer answers the request and whatever runs beside it. *)
Theorem server_security_headers {S E} `{UuidLib} `{ServerLaws S E} `{ChiLaws S} (cfg : Config) (s0 s : S)
    (ts : list (thread S)) (t : thread S) (k v : string) :
  schedule cfg s0 ts s → t ∈ ts → ended t → (k, v) ∈ default_headers →
  header_Get (resp_header (finish (th_writer t))) k = v.
Proof.
  intros Hs Hin He Hkv.
  destruct (schedule_thread cfg s0 s ts t (λ _, True) (λ _, by_status outcome) (λ r _, any_request cfg r) Hs Hin I)
    as [_ Ho]. destruct (Ho He) as [_ Hh]. by apply Hh.
Qed.

(** C8. A request that can prove no identity at any time changes nothing, whatever
    runs beside it; below /api/v1 it is answered 401, unless an earlier layer
    refuses it with 413, 204 (a CORS preflight) or 429, or the router with 405 for a
    method it does not know. *)
Theorem unauthenticated_in_any_schedule {S E} `{UuidLib} `{ServerLaws S E} `{ChiLaws S} (cfg : Config) (s0 s : S)
    (ts : list (thread S)) (t : thread S) :
  schedule cfg s0 ts s → t ∈ ts → auth_enabled cfg = true →
  let r := th_request t in
  no_identity cfg r → Path r ≠ "/health" →
  quiet (th_trace t)
  ∧ (ended t → ∀ rest, match_mount "/api/v1" (chi_route_path (Path r)) = Some rest →
       let status := resp_status (finish (th_writer t)) in
       status = 401 ∨ status = 413 ∧ MaxBodyBytes cfg < ContentLength r ∨ status = 204 ∧ Method r = "OPTIONS"
       ∨ status = 429 ∨ status = 405 ∧ Method r ∉ chi_methods).
Proof.
  intros Hs Hin He r Hno Hp. split.
  - destruct (schedule_thread cfg s0 s ts t (λ r, no_identity cfg r ∧ Path r ≠ "/health") (λ _, by_status (λ _, quiet))
      (λ r HP, unauthenticated_quiet cfg r He (proj2 HP) (proj1 HP)) Hs Hin (conj Hno Hp)) as [(st & b & tr & _ & Hq) _].
    by apply Forall_app in Hq as [? _].
  - intros Hend rest Hrest.
    destruct (schedule_thread cfg s0 s ts t
      (λ r, (no_identity cfg r ∧ Path r ≠ "/health") ∧ match_mount "/api/v1" (chi_route_path (Path r)) = Some rest)
      (λ r, by_status (refused cfg r))
      (λ r HP, unauthenticated_refused cfg r rest He (proj2 (proj1 HP)) (proj1 (proj1 HP)) (proj2 HP))
      Hs Hin (conj (conj Hno Hp) Hrest)) as [_ Ho]. by destruct (Ho Hend) as [Hst _].
Qed.


(** ** Witnesses: four requests, their steps taken in turn *)

Definition demo_requests : list Request :=
  [ activate_request "ApiKey k1"; create_request "ApiKey k1"; activate_request "ApiKey other";
    api_request "GET" ("/api/v1/gateways/" ++ to_hex "aaaaaaaaaaaaaaaa") "ApiKey k1" "" ].

Definition demo_pool : list (thread memory) * memory :=
  interleave (List.concat (replicate 40 [0; 1; 2; 3]%nat)) (accept (server demo_config) demo_requests m1).

Lemma demo_schedule : schedule demo_config m1 demo_pool.1 demo_pool.2.
Proof.
  unfold schedule. rewrite <- surjective_pairing.
  etransitivity; [apply accept_schedule|apply interleave_schedule].
Qed.

Definition demo_thread (i : nat) : thread memory :=
  nth i demo_pool.1 (mkThread (create_request "") newResponseWriter (HDone tt) []).

Lemma demo_thread_in (i : nat) : (i < 4)%nat → demo_thread i ∈ demo_pool.1.
Proof.
  assert (Hl : List.length demo_pool.1 = 4%nat) by (vm_compute; reflexivity).
  intros Hi. apply list_elem_of_In. unfold demo_thread. apply (nth_In demo_pool.1). rewrite Hl. exact Hi.
Qed.

(** All end, with these statuses, after these numbers of steps. *)
Lemma demo_outcome :
  map (λ t, match th_prog t with HDone _ => resp_status (finish (th_writer t)) | _ => 0 end) demo_pool.1
    = [200; 201; 401; 200]
  ∧ map (λ t, List.length (th_trace t)) demo_pool.1 = [4; 5; 2; 3]%nat.
Proof. split; vm_compute; reflexivity. Qed.

(** The two gateways of [m1]. *)
Lemma m1_consistent : consistent (db_of m1).
Proof.
  split; try (intros x Hx; vm_compute in Hx; by apply elem_of_nil in Hx);
    try (apply (bool_decide_unpack _); vm_compute; reflexivity).
  intros g Hg. vm_compute in Hg.
  repeat (apply elem_of_cons in Hg as [-> | Hg];
    [split; [by right|]; repeat split; vm_compute; discriminate|]).
  by apply elem_of_nil in Hg.
Qed.

Lemma schedule_refines_witness :
  ∃ k, (k ≤ List.length demo_pool.1)%nat ∧ nsteps db_change k (db_of m1) (db_of demo_pool.2).
Proof. exact (schedule_refines demo_config m1 demo_pool.2 demo_pool.1 demo_schedule). Defined.

Lemma database_invariant_witness : consistent (db_of demo_pool.2).
Proof. exact (database_invariant demo_config m1 demo_pool.2 demo_pool.1 demo_schedule m1_consistent). Defined.

Lemma gateways_invariant_witness : gateways_ok (db_of demo_pool.2).
Proof. exact (gateways_invariant demo_config m1 demo_pool.2 demo_pool.1 demo_schedule (con_gateways _ m1_consistent)). Defined.

(** The creation among the others. *)
Lemma request_atomic_witness : once db_create (th_trace (demo_thread 1)).
Proof.
  destruct (request_atomic demo_config m1 demo_pool.2 demo_pool.1 (demo_thread 1) demo_schedule) as (_ & _ & Ho).
  - apply demo_thread_in. lia.
  - assert (Hst : resp_status (finish (th_writer (demo_thread 1))) = 201) by (vm_compute; reflexivity).
    destruct (Ho ltac:(vm_compute; reflexivity)) as [Hq _|_ Hc|H2 _|H5 _]; [|exact Hc|congruence|congruence].
    exfalso. rewrite Hst in Hq. by apply list_elem_of_In in Hq; cbn in Hq; intuition discriminate.
Defined.

Lemma reads_change_nothing_witness : quiet (th_trace (demo_thread 3)).
Proof.
  apply (reads_change_nothing demo_config m1 demo_pool.2 demo_pool.1 (demo_thread 3) demo_schedule).
  - apply demo_thread_in. lia.
  - vm_compute. discriminate.
  - vm_compute. discriminate.
Defined.

Lemma server_security_headers_witness :
  header_Get (resp_header (finish (th_writer (demo_thread 2)))) "X-Frame-Options" = "DENY".
Proof.
  apply (server_security_headers demo_config m1 demo_pool.2 demo_pool.1 (demo_thread 2)).
  - exact demo_schedule.
  - apply demo_thread_in. lia.
  - vm_compute. reflexivity.
  - cbn. right. left.
Defined.

Lemma unauthenticated_in_any_schedule_witness : quiet (th_trace (demo_thread 2)).
Proof.
  apply (unauthenticated_in_any_schedule demo_config m1 demo_pool.2 demo_pool.1 (demo_thread 2) demo_schedule).
  - apply demo_thread_in. lia.
  - reflexivity.
  - replace (th_request (demo_thread 2)) with (activate_request "ApiKey other") by (vm_compute; reflexivity).
    intros now sub role m. apply demo_no_credentials.
  - vm_compute. discriminate.
Defined.

