(* ===== verification/ServerLimit.v ===== *)
(** * The rate limiter of the server, in every schedule

    The requests of the server share one limiter.  Whatever the schedule, the
    limiter is where [run] leaves it for some order of the requests and the
    cleanups; the log of that run is what the requests of the schedule were told
    ([limiter_log]), and a request is answered 429 exactly when it was told so.  So
    the quota of RateQuota.v is the quota of the server, per client address. *)

From S2P Require Import Prelude GoNum GoStrings GoTime Json Http Jwt Respond Threads RateLimit RateQuota Auth Helpers.
From S2P Require Import Security Config Pool Model Sql Schema Postgres Memory Repository RepoFacts RepoSpec Service.
From S2P Require Import Handlers HandlerSpec Effects Endpoints Steady Server ChiRef ServerSpec Routing ServerSafety.

Section metered.
Context {S E : Type} `{UuidLib} `{ServerLaws S E} `{!SteadyLaws S E} `{ChiLaws S}.

(** ** One request *)

(** Behind the limiter. *)
Definition unmetered (st : Z) (tr : list (S * S)) : Prop := st ≠ 429 ∧ Forall (λ p, steady p.1 p.2) tr.

(** A request goes through the limiter once, under the address of its client, and
    ends with 429 exactly when the limiter refuses it; or it is answered before. *)
Definition metered (r0 : Request) (st : Z) (tr : list (S * S)) : Prop :=
  tr = [] ∧ st ≠ 429
  ∨ ∃ r s0 s1 rest, RemoteAddr r = client_address r0 ∧ tr = (limiter_steps r s0 s1 ++ rest)%list
      ∧ if lets_pass r s0 s1 then unmetered st rest else st = 429 ∧ rest = [].

Definition from_client (r0 r : Request) : Prop := RemoteAddr r = client_address r0.

Lemma unmetered_now (st : Z) : st ≠ 429 → unmetered st ([] : list (S * S)).
Proof. intros Hst. split; [done|apply Forall_nil_2]. Qed.

Lemma idle_steady (tr : list (S * S)) : idle tr → Forall (λ p, steady p.1 p.2) tr.
Proof.
  intros Hi. eapply list.Forall_impl; [exact Hi|]. intros [s s'] Hs. cbn in *. subst s'.
  pose proof (Now_steady s) as Hn. unfold time_Now in Hn. by rewrite run_prim in Hn.
Qed.

Lemma metered_policy (cfg : Config) (r0 : Request) :
  policy cfg (by_status (metered r0)) (by_status unmetered) (from_client r0) (from_client r0) (λ _, True).
Proof.
  split; [split|..]; unfold by_status; try done.
  - intros r _ _. by left.
  - intros r s0 s1 st b tr Hr Hp Htr. right. exists r, s0, s1, tr. split; [done|]. split; [done|]. by rewrite Hp.
  - intros r s0 s1 Hr Hp. right. exists r, s0, s1, []. split; [done|]. split; [by rewrite app_nil_r|]. by rewrite Hp.
  - intros st b tr1 tr2 Hi [Hst Htr]. split; [done|]. apply Forall_app. split; [by apply idle_steady|done].
  - intros r _ _. by left.
Qed.

Lemma metered_request (cfg : Config) (r : Request) :
  wp (server cfg r) (λ _, served 6 (by_status (metered r))) newResponseWriter.
Proof.
  apply (server_serves cfg _ _ (from_client r) (from_client r) (λ _, True) r (metered_policy cfg r)); [done|by apply unmetered_now| |].
  { intros st b [[-> _]|[-> _]]; by apply unmetered_now. }
  intros r' p h up w _ Hin Hw. apply (api_routes_endpoints _ _ _ up) in Hin as (ep & -> & _ & Hup).
  eapply wp_mono; [apply wp_and; [by apply wp_endpoint; [apply Hw|]|apply (wp_hsteps steady), steps_endpoint]|].
  intros [] w' tr [(Hl & st & v & -> & HB) Hsteps]. apply served_json; [done|done|].
  apply (promises_tell _ _ _ (actorFromRequest_nonempty _)) in HB as (_ & Hst & _). split; [|done]. intros ->.
  unfold answered_statuses in Hst. rewrite !elem_of_cons, elem_of_nil in Hst. lia.
Qed.

(** ** The log of the limiter *)

(** What a thread was told, once it has been through the limiter. *)
Definition thread_record (t : thread S) : list rl_record :=
  match th_trace t with
  | (s0, _) :: (s1, _) :: _ =>
      let key := client_address (th_request t) in
      let now := (read_clock s0).1 in
      let rl := get_limiter s1 in
      [mkRecord key now (allowed (rl_cfg rl) (take rl key now).1)]
  | _ => []
  end.

Definition limiter_log (ts : list (thread S)) : list rl_record := List.concat (map thread_record ts).

Definition by_address (rl : RateLimiter) : Prop := ∀ r, rate_key (rl_cfg rl) r = RemoteAddr r.

(** The first steps of a thread. *)
Definition next_metered (t : thread S) (s s' : S) : Prop :=
  match th_trace t with
  | [] => s' = (read_clock s).2
  | [(s0, _)] => ∃ r, RemoteAddr r = client_address (th_request t) ∧ s' = put_limiter (charged r s0 s).2 s
  | _ => steady s s'
  end.

Lemma metered_next (r0 : Request) (st : Z) (tr rest : list (S * S)) (s s' : S) (t : thread S) :
  th_request t = r0 → th_trace t = tr → metered r0 st (tr ++ (s, s') :: rest) → next_metered t s s'.
Proof.
  unfold next_metered. intros -> -> [[Hnil _]|(r & s0 & s1 & rest' & Hr & Htr & Hst)]; [by destruct tr|].
  unfold limiter_steps in Htr. destruct tr as [|[a b] tr]; cbn [app] in Htr; [by injection Htr as -> -> _|].
  injection Htr as -> -> Htr. destruct tr as [|[c d] tr]; cbn [app] in Htr.
  - injection Htr as -> -> _. by exists r.
  - injection Htr as -> -> Htr. destruct (lets_pass r s0 s1).
    + destruct Hst as [_ Hst]. rewrite <- Htr in Hst. apply Forall_app in Hst as [_ Hst]. by apply list.Forall_cons in Hst as [? _].
    + destruct Hst as [_ ->]. by destruct tr.
Qed.

(** The effect of a step on the limiter. *)
Lemma metered_effect (t : thread S) (s s' : S) :
  by_address (get_limiter s) → next_metered t s s' →
  let t' := mkThread (th_request t) (th_writer t) (th_prog t) (th_trace t ++ [(s, s')]) in
  thread_record t' = thread_record t ∧ steady s s'
  ∨ ∃ s0 s0', th_trace t = [(s0, s0')] ∧ clock_of s' = clock_of s
      ∧ exec_event (get_limiter s) (EvRequest (client_address (th_request t)) (read_clock s0).1)
        = (thread_record t', get_limiter s').
Proof.
  intros Hkey. destruct t as [r w m tr]. unfold next_metered, thread_record. cbn [th_request th_writer th_prog th_trace].
  destruct tr as [|[s0 s0'] [|[s1 s1'] tr]]; cbn [app].
  - intros ->. left. split; [done|]. pose proof (Now_steady s) as Hn. unfold time_Now in Hn. by rewrite run_prim in Hn.
  - intros (r' & Hr & ->). right. exists s0, s0'. split; [done|]. split; [apply put_limiter_clock|].
    rewrite exec_request, get_put_limiter. unfold charged. by rewrite Hkey, Hr.
  - intros Hs. by left.
Qed.

(** ** Schedules *)

(** Beside the requests, time passes and the limiter cleans up, at a reading that
    [P] allows. *)
Definition purging (P : S → Time → Prop) : relation S := λ s s',
  outside s s' ∧ clock_of s ≤ clock_of s'
  ∧ (get_limiter s' = get_limiter s ∨ ∃ now, P s now ∧ get_limiter s' = cleanup (get_limiter s) now).

(** The server starts at [s0] and has come to [s]. *)
Definition limited_schedule (cfg : Config) (P : S → Time → Prop) (s0 : S) (ts : list (thread S)) (s : S) : Prop :=
  rtc (pool_step (server cfg) (purging P)) ([], s0) (ts, s).

(** The thread took the lock at most [D] after it read the clock. *)
Definition waits (D : Z) (t : thread S) : Prop :=
  match th_trace t with (s0, _) :: (s1, _) :: _ => clock_of s1 - clock_of s0 ≤ D | _ => True end.

Definition cleans_within (D : Z) : S → Time → Prop := λ s now,
  clock_time now ∧ clock_of s - D ≤ reading now ≤ clock_of s.

Definition begun (lo hi : Z) (t : thread S) : Prop :=
  match th_trace t with (s0, _) :: _ => lo ≤ clock_of s0 ≤ hi | [] => True end.

(** The events [evs] explain the limiter and what the threads were told. *)
Record explains (P : S → Time → Prop) (s0 : S) (ts : list (thread S)) (s : S) (evs : list rl_event) : Prop := mkExplains {
  ex_clock : clock_of s0 ≤ clock_of s;
  ex_begun : Forall (begun (clock_of s0) (clock_of s)) ts;
  ex_limiter : (run (get_limiter s0) evs).2 = get_limiter s;
  ex_log : (run (get_limiter s0) evs).1 ≡ₚ limiter_log ts;
  ex_late D : 0 ≤ clock_of s0 → clock_of s ≤ int64_max → Forall (waits D) ts →
    (∀ s now, P s now → cleans_within D s now) → late_until D (clock_of s0) evs (clock_of s)
}.

Lemma begun_later (lo hi hi' : Z) (t : thread S) : hi ≤ hi' → begun lo hi t → begun lo hi' t.
Proof. unfold begun. destruct (th_trace t) as [|[a b] tr]; [done|lia]. Qed.

Lemma limiter_log_middle (a b : list (thread S)) (t : thread S) :
  limiter_log (a ++ t :: b) ≡ₚ (thread_record t ++ limiter_log (a ++ b))%list.
Proof. unfold limiter_log. rewrite !map_app, !concat_app. cbn [map List.concat]. solve_Permutation. Qed.

(** A step that leaves the limiter alone. *)
Lemma explains_steady P (s0 s s' : S) (ts ts' : list (thread S)) evs :
  explains P s0 ts s evs → steady s s' → limiter_log ts' ≡ₚ limiter_log ts →
  Forall (begun (clock_of s0) (clock_of s')) ts' → (∀ D, Forall (waits D) ts' → Forall (waits D) ts) →
  explains P s0 ts' s' evs.
Proof.
  intros [Hc Hb Hl Hlog Hlate] [Hs1 Hs2] Heq Hb' Hw. split; [lia|done|congruence|by rewrite Heq|].
  intros D Hpos Hmax Hts HP. apply (late_until_later D _ (clock_of s)); [done|]. apply Hlate; [done|lia|by apply Hw|done].
Qed.

(** An event of the limiter. *)
Lemma explains_event P (s0 s s' : S) (ts ts' : list (thread S)) evs (e : rl_event) :
  explains P s0 ts s evs → clock_of s ≤ clock_of s' → (exec_event (get_limiter s) e).2 = get_limiter s' →
  limiter_log ts' ≡ₚ ((exec_event (get_limiter s) e).1 ++ limiter_log ts)%list →
  Forall (begun (clock_of s0) (clock_of s')) ts' → (∀ D, Forall (waits D) ts' → Forall (waits D) ts) →
  (∀ D, 0 ≤ clock_of s0 → clock_of s ≤ int64_max → Forall (waits D) ts' → (∀ s now, P s now → cleans_within D s now) →
     clock_time (event_time e) ∧ clock_of s - D ≤ reading (event_time e) ≤ clock_of s) →
  explains P s0 ts' s' (evs ++ [e]).
Proof.
  intros [Hc Hb Hl Hlog Hlate] Hs He Heq Hb' Hw Hev. split; [lia|done|..].
  - rewrite run_app, Hl. cbn [run snd]. by destruct (exec_event (get_limiter s) e).
  - rewrite run_app, Hl, Heq, <- Hlog. cbn [run fst]. destruct (exec_event (get_limiter s) e) as [l rl]. cbn [fst].
    rewrite app_nil_r. apply Permutation_app_comm.
  - intros D Hpos Hmax Hts HP. apply (late_until_later D _ (clock_of s)); [done|].
    destruct (Hev D) as [Hct Hr]; [done|lia|done|done|]. apply late_until_snoc; [|done|done].
    apply Hlate; [done|lia|by apply Hw|done].
Qed.

Lemma waits_prefix (D : Z) (a b : list (thread S)) (t t' : thread S) tr :
  th_trace t' = (th_trace t ++ tr)%list → Forall (waits D) (a ++ t' :: b) → Forall (waits D) (a ++ t :: b).
Proof.
  intros Htr Hall. apply Forall_app in Hall as [Ha Hb]. apply list.Forall_cons in Hb as [Ht Hb].
  apply Forall_app. split; [done|]. apply Forall_cons_2; [|done]. unfold waits in *. rewrite Htr in Ht.
  destruct (th_trace t) as [|[s0 s0'] [|[s1 s1'] l]]; done.
Qed.

Lemma begun_step (lo hi hi' : Z) (a b : list (thread S)) (t t' : thread S) (s s' : S) :
  lo ≤ clock_of s ≤ hi → hi ≤ hi' → th_trace t' = (th_trace t ++ [(s, s')])%list →
  Forall (begun lo hi) (a ++ t :: b) → Forall (begun lo hi') (a ++ t' :: b).
Proof.
  intros Hs Hhi Htr Hall. apply Forall_app in Hall as [Ha Hb]. apply list.Forall_cons in Hb as [Ht Hb].
  apply Forall_app. split; [|apply Forall_cons_2].
  - eapply list.Forall_impl; [exact Ha|]. intros x. by apply begun_later.
  - unfold begun in *. rewrite Htr. destruct (th_trace t) as [|[s0 s0'] l]; cbn [app]; lia.
  - eapply list.Forall_impl; [exact Hb|]. intros x. by apply begun_later.
Qed.

(** A thread of a schedule keeps to the limiter. *)
Lemma schedule_metered (cfg : Config) P (s0 s : S) (ts : list (thread S)) (t : thread S) :
  limited_schedule cfg P s0 ts s → t ∈ ts →
  (∃ st rest, metered (th_request t) st (th_trace t ++ rest))
  ∧ (ended t → metered (th_request t) (resp_status (finish (th_writer t))) (th_trace t)).
Proof.
  intros Hs Hin. pose proof (pool_adequate _ _ _ _ _ (metered_request cfg) Hs) as Hall.
  apply (proj1 (list.Forall_forall _ _) Hall) in Hin. split.
  - destruct (thread_ok_trace _ _ s Hin) as (w & rest & _ & _ & Hm). by eexists _, rest.
  - intros He. destruct (thread_ok_ended _ _ Hin He) as (_ & _ & Hm). by rewrite finish_eq.
Qed.

Lemma explains_thread P (s0 s s' : S) (a b : list (thread S)) (t t' : thread S) evs :
  explains P s0 (a ++ t :: b) s evs → by_address (get_limiter s) →
  th_request t' = th_request t → th_trace t' = (th_trace t ++ [(s, s')])%list → next_metered t s s' →
  ∃ evs', explains P s0 (a ++ t' :: b) s' evs'.
Proof.
  intros Hex Hkey Hr Htr Hm. pose proof Hex as [Hc Hb _ _ _].
  assert (Hrec : thread_record t' = thread_record (mkThread (th_request t) (th_writer t) (th_prog t) (th_trace t ++ [(s, s')]))).
  { unfold thread_record. by rewrite Hr, Htr. }
  destruct (metered_effect t s s' Hkey Hm) as [[Heq Hst]|(sa & sa' & Hta & Hck & He)].
  - exists evs. apply (explains_steady P s0 s s' _ _ evs Hex Hst).
    + by rewrite !limiter_log_middle, Hrec, Heq.
    + apply (begun_step _ (clock_of s) _ a b t t' s s'); [done|by destruct Hst|done|done].
    + intros D. by apply (waits_prefix D a b t t' [(s, s')]).
  - eexists. eapply (explains_event P s0 s s' _ (a ++ t' :: b) evs _ Hex).
    + lia.
    + by rewrite He.
    + rewrite He. cbn [fst]. rewrite !limiter_log_middle, Hrec. unfold thread_record at 3. by rewrite Hta.
    + apply (begun_step _ (clock_of s) _ a b t t' s s'); [done|lia|done|done].
    + intros D. by apply (waits_prefix D a b t t' [(s, s')]).
    + intros D Hpos Hmax Hw _. cbn [event_time]. pose proof (Now_reads sa) as Hrd. pose proof (Now_clock sa) as Hck'.
      unfold time_Now in Hrd, Hck'. rewrite run_prim in Hrd, Hck'. rewrite Hrd.
      apply Forall_app in Hb as [_ [Hbt _]%list.Forall_cons]. unfold begun in Hbt. rewrite Hta in Hbt.
      apply Forall_app in Hw as [_ [Hwt _]%list.Forall_cons]. unfold waits in Hwt. rewrite Htr, Hta in Hwt. cbn in Hwt.
      split; [apply Hck'; lia|lia].
Qed.

Lemma schedule_explained (cfg : Config) P (s0 s : S) (ts : list (thread S)) :
  by_address (get_limiter s0) → limited_schedule cfg P s0 ts s → ∃ evs, explains P s0 ts s evs.
Proof.
  intros Hkey Hs. refine (rtc_ind_r (λ c, ∃ evs, explains P s0 c.1 c.2 evs) _ _ _ _ Hs).
  { exists []. split; cbn; [lia|apply Forall_nil_2|done|done|lia]. }
  intros [ts1 s1] c Hrun Hstep [evs Hex]. cbn [fst snd] in Hex. pose proof Hex as [Hc Hb Hl _ _].
  assert (Hkey1 : by_address (get_limiter s1)).
  { unfold by_address. by rewrite <- Hl, run_cfg. }
  inversion Hstep as [r ts' s'|a t t' b s' s2 Ht|ts' s' s2 He]; subst; cbn [fst snd].
  - exists evs. apply (explains_steady P s0 s1 s1 _ _ evs Hex (steady_refl s1)).
    + unfold limiter_log. rewrite map_app, concat_app. cbn. by rewrite app_nil_r.
    + apply Forall_app. split; [done|]. apply Forall_cons_2; [done|apply Forall_nil_2].
    + intros D [? _]%Forall_app. done.
  - assert (Hin : t' ∈ (a ++ t' :: b)%list) by (apply elem_of_app; right; apply list_elem_of_here).
    destruct (schedule_metered cfg P s0 s2 _ t' (rtc_r _ _ _ Hrun Hstep) Hin) as [(st & rest & Hm) _].
    destruct Ht as [r w f k tr x|r w B f k tr x].
    + exists evs. apply (explains_steady P s0 x x _ _ evs Hex (steady_refl x)).
      * by rewrite !limiter_log_middle.
      * apply Forall_app in Hb as [Ha [Hb1 Hb2]%list.Forall_cons]. apply Forall_app. split; [done|]. by apply Forall_cons_2.
      * intros D. apply (waits_prefix D a b _ _ []). by rewrite app_nil_r.
    + apply (explains_thread P s0 x (f x).2 a b _ _ evs Hex); [done|done|done|].
      cbn [th_request th_trace] in Hm. rewrite <- app_assoc in Hm. by apply (metered_next r st tr rest).
  - destruct He as (_ & Hck & [Hsame|(now & HP & Hcl)]).
    + exists evs. apply (explains_steady P s0 s1 s2 _ _ evs Hex); [done|done| |done].
      eapply list.Forall_impl; [exact Hb|]. intros x. by apply begun_later.
    + exists (evs ++ [EvTick now])%list. apply (explains_event P s0 s1 s2 _ _ evs (EvTick now) Hex); [done|done|done| |done|].
      * eapply list.Forall_impl; [exact Hb|]. intros x. by apply begun_later.
      * intros D _ _ _ Hcw. by apply (Hcw s1 now).
Qed.
End metered.

Section properties.
Context {S E : Type} `{UuidLib} `{ServerLaws S E} `{!SteadyLaws S E} `{ChiLaws S}.

Lemma new_by_address (rc : RateLimitConfig) : KeyFunc rc = None → by_address (NewRateLimiter rc).
Proof. intros Hk r. unfold rate_key, NewRateLimiter, normalize_config. cbn. by rewrite Hk. Qed.

(** The limiter keeps its configuration, in every state a thread saw. *)
Lemma schedule_by_address (cfg : Config) P (s0 s : S) (ts : list (thread S)) :
  by_address (get_limiter s0) → limited_schedule cfg P s0 ts s →
  Forall (λ t, Forall (λ p, by_address (get_limiter p.1)) (th_trace t)) ts.
Proof.
  intros Hkey Hs. refine (rtc_ind_r (λ c, Forall (λ t, Forall (λ p, by_address (get_limiter p.1)) (th_trace t)) c.1) _ _ _ _ Hs).
  { apply Forall_nil_2. }
  intros [ts1 s1] c Hrun Hstep IH. cbn [fst] in IH.
  inversion Hstep as [r ts' s'|a t t' b s' s2 Ht|ts' s' s2 He]; subst; cbn [fst]; [| |done].
  - apply Forall_app. split; [done|]. apply Forall_cons_2; [cbn; apply Forall_nil_2|apply Forall_nil_2].
  - apply Forall_app in IH as [Ha [Ht1 Hb]%list.Forall_cons]. apply Forall_app. split; [done|]. apply Forall_cons_2; [|done].
    destruct Ht as [r w f k tr x|r w B f k tr x]; [done|]. cbn [th_trace] in *. apply Forall_app. split; [done|].
    apply Forall_cons_2; [|apply Forall_nil_2]. destruct (schedule_explained cfg P s0 x _ Hkey Hrun) as [evs Hex].
    unfold by_address. cbn [fst]. by rewrite <- (ex_limiter _ _ _ _ _ Hex), run_cfg.
Qed.

Lemma limited_schedule_schedule (cfg : Config) P (s0 s : S) (ts : list (thread S)) :
  limited_schedule cfg P s0 ts s → schedule cfg s0 ts s.
Proof.
  apply rtc_subrel. intros x y Hstep. destruct Hstep as [| |ts1 s1 s2 [He _]]; [apply pool_accept|by apply pool_run|].
  by apply pool_env.
Qed.

(** 429 is what a request refused by the limiter gets. *)
Lemma metered_status (t : thread S) (st : Z) :
  Forall (λ p, by_address (get_limiter p.1)) (th_trace t) → metered (th_request t) st (th_trace t) →
  st = 429 ↔ ∃ rec, thread_record t = [rec] ∧ rec_ok rec = false.
Proof.
  unfold thread_record. intros Hkey [[-> Hst]|(r & s0 & s1 & rest & Hr & Htr & Hst)].
  - split; [done|]. by intros (rec & ? & _).
  - rewrite Htr in Hkey |- *. unfold limiter_steps in Hkey |- *. cbn [app] in Hkey |- *.
    apply list.Forall_cons in Hkey as [_ [Hkey _]%list.Forall_cons]. cbn [fst] in Hkey.
    unfold lets_pass, charged in Hst. rewrite Hkey, Hr in Hst.
    destruct (allowed _ _) eqn:Ea; [destruct Hst as [Hst _]|destruct Hst as [-> _]].
    + split; [done|]. by intros (rec & [= <-] & Ho).
    + split; [|done]. intros _. eexists. split; [reflexivity|done].
Qed.

Lemma limiter_log_length (ts : list (thread S)) : (List.length (limiter_log ts) ≤ List.length ts)%nat.
Proof.
  induction ts as [|t ts IH]; [done|]. unfold limiter_log in *. cbn [map List.concat List.length]. rewrite length_app.
  assert (List.length (thread_record t) ≤ 1)%nat; [|lia].
  unfold thread_record. destruct (th_trace t) as [|[] [|[] ?]]; cbn; lia.
Qed.
End properties.

(** In every schedule the requests and the cleanups act on the
    limiter as one sequence of events, whose log is what the requests were told; its
    table stays within [MaxEntries]; and a request is answered 429 exactly when it
    has been told so. *)
Lemma limiter_in_any_schedule {S E} `{UuidLib} `{ServerLaws S E} `{!SteadyLaws S E} `{ChiLaws S} (cfg : Config)
    (P : S → Time → Prop) (s0 s : S) (ts : list (thread S)) (rc : RateLimitConfig) :
  limited_schedule cfg P s0 ts s → get_limiter s0 = NewRateLimiter rc → KeyFunc rc = None →
  (∃ evs log, run (NewRateLimiter rc) evs = (log, get_limiter s) ∧ log ≡ₚ limiter_log ts)
  ∧ Z.of_nat (size (rl_entries (get_limiter s))) ≤ MaxEntries (normalize_config rc)
  ∧ ∀ t, t ∈ ts → ended t →
      (resp_status (finish (th_writer t)) = 429 ↔ ∃ rec, thread_record t = [rec] ∧ rec_ok rec = false).
Proof.
  intros Hs Hrl Hk. assert (Hkey : by_address (get_limiter s0)) by (rewrite Hrl; by apply new_by_address).
  destruct (schedule_explained cfg P s0 s ts Hkey Hs) as [evs [_ _ Hl Hlog _]]. rewrite Hrl in Hl, Hlog. split; [|split].
  - exists evs, (run (NewRateLimiter rc) evs).1. split; [|done]. rewrite <- Hl. apply surjective_pairing.
  - assert (Hcap : within_cap (NewRateLimiter rc)).
    { unfold within_cap, NewRateLimiter. cbn [rl_entries rl_cfg]. rewrite map_size_empty.
      pose proof (normalize_positive rc). lia. }
    apply (run_within_cap _ evs) in Hcap. unfold within_cap in Hcap. by rewrite run_cfg, Hl in Hcap.
  - intros t Hin He. apply metered_status.
    + apply (proj1 (list.Forall_forall _ _) (schedule_by_address cfg P s0 s ts Hkey Hs) t Hin).
    + by apply (schedule_metered cfg P s0 s ts t Hs Hin).
Qed.

(** The quota of the server: whatever the schedule, the requests of one client
    address that read the clock in an interval of one window and pass the limiter.
    Requests and cleanups take the lock at most [D] after they read the clock. *)
Lemma schedule_quota {S E} `{UuidLib} `{ServerLaws S E} `{!SteadyLaws S E} `{ChiLaws S} (cfg : Config)
    (P : S → Time → Prop) (D : Z) (s0 s : S) (ts : list (thread S)) (rc : RateLimitConfig) (address : string) (lo hi : Z) :
  let c := normalize_config rc in
  limited_schedule cfg P s0 ts s → (∀ s now, P s now → cleans_within D s now) →
  get_limiter s0 = NewRateLimiter rc → KeyFunc rc = None →
  0 ≤ clock_of s0 → clock_of s ≤ int64_max → Forall (waits D) ts → 0 ≤ D ≤ Window c →
  Window c < 2 ^ 62 → hi ≤ lo + Window c → Z.of_nat (List.length ts) ≤ int64_max →
  admitted address lo hi (limiter_log ts) ≤ quota D (RequestsPerWindow c).
Proof.
  intros c Hs HP Hrl Hk Hpos Hmax Hw HD Hwin Hlen Hn.
  assert (Hkey : by_address (get_limiter s0)) by (rewrite Hrl; by apply new_by_address).
  destruct (schedule_explained cfg _ s0 s ts Hkey Hs) as [evs [_ _ _ Hlog Hlate]]. rewrite Hrl in Hlog.
  specialize (Hlate D Hpos Hmax Hw HP). rewrite <- (admitted_perm _ _ _ _ _ Hlog).
  apply (quota_run D rc address lo hi evs (clock_of s0)); [done|done|done| |by eapply late_until_from].
  rewrite (Permutation_length Hlog). pose proof (limiter_log_length ts). lia.
Qed.
