(* ===== verification/ServerApi.v ===== *)
(** * The endpoints in every schedule

    An authenticated request to an endpoint gets, whatever runs beside it, what the
    endpoint promises, under the identity proven: the layers before it either
    answer by themselves, having done nothing, or hand the request on with no more
    than its body limited.  Here the promises of Endpoints.v, the routes of
    Routing.v and the middleware of ServerSpec.v come together. *)

From S2P Require Import Prelude GoNum GoStrings GoTime Json Http Jwt Respond Threads RateLimit Auth Helpers.
From S2P Require Import Security Config Pool Model Sql Schema Postgres Memory Repository RepoFacts RepoSpec Service.
From S2P Require Import Handlers HandlerSpec Effects Endpoints Server ChiRef ServerSpec Routing ServerSafety.

(** The name the handlers record for a subject. *)
Definition actor_of (subject : string) : string := if decide (subject = "") then "system" else subject.

(** [r] is made by [subject]: the one its credentials prove, or the one in its
    context when authentication is off. *)
Definition made_by (cfg : Config) (r : Request) (subject : string) : Prop :=
  if auth_enabled cfg then
    ∃ now role m, credentials (auth_config cfg) now (header_Get (ReqHeader r) "Authorization") subject role m
  else SubjectFromContext (Context r) = subject.

Section api.
Context {S E : Type} `{UuidLib} `{ServerLaws S E} `{ChiLaws S}.

(** The promises look at the query and the body only. *)
Lemma promises_request (ep : endpoint) (r r' : Request) (actor : string) :
  RawQuery r' = RawQuery r → Body r' = Body r → promises ep r' actor = (promises ep r actor : behaviour).
Proof.
  intros Hq Hb.
  assert (Hd : ∀ T (fs : list (field T)) zero, decode_body fs zero r' = decode_body fs zero r).
  { intros. unfold decode_body. by rewrite Hb. }
  destruct ep; cbn [promises]; unfold creates_gateway, creates_upstream, creates_route, of_gateway, query_int, ParsePagination;
    by rewrite ?Hd, ?Hq.
Qed.

Lemma actorFromRequest_of (r : Request) : actorFromRequest r = actor_of (SubjectFromContext (Context r)).
Proof. unfold actorFromRequest, actor_of. by destruct (String.eqb_spec (SubjectFromContext (Context r)) ""), (decide _). Qed.

Context (cfg : Config) (ep : endpoint) (r0 : Request) (subject : string).

(** A layer before the handler has answered, or the handler keeps its promise. *)
Definition api_answer (st : Z) (b : string) (tr : list (S * S)) : Prop :=
  ∃ before own, tr = (before ++ own)%list ∧ quiet before
    ∧ ((st = 413 ∧ MaxBodyBytes cfg < ContentLength r0 ∨ st = 429 ∨ st = 401 ∧ auth_enabled cfg = true) ∧ own = []
       ∨ ∃ v, b = encode_line v ∧ promises ep (limited cfg r0) (actor_of subject) st v own).

Lemma api_answer_later (st : Z) (b : string) (tr1 tr2 : list (S * S)) :
  quiet tr1 → api_answer st b tr2 → api_answer st b (tr1 ++ tr2).
Proof.
  intros Hq (before & own & -> & Hb & Ho). exists (tr1 ++ before)%list, own. rewrite <- app_assoc.
  split; [done|]. split; [by apply quiet_app|done].
Qed.

Lemma api_answer_refused (st : Z) (b : string) :
  st = 413 ∧ MaxBodyBytes cfg < ContentLength r0 ∨ st = 429 ∨ st = 401 ∧ auth_enabled cfg = true → api_answer st b [].
Proof. intros Hst. exists [], []. split; [done|]. split; [apply quiet_nil|by left]. Qed.

(** The request before the body limit, behind it, and behind authentication. *)
Definition comes (r : Request) : Prop :=
  same_head r0 r ∧ RawQuery r = RawQuery r0 ∧ Body r = Body r0
  ∧ SubjectFromContext (Context r) = SubjectFromContext (Context r0).

Definition comes_limited (r : Request) : Prop :=
  same_head r0 r ∧ RawQuery r = RawQuery r0 ∧ Body r = Body (limited cfg r0)
  ∧ SubjectFromContext (Context r) = SubjectFromContext (Context r0).

Definition comes_as (r : Request) : Prop :=
  same_head r0 r ∧ RawQuery r = RawQuery r0 ∧ Body r = Body (limited cfg r0)
  ∧ SubjectFromContext (Context r) = subject.

Hypothesis Hby : made_by cfg r0 subject.
Hypothesis Hnohealth : Path r0 ≠ "/health".
Hypothesis Hmethod : Method r0 = endpoint_method ep.
Hypothesis Hpath : chi_route_path (Path r0) ∈ endpoint_paths ep.
Hypothesis Hok : endpoint_ok ep.

Lemma api_policy : policy cfg api_answer api_answer comes comes_limited comes_as.
Proof.
  assert (Hopt : Method r0 ≠ "OPTIONS") by (rewrite Hmethod; by destruct ep).
  split.
  - apply admits_quiet.
    + apply api_answer_later.
    + intros r [(Hm & _) _] Ho. congruence.
    + apply api_answer_refused. auto.
    + intros r msg He _ _. apply api_answer_refused. auto.
  - intros r [(_ & _ & _ & Hcl) _] Hlt. rewrite Hcl in Hlt. apply api_answer_refused. auto.
  - intros r (Hh & Hq & Hb & Hs). split; [exact Hh|]. split; [exact Hq|]. split; [|exact Hs].
    cbn. by rewrite Hb.
  - intros r He (Hh & Hq & Hb & Hs). split; [exact Hh|]. split; [exact Hq|]. split; [exact Hb|].
    unfold made_by in Hby. rewrite He in Hby. congruence.
  - intros r _ [(_ & Hp & _) _] Hp'. congruence.
  - intros r now sub role m He (Hh & Hq & Hb & _) Hc. split; [exact Hh|]. split; [exact Hq|]. split; [exact Hb|].
    destruct Hh as (_ & _ & Hh & _). rewrite Hh in Hc. unfold made_by in Hby. rewrite He in Hby.
    destruct Hby as (now0 & role0 & m0 & Hc0).
    by destruct (credentials_functional _ _ _ _ _ _ _ _ _ _ Hc0 Hc) as (-> & _ & _).
Qed.

Lemma api_served : wp (server cfg r0) (λ _, served 6 api_answer) newResponseWriter.
Proof.
  destruct (endpoint_rest ep _ Hpath) as (rest & Hrest & Hres).
  apply (serves_server cfg api_answer api_answer 4 comes comes_limited comes_as r0 api_policy).
  - intros r Hs _. split; [by apply same_request_head|]. destruct Hs as (_ & _ & Hq & _ & Hb & _ & Hc).
    split; [exact Hq|]. split; [exact Hb|]. unfold SubjectFromContext, string_from. by rewrite Hc by apply list_elem_of_here.
  - intros r w Hr Hw. assert (Hknown : ∀ r', same_head r0 r' → Method r' ∈ chi_methods).
    { intros r' (Hm & _). apply (method_known ep). congruence. }
    rewrite (server_dispatch_api cfg r rest); [|by apply Hknown, Hr|destruct Hr as [(_ & -> & _) _]; exact Hrest].
    apply (serves_api cfg api_answer api_answer 3 comes comes_limited comes_as); [exact api_policy| |exact Hr|exact Hw].
    intros r2 w2 [Hh (Hq & Hb & Hs)] Hw2. rewrite (api_dispatch_resource cfg ep rest _ r2 (Hknown r2 Hh) Hres).
    destruct Hh as (Hm & _).
    destruct (endpoint_route ep r2) as (up & Hup & ->); [congruence|exact Hok|].
    apply endpoint_served; [exact Hup| |exact Hw2]. intros st v tr HB. exists [], tr.
    split; [done|]. split; [apply quiet_nil|]. right. exists v. split; [done|].
    by rewrite (promises_request ep (limited cfg r0) r2), actorFromRequest_of, Hs in HB.
Qed.
End api.

(** [subject] requests the endpoint [ep]. *)
Definition calls {S} `{Chi S} (cfg : Config) (ep : endpoint) (subject : string) (r : Request) : Prop :=
  made_by cfg r subject ∧ Path r ≠ "/health" ∧ Method r = endpoint_method ep
  ∧ chi_route_path (Path r) ∈ endpoint_paths ep ∧ endpoint_ok ep.

Lemma api_thread {S E} `{UuidLib} `{ServerLaws S E} `{ChiLaws S} (cfg : Config) (s0 s : S)
    (ts : list (thread S)) (t : thread S) (ep : endpoint) (subject : string) :
  schedule cfg s0 ts s → t ∈ ts → ended t → calls cfg ep subject (th_request t) →
  api_answer cfg ep (th_request t) subject (resp_status (finish (th_writer t))) (resp_body (finish (th_writer t)))
    (th_trace t).
Proof.
  intros Hs Hin He Hc.
  destruct (schedule_thread cfg s0 s ts t (calls cfg ep subject) (λ r, api_answer cfg ep r subject)
    (λ r '(conj Hb (conj Hh (conj Hme (conj Hpa Hok)))), api_served cfg ep r subject Hb Hh Hme Hpa Hok) Hs Hin Hc)
    as [_ Ho].
  exact (proj1 (Ho He)).
Qed.

(** C3. Refinement, in every schedule: an authenticated request to an endpoint of
    the API, or any request to it when authentication is off, ends with what the
    endpoint promises for its query, the part of its body within the limit and the
    identity of its caller, in the steps that follow those of the middleware; or it
    has done nothing and was answered 413 for its length, 429 by the limiter, or
    401 for a token that has expired meanwhile. *)
Theorem api_in_any_schedule {S E} `{UuidLib} `{ServerLaws S E} `{ChiLaws S} (cfg : Config) (s0 s : S)
    (ts : list (thread S)) (t : thread S) (ep : endpoint) (subject : string) :
  schedule cfg s0 ts s → t ∈ ts → ended t → calls cfg ep subject (th_request t) →
  let r := th_request t in
  let resp := finish (th_writer t) in
  let status := resp_status resp in
  ∃ before own, th_trace t = (before ++ own)%list ∧ quiet before
    ∧ ((status = 413 ∧ MaxBodyBytes cfg < ContentLength r ∨ status = 429 ∨ status = 401 ∧ auth_enabled cfg = true)
         ∧ own = []
       ∨ ∃ v, resp_body resp = encode_line v
              ∧ promises ep (limited cfg r) (actor_of subject) status v own).
Proof. intros Hs Hin He Hc. exact (api_thread cfg s0 s ts t ep subject Hs Hin He Hc). Qed.

(** The gateway a creation adds. *)
Definition creates_for (req : CreateGatewayRequest) (subject : string) {S E} `{UuidLib} `{PgLaws S E}
    (tr : list (S * S)) (how : relation Database → list (S * S) → Prop) : Prop :=
  ∃ id now, how (added gateway_resource (requested_gateway req (actor_of subject) id now)) tr.

(** Creation beside any other requests: an authenticated [POST /api/v1/gateways]
    with a valid body ends with 201 when it has added the gateway it asks for, in one
    step, created by the authenticated subject unless the body names another; with
    429, or 401 for a token that has expired meanwhile, when it has done nothing; or
    with 500. *)
Theorem authenticated_create_in_any_schedule {S E} `{UuidLib} `{ServerLaws S E} `{ChiLaws S} (cfg : Config)
    (s0 s : S) (ts : list (thread S)) (t : thread S) (req : CreateGatewayRequest) (subject : string) :
  schedule cfg s0 ts s → t ∈ ts → ended t → calls cfg CreateGateway subject (th_request t) →
  let r := th_request t in
  ContentLength r ≤ MaxBodyBytes cfg → b_limit (Body r) = None → len (b_data (Body r)) ≤ MaxBodyBytes cfg →
  decode_body create_gateway_fields zeroCreateGateway r = Some req →
  valid_name (cg_Name req) → valid_name (cg_Hostname req) →
  let status := resp_status (finish (th_writer t)) in
  (status = 401 ∨ status = 429) ∧ quiet (th_trace t)
  ∨ status = 201 ∧ creates_for req subject (th_trace t) once
  ∨ status = 500 ∧ creates_for req subject (th_trace t) atomic.
Proof.
  intros Hs Hin He Hc r Hcl Hlim Hbody Hdec [Hn1 Hn2] [Hh1 Hh2] status.
  destruct (api_thread cfg s0 s ts t CreateGateway subject Hs Hin He Hc) as (before & own & Htr & Hq & Hown).
  change (th_request t) with r in Hown.
  rewrite Htr. clear Htr. destruct Hown as [[Hst ->]|(v & _ & Hpr)].
  { left. rewrite app_nil_r. split; [|done]. destruct Hst as [[_ Hlt]|[?|[? _]]]; [lia|by right|by left]. }
  right. cbn [promises] in Hpr. unfold creates_gateway in Hpr.
  replace (decode_body create_gateway_fields zeroCreateGateway (limited cfg r)) with (Some req) in Hpr.
  2: { rewrite <- Hdec. unfold decode_body, body_read, limited, with_body, MaxBytesReader. cbn [Body b_limit b_data].
       rewrite Hlim. by rewrite (proj2 (Z.leb_le _ _)) by lia. }
  rewrite decide_False, decide_False in Hpr by (lia || tauto).
  destruct Hpr as (id & now & [(Hst & _ & Ha)|(Hst & _ & Ha)]); [left|right]; (split; [exact Hst|]); exists id, now;
    [by apply once_app_l|by apply atomic_app_l].
Qed.

(** ** Witnesses *)

(** The second of the four interleaved requests. *)
Lemma demo_calls : calls (S := memory) demo_config CreateGateway "svc-1" (create_request "ApiKey k1").
Proof.
  split; [exists 0, "admin", AuthMethodAPIKey; apply demo_credentials|]. split; [discriminate|].
  split; [reflexivity|]. split; [apply list_elem_of_further, list_elem_of_here|exact I].
Qed.

Lemma api_in_any_schedule_witness :
  ∃ own v, promises (E := string) CreateGateway (limited demo_config (create_request "ApiKey k1")) "svc-1" 201 v own
    ∧ resp_body (finish (th_writer (demo_thread 1))) = encode_line v.
Proof.
  assert (Hst : resp_status (finish (th_writer (demo_thread 1))) = 201) by (vm_compute; reflexivity).
  assert (Hr : th_request (demo_thread 1) = create_request "ApiKey k1") by (vm_compute; reflexivity).
  pose proof (api_in_any_schedule demo_config m1 demo_pool.2 demo_pool.1 (demo_thread 1) CreateGateway "svc-1"
    demo_schedule) as H.
  cbv zeta in H. rewrite Hr, Hst in H. destruct H as (before & own & _ & _ & [[H _]|(v & Hb & Hp)]).
  - apply demo_thread_in. lia.
  - vm_compute. reflexivity.
  - apply demo_calls.
  - destruct H as [[H _]|[H|[H _]]]; discriminate H.
  - exists own, v. split; [exact Hp|exact Hb].
Defined.

Lemma authenticated_create_in_any_schedule_witness :
  creates_for decoded_gateway "svc-1" (th_trace (demo_thread 1)) once.
Proof.
  assert (Hst : resp_status (finish (th_writer (demo_thread 1))) = 201) by (vm_compute; reflexivity).
  assert (Hr : th_request (demo_thread 1) = create_request "ApiKey k1") by (vm_compute; reflexivity).
  pose proof (authenticated_create_in_any_schedule demo_config m1 demo_pool.2 demo_pool.1 (demo_thread 1)
    decoded_gateway "svc-1" demo_schedule) as H.
  cbv zeta in H. rewrite Hr, Hst in H. destruct H as [[[H|H] _]|[[_ H]|[H _]]].
  - apply demo_thread_in. lia.
  - vm_compute. reflexivity.
  - apply demo_calls.
  - vm_compute. discriminate.
  - reflexivity.
  - vm_compute. discriminate.
  - vm_compute. reflexivity.
  - split; vm_compute; discriminate.
  - split; vm_compute; discriminate.
  - discriminate H.
  - discriminate H.
  - exact H.
  - discriminate H.
Defined.
