(* ===== verification/ServerHistory.v ===== *)
(** * The database over time

    In a schedule the database goes from state to state by the changes of
    [db_change]; what a request read lies between the states at its acceptance and
    at its end.  So what has been answered 201 stays, and is what later requests
    read, whatever runs beside them. *)

From S2P Require Import Prelude GoNum GoStrings GoTime Json Http Jwt Respond Threads RateLimit Auth Helpers.
From S2P Require Import Security Config Pool Model Sql Schema Postgres Memory Repository RepoFacts RepoSpec Service.
From S2P Require Import Handlers HandlerSpec Effects Endpoints Server ChiRef ServerSpec Routing ServerSafety ServerApi.

(** ** The order of changes *)

Section history.
Context {S E : Type} `{UuidLib} `{ServerLaws S E} `{ChiLaws S} (cfg : Config).

Definition runs : relation (list (thread S) * S) := rtc (pool_step (server cfg) outside).

Lemma schedule_step (s0 : S) (c c' : list (thread S) * S) :
  schedule cfg s0 c.1 c.2 → pool_step (server cfg) outside c c' → rtc db_change (db_of c.2) (db_of c'.2).
Proof.
  intros Hs Hstep. destruct c as [ts s]. cbn [fst snd] in *.
  assert (Hs' : schedule cfg s0 c'.1 c'.2) by (destruct c'; by eapply rtc_r).
  destruct (pool_step_effect _ _ _ _ Hstep) as [Heq|[Ho|(t & Ht & Hp)]]; cbn [snd] in *.
  - rewrite Heq. apply rtc_refl.
  - unfold outside in Ho. rewrite Ho. apply rtc_refl.
  - destruct (any_thread cfg s0 _ _ t Hs' Ht) as [_ Ha].
    destruct (atomic_step _ _ _ Ha Hp) as [Heq|HR]; cbn [fst snd] in *; [rewrite Heq; apply rtc_refl|by apply rtc_once].
Qed.

Lemma schedule_runs (s0 s1 s : S) (ts1 ts : list (thread S)) :
  schedule cfg s0 ts1 s1 → runs (ts1, s1) (ts, s) → schedule cfg s0 ts s ∧ rtc db_change (db_of s1) (db_of s).
Proof.
  intros Hs Hrun. refine (rtc_ind_r (λ c, schedule cfg s0 c.1 c.2 ∧ rtc db_change (db_of s1) (db_of c.2)) _ _ _ _ Hrun).
  - split; [done|apply rtc_refl].
  - intros [ts2 s2] [ts3 s3] _ Hstep [Hs2 Hr]. cbn [fst snd] in *. split; [by eapply rtc_r|].
    etransitivity; [exact Hr|]. by apply (schedule_step s0 (ts2, s2) (ts3, s3)).
Qed.

(** The steps of the threads accepted from [n] on. *)
Definition steps_from (n : nat) (ts : list (thread S)) (p : S * S) : Prop :=
  ∃ j t, (n ≤ j)%nat ∧ ts !! j = Some t ∧ p ∈ th_trace t.

(** A step of the pool makes at most one new step of a thread, now. *)
Lemma steps_from_step (n : nat) (c c' : list (thread S) * S) (p : S * S) :
  (n ≤ List.length c.1)%nat → pool_step (server cfg) outside c c' → steps_from n c'.1 p →
  (n ≤ List.length c'.1)%nat ∧ (steps_from n c.1 p ∨ p = (c.2, c'.2)).
Proof.
  intros Hn Hstep (j & t & Hj & Ht & Hp).
  destruct Hstep as [r ts s|a t0 t1 b s s' Hst|ts s s' He]; cbn [fst snd] in *.
  - split; [rewrite length_app; lia|]. apply lookup_app_Some in Ht as [Ht|[_ Ht]]; [left; by exists j, t|].
    apply list_lookup_singleton_Some in Ht as [_ <-]. by apply elem_of_nil in Hp.
  - split; [rewrite length_app in *; cbn in *; lia|].
    destruct (decide (j = List.length a)) as [->|Hne].
    + rewrite list_lookup_middle in Ht by done. injection Ht as ->.
      assert (Hold : p ∈ th_trace t0 → steps_from n (a ++ t0 :: b) p).
      { intros Hin. exists (List.length a), t0. split; [done|]. split; [by rewrite list_lookup_middle|done]. }
      destruct Hst as [r w f k tr x|r w B f k tr x]; cbn [th_trace] in *; [left; by apply Hold|].
      apply elem_of_app in Hp as [Hp|Hp%list_elem_of_singleton]; [left; by apply Hold|by right].
    + left. exists j, t. split; [done|]. split; [|done]. by rewrite (lookup_middle_ne a b t0 t1).
  - split; [done|]. left. by exists j, t.
Qed.

(** A thread accepted after [s1] reads states that follow [s1], and what it did is
    followed by the state at the end. *)
Lemma steps_between (s0 s1 s : S) (ts1 ts : list (thread S)) (p : S * S) :
  schedule cfg s0 ts1 s1 → runs (ts1, s1) (ts, s) → steps_from (List.length ts1) ts p →
  rtc db_change (db_of s1) (db_of p.1) ∧ rtc db_change (db_of p.2) (db_of s).
Proof.
  intros Hs Hrun. revert p.
  refine (proj2 (rtc_ind_r (λ c, (List.length ts1 ≤ List.length c.1)%nat ∧ ∀ p, steps_from (List.length ts1) c.1 p →
    rtc db_change (db_of s1) (db_of p.1) ∧ rtc db_change (db_of p.2) (db_of c.2)) _ _ _ _ Hrun)).
  - cbn [fst]. split; [done|]. intros p (j & t & Hj & Ht & _). apply lookup_lt_Some in Ht. lia.
  - intros [ts2 s2] [ts3 s3] Hrun2 Hstep [Hlen IH]. cbn [fst snd] in *.
    destruct (schedule_runs s0 s1 s2 ts1 ts2 Hs Hrun2) as [Hs2 Hr2].
    pose proof (schedule_step s0 (ts2, s2) (ts3, s3) Hs2 Hstep) as H23. cbn [fst snd] in H23.
    split; [|intros p Hp; destruct (steps_from_step _ (ts2, s2) (ts3, s3) p Hlen Hstep Hp) as [_ [Hold| ->]]; cbn [fst snd] in *].
    + inversion Hstep; subst; rewrite ?length_app in *; cbn in *; lia.
    + destruct (IH p Hold) as [Hb Ha]. split; [done|]. by etransitivity.
    + split; [done|apply rtc_refl].
Qed.
End history.

(** ** What has been created stays *)

(** The gateway [g0] as it may be later: another status, updated since, its creator
    as the column keeps it. *)
Definition kept (g0 g : Gateway) : Prop :=
  g = mkGateway (gw_ID g0) (gw_Name g0) (gw_Hostname g0) (gw_Port g0) (gw_Status g) (gw_TlsPolicy g0)
        (gw_MaxConnections g0) (varchar 255 (gw_CreatedBy g0)) (gw_CreatedAt g) (gw_UpdatedAt g)
  ∧ stored_time (gw_CreatedAt g0) (gw_CreatedAt g) ∧ (gw_Status g = "ACTIVE" ∨ gw_Status g = "INACTIVE").

(** It is there, and nothing else under its ID. *)
Definition holds_gateway (g0 : Gateway) (db : Database) : Prop :=
  (∃ g, g ∈ entities gateways db ∧ kept g0 g) ∧ ∀ g, g ∈ entities gateways db → gw_ID g = gw_ID g0 → kept g0 g.

(** Its name and hostname are stored as they are. *)
Definition names_fit (g : Gateway) : Prop := len (gw_Name g) ≤ 255 ∧ len (gw_Hostname g) ≤ 512.

Section holding.
Context `{UuidLib}.

Lemma kept_id (g0 g : Gateway) : kept g0 g → gw_ID g = gw_ID g0.
Proof. by intros [-> _]. Qed.

Lemma saved_kept (g0 g : Gateway) :
  gw_Status g0 = "INACTIVE" → names_fit g0 → gateway_saved g0 g → kept g0 g.
Proof.
  intros Hst [Hn Hh] [Hg Ht]. rewrite (varchar_fits 255 (gw_Name g0)), (varchar_fits 512) in Hg by done.
  split; [by rewrite Hg|]. split; [done|]. right. by rewrite Hg.
Qed.

Lemma added_holds (g0 : Gateway) (db db' : Database) :
  gw_Status g0 = "INACTIVE" → names_fit g0 → added gateway_resource g0 db db' → holds_gateway g0 db'.
Proof.
  intros Hst Hfit Hadd. destruct (added_in _ _ _ _ Hadd) as (g & Hs & Hin). split.
  - exists g. split; [exact Hin|by apply saved_kept].
  - intros g' Hin' Hid. apply saved_kept; [done|done|].
    exact (added_unique gateway_resource g0 g' db db' Hadd Hin' Hid).
Qed.

Lemma holds_other_table (g0 : Gateway) (t : string) (db db' : Database) :
  t ≠ "gateways" → only_changes t db db' → holds_gateway g0 db → holds_gateway g0 db'.
Proof.
  intros Ht Ho. unfold holds_gateway, entities. cbn [e_table gateways]. by rewrite (Ho "gateways").
Qed.

Lemma status_kept (g0 g g' : Gateway) (id : UUID) (status : string) :
  status = "ACTIVE" ∨ status = "INACTIVE" → status_rel id status g g' → kept g0 g → kept g0 g'.
Proof.
  unfold status_rel, with_status. intros Hst Hr (Hg & Ht & Hs). destruct (String.eqb (gw_ID g) id); [|by subst g'].
  rewrite Hr. unfold kept. cbn [gw_ID gw_Name gw_Hostname gw_Port gw_Status gw_TlsPolicy gw_MaxConnections gw_CreatedBy
    gw_CreatedAt gw_UpdatedAt]. split; [|by split]. by rewrite Hg.
Qed.

Lemma status_rel_id (id : UUID) (status : string) (g g' : Gateway) : status_rel id status g g' → gw_ID g' = gw_ID g.
Proof. unfold status_rel, with_status. by destruct (String.eqb (gw_ID g) id); intros ->. Qed.

Lemma db_change_holds (g0 : Gateway) (db db' : Database) : db_change db db' → holds_gateway g0 db → holds_gateway g0 db'.
Proof.
  intros [[g _ _ (g' & Hs & Hent & Hno & _)|u _ (u' & _ & _ & _ & _ & _ & Ho)|r _ (r' & _ & _ & _ & _ & _ & Ho)]
         |id status Hst Hf _|id _ Ho]; [..|by apply (holds_other_table g0 "routes")].
  - intros [(g1 & Hin & Hk) Hu]. cbn [res_entity gateway_resource] in *. split.
    + exists g1. split; [|done]. rewrite Hent. apply elem_of_app. by left.
    + intros x Hx Hid. rewrite Hent, elem_of_app, list_elem_of_singleton in Hx. destruct Hx as [Hx| ->]; [by apply Hu|].
      destruct (Hno g1 Hin). left. by rewrite (kept_id _ _ Hk).
  - by apply (holds_other_table g0 "upstreams").
  - by apply (holds_other_table g0 "routes").
  - intros [(g1 & Hin & Hk) Hu]. split.
    + apply list_elem_of_lookup in Hin as [i Hi]. destruct (Forall2_lookup_l _ _ _ _ _ Hf Hi) as (g' & Hg' & Hr).
      exists g'. split; [by eapply list_elem_of_lookup_2|]. by apply (status_kept g0 g1 g' id status).
    + intros x Hx Hid. destruct (Forall2_elem_r _ _ _ _ Hf Hx) as (g & Hg & Hr).
      apply (status_kept g0 g x id status); [done|done|]. apply Hu; [done|]. by rewrite <- (status_rel_id _ _ _ _ Hr).
Qed.

Lemma changes_hold (g0 : Gateway) (db db' : Database) :
  rtc db_change db db' → holds_gateway g0 db → holds_gateway g0 db'.
Proof. induction 1 as [|x y z Hstep _ IH]; [done|]. intros Hh. by apply IH, (db_change_holds g0 x). Qed.
End holding.

(** ** Reading what has been written *)

Section reading.
Context {S E : Type} `{UuidLib} `{ServerLaws S E} `{ChiLaws S} (cfg : Config).

(** The step of a creation answered 201. *)
Lemma creation_effect (s0 s : S) (ts : list (thread S)) (t : thread S) (subject : string) :
  schedule cfg s0 ts s → t ∈ ts → ended t → calls cfg CreateGateway subject (th_request t) →
  resp_status (finish (th_writer t)) = 201 →
  ∃ req id now p, let g := requested_gateway req (actor_of subject) id now in
    decode_body create_gateway_fields zeroCreateGateway (limited cfg (th_request t)) = Some req
    ∧ resp_body (finish (th_writer t)) = encode_line (GatewayResponse_json (Gateway_ToResponse g))
    ∧ names_fit g ∧ p ∈ th_trace t ∧ added gateway_resource g (db_of p.1) (db_of p.2).
Proof.
  intros Hs Hin He Hc Hst.
  destruct (api_thread cfg s0 s ts t CreateGateway subject Hs Hin He Hc) as (before & own & Htr & _ & Hown).
  rewrite Hst in Hown. destruct Hown as [[Hno _]|(v & Hbody & Hp)]; [lia|].
  cbn [promises] in Hp. unfold creates_gateway in Hp.
  destruct (decode_body _ _ _) as [req|]; [|by destruct Hp].
  case_decide; [by destruct Hp|]. case_decide as Hl; [by destruct Hp|].
  destruct Hp as (id & now & [(_ & -> & Ho)|(Hst' & _)]); [|discriminate Hst'].
  destruct Ho as (a & p & b & Hsplit & _ & Hadd & _). exists req, id, now, p. split; [done|]. split; [done|].
  split; [split; cbn; lia|]. split; [|exact Hadd]. rewrite Htr, Hsplit, !elem_of_app. right. right. apply list_elem_of_here.
Qed.

Lemma creation_holds (s0 s : S) (ts : list (thread S)) (t : thread S) (subject : string) :
  schedule cfg s0 ts s → t ∈ ts → ended t → calls cfg CreateGateway subject (th_request t) →
  resp_status (finish (th_writer t)) = 201 →
  ∃ req id now, let g := requested_gateway req (actor_of subject) id now in
    decode_body create_gateway_fields zeroCreateGateway (limited cfg (th_request t)) = Some req
    ∧ resp_body (finish (th_writer t)) = encode_line (GatewayResponse_json (Gateway_ToResponse g))
    ∧ holds_gateway g (db_of s).
Proof.
  intros Hs Hin He Hc Hst. destruct (creation_effect s0 s ts t subject Hs Hin He Hc Hst) as (req & id & now & p & Hd & Hb & Hfit & Hp & Hadd).
  exists req, id, now. split; [done|]. split; [done|].
  apply (changes_hold _ (db_of p.2)); [|by eapply added_holds].
  apply list_elem_of_lookup in Hin as [j Hj]. apply (steps_between cfg s0 s0 s [] ts p); [apply rtc_refl|done|].
  exists j, t. split; [cbn; lia|]. by split.
Qed.
End reading.

(** C4. Round trip, in every schedule: a gateway whose creation was answered 201 is
    in the database from then on, whatever runs beside or after it, the only one
    under its ID and unchanged but for its status (of a creator of more than 255
    characters, which the API does not refuse, the column drops the spaces beyond
    them); and every later request for that ID is answered 200 with it, unless a
    layer before the handler refuses it or the database fails. *)
Theorem post_get_in_any_schedule {S E} `{UuidLib} `{ServerLaws S E} `{ChiLaws S} (cfg : Config) (s0 s1 : S)
    (ts1 : list (thread S)) (t1 : thread S) (subject1 : string) :
  schedule cfg s0 ts1 s1 → t1 ∈ ts1 → ended t1 → calls cfg CreateGateway subject1 (th_request t1) →
  resp_status (finish (th_writer t1)) = 201 →
  ∃ req id now, let g0 := requested_gateway req (actor_of subject1) id now in
    decode_body create_gateway_fields zeroCreateGateway (limited cfg (th_request t1)) = Some req
    ∧ resp_body (finish (th_writer t1)) = encode_line (GatewayResponse_json (Gateway_ToResponse g0))
    ∧ ∀ ts s, runs cfg (ts1, s1) (ts, s) →
        holds_gateway g0 (db_of s)
        ∧ ∀ j t2 text subject2, (List.length ts1 ≤ j)%nat → ts !! j = Some t2 → ended t2 →
            calls cfg (GetGateway text) subject2 (th_request t2) → uuid_Parse text = Some id →
            let resp := finish (th_writer t2) in
            resp_status resp = 200 ∧ (∃ g, kept g0 g
              ∧ resp_body resp = encode_line (GatewayResponse_json (Gateway_ToResponse g)))
            ∨ resp_status resp = 404 ∧ (∃ p, p ∈ th_trace t2 ∧ fails (GatewayRepository_GetByID id) p.1)
            ∨ resp_status resp = 401 ∨ resp_status resp = 413 ∨ resp_status resp = 429.
Proof.
  intros Hs1 Hin He Hc Hst. destruct (creation_holds cfg s0 s1 ts1 t1 subject1 Hs1 Hin He Hc Hst) as (req & id & now & Hd & Hb & Hh).
  exists req, id, now. split; [done|]. split; [done|]. intros ts s Hrun.
  set (g0 := requested_gateway req (actor_of subject1) id now) in *.
  destruct (schedule_runs cfg s0 s1 s ts1 ts Hs1 Hrun) as [Hs Hr]. split; [by apply (changes_hold g0 (db_of s1))|].
  intros j t2 text subject2 Hj Ht2 He2 Hc2 Hid resp.
  destruct (api_thread cfg s0 s ts t2 (GetGateway text) subject2 Hs (list_elem_of_lookup_2 _ _ _ Ht2) He2 Hc2)
    as (before & own & Htr & _ & [[Hrefused _]|(v & Hbody & Hp)]); [tauto|].
  cbn [promises] in Hp. unfold with_id in Hp. rewrite Hid in Hp. destruct Hp as (sa & sb & -> & _ & Hp).
  assert (Hp2 : (sa, sb) ∈ th_trace t2) by (rewrite Htr, elem_of_app; right; apply list_elem_of_here).
  destruct (steps_between cfg s0 s1 s ts1 ts (sa, sb) Hs1 Hrun) as [Hbetween _]; [by exists j, t2|].
  apply (changes_hold g0 (db_of s1)) in Hbetween as [(g & Hg & Hk) Hu]; [|done].
  destruct Hp as [(g' & Hg' & Hgid & Hst2 & ->)|(Hst2 & _ & [Hno|Hf])].
  - left. split; [exact Hst2|]. exists g'. split; [by apply Hu|exact Hbody].
  - destruct (Hno g Hg). by rewrite (kept_id _ _ Hk).
  - right. left. split; [exact Hst2|]. by exists (sa, sb).
Qed.

(** ** Witnesses: a creation, and then a request for the new gateway *)

Definition demo_created : list (thread memory) * memory :=
  interleave (repeat 0%nat 40) (accept (server demo_config) [create_request "ApiKey k1"] m1).

Definition demo_new_id : UUID := (draw_uuid m1).1.

Definition demo_get : Request := api_request "GET" ("/api/v1/gateways/" ++ to_hex demo_new_id) "ApiKey k1" "".

Definition demo_read : list (thread memory) * memory :=
  interleave (repeat 1%nat 40)
    ((demo_created.1 ++ [mkThread demo_get newResponseWriter (server demo_config demo_get) []])%list, demo_created.2).

Lemma demo_created_schedule : schedule demo_config m1 demo_created.1 demo_created.2.
Proof.
  unfold schedule. rewrite <- surjective_pairing. etransitivity; [apply accept_schedule|apply interleave_schedule].
Qed.

Lemma demo_read_runs : runs demo_config (demo_created.1, demo_created.2) (demo_read.1, demo_read.2).
Proof.
  unfold runs. rewrite <- (surjective_pairing demo_read). eapply rtc_l; [apply pool_accept|apply interleave_schedule].
Qed.

Definition demo_nth (c : list (thread memory) * memory) (i : nat) : thread memory :=
  nth i c.1 (mkThread demo_get newResponseWriter (HDone tt) []).

Lemma demo_nth_lookup (c : list (thread memory) * memory) (i : nat) :
  (i < List.length c.1)%nat → c.1 !! i = Some (demo_nth c i).
Proof.
  unfold demo_nth. revert i. induction c.1 as [|t ts IH]; intros [|i] Hi; cbn in *; [lia|lia|done|]. apply IH. lia.
Qed.

(** The name tells the new gateway apart. *)
Lemma demo_only_one (g : Gateway) :
  g ∈ entities gateways (db_of demo_read.2) → gw_Name g = cg_Name decoded_gateway → gw_ID g = demo_new_id.
Proof.
  assert (Hall : forallb (λ g, negb (String.eqb (gw_Name g) (cg_Name decoded_gateway)) || String.eqb (gw_ID g) demo_new_id)
                   (entities gateways (db_of demo_read.2)) = true) by (vm_compute; reflexivity).
  intros Hin Hn. rewrite forallb_forall in Hall. specialize (Hall g (proj1 (list_elem_of_In _ _) Hin)).
  rewrite Hn, String.eqb_refl in Hall. by apply String.eqb_eq.
Qed.

Lemma demo_decoded :
  decode_body create_gateway_fields zeroCreateGateway (limited demo_config (create_request "ApiKey k1")) = Some decoded_gateway.
Proof. vm_compute. reflexivity. Qed.

Lemma demo_get_calls : calls (S := memory) demo_config (GetGateway (to_hex demo_new_id)) "svc-1" demo_get.
Proof.
  split; [exists 0, "admin", AuthMethodAPIKey; apply demo_credentials|]. split; [discriminate|].
  split; [reflexivity|]. split; [apply list_elem_of_here|]. split; [vm_compute; reflexivity|discriminate].
Qed.

Lemma post_get_in_any_schedule_witness :
  ∃ now g, kept (requested_gateway decoded_gateway "svc-1" demo_new_id now) g
    ∧ resp_body (finish (th_writer (demo_nth demo_read 1))) = encode_line (GatewayResponse_json (Gateway_ToResponse g)).
Proof.
  assert (Hst : resp_status (finish (th_writer (demo_nth demo_read 1))) = 200) by (vm_compute; reflexivity).
  assert (Hr1 : th_request (demo_nth demo_created 0) = create_request "ApiKey k1") by (vm_compute; reflexivity).
  assert (Hr2 : th_request (demo_nth demo_read 1) = demo_get) by (vm_compute; reflexivity).
  destruct (post_get_in_any_schedule demo_config m1 demo_created.2 demo_created.1 (demo_nth demo_created 0) "svc-1"
    demo_created_schedule) as (req & id & now & Hd & _ & Hrest).
  - apply (list_elem_of_lookup_2 _ 0), demo_nth_lookup. vm_compute. lia.
  - vm_compute. reflexivity.
  - rewrite Hr1. apply demo_calls.
  - vm_compute. reflexivity.
  - rewrite Hr1, demo_decoded in Hd. injection Hd as <-.
    destruct (Hrest demo_read.1 demo_read.2 demo_read_runs) as [[(g1 & Hin & Hk) _] Hget]. exists now.
    assert (Hid : id = demo_new_id).
    { rewrite <- (demo_only_one g1 Hin); [by rewrite (kept_id _ _ Hk)|]. by destruct Hk as [-> _]. }
    subst id. destruct (Hget 1%nat (demo_nth demo_read 1) (to_hex demo_new_id) "svc-1") as [[_ (g & Hg & Hb)]|[[H _]|[H|[H|H]]]].
    + vm_compute. lia.
    + apply demo_nth_lookup. vm_compute. lia.
    + vm_compute. reflexivity.
    + rewrite Hr2. apply demo_get_calls.
    + vm_compute. reflexivity.
    + exists g. split; [exact Hg|exact Hb].
    + rewrite Hst in H. discriminate H.
    + rewrite Hst in H. discriminate H.
    + rewrite Hst in H. discriminate H.
    + rewrite Hst in H. discriminate H.
Defined.
