(* ===== verification/ServerOrder.v ===== *)
(** * The serial order of the effects

    The requests of a schedule are interleaved, but their effects on the database
    come one after the other: [serialized] is the log of them, in the order in which
    they happen.  A schedule that goes on only adds to its log.  So of the requests
    that compete for a name one wins, and it keeps the name. *)

From S2P Require Import Prelude GoNum GoStrings GoTime Json Http Jwt Respond Threads RateLimit Auth Helpers.
From S2P Require Import Security Config Pool Model Sql Schema Postgres Memory Repository RepoFacts RepoSpec Service.
From S2P Require Import Handlers HandlerSpec Effects Consistency Endpoints Server ChiRef ServerSpec Routing ServerSafety.
From S2P Require Import ServerApi ServerHistory.

(** An effect: the position of the request that made it, and the database before
    and after. *)
Abbreviation effect := (nat * (Database * Database))%type.

(** Each effect starts where the one before it ended. *)
Fixpoint serial (db : Database) (log : list effect) (db' : Database) : Prop :=
  match log with
  | [] => db' = db
  | (_, (a, b)) :: log' => a = db ∧ b ≠ a ∧ db_change a b ∧ serial b log' db'
  end.

Lemma serial_app (db db' : Database) (log1 log2 : list effect) :
  serial db (log1 ++ log2) db' ↔ ∃ m, serial db log1 m ∧ serial m log2 db'.
Proof.
  revert db. induction log1 as [|[i [a b]] log1 IH]; intros db; cbn.
  - split; [by exists db|by intros (m & -> & ?)].
  - rewrite IH. split.
    + intros (-> & Hn & Hc & m & Ha & Hb). by exists m.
    + intros (m & (-> & Hn & Hc & Ha) & Hb). repeat split; [done|done|by exists m].
Qed.

Lemma serial_changes (db db' : Database) (log : list effect) : serial db log db' → rtc db_change db db'.
Proof.
  revert db. induction log as [|[i [a b]] log IH]; intros db; cbn; [by intros ->|].
  intros (-> & _ & Hc & Hs). eapply rtc_l; [exact Hc|by apply IH].
Qed.

(** Between an effect and a later one the database only goes through changes. *)
Lemma serial_before (db db' a b a' b' : Database) (log1 log2 : list effect) (i j : nat) :
  serial db (log1 ++ (i, (a, b)) :: log2) db' → (j, (a', b')) ∈ log2 → rtc db_change b a'.
Proof.
  intros (m & _ & _ & _ & _ & Hs)%serial_app (l & k & ->)%list_elem_of_split.
  apply serial_app in Hs as (m' & Hl & -> & _). by apply serial_changes in Hl.
Qed.

Lemma serial_order (db db' : Database) (log : list effect) (e e' : effect) :
  serial db log db' → e ∈ log → e' ∈ log → e ≠ e' →
  rtc db_change e.2.2 e'.2.1 ∨ rtc db_change e'.2.2 e.2.1.
Proof.
  destruct e as [i [a b]], e' as [j [a' b']]. cbn [fst snd].
  intros Hs (l & k & ->)%list_elem_of_split Hin Hne.
  apply elem_of_app in Hin as [Hin|[Heq|Hin]%elem_of_cons]; [right|congruence|left; by eapply serial_before].
  apply list_elem_of_split in Hin as (l1 & l2 & ->). rewrite <- app_assoc in Hs. cbn [app] in Hs.
  eapply serial_before; [exact Hs|]. apply elem_of_app. right. apply list_elem_of_here.
Qed.

(** A gateway added later has another ID and another name. *)
Lemma added_after (g1 g2 : Gateway) (a b a' b' : Database) :
  added gateway_resource g1 a b → added gateway_resource g2 a' b' → rtc db_change b a' →
  gw_Status g1 = "INACTIVE" → names_fit g1 → names_fit g2 → gw_ID g1 ≠ gw_ID g2 ∧ gw_Name g1 ≠ gw_Name g2.
Proof.
  intros Ha1 (g2' & [-> _] & _ & Hno & _) Hr Hst Hf1 [Hf2 _]. apply (added_holds g1) in Ha1; [|done..].
  destruct (changes_hold g1 b a' Hr Ha1) as [(g & Hg & Hk & _) _]. specialize (Hno g Hg). rewrite Hk in Hno. cbn in Hno.
  rewrite (varchar_fits 255 (gw_Name g2)) in Hno by done.
  split; intros Heq; apply Hno; auto.
Qed.

Section serialization.
Context {S E : Type} `{UuidLib} `{ServerLaws S E} `{ChiLaws S} (cfg : Config).

(** The effects in a trace. *)
Definition made_by_thread (t : thread S) (x : Database * Database) : Prop :=
  x.2 ≠ x.1 ∧ ∃ p, p ∈ th_trace t ∧ x = (db_of p.1, db_of p.2).

Definition made (ts : list (thread S)) (e : effect) : Prop :=
  ∃ t, ts !! e.1 = Some t ∧ made_by_thread t e.2.

(** The effects of all requests, in their order; at most one of each. *)
Definition serialized (s0 : S) (ts : list (thread S)) (s : S) (log : list effect) : Prop :=
  NoDup (map fst log) ∧ serial (db_of s0) log (db_of s) ∧ ∀ e, e ∈ log ↔ made ts e.

Lemma made_effects (t : thread S) (x : Database * Database) : made_by_thread t x → (1 ≤ effects (th_trace t))%nat.
Proof.
  intros [Hne (p & Hp & ->)]. unfold effects.
  assert (Hin : p ∈ filter (λ p, db_of p.2 ≠ db_of p.1) (th_trace t)) by (by apply list_elem_of_filter).
  apply list_elem_of_In in Hin. destruct (filter _ _); [by destruct Hin|cbn; lia].
Qed.

Lemma made_replace (a b : list (thread S)) (t t' : thread S) (e : effect) :
  made (a ++ t' :: b) e ↔ e.1 = List.length a ∧ made_by_thread t' e.2 ∨ e.1 ≠ List.length a ∧ made (a ++ t :: b) e.
Proof.
  unfold made. destruct (decide (e.1 = List.length a)) as [->|Hne].
  - rewrite list_lookup_middle by done. split; [intros (t0 & [= <-] & Hm); by left|].
    intros [[_ Hm]|[Hne _]]; [by exists t'|done].
  - rewrite (lookup_middle_ne a b t' t) by done. split; [by right|]. by intros [[Heq _]|[_ Hm]].
Qed.

(** A step that leaves the database alone adds nothing. *)
Lemma serialized_same (s0 s s' : S) (ts ts' : list (thread S)) (log : list effect) :
  db_of s' = db_of s → (∀ e, made ts' e ↔ made ts e) → serialized s0 ts s log → serialized s0 ts' s' log.
Proof. intros Hdb Hm (Hn & Hs & He). split; [done|]. rewrite Hdb. split; [done|]. intros e. by rewrite Hm. Qed.

Lemma made_accept (ts : list (thread S)) (t : thread S) (e : effect) : th_trace t = [] → made (ts ++ [t]) e ↔ made ts e.
Proof.
  intros Ht. split; intros (t' & Hl & Hm).
  - apply lookup_app_Some in Hl as [Hl|[_ Hl]]; [by exists t'|].
    apply list_lookup_singleton_Some in Hl as [_ <-]. destruct Hm as [_ (p & Hp & _)]. rewrite Ht in Hp.
    by apply elem_of_nil in Hp.
  - exists t'. split; [by apply lookup_app_l_Some|done].
Qed.

Lemma made_middle (a b : list (thread S)) (t t' : thread S) (e : effect) :
  (∀ x, made_by_thread t' x ↔ made_by_thread t x) → made (a ++ t' :: b) e ↔ made (a ++ t :: b) e.
Proof. intros Hx. by rewrite (made_replace a b t t'), Hx, <- (made_replace a b t t). Qed.

(** What a thread has done after a step. *)
Lemma made_by_step (r : Request) (w w' : ResponseWriter) (p p' : hio S unit) (tr : list (S * S)) (s s' : S)
    (x : Database * Database) :
  made_by_thread (mkThread r w' p' (tr ++ [(s, s')])) x ↔
  made_by_thread (mkThread r w p tr) x ∨ x = (db_of s, db_of s') ∧ db_of s' ≠ db_of s.
Proof.
  unfold made_by_thread. cbn [th_trace]. split.
  - intros [Hx (q & Hq & ->)]. apply elem_of_app in Hq as [Hq|Hq%list_elem_of_singleton].
    + left. split; [done|]. by exists q.
    + right. subst q. by split.
  - intros [[Hx (q & Hq & ->)]|[-> Hx]]; (split; [done|]).
    + exists q. split; [apply elem_of_app; by left|done].
    + exists (s, s'). split; [apply elem_of_app; right; by apply list_elem_of_singleton|done].
Qed.

(** A step with an effect adds it, when its request has had none before. *)
Lemma serialized_effect (s0 s s' : S) (a b : list (thread S)) (t t' : thread S) (log : list effect) :
  (∀ x, made_by_thread t' x ↔ made_by_thread t x ∨ x = (db_of s, db_of s') ∧ db_of s' ≠ db_of s) →
  (∀ x, ¬ made_by_thread t x) → db_of s' ≠ db_of s → db_change (db_of s) (db_of s') →
  serialized s0 (a ++ t :: b) s log →
  serialized s0 (a ++ t' :: b) s' (log ++ [(List.length a, (db_of s, db_of s'))]).
Proof.
  intros Hmade Hold Hne HR (Hn & Hs & Hl). split; [|split].
  - rewrite map_app. apply list.NoDup_app. split; [done|]. split; [|apply NoDup_singleton].
    intros i Hi Hi'. apply list_elem_of_singleton in Hi' as ->. apply list_elem_of_fmap in Hi as ([j x] & Heq & Hin).
    cbn [fst] in Heq. subst j. apply Hl in Hin as (t2 & Hlook & Hm). cbn [fst snd] in *.
    rewrite list_lookup_middle in Hlook by done. injection Hlook as <-. by apply (Hold x).
  - apply serial_app. exists (db_of s). split; [done|]. cbn. by repeat split.
  - intros [i x]. rewrite elem_of_app, list_elem_of_singleton, Hl, (made_replace a b t t'), Hmade.
    cbn [fst snd]. split.
    + intros [Hx|[= -> ->]]; [|by left; split; [|right]]. right. split; [|done]. intros ->.
      apply (made_replace a b t t) in Hx as [[_ Hx]|[Hx _]]; [by apply (Hold x)|done].
    + intros [[-> [Hx|[-> _]]]|[_ Hx]]; [by destruct (Hold x)|by right|by left].
Qed.

Lemma serialized_step (s0 : S) (c c' : list (thread S) * S) (log : list effect) :
  schedule cfg s0 c.1 c.2 → pool_step (server cfg) outside c c' → serialized s0 c.1 c.2 log →
  ∃ new, serialized s0 c'.1 c'.2 (log ++ new).
Proof.
  intros Hsch Hstep Hlog.
  assert (Hsch' : schedule cfg s0 c'.1 c'.2) by (destruct c, c'; by eapply rtc_r).
  destruct Hstep as [r ts s|a t t' b s s' Hst|ts s s' He]; cbn [fst snd] in *.
  - exists []. rewrite app_nil_r. apply (serialized_same s0 s s ts); [done| |done]. intros e. by apply made_accept.
  - destruct (any_thread cfg s0 s' _ t' Hsch') as [_ Hat]; [apply elem_of_app; right; apply list_elem_of_here|].
    pose proof (effects_atomic _ _ Hat) as Hle.
    destruct Hst as [r w f k tr s|r w B f k tr s]; cbn [th_trace] in *.
    { exists []. rewrite app_nil_r. refine (serialized_same s0 s s _ _ log eq_refl _ Hlog). intros e. by apply made_middle. }
    pose proof (made_by_step r w w (HStep f k) (k (f s).1) tr s (f s).2) as Hmade.
    destruct (decide (db_of (f s).2 = db_of s)) as [Heq|Hne].
    { exists []. rewrite app_nil_r. refine (serialized_same s0 s _ _ _ log Heq _ Hlog). intros e. apply made_middle.
      intros x. rewrite Hmade. tauto. }
    eexists. apply (serialized_effect s0 s (f s).2 a b _ _ log Hmade); [|done| |exact Hlog].
    + intros x Hx%made_effects. rewrite effects_app in Hle. cbn [th_trace] in Hx.
      destruct (effects_single s (f s).2) as [[Hdb _]|Hone]; [done|lia].
    + destruct (atomic_step _ _ (s, (f s).2) Hat) as [Heq|HR]; [|done|exact HR].
      apply elem_of_app. right. by apply list_elem_of_singleton.
  - exists []. rewrite app_nil_r. by apply (serialized_same s0 s s' ts).
Qed.

Lemma serialized_runs (s0 : S) (c c' : list (thread S) * S) (log : list effect) :
  schedule cfg s0 c.1 c.2 → serialized s0 c.1 c.2 log → runs cfg c c' →
  ∃ new, serialized s0 c'.1 c'.2 (log ++ new).
Proof.
  intros Hsch Hlog Hrun. revert log Hsch Hlog. induction Hrun as [c|c c1 c' Hstep _ IH]; intros log Hsch Hlog.
  - exists []. by rewrite app_nil_r.
  - destruct (serialized_step s0 c c1 log Hsch Hstep Hlog) as [new1 Hnew1].
    destruct (IH (log ++ new1)%list) as [new2 Hnew2]; [destruct c, c1; by eapply rtc_r|done|].
    exists (new1 ++ new2)%list. by rewrite app_assoc.
Qed.

Lemma serialized_start (s0 : S) : serialized s0 [] s0 [].
Proof.
  split; [apply NoDup_nil_2|]. split; [done|]. intros e. split; [by intros ?%elem_of_nil|by intros (t & Hl & _)].
Qed.

Lemma schedule_serialized (s0 s : S) (ts : list (thread S)) : schedule cfg s0 ts s → ∃ log, serialized s0 ts s log.
Proof. intros Hs. by apply (serialized_runs s0 ([], s0) (ts, s) [] (rtc_refl _ _) (serialized_start s0)). Qed.

(** The steps of two creations are in some order. *)
Lemma added_changes (g : Gateway) (db db' : Database) : added gateway_resource g db db' → db' ≠ db.
Proof.
  intros (g' & _ & Hent & _) ->. apply (f_equal List.length) in Hent. rewrite length_app in Hent. cbn in Hent. lia.
Qed.

(** What an ended request did is in every log. *)
Lemma ended_not_new (s0 s1 s : S) (ts1 ts : list (thread S)) (log new : list effect) (i : nat) (t : thread S) :
  runs cfg (ts1, s1) (ts, s) → serialized s0 ts1 s1 log → serialized s0 ts s (log ++ new) →
  ts1 !! i = Some t → ended t → i ∉ map fst new.
Proof.
  intros Hrun (_ & _ & Hold) (Hn & _ & Hall) Hi He Hin. apply list_elem_of_fmap in Hin as ([j x] & Heq & Hin).
  cbn [fst] in Heq. subst j. pose proof (ended_stays _ _ _ _ i t Hrun Hi He) as Hi'. cbn [fst] in Hi'.
  assert (Hm : made ts (i, x)) by (apply Hall, elem_of_app; by right). destruct Hm as (t' & Ht' & Hm). cbn [fst snd] in *.
  rewrite Hi' in Ht'. injection Ht' as <-.
  assert (Hlog : (i, x) ∈ log) by (apply Hold; by exists t).
  rewrite map_app in Hn. apply list.NoDup_app in Hn as (_ & Hdisj & _).
  apply (Hdisj i); apply list_elem_of_fmap; by exists (i, x).
Qed.
End serialization.

(** ** Properties *)

(** C6. Refinement: the effects of the requests on the database, whatever their
    schedule, come one after the other.  [log] names each with its request, at most
    one for each; every one is a change of the API's abstract specification and
    starts from the database the one before left, from the first database to the
    last.  As the schedule goes on the log only grows, and a request that has ended
    adds nothing to it. *)
Theorem effects_serialized {S E} `{UuidLib} `{ServerLaws S E} `{ChiLaws S} (cfg : Config) (s0 s1 s : S)
    (ts1 ts : list (thread S)) :
  schedule cfg s0 ts1 s1 → runs cfg (ts1, s1) (ts, s) →
  ∃ log new, serialized s0 ts1 s1 log ∧ serialized s0 ts s (log ++ new)
    ∧ ∀ i t, ts1 !! i = Some t → ended t → i ∉ map fst new.
Proof.
  intros Hs Hrun. destruct (schedule_serialized cfg s0 s1 ts1 Hs) as [log Hlog].
  destruct (serialized_runs cfg s0 (ts1, s1) (ts, s) log Hs Hlog Hrun) as [new Hnew].
  exists log, new. split; [exact Hlog|]. split; [exact Hnew|]. intros i t. by apply (ended_not_new cfg s0 s1 s ts1 ts log).
Qed.

(** C2. Of the creations of gateways that compete for a name at most one wins:
    whatever the schedule, two different requests that were answered 201 have
    created gateways of different names and different IDs. *)
Theorem names_exclusive {S E} `{UuidLib} `{ServerLaws S E} `{ChiLaws S} (cfg : Config) (s0 s : S) (ts : list (thread S))
    (i j : nat) (t1 t2 : thread S) (subject1 subject2 : string) :
  schedule cfg s0 ts s → ts !! i = Some t1 → ts !! j = Some t2 → i ≠ j → ended t1 → ended t2 →
  calls cfg CreateGateway subject1 (th_request t1) → calls cfg CreateGateway subject2 (th_request t2) →
  resp_status (finish (th_writer t1)) = 201 → resp_status (finish (th_writer t2)) = 201 →
  ∃ req1 req2 id1 id2 now1 now2,
    let g1 := requested_gateway req1 (actor_of subject1) id1 now1 in
    let g2 := requested_gateway req2 (actor_of subject2) id2 now2 in
    decode_body create_gateway_fields zeroCreateGateway (limited cfg (th_request t1)) = Some req1
    ∧ decode_body create_gateway_fields zeroCreateGateway (limited cfg (th_request t2)) = Some req2
    ∧ resp_body (finish (th_writer t1)) = encode_line (GatewayResponse_json (Gateway_ToResponse g1))
    ∧ resp_body (finish (th_writer t2)) = encode_line (GatewayResponse_json (Gateway_ToResponse g2))
    ∧ cg_Name req1 ≠ cg_Name req2 ∧ id1 ≠ id2.
Proof.
  intros Hs Hi Hj Hij He1 He2 Hc1 Hc2 Hst1 Hst2.
  destruct (creation_effect cfg s0 s ts t1 subject1 Hs (list_elem_of_lookup_2 _ _ _ Hi) He1 Hc1 Hst1)
    as (req1 & id1 & now1 & p1 & Hd1 & Hb1 & Hf1 & Hp1 & Ha1).
  destruct (creation_effect cfg s0 s ts t2 subject2 Hs (list_elem_of_lookup_2 _ _ _ Hj) He2 Hc2 Hst2)
    as (req2 & id2 & now2 & p2 & Hd2 & Hb2 & Hf2 & Hp2 & Ha2).
  exists req1, req2, id1, id2, now1, now2. split; [exact Hd1|]. split; [exact Hd2|]. split; [exact Hb1|]. split; [exact Hb2|].
  destruct (schedule_serialized cfg s0 s ts Hs) as (log & _ & Hlog & Hall).
  assert (Hin : ∀ k t p, ts !! k = Some t → p ∈ th_trace t → db_of p.2 ≠ db_of p.1 → (k, (db_of p.1, db_of p.2)) ∈ log).
  { intros k t p Hk Hp Hne. apply Hall. exists t. split; [done|]. split; [done|]. by exists p. }
  pose proof (Hin i t1 p1 Hi Hp1 (added_changes _ _ _ Ha1)) as Hl1.
  pose proof (Hin j t2 p2 Hj Hp2 (added_changes _ _ _ Ha2)) as Hl2.
  destruct (serial_order _ _ _ _ _ Hlog Hl1 Hl2) as [Hr|Hr]; [congruence|..]; cbn [fst snd] in Hr.
  - destruct (added_after _ _ _ _ _ _ Ha1 Ha2 Hr eq_refl Hf1 Hf2) as [Hid Hname]. split; [exact Hname|exact Hid].
  - destruct (added_after _ _ _ _ _ _ Ha2 Ha1 Hr eq_refl Hf2 Hf1) as [Hid Hname]. split; [by apply not_eq_sym|by apply not_eq_sym].
Qed.

(** ** Witnesses *)

Definition named_request (name : string) : Request :=
  api_request "POST" "/api/v1/gateways" "ApiKey k1"
    (encode (JObject [("name", JString name); ("hostname", JString "edge.example.net")])).

(** The requests, their steps taken in turn. *)
Definition demo_race (names : list string) : list (thread memory) * memory :=
  interleave (List.concat (replicate 40 [0; 1]%nat)) (accept (server demo_config) (map named_request names) m1).

Definition demo_statuses (c : list (thread memory) * memory) : list Z :=
  map (λ t, match th_prog t with HDone _ => resp_status (finish (th_writer t)) | _ => 0 end) c.1.

(** Two gateways of different names are created; of one name only the first. *)
Lemma demo_races :
  demo_statuses (demo_race ["edge-4"; "edge-5"]) = [201; 201]
  ∧ demo_statuses (demo_race ["edge-4"; "edge-4"]) = [201; 500].
Proof. split; vm_compute; reflexivity. Qed.

Lemma demo_race_schedule (names : list string) :
  schedule demo_config m1 (demo_race names).1 (demo_race names).2.
Proof.
  unfold schedule. rewrite <- surjective_pairing. unfold demo_race.
  etransitivity; [exact (accept_schedule _ _ (map named_request names) m1)|apply interleave_schedule].
Qed.

Lemma effects_serialized_witness :
  ∃ log new, serialized m1 demo_created.1 demo_created.2 log ∧ serialized m1 demo_read.1 demo_read.2 (log ++ new).
Proof.
  destruct (effects_serialized demo_config m1 demo_created.2 demo_read.2 demo_created.1 demo_read.1
    demo_created_schedule demo_read_runs) as (log & new & Hlog & Hnew & _).
  exists log, new. split; [exact Hlog|exact Hnew].
Defined.

Lemma named_calls (name : string) : calls (S := memory) demo_config CreateGateway "svc-1" (named_request name).
Proof.
  split; [exists 0, "admin", AuthMethodAPIKey; apply demo_credentials|]. split; [discriminate|].
  split; [reflexivity|]. split; [apply list_elem_of_further, list_elem_of_here|exact I].
Qed.

Lemma names_exclusive_witness :
  ∃ req1 req2 id1 id2 now1 now2,
    let g1 := requested_gateway req1 (actor_of "svc-1") id1 now1 in
    let g2 := requested_gateway req2 (actor_of "svc-1") id2 now2 in
    decode_body create_gateway_fields zeroCreateGateway
      (limited demo_config (th_request (demo_nth (demo_race ["edge-4"; "edge-5"]) 0))) = Some req1
    ∧ decode_body create_gateway_fields zeroCreateGateway
      (limited demo_config (th_request (demo_nth (demo_race ["edge-4"; "edge-5"]) 1))) = Some req2
    ∧ resp_body (finish (th_writer (demo_nth (demo_race ["edge-4"; "edge-5"]) 0)))
      = encode_line (GatewayResponse_json (Gateway_ToResponse g1))
    ∧ resp_body (finish (th_writer (demo_nth (demo_race ["edge-4"; "edge-5"]) 1)))
      = encode_line (GatewayResponse_json (Gateway_ToResponse g2))
    ∧ cg_Name req1 ≠ cg_Name req2 ∧ id1 ≠ id2.
Proof.
  assert (Hr0 : th_request (demo_nth (demo_race ["edge-4"; "edge-5"]) 0) = named_request "edge-4") by (vm_compute; reflexivity).
  assert (Hr1 : th_request (demo_nth (demo_race ["edge-4"; "edge-5"]) 1) = named_request "edge-5") by (vm_compute; reflexivity).
  refine (names_exclusive demo_config m1 (demo_race ["edge-4"; "edge-5"]).2 (demo_race ["edge-4"; "edge-5"]).1 0 1
    (demo_nth (demo_race ["edge-4"; "edge-5"]) 0) (demo_nth (demo_race ["edge-4"; "edge-5"]) 1) "svc-1" "svc-1"
    _ _ _ _ _ _ _ _ _ _).
  - apply demo_race_schedule.
  - apply demo_nth_lookup. vm_compute. lia.
  - apply demo_nth_lookup. vm_compute. lia.
  - discriminate.
  - vm_compute. reflexivity.
  - vm_compute. reflexivity.
  - rewrite Hr0. apply named_calls.
  - rewrite Hr1. apply named_calls.
  - vm_compute. reflexivity.
  - vm_compute. reflexivity.
Defined.
