(* ===== verification/ServerErrors.v ===== *)
(** * What errors tell

    Which answers other than success the server can give, in every schedule: each
    is explained by the layer that gives it.  The bodies are among finitely many
    messages written in the source; the only text of a request they repeat is the
    scheme of its own Authorization header, and nothing of the database, of an
    error it returned, or of a secret is in them. *)

From S2P Require Import Prelude GoNum GoStrings GoTime Json Http Jwt Respond Threads RateLimit Auth Helpers.
From S2P Require Import Security Config Pool Model Sql Schema Postgres Memory Repository RepoFacts RepoSpec Service.
From S2P Require Import Handlers HandlerSpec Effects Endpoints Server ChiRef ServerSpec Routing ServerSafety.

(** ** Errors of the endpoints *)

Definition bad_body : Z * string := (400, "invalid request body").

Definition list_errors (gateway_missing : bool) (failure : string) : list (Z * string) :=
  (if gateway_missing then [(400, "gateway_id is required"); (400, "invalid gateway_id")] else [])
  ++ [(500, failure)].

(** The status and message of the errors an endpoint can answer. *)
Definition endpoint_errors (ep : endpoint) : list (Z * string) :=
  match ep with
  | CreateGateway =>
      [bad_body; (400, "name and hostname are required"); (400, "name or hostname exceeds maximum length");
       (500, "failed to create gateway")]
  | ListGateways => list_errors false "failed to list gateways"
  | GetGateway _ => [(400, "invalid gateway ID"); (404, "gateway not found")]
  | ActivateGateway _ => [(400, "invalid gateway ID"); (500, "failed to activate gateway")]
  | DeactivateGateway _ => [(400, "invalid gateway ID"); (500, "failed to deactivate gateway")]
  | CreateUpstream => [bad_body; (400, "name, host, and port are required"); (500, "failed to create upstream")]
  | ListUpstreams => list_errors false "failed to list upstreams"
  | GetUpstream _ => [(400, "invalid upstream ID"); (404, "upstream not found")]
  | CreateRoute =>
      [bad_body; (400, "gateway_id, upstream_id, and path_prefix are required"); (500, "failed to create route")]
  | ListRoutes => list_errors true "failed to list routes"
  | DeleteRoute _ => [(400, "invalid route ID"); (500, "failed to delete route")]
  | ListThreats => list_errors true "failed to list threats"
  end.

Section endpoint_errors.
Context {S E : Type} `{UuidLib} `{FrameLaws S E}.

(** Success, or one of the errors [errors]. *)
Definition errs_within (errors : list (Z * string)) (B : behaviour (S := S)) : Prop :=
  ∀ st v tr, B st v tr → st ∈ [200; 201] ∨ ∃ msg, (st, msg) ∈ errors ∧ v = error_json msg.

Lemma errs_rejects (errors : list (Z * string)) (status : Z) (message : string) :
  (status, message) ∈ errors → errs_within errors (rejects status message).
Proof. intros Hin st v tr (-> & -> & _). right. by exists message. Qed.

Lemma errs_creates {A} (errors : list (Z * string)) (rs : resource A) (wanted : UUID → Time → A) reply failure :
  (500, failure) ∈ errors → errs_within errors (creates rs wanted reply failure).
Proof. intros Hin st v tr (id & now & [(-> & _)|(-> & -> & _)]); [left; set_solver|right; by exists failure]. Qed.

Lemma errs_changes (errors : list (Z * string)) (change : relation Database) (present : Database → Prop) reply failure :
  (500, failure) ∈ errors → errs_within errors (changes change present reply failure).
Proof. intros Hin st v tr [(-> & _)|(-> & -> & _)]; [left; set_solver|right; by exists failure]. Qed.

Lemma errs_looks_up {A} (errors : list (Z * string)) (e : entity A) id_of id get reply missing :
  (404, missing) ∈ errors → errs_within errors (looks_up e id_of id get reply missing).
Proof.
  intros Hin st v tr (s & s' & _ & _ & [(a & _ & _ & -> & _)|(-> & -> & _)]); [left; set_solver|right; by exists missing].
Qed.

Lemma errs_lists {A} (errors : list (Z * string)) (e : entity A) readable key p offset limit reply failure :
  (500, failure) ∈ errors → errs_within errors (lists e readable key p offset limit reply failure).
Proof.
  intros Hin st v tr (_ & [(page & total & s1 & s1' & s2 & s2' & _ & -> & _)|(-> & ->)]);
    [left; set_solver|right; by exists failure].
Qed.

Lemma errs_lists_all {A} (errors : list (Z * string)) (e : entity A) key p reply failure :
  (500, failure) ∈ errors → errs_within errors (lists_all e key p reply failure).
Proof.
  intros Hin st v tr (s & s' & _ & _ & [(items & -> & _)|(-> & ->)]); [left; set_solver|right; by exists failure].
Qed.

Lemma errs_with_id (errors : list (Z * string)) (text bad : string) b :
  (400, bad) ∈ errors → (∀ id, errs_within errors (b id)) → errs_within errors (with_id text bad b).
Proof. intros Hin Hb. unfold with_id. destruct (uuid_Parse text); [apply Hb|by apply errs_rejects]. Qed.

Lemma errs_of_gateway (r : Request) (failure : string) b :
  (∀ id, errs_within (list_errors true failure) (b id)) → errs_within (list_errors true failure) (of_gateway r b).
Proof.
  intros Hb. unfold of_gateway. case_decide; [apply errs_rejects; set_solver|]. apply errs_with_id; [set_solver|done].
Qed.

(** An endpoint answers with success or one of its errors. *)
Lemma promises_errors (ep : endpoint) (r : Request) (actor : string) :
  errs_within (endpoint_errors ep) (promises ep r actor).
Proof.
  destruct ep; cbn [promises endpoint_errors].
  - unfold creates_gateway. destruct (decode_body _ _ _); [|apply errs_rejects; set_solver].
    repeat (case_decide; [apply errs_rejects; set_solver|]). apply errs_creates. set_solver.
  - apply errs_lists. set_solver.
  - apply errs_with_id; [set_solver|]. intros uid. apply errs_looks_up. set_solver.
  - apply errs_with_id; [set_solver|]. intros uid. apply errs_changes. set_solver.
  - apply errs_with_id; [set_solver|]. intros uid. apply errs_changes. set_solver.
  - unfold creates_upstream. destruct (decode_body _ _ _); [|apply errs_rejects; set_solver].
    case_decide; [apply errs_rejects; set_solver|]. apply errs_creates. set_solver.
  - apply errs_lists. set_solver.
  - apply errs_with_id; [set_solver|]. intros uid. apply errs_looks_up. set_solver.
  - unfold creates_route. destruct (decode_body _ _ _) as [c|]; [|apply errs_rejects; set_solver].
    case_decide; [apply errs_rejects; set_solver|].
    destruct (uuid_Parse (cr_GatewayID c)), (uuid_Parse (cr_UpstreamID c)); try (apply errs_rejects; set_solver). apply errs_creates. set_solver.
  - apply errs_of_gateway. intros uid. apply errs_lists_all. set_solver.
  - apply errs_with_id; [set_solver|]. intros uid. apply errs_changes. set_solver.
  - apply errs_of_gateway. intros uid. apply errs_lists. set_solver.
Qed.
End endpoint_errors.

(** ** Errors of the server *)

(** Why [r] was answered [st] with [body]. *)
Inductive explained (cfg : Config) (r : Request) (st : Z) (body : string) : Prop :=
| explained_length :
    st = 413 → MaxBodyBytes cfg < ContentLength r →
    body = error_line ("request body too large (max " ++ Itoa (MaxBodyBytes cfg) ++ " bytes)") →
    explained cfg r st body
| explained_rate : st = 429 → body = error_line "rate limit exceeded" → explained cfg r st body
| explained_identity message :
    st = 401 → auth_enabled cfg = true →
    refusal (auth_config cfg) (header_Get (ReqHeader r) "Authorization") message → body = error_line message →
    explained cfg r st body
| explained_route : fallback_answer st body → explained cfg r st body
| explained_endpoint ep message :
    endpoint_method ep = Method r → (st, message) ∈ endpoint_errors ep → body = error_line message →
    explained cfg r st body.

Section server_errors.
Context {S E : Type} `{UuidLib} `{ServerLaws S E} `{ChiLaws S} (cfg : Config).

(** Success, or an explained error. *)
Definition accounted (r : Request) (st : Z) (b : string) (tr : list (S * S)) : Prop :=
  st ∈ [200; 201; 204] ∨ explained cfg r st b.

Lemma accounted_policy (r0 : Request) :
  policy cfg (accounted r0) (accounted r0) (same_head r0) (same_head r0) (same_head r0).
Proof.
  split; [|try done..].
  - apply admits_quiet; [done|..].
    + intros r _ _. left. set_solver.
    + right. by apply explained_rate.
    + intros r msg He (_ & _ & Hh & _) Hr. rewrite Hh in Hr. right. by apply (explained_identity _ _ _ _ msg).
  - intros r (_ & _ & _ & Hcl) Hlt. rewrite Hcl in Hlt. right. by apply explained_length.
Qed.

Lemma accounted_request (r : Request) : wp (server cfg r) (λ _, served 6 (accounted r)) newResponseWriter.
Proof.
  apply (server_serves cfg _ _ (same_head r) (same_head r) (same_head r) r (accounted_policy r)).
  - intros r' Hs _. by apply same_request_head.
  - left. set_solver.
  - intros st b Hfb. right. by apply explained_route.
  - intros r' p h up w (Hm & _) Hin Hw. apply (api_routes_endpoints _ _ _ up) in Hin as (ep & -> & Hme & Hup).
    apply endpoint_served; [done| |done]. intros st v tr HB.
    apply promises_errors in HB as [Hst|(msg & Hin & ->)]; [left; set_solver|].
    right. apply (explained_endpoint _ _ _ _ ep msg); [congruence|done|done].
Qed.
End server_errors.

(** C5. Errors: in every schedule, an answer other than 200, 201 and 204 is 413 for a
    length beyond the limit, 429, 401 for the reason [refusal] gives of the request's
    own Authorization header, 404 or 405 of the router, or one of the errors of an
    endpoint of the request's method, with the body of that reason and nothing else.
    Unless it is 500, the request has changed nothing. *)
Theorem error_answers {S E} `{UuidLib} `{ServerLaws S E} `{ChiLaws S} (cfg : Config) (s0 s : S) (ts : list (thread S))
    (t : thread S) :
  schedule cfg s0 ts s → t ∈ ts → ended t →
  let resp := finish (th_writer t) in
  resp_status resp ∈ [200; 201; 204]
  ∨ explained cfg (th_request t) (resp_status resp) (resp_body resp)
    ∧ (resp_status resp ≠ 500 → quiet (th_trace t)).
Proof.
  intros Hs Hin He resp.
  destruct (schedule_thread cfg s0 s ts t (λ _, True) (λ r, accounted cfg r) (λ r _, accounted_request cfg r) Hs Hin I)
    as [_ Ha]. destruct (Ha He) as [[Hst|Hst] _]; [by left|].
  destruct (schedule_thread cfg s0 s ts t (λ _, True) (λ _, by_status outcome) (λ r _, any_request cfg r) Hs Hin I)
    as [_ Ho]. destruct (Ho He) as [[_ Hq|H201 _|H200 _|H500 _] _].
  - right. by split; [|intros _].
  - left. unfold resp. rewrite H201. set_solver.
  - left. unfold resp. rewrite H200. set_solver.
  - right. by split; [|intros []].
Qed.

(** The third of the four interleaved requests has a key nobody has. *)
Lemma error_answers_witness :
  explained demo_config (activate_request "ApiKey other") 401 (error_line "invalid API key")
  ∧ quiet (th_trace (demo_thread 2)).
Proof.
  assert (Hr : th_request (demo_thread 2) = activate_request "ApiKey other") by (vm_compute; reflexivity).
  assert (Hst : resp_status (finish (th_writer (demo_thread 2))) = 401) by (vm_compute; reflexivity).
  assert (Hb : resp_body (finish (th_writer (demo_thread 2))) = error_line "invalid API key") by (vm_compute; reflexivity).
  pose proof (error_answers demo_config m1 demo_pool.2 demo_pool.1 (demo_thread 2) demo_schedule) as H.
  cbv zeta in H. rewrite Hr, Hst, Hb in H. destruct H as [Hin|[Hx Hq]].
  - apply demo_thread_in. lia.
  - vm_compute. reflexivity.
  - exfalso. apply list_elem_of_In in Hin. cbn in Hin. intuition discriminate.
  - split; [exact Hx|apply Hq; discriminate].
Defined.
