(* ===== verification/ServerPages.v ===== *)
(** * Walking through a listing

    A client reads all gateways page by page.  When nothing is created or removed
    meanwhile and no two gateways were created at the same moment, the pages put
    together are all gateways, each once, newest first, whatever else the server
    does at the same time.  The order of the listing has no second criterion, so
    gateways of one moment may come in another order at each query: then a walk can
    repeat one and miss another. *)

From Stdlib Require Import Sorting.Sorted.
From stdpp Require Import sorting.
From S2P Require Import Prelude GoNum GoStrings GoTime Json Http Jwt Respond Threads RateLimit Auth Helpers.
From S2P Require Import Security Config Pool Model Sql Schema Postgres Memory Repository RepoFacts RepoSpec Service.
From S2P Require Import Handlers HandlerSpec Effects Endpoints Server ChiRef ServerSpec Routing ServerSafety ServerApi.
From S2P Require Import ServerHistory.

(** ** Pages of a list *)

(** A list sorted by distinct keys has one order. *)
Lemma sorted_unique {A} (key : A → Z) (l k : list A) :
  NoDup (map key l) → StronglySorted (λ a b, key b ≤ key a) l → StronglySorted (λ a b, key b ≤ key a) k →
  l ≡ₚ k → l = k.
Proof.
  intros Hnd Hl Hk Hp. eapply StronglySorted_unique_strong; [|exact Hl|exact Hk|exact Hp].
  cbv beta. intros a b Ha Hb Hab Hba. rewrite <- Hp in Hb. apply list_elem_of_lookup in Ha as [i Hi], Hb as [j Hj].
  assert (Heq : i = j); [|congruence]. apply (NoDup_lookup (map key l) i j (key a)); [done|..];
    rewrite list_lookup_fmap; [by rewrite Hi|]. rewrite Hj. cbn. f_equal. lia.
Qed.

Lemma is_page_perm {A} (key : A → Z) (l k : list A) (offset limit : Z) (page : list A) :
  l ≡ₚ k → is_page key l offset limit page → is_page key k offset limit page.
Proof. intros Hlk (all & Hp & Hrest). exists all. split; [by rewrite <- Hlk|done]. Qed.

(** The pages of [limit] elements, as many as there are, are the whole in order. *)
Lemma pages_whole {A} (key : A → Z) (items : list A) (limit : Z) (pages : list (list A)) :
  NoDup (map key items) → pages ≠ [] → len_list items ≤ len_list pages * limit →
  (∀ i page, pages !! i = Some page → is_page key items (Z.of_nat i * limit) limit page) →
  List.concat pages ≡ₚ items ∧ StronglySorted (λ a b, key b ≤ key a) (List.concat pages).
Proof.
  intros Hnd Hne Hlen Hpages. destruct pages as [|page0 pages']; [done|]. clear Hne.
  destruct (Hpages 0%nat page0 eq_refl) as (all & Hall & Hsort & _ & Hlim & _).
  assert (Hcat : List.concat (page0 :: pages') = all).
  { rewrite (concat_slices (Z.to_nat limit) all (page0 :: pages')).
    - apply take_ge. rewrite Hall. unfold len_list in Hlen. nia.
    - intros i page Hi. destruct (Hpages i page Hi) as (all' & Hall' & Hsort' & _ & _ & ->).
      rewrite (sorted_unique key all all'); [|by rewrite Hall|done|done|by rewrite Hall, Hall'].
      f_equal. f_equal. nia. }
  rewrite Hcat. by split.
Qed.

(** ** The walk *)

(** The response to a listing of [gs]. *)
Definition page_body `{UuidLib} (gs page : list Gateway) (offset limit : Z) : string :=
  encode_line (GatewayListResponse_json (mkGatewayList (map Gateway_ToResponse page) (len_list gs) offset limit)).

(** A request for the gateways from [offset], at most [limit], answered 200; at each
    of its steps the gateways are [gs]. *)
Record reads_page {S E} `{UuidLib} `{ServerLaws S E} `{ChiLaws S} (cfg : Config) (gs : list Gateway) (offset limit : Z)
    (t : thread S) : Prop := mkReadsPage {
  rp_ended : ended t;
  rp_calls : ∃ subject, calls cfg ListGateways subject (th_request t);
  rp_query : RawQuery (th_request t) = page_query offset limit;
  rp_status : resp_status (finish (th_writer t)) = 200;
  rp_gateways p : p ∈ th_trace t → entities gateways (db_of p.1) ≡ₚ gs
}.

Section walk.
Context {S E : Type} `{UuidLib} `{ServerLaws S E} `{ChiLaws S} (cfg : Config).

Lemma reads_page_body (s0 s : S) (ts : list (thread S)) (t : thread S) (gs : list Gateway) (offset limit : Z) :
  schedule cfg s0 ts s → t ∈ ts → 0 ≤ offset ≤ MaxOffset → 1 ≤ limit ≤ MaxPageLimit → reads_page cfg gs offset limit t →
  ∃ page, is_page (λ g, wall (gw_CreatedAt g)) gs offset limit page
    ∧ resp_body (finish (th_writer t)) = page_body gs page offset limit.
Proof.
  unfold MaxOffset, MaxPageLimit. intros Hs Hin Ho Hl [He (subject & Hc) Hq Hst Hgs].
  destruct (api_thread cfg s0 s ts t ListGateways subject Hs Hin He Hc) as (before & own & Htr & _ & Hown).
  rewrite Hst in Hown. destruct Hown as [[Hno _]|(v & Hb & Hp)]; [lia|]. cbn [promises] in Hp.
  assert (Hpg : ParsePagination (limited cfg (th_request t)) = mkPagination offset limit).
  { rewrite (ParsePagination_page_query _ offset limit); [|exact Hq|unfold int64_min, int64_max; lia..].
    unfold MaxOffset, MaxPageLimit. f_equal; [lia|]. case_match; bool_to_prop; lia. }
  rewrite Hpg in Hp. cbn [pg_Offset pg_Limit] in Hp.
  assert (Hcl : clamp_limit limit = limit) by (unfold clamp_limit; case_match; bool_to_prop; lia).
  rewrite Hcl in Hp.
  destruct Hp as (_ & [(page & total & s1 & s1' & s2 & s2' & -> & _ & -> & Ht & Hp)|[Hno _]]); [|lia].
  specialize (Ht I). specialize (Hp I).
  assert (Hany : ∀ l : list Gateway, List.filter any l = l) by (intros l; induction l as [|g l IH]; cbn; congruence).
  rewrite Hany in Ht, Hp.
  exists page. split.
  - refine (is_page_perm _ _ _ _ _ _ _ Hp). apply (Hgs (s2, s2')). rewrite Htr. set_solver.
  - rewrite Hb. unfold page_body. replace (len_list gs) with total; [reflexivity|]. rewrite Ht. unfold len_list.
    f_equal. apply Permutation_length, (Hgs (s1, s1')). rewrite Htr. set_solver.
Qed.

Lemma walk_pages (s0 s : S) (ts : list (thread S)) (gs : list Gateway) (limit : Z) (walk : list (thread S)) :
  schedule cfg s0 ts s → 1 ≤ limit ≤ MaxPageLimit → len_list walk * limit ≤ MaxOffset →
  (∀ i t, walk !! i = Some t → t ∈ ts ∧ reads_page cfg gs (Z.of_nat i * limit) limit t) →
  ∃ pages, List.length pages = List.length walk
    ∧ ∀ i page, pages !! i = Some page →
        is_page (λ g, wall (gw_CreatedAt g)) gs (Z.of_nat i * limit) limit page
        ∧ ∃ t, walk !! i = Some t
               ∧ resp_body (finish (th_writer t)) = page_body gs page (Z.of_nat i * limit) limit.
Proof.
  intros Hs Hl. induction walk as [|t walk IH] using rev_ind; intros Hmax Hw; [by exists []|].
  unfold len_list in *. rewrite length_app in Hmax. cbn [List.length] in Hmax. destruct IH as (pages & Hlen & Hp); [nia|..].
  { intros i t' Hi. apply Hw. by apply lookup_app_l_Some. }
  destruct (Hw (List.length walk) t) as [Hin Hr]; [by apply list_lookup_middle|].
  destruct (reads_page_body s0 s ts t gs (Z.of_nat (List.length walk) * limit) limit) as (page & Hpage & Hb); [done|done|nia|done|done|].
  exists (pages ++ [page])%list. split; [by rewrite !length_app, Hlen|]. intros i page' Hi.
  apply lookup_app_Some in Hi as [Hi|[Hge Hi]].
  - destruct (Hp i page' Hi) as (Hpg & t' & Ht' & Hb'). split; [done|]. exists t'. split; [by apply lookup_app_l_Some|done].
  - apply list_lookup_singleton_Some in Hi as [Hz <-]. assert (i = List.length walk) as -> by lia. split; [done|].
    exists t. split; [by apply list_lookup_middle|done].
Qed.
End walk.

(** C23. A walk through the gateways, [limit] a page, in any schedule: when the gateways
    are [gs] at each step of its requests, created at different times, and the walk
    is long enough, its pages together are [gs], each gateway once, newest first; and
    each response is the JSON of its page with the number of all. *)
Theorem listing_walk {S E} `{UuidLib} `{ServerLaws S E} `{ChiLaws S} (cfg : Config) (s0 s : S) (ts : list (thread S))
    (gs : list Gateway) (limit : Z) (walk : list (thread S)) :
  schedule cfg s0 ts s → 1 ≤ limit ≤ MaxPageLimit → walk ≠ [] →
  len_list gs ≤ len_list walk * limit ≤ MaxOffset → NoDup (map (λ g, wall (gw_CreatedAt g)) gs) →
  (∀ i t, walk !! i = Some t → t ∈ ts ∧ reads_page cfg gs (Z.of_nat i * limit) limit t) →
  ∃ pages, List.length pages = List.length walk
    ∧ List.concat pages ≡ₚ gs
    ∧ StronglySorted (λ a b, wall (gw_CreatedAt b) ≤ wall (gw_CreatedAt a)) (List.concat pages)
    ∧ ∀ i page, pages !! i = Some page → ∃ t, walk !! i = Some t
        ∧ resp_body (finish (th_writer t)) = page_body gs page (Z.of_nat i * limit) limit.
Proof.
  intros Hs Hl Hne [Hlen Hmax] Hnd Hw.
  destruct (walk_pages cfg s0 s ts gs limit walk Hs Hl Hmax Hw) as (pages & Hpl & Hp). exists pages. split; [done|].
  destruct (pages_whole (λ g, wall (gw_CreatedAt g)) gs limit pages) as [Hperm Hsort]; [done|..].
  - intros ->. by destruct walk.
  - unfold len_list in *. by rewrite Hpl.
  - intros i page Hi. apply (Hp i page Hi).
  - split; [done|]. split; [done|]. intros i page Hi. apply (Hp i page Hi).
Qed.

(** ** Witness: two pages of one gateway, read at the same time as another request *)

Definition list_request (offset limit : Z) : Request :=
  mkRequest "GET" "/api/v1/gateways" (page_query offset limit) (header_Set ∅ "Authorization" "ApiKey k1")
    (mkBody "" None) 0 "10.0.0.1:5000" [].

Definition demo_walk : list (thread memory) * memory :=
  interleave (List.concat (replicate 40 [0; 1; 2]%nat))
    (accept (server demo_config) [list_request 0 1; list_request 1 1; activate_request "ApiKey other"] m1).

Definition m1_gateways : list Gateway := entities gateways (db_of m1).

Lemma demo_walk_schedule : schedule demo_config m1 demo_walk.1 demo_walk.2.
Proof.
  unfold schedule. rewrite <- surjective_pairing. unfold demo_walk.
  etransitivity; [exact (accept_schedule _ _ [list_request 0 1; list_request 1 1; activate_request "ApiKey other"] m1)
                 |apply interleave_schedule].
Qed.

Lemma list_calls (offset limit : Z) : calls (S := memory) demo_config ListGateways "svc-1" (list_request offset limit).
Proof.
  split; [exists 0, "admin", AuthMethodAPIKey; apply demo_credentials|]. split; [discriminate|].
  split; [reflexivity|]. split; [apply list_elem_of_further, list_elem_of_here|exact I].
Qed.

#[local] Instance gateway_eq_dec : EqDecision Gateway.
Proof. solve_decision. Defined.

Lemma demo_walk_reads (i : nat) :
  (i < 2)%nat → reads_page demo_config m1_gateways (Z.of_nat i * 1) 1 (demo_nth demo_walk i).
Proof.
  intros Hi.
  assert (Hr : th_request (demo_nth demo_walk i) = list_request (Z.of_nat i * 1) 1).
  { destruct i as [|[|i]]; [vm_compute; reflexivity..|lia]. }
  split.
  - destruct i as [|[|i]]; [vm_compute; reflexivity..|lia].
  - exists "svc-1". rewrite Hr. apply list_calls.
  - by rewrite Hr.
  - destruct i as [|[|i]]; [vm_compute; reflexivity..|lia].
  - assert (Hall : forallb (λ p, bool_decide (entities gateways (db_of p.1) = m1_gateways)) (th_trace (demo_nth demo_walk i)) = true).
    { destruct i as [|[|i]]; [vm_compute; reflexivity..|lia]. }
    intros p Hp. rewrite forallb_forall in Hall. apply list_elem_of_In, Hall, bool_decide_eq_true in Hp. by rewrite Hp.
Qed.

Lemma listing_walk_witness :
  ∃ page1 page2, (page1 ++ page2 ++ [])%list ≡ₚ m1_gateways
    ∧ resp_body (finish (th_writer (demo_nth demo_walk 1))) = page_body m1_gateways page2 1 1.
Proof.
  destruct (listing_walk demo_config m1 demo_walk.2 demo_walk.1 m1_gateways 1
    (demo_nth demo_walk <$> seq 0 2)) as (pages & Hl & Hp & _ & Hb).
  - apply demo_walk_schedule.
  - split; vm_compute; discriminate.
  - discriminate.
  - split; vm_compute; discriminate.
  - apply (bool_decide_unpack _). vm_compute. reflexivity.
  - intros i t Hi. rewrite list_lookup_fmap in Hi. apply fmap_Some in Hi as (j & [-> Hlt]%lookup_seq & ->).
    split; [|by apply demo_walk_reads]. apply (list_elem_of_lookup_2 _ i), demo_nth_lookup.
    assert (Hlen : List.length demo_walk.1 = 3%nat) by (vm_compute; reflexivity). rewrite Hlen. lia.
  - destruct pages as [|page1 [|page2 [|page3 pages]]]; try discriminate Hl. exists page1, page2. split; [exact Hp|].
    destruct (Hb 1%nat page2 eq_refl) as (t & Ht & Hbody). rewrite list_lookup_fmap in Ht.
    apply fmap_Some in Ht as (j & [-> _]%lookup_seq & ->). exact Hbody.
Defined.
