(* ===== verification/ServerPath.v ===== *)
(** * A request's way through the server

    [inner_cases] lists what can happen to a request before it is dispatched;
    [server_reaches_api] takes an authenticated request to the routers of the API.
    On them rest the properties of the whole path of a request that runs alone:
    without a proven identity nothing changes, and an authenticated POST does,
    through every layer, what its handler promises. *)

From S2P Require Import Prelude GoNum GoStrings GoTime Json Http Jwt Respond Threads RateLimit Auth Helpers.
From S2P Require Import Security Config Pool Model Sql Schema Postgres Memory Repository RepoFacts RepoSpec Service.
From S2P Require Import Handlers HandlerSpec Effects Endpoints Server ChiRef ServerSpec Routing ServerSafety.

(** ** Before the dispatch *)

(** What the middleware adds to a request on its way: the identity and the limit
    on the body. *)
Definition carried (cfg : Config) (r r' : Request) : Prop :=
  Method r' = Method r ∧ Path r' = Path r ∧ RawQuery r' = RawQuery r ∧ ReqHeader r' = ReqHeader r
  ∧ Body r' = MaxBytesReader (Body r) (MaxBodyBytes cfg).

Section path.
Context {S E : Type} `{UuidLib} `{ServerLaws S E} `{ChiLaws S}.

(** [m] answers [status] with the database as it is. *)
Definition refuses (m : unit * (ResponseWriter * S)) (s : S) (status : Z) : Prop :=
  resp_status (finish m.2.1) = status ∧ db_of m.2.2 = db_of s.

Lemma refuses_error (w : ResponseWriter) (s s' : S) (status : Z) (msg : string) :
  unsent w → db_of s' = db_of s → refuses (writeAuthError status msg (w, s')) s status.
Proof.
  intros Hw Hs. rewrite writeAuthError_eq by done. split; cbn [fst snd]; [by rewrite finish_json_written|done].
Qed.

(** The limiter of [s] refuses some client. *)
Definition limiter_refuses (s : S) : Prop :=
  ∃ key, allowed (rl_cfg (get_limiter s)) (take (get_limiter s) key (time_Now s).1).1 = false.

Lemma limit_requests_cases (next : Handler S) (r : Request) (w : ResponseWriter) (s : S) :
  unsent w →
  (limiter_refuses s ∧ refuses (limit_requests next r (w, s)) s 429)
  ∨ ∃ w' rl, unsent w' ∧ limit_requests next r (w, s) = next r (w', put_limiter rl (time_Now s).2).
Proof.
  intros Hw. pose proof (limit_requests_eq next r w s) as Heq. pose proof (clock_keeps_limiter s) as Hk.
  pose proof (clock_keeps_db s) as Hdb. unfold limiter_refuses.
  destruct (time_Now s) as [now s1]. cbn [fst snd] in *. cbv zeta in Heq. rewrite Hk in Heq.
  destruct (allowed _ _) eqn:Ea; [right|left].
  - rewrite Heq. eexists _, _. split; [|reflexivity]. by apply unsent_update.
  - split; [by eexists|]. rewrite Heq. apply refuses_error; [by apply unsent_update|]. by rewrite limiter_keeps_db.
Qed.

Lemma inner_cases (cfg : Config) (r : Request) (w : ResponseWriter) (s : S) :
  unsent w →
  (MaxBodyBytes cfg < ContentLength r ∧ refuses (inner cfg r (w, s)) s 413)
  ∨ (Method r = "OPTIONS" ∧ refuses (inner cfg r (w, s)) s 204)
  ∨ (limiter_refuses s ∧ refuses (inner cfg r (w, s)) s 429)
  ∨ ∃ w' rl, unsent w'
      ∧ inner cfg r (w, s)
        = dispatch (server_router cfg) None (with_body r (MaxBytesReader (Body r) (MaxBodyBytes cfg)))
            (w', put_limiter rl (time_Now s).2).
Proof.
  intros Hw. unfold inner, MaxBodySize. destruct (Z.ltb_spec (MaxBodyBytes cfg) (ContentLength r)) as [Hlt|_].
  { left. split; [done|]. by apply refuses_error. }
  right. generalize (dispatch (server_router cfg) None). intros d. set (r' := with_body r _).
  assert (Hlim : ∀ w', unsent w' →
    (Method r = "OPTIONS" ∧ refuses (limit_requests d r' (w', s)) s 204)
    ∨ (limiter_refuses s ∧ refuses (limit_requests d r' (w', s)) s 429)
    ∨ ∃ w'' rl, unsent w'' ∧ limit_requests d r' (w', s) = d r' (w'', put_limiter rl (time_Now s).2)).
  { intros w' Hw'. right. by apply limit_requests_cases. }
  destruct (0 <? len_list (CORSOrigins cfg)); cbn [chain]; [|by apply Hlim].
  rewrite CORS_eq. cbv zeta. destruct (decide _); [|by apply Hlim].
  destruct (String.eqb_spec (Method r') "OPTIONS") as [Ho|_]; [|by apply Hlim, unsent_update].
  left. split; [exact Ho|]. destruct w as [hd sent body], Hw as [Hs Hb]. cbn in Hs, Hb. by subst.
Qed.

(** ** The dispatch at the top *)

Lemma fallback_state (h : Handler S) (r : Request) (w : ResponseWriter) (s : S) :
  h = chi_NotFound ∨ h = chi_MethodNotAllowed → unsent w → (h r (w, s)).2.2 = s.
Proof.
  intros Hh Hw. assert (Hf : ∃ st b, falls_back h st b).
  { destruct Hh as [->| ->]; [exists 404, not_found_body; by left|exists 405, ""; by right]. }
  destruct Hf as (st & b & Hf). by destruct (wp_run _ _ w s (chi_fallback h st b r w Hf Hw)) as (tr & (-> & _) & Hc).
Qed.

Lemma server_dispatch_cases (cfg : Config) (r : Request) :
  dispatch (server_router cfg) None r = HealthHandler_Check r
  ∨ (∃ rest, dispatch (server_router cfg) None r = serve (api_router cfg) (Some rest) r)
  ∨ ∃ h : Handler S, (h = chi_NotFound ∨ h = chi_MethodNotAllowed) ∧ dispatch (server_router cfg) None r = h r.
Proof.
  unfold dispatch at 1 2 3. destruct (server_router_parts cfg) as (-> & ->).
  destruct (chi_find _ _ _ _) as [[|i] up|[|j] rest| |].
  - by left.
  - right. right. exists chi_NotFound. split; [by left|done].
  - right. left. by exists rest.
  - right. right. exists chi_NotFound. split; [by left|done].
  - right. right. exists chi_NotFound. split; [by left|done].
  - right. right. exists chi_MethodNotAllowed. split; [by right|done].
Qed.

(** ** Authentication at the API *)

(** The header of [r] proves an identity when [Auth] reads the clock, which is
    after the limiter has. *)
Definition proves (cfg : Config) (r : Request) (s : S) (subject role method : string) : Prop :=
  credentials (auth_config cfg) (Unix (time_Now (time_Now s).2).1) (header_Get (ReqHeader r) "Authorization")
    subject role method.

Lemma serve_api_auth (cfg : Config) (rest : string) (r : Request) :
  auth_enabled cfg = true →
  serve (api_router cfg) (Some rest) r = Auth (auth_config cfg) (dispatch (api_router cfg) (Some rest)) r.
Proof. intros He. unfold serve. destruct (api_router_parts cfg) as (-> & _). by rewrite He. Qed.

(** [Auth] at the API, after the limiter: the identity proven goes on, or 401. *)
Lemma api_auth_cases (cfg : Config) (r r' : Request) (rest : string) (w : ResponseWriter) (rl : RateLimiter) (s : S) :
  auth_enabled cfg = true → Path r ≠ "/health" → unsent w → Path r' = Path r → ReqHeader r' = ReqHeader r →
  let reached := serve (api_router cfg) (Some rest) r' (w, put_limiter rl (time_Now s).2) in
  (∃ sub role m s', proves cfg r s sub role m ∧ db_of s' = db_of s
     ∧ reached = dispatch (api_router cfg) (Some rest) (with_identity r' sub role m) (w, s'))
  ∨ ((∀ sub role m, ¬ proves cfg r s sub role m) ∧ refuses reached s 401).
Proof.
  intros He Hp Hw Hpath Hhdr reached. subst reached. rewrite serve_api_auth by done.
  set (s2 := put_limiter rl (time_Now s).2).
  assert (Hdb2 : db_of s2 = db_of s) by (unfold s2; by rewrite limiter_keeps_db, clock_keeps_db).
  assert (Hclk : (time_Now s2).1 = (time_Now (time_Now s).2).1) by apply limiter_keeps_clock.
  destruct (Auth_decides (auth_config cfg) (dispatch (api_router cfg) (Some rest)) r' w s2 Hw) as (out & s' & Hs & Ho & Heq).
  { apply existsb_eqb_false. rewrite Hpath. by intros ?%list_elem_of_singleton. }
  rewrite Heq. clear Heq. rewrite Hclk, Hhdr in Ho.
  assert (Hdb : db_of s' = db_of s) by (destruct Hs as [-> | ->]; [done|by rewrite clock_keeps_db]).
  destruct out as [[[sub role] m]|msg]; cbn [auth_outcome] in Ho.
  - left. by exists sub, role, m, s'.
  - right. split; [done|]. split; [by cbn [fst snd]; rewrite finish_json_written|done].
Qed.

Lemma server_reaches_api (cfg : Config) (r : Request) (s : S) (rest sub role m : string) :
  Method r ∈ chi_methods → auth_enabled cfg = true → Path r ≠ "/health" → Method r ≠ "OPTIONS" → ContentLength r ≤ MaxBodyBytes cfg →
  match_mount "/api/v1" (chi_route_path (Path r)) = Some rest → proves cfg r s sub role m →
  (limiter_refuses s ∧ refuses (server cfg r (newResponseWriter, s)) s 429)
  ∨ ∃ r' w' s', carried cfg r r' ∧ SubjectFromContext (Context r') = sub ∧ RoleFromContext (Context r') = role
      ∧ AuthMethodFromContext (Context r') = m ∧ unsent w' ∧ db_of s' = db_of s
      ∧ server cfg r (newResponseWriter, s) = dispatch (api_router cfg) (Some rest) r' (w', s').
Proof.
  intros Hknown He Hp Hno Hlen Hrest Hproves.
  destruct (server_reduces cfg r newResponseWriter s) as (r1 & Hsame & ->).
  destruct Hsame as (Hm & Hpath & Hq & Hhdr & Hbody & Hcl & _).
  set (w1 := rw_update_header _ _). assert (Hw1 : unsent w1) by by apply unsent_update.
  destruct (inner_cases cfg r1 w1 s Hw1) as [[? _]|[[? _]|[Hlim|(w2 & rl & Hw2 & ->)]]]; [lia|congruence|by left|right].
  rewrite (server_dispatch_api cfg _ rest); [|cbn [Method with_body]; by rewrite Hm|cbn [Path with_body]; by rewrite Hpath].
  destruct (api_auth_cases cfg r (with_body r1 (MaxBytesReader (Body r1) (MaxBodyBytes cfg))) rest w2 rl s
    He Hp Hw2 Hpath Hhdr) as [(sub' & role' & m' & s' & Hpr & Hdb & ->)|[Hnone _]]; [|by destruct (Hnone sub role m)].
  destruct (credentials_functional _ _ _ _ _ _ _ _ _ _ Hproves Hpr) as (<- & <- & <-).
  eexists _, w2, s'. split; [|split; [|split; [|split; [|split; [|split; [|reflexivity]]]]]]; try done.
  repeat split; cbn; congruence.
Qed.

End path.

(** ** Properties *)

(** When authentication is configured, a request that proves no identity
    changes nothing in the database, whatever it asks for; and below /api/v1 it
    is answered 401, unless an earlier layer refuses it with 413, 204 (a CORS
    preflight) or 429, or the router with 405 for a method it does not know. *)
Theorem unauthenticated_requests {S E} `{UuidLib} `{ServerLaws S E} `{ChiLaws S} (cfg : Config) (r : Request) (s : S) :
  auth_enabled cfg = true → Path r ≠ "/health" →
  (∀ sub role m, ¬ proves cfg r s sub role m) →
  let '(resp, s') := run_handler (server cfg) r s in
  db_of s' = db_of s
  ∧ (∀ rest, match_mount "/api/v1" (chi_route_path (Path r)) = Some rest →
       resp_status resp = 401
       ∨ resp_status resp = 413 ∧ MaxBodyBytes cfg < ContentLength r
       ∨ resp_status resp = 204 ∧ Method r = "OPTIONS"
       ∨ resp_status resp = 429 ∧ limiter_refuses s
       ∨ resp_status resp = 405 ∧ Method r ∉ chi_methods).
Proof.
  intros He Hp Hnone. unfold run_handler. destruct (server_reduces cfg r newResponseWriter s) as (r1 & Hsame & ->).
  destruct Hsame as (Hm & Hpath & _ & Hhdr & _ & Hcl & _). rewrite <- Hm, <- Hcl.
  set (w1 := rw_update_header _ _). assert (Hw1 : unsent w1) by by apply unsent_update.
  destruct (inner_cases cfg r1 w1 s Hw1) as [[Hc Hr]|[[Hc Hr]|[[Hc Hr]|(w2 & rl & Hw2 & ->)]]].
  1-3: destruct (inner cfg r1 (w1, s)) as [u [w' s']], Hr as [Hst Hdb]; cbn in Hst, Hdb; (split; [exact Hdb|]);
    intros rest _; cbn; tauto.
  set (r2 := with_body r1 _).
  assert (Hapi : ∀ rest, refuses (serve (api_router cfg) (Some rest) r2 (w2, put_limiter rl (time_Now s).2)) s 401).
  { intros rest. destruct (api_auth_cases cfg r r2 rest w2 rl s He Hp Hw2 Hpath Hhdr)
      as [(sub & role & m & s' & Hpr & _)|[_ Hr]]; [by destruct (Hnone sub role m)|exact Hr]. }
  assert (Hdb : db_of (dispatch (server_router cfg) None r2 (w2, put_limiter rl (time_Now s).2)).2.2 = db_of s).
  { destruct (server_dispatch_cases cfg r2) as [-> |[[rest ->]|(h & Hh & ->)]].
    - change (db_of (put_limiter rl (time_Now s).2) = db_of s). by rewrite limiter_keeps_db, clock_keeps_db.
    - apply Hapi.
    - rewrite (fallback_state h) by done. by rewrite limiter_keeps_db, clock_keeps_db. }
  destruct (decide (Method r1 ∈ chi_methods)) as [Hknown|Hunknown].
  - assert (Hst : ∀ rest, match_mount "/api/v1" (chi_route_path (Path r)) = Some rest →
      refuses (dispatch (server_router cfg) None r2 (w2, put_limiter rl (time_Now s).2)) s 401).
    { intros rest Hrest. rewrite (server_dispatch_api cfg r2 rest); [apply Hapi|exact Hknown|].
      unfold r2. cbn [Path with_body]. by rewrite Hpath. }
    destruct (dispatch _ _ _ _) as [u [w' s']]. split; [exact Hdb|]. intros rest Hrest. left. by destruct (Hst rest Hrest).
  - assert (Hst : resp_status (finish (dispatch (server_router cfg) None r2 (w2, put_limiter rl (time_Now s).2)).2.1) = 405).
    { rewrite dispatch_unknown by done. rewrite finish_eq. cbn [resp_status].
      assert (Hf : falls_back (chi_MethodNotAllowed : Handler S) 405 "") by (by right).
      by destruct (wp_run _ _ w2 (put_limiter rl (time_Now s).2) (chi_fallback chi_MethodNotAllowed 405 "" r2 w2 Hf Hw2))
        as (tr & (_ & Hst & _) & _). }
    destruct (dispatch _ _ _ _) as [u [w' s']]. split; [exact Hdb|]. intros rest _. cbn in Hst. tauto.
Qed.

(** The response has this status and this JSON. *)
Definition answers (resp : Response) (status : Z) (v : json) : Prop :=
  resp_status resp = status ∧ resp_body resp = encode_line v.

(** Read the response off an answer. *)
Ltac answered H := rewrite H; cbv beta iota; rewrite finish_json_written; cbv beta iota.

Lemma body_within (r r' : Request) (cfg : Config) :
  carried cfg r r' → b_limit (Body r) = None → len (b_data (Body r)) ≤ MaxBodyBytes cfg →
  ∀ T (fields : list (field T)) zero, decode_body fields zero r' = decode_body fields zero r.
Proof.
  intros (_ & _ & _ & _ & Hb) Hl Hd T fields zero. unfold decode_body. rewrite Hb.
  unfold body_read, MaxBytesReader. rewrite Hl. cbn [b_limit b_data].
  by rewrite (proj2 (Z.leb_le _ _)) by lia.
Qed.

(** An authenticated [POST /api/v1/gateways/{id}/activate] goes through every
    layer to the database: unless the limiter refuses it, an ID that does not
    parse is answered 400 and changes nothing; 200 means that the gateway exists
    and that its status, and nothing else but its update time, is now ACTIVE;
    otherwise the answer is 500, and an unknown ID changes no gateway. *)
Theorem authenticated_activate {S E} `{UuidLib} `{ServerLaws S E} `{ChiLaws S} (cfg : Config) (r : Request) (s : S)
    (text sub role m : string) :
  auth_enabled cfg = true → proves cfg r s sub role m → Path r ≠ "/health" →
  Method r = "POST" → ContentLength r ≤ MaxBodyBytes cfg →
  chi_route_path (Path r) = ("/api/v1/gateways/" ++ text ++ "/activate")%string →
  no_byte "/" text = true → text ≠ "" →
  let before := entities gateways (db_of s) in
  let '(resp, s') := run_handler (server cfg) r s in
  (limiter_refuses s ∧ resp_status resp = 429 ∧ db_of s' = db_of s)
  ∨ match uuid_Parse text with
    | None => answers resp 400 (error_json "invalid gateway ID") ∧ db_of s' = db_of s
    | Some id =>
        (answers resp 200 (status_json "activated")
         ∧ Forall2 (status_rel id "ACTIVE") before (entities gateways (db_of s'))
         ∧ only_changes "gateways" (db_of s) (db_of s')
         ∧ ∃ g, g ∈ before ∧ gw_ID g = id)
        ∨ (answers resp 500 (error_json "failed to activate gateway")
           ∧ (entities gateways (db_of s') = before
              ∨ Forall2 (status_rel id "ACTIVE") before (entities gateways (db_of s')))
           ∧ ((∀ g, g ∈ before → gw_ID g ≠ id) → entities gateways (db_of s') = before))
    end.
Proof.
  intros He Hpr Hp Hm Hlen Hpath Hno Hne before. unfold run_handler.
  destruct (server_reaches_api cfg r s ("/gateways/" ++ text ++ "/activate") sub role m)
    as [[Hl [Hst Hdb]]|(r' & w' & s' & Hc & _ & _ & _ & Hw & Hdb & ->)]; [by apply (method_known (ActivateGateway text))|done|done|by rewrite Hm|done| |done| |].
  - by rewrite Hpath.
  - destruct (server cfg r _) as [u [w' s']]. by left.
  - destruct Hc as (Hm' & _). assert (Hknown : Method r' ∈ chi_methods) by (apply (method_known (ActivateGateway text)); cbn; congruence).
    rewrite (api_dispatch_resource cfg (ActivateGateway text) _ ("/" ++ text ++ "/activate")) by done. destruct (endpoint_route (ActivateGateway text) r') as (up & Hup & Heq); [cbn; congruence|done|].
    specialize (Hup text eq_refl). cbn [endpoint_below endpoint_handler] in Heq. rewrite Heq.
    pose proof (gateway_activate_effect up r' w' s' Hw) as Ha. cbv zeta in Ha. rewrite Hup, Hdb in Ha. clear Heq.
    destruct (uuid_Parse text) as [id|].
    + destruct Ha as (s2 & [(Heq & Ha)|(Heq & Ha)]); answered Heq; right; [left|right]; (split; [by split|exact Ha]).
    + answered Ha. right. by split.
Qed.

(** An authenticated [POST /api/v1/gateways]: unless the limiter refuses it,
    a body that does not decode, a missing name or hostname, and one over 255
    bytes are answered 400 and change nothing; otherwise the gateway asked for is
    added with its defaults, INACTIVE, under a new ID, created by the
    authenticated subject unless the body names another, and answered with 201;
    or the answer is 500. *)
Theorem authenticated_create {S E} `{UuidLib} `{ServerLaws S E} `{ChiLaws S} (cfg : Config) (r : Request) (s : S)
    (sub role m : string) :
  auth_enabled cfg = true → proves cfg r s sub role m → Path r ≠ "/health" →
  Method r = "POST" → ContentLength r ≤ MaxBodyBytes cfg →
  chi_route_path (Path r) ∈ ["/api/v1/gateways"; "/api/v1/gateways/"] →
  b_limit (Body r) = None → len (b_data (Body r)) ≤ MaxBodyBytes cfg →
  let '(resp, s') := run_handler (server cfg) r s in
  (limiter_refuses s ∧ resp_status resp = 429 ∧ db_of s' = db_of s)
  ∨ match decode_body create_gateway_fields zeroCreateGateway r with
    | None => answers resp 400 (error_json "invalid request body") ∧ db_of s' = db_of s
    | Some req =>
        if decide (cg_Name req = "" ∨ cg_Hostname req = "") then
          answers resp 400 (error_json "name and hostname are required") ∧ db_of s' = db_of s
        else if decide (255 < len (cg_Name req) ∨ 255 < len (cg_Hostname req)) then
          answers resp 400 (error_json "name or hostname exceeds maximum length") ∧ db_of s' = db_of s
        else ∃ id now,
          let g := requested_gateway req (if decide (sub = "") then "system" else sub) id now in
          (answers resp 201 (GatewayResponse_json (Gateway_ToResponse g))
           ∧ added gateway_resource g (db_of s) (db_of s'))
          ∨ (answers resp 500 (error_json "failed to create gateway")
             ∧ (db_of s' = db_of s ∨ added gateway_resource g (db_of s) (db_of s')))
    end.
Proof.
  intros He Hpr Hp Hm Hlen Hpath Hlim Hbody. unfold run_handler.
  assert (Hrest : ∃ rest, match_mount "/api/v1" (chi_route_path (Path r)) = Some rest
                          ∧ match_mount "/gateways" rest = Some "/").
  { apply elem_of_cons in Hpath as [Hpath|Hpath%list_elem_of_singleton]; rewrite Hpath; by eexists. }
  destruct Hrest as (rest & Hrest & Hgw).
  destruct (server_reaches_api cfg r s rest sub role m)
    as [[Hl [Hst Hdb]]|(r' & w' & s' & Hc & Hsub & _ & _ & Hw & Hdb & ->)]; [by apply (method_known CreateGateway)|done|done|by rewrite Hm|done|done|done| |].
  { destruct (server cfg r _) as [u [w' s']]. by left. }
  assert (Hknown : Method r' ∈ chi_methods) by (apply (method_known CreateGateway); destruct Hc; cbn; congruence).
  rewrite (api_dispatch_resource cfg CreateGateway rest "/" r' Hknown Hgw).
  destruct (endpoint_route CreateGateway r') as (up & _ & Heq); [destruct Hc; cbn; congruence|done|].
  cbn [endpoint_below endpoint_handler] in Heq. rewrite Heq. clear Heq.
  pose proof (gateway_create_effect r' w' s' Hw) as Ha. cbv zeta in Ha. rewrite Hdb in Ha.
  rewrite (body_within r r' cfg Hc Hlim Hbody) in Ha.
  assert (Hact : actorFromRequest r' = if decide (sub = "") then "system" else sub).
  { unfold actorFromRequest. rewrite Hsub. by destruct (String.eqb_spec sub ""), (decide (sub = "")). }
  rewrite Hact in Ha. clear Hact.
  destruct (decode_body _ _ r) as [req|]; [|by answered Ha; right].
  case_decide; [by answered Ha; right|]. case_decide; [by answered Ha; right|].
  destruct Ha as (s2 & [(Heq & Ha)|(Heq & Ha)]); answered Heq; right; eexists _, _;
    [left|right]; (split; [by split|exact Ha]).
Qed.

(** ** Witnesses *)

Lemma unauthenticated_requests_witness :
  let '(resp, s') := run_handler (server demo_config) (activate_request "ApiKey other") m1 in
  resp_status resp = 401 ∧ db_of s' = db_of m1.
Proof.
  assert (Hst : resp_status (run_handler (server demo_config) (activate_request "ApiKey other") m1).1 = 401)
    by (vm_compute; reflexivity).
  pose proof (unauthenticated_requests demo_config (activate_request "ApiKey other") m1) as H.
  destruct (run_handler _ _ _) as [resp s']. split; [exact Hst|]. apply H.
  - reflexivity.
  - discriminate.
  - intros sub role m. apply demo_no_credentials.
Defined.

Lemma authenticated_activate_witness :
  ∃ g, g ∈ entities gateways (db_of (run_handler (server demo_config) (activate_request "ApiKey k1") m1).2)
       ∧ gw_Status g = "ACTIVE".
Proof.
  assert (Hst : resp_status (run_handler (server demo_config) (activate_request "ApiKey k1") m1).1 = 200)
    by (vm_compute; reflexivity).
  pose proof (authenticated_activate demo_config (activate_request "ApiKey k1") m1
    (to_hex "aaaaaaaaaaaaaaaa") "svc-1" "admin" AuthMethodAPIKey) as H.
  destruct (run_handler _ _ _) as [resp s']. cbn [fst snd] in *.
  destruct H as [(_ & H & _)|H].
  - reflexivity.
  - apply demo_credentials.
  - discriminate.
  - reflexivity.
  - vm_compute. discriminate.
  - reflexivity.
  - reflexivity.
  - discriminate.
  - rewrite H in Hst. discriminate Hst.
  - change (uuid_Parse _) with (Some "aaaaaaaaaaaaaaaa") in H.
    destruct H as [(_ & Hf & _ & g & Hg & Hid)|([H _] & _)]; [|rewrite H in Hst; discriminate Hst].
    apply list_elem_of_lookup in Hg as [i Hi]. destruct (Forall2_lookup_l _ _ _ _ _ Hf Hi) as (g' & Hg' & Hr).
    exists g'. split; [exact (list_elem_of_lookup_2 _ _ _ Hg')|].
    unfold status_rel in Hr. rewrite Hid, String.eqb_refl in Hr. by rewrite Hr.
Defined.

Lemma authenticated_create_witness :
  ∃ g, gw_CreatedBy g = "svc-1"
       ∧ added gateway_resource g (db_of m1)
           (db_of (run_handler (server demo_config) (create_request "ApiKey k1") m1).2).
Proof.
  assert (Hst : resp_status (run_handler (server demo_config) (create_request "ApiKey k1") m1).1 = 201)
    by (vm_compute; reflexivity).
  pose proof (authenticated_create demo_config (create_request "ApiKey k1") m1 "svc-1" "admin" AuthMethodAPIKey) as H.
  assert (Hd : decode_body create_gateway_fields zeroCreateGateway (create_request "ApiKey k1") = Some decoded_gateway)
    by (vm_compute; reflexivity).
  rewrite Hd in H. destruct (run_handler _ _ _) as [resp s']. cbn [fst snd] in *.
  destruct H as [(_ & H & _)|H].
  - reflexivity.
  - apply demo_credentials.
  - discriminate.
  - reflexivity.
  - vm_compute. discriminate.
  - apply list_elem_of_here.
  - reflexivity.
  - vm_compute. discriminate.
  - rewrite H in Hst. discriminate Hst.
  - rewrite decide_False, decide_False in H by (intros [H'|H']; by apply H' || (vm_compute in H'; discriminate H')).
    destruct H as (id & now & [(_ & Hadd)|([H _] & _)]); [|rewrite H in Hst; discriminate Hst].
    eexists. split; [|exact Hadd]. reflexivity.
Defined.
