(* ===== verification/Lifecycle.v ===== *)
(** * The life of the process ([control-plane/cmd/server/main.go])

    [main] from its first call to its exit: the start, the goroutine that serves,
    the wait for SIGINT or SIGTERM, [Shutdown] with its ten seconds, and the
    deferred calls, which run in reverse order when [main] returns and not at all
    when [logger.Fatal] ends the process.  The requests are the threads of
    Threads.v; the driver's pools are those of Pool.v.

    [http.Server]: [Shutdown] closes the listener first and returns without error
    only when every handler has returned; until then a connection that was already
    accepted can still bring a request.  [ListenAndServe] ends with
    [ErrServerClosed], which [main] ignores.  The step relation does not say which
    connection a request comes on, and has no request that arrives on an idle
    connection in the moment [Shutdown] closes it. *)

From S2P Require Import Prelude GoNum GoTime Json Http Respond Threads RateLimit RateQuota Auth Helpers Security Config.
From S2P Require Import Pool Model Sql Schema Postgres Memory Repository RepoFacts RepoSpec Service Handlers HandlerSpec.
From S2P Require Import Effects Endpoints Steady Server ChiRef ServerSpec ServerSafety ServerLimit.

(** ** The process *)

Inductive deferred := LoggerSync | PoolClose | LimiterStop | Cancel.

Inductive phase :=
| Serving                  (** [<-quit] blocks *)
| ShuttingDown             (** in [srv.Shutdown] *)
| Returning                (** [main] returns: the deferred calls *)
| Exited (code : Z)
| Panicked.

Record process (S D : Type) := mkProcess {
  p_phase : phase;
  p_defers : list deferred;        (** the next one first *)
  p_threads : list (thread S);     (** the requests accepted *)
  p_shared : S;
  p_cleaning : bool;               (** the limiter's goroutine has not returned *)
  p_done : bool;                   (** its channel is closed *)
  p_driver : D
}.
Arguments mkProcess {S D} _ _ _ _ _ _ _.
Arguments p_phase {S D} _.
Arguments p_defers {S D} _.
Arguments p_threads {S D} _.
Arguments p_shared {S D} _.
Arguments p_cleaning {S D} _.
Arguments p_done {S D} _.
Arguments p_driver {S D} _.

Definition alive (ph : phase) : bool :=
  match ph with Serving | ShuttingDown | Returning => true | Exited _ | Panicked => false end.

(** Requests can arrive. *)
Definition accepting (ph : phase) : bool :=
  match ph with Serving | ShuttingDown => true | _ => false end.

Section main.
Context {S D H R E E' : Type} `{UuidLib} `{ServerLaws S E} `{!SteadyLaws S E} `{ChiLaws S} `{PgxPool D H R E'}.

(** Up to [<-quit]: what was set up, or the code of [logger.Fatal]. *)
Definition boot (env : Env) (d : D) (s : S) : result (started H) Z * process S D :=
  match start env d with
  | (Err _, d') => (Err 1, mkProcess (Exited 1) [LoggerSync] [] s false false d')
  | (Ok st, d') =>
      (Ok st, mkProcess Serving [LimiterStop; PoolClose; LoggerSync] [] (put_limiter (st_limiter st) s) true false d')
  end.

(** [rateLimiter.Stop()] on the limiter of the process. *)
Definition stop_limiter (s : S) (cleaning done : bool) : option limiter_state :=
  Stop (mkLState (get_limiter s) cleaning done).

(** [P]: the readings with which the limiter's goroutine cleans up. *)
Inductive main_step (P : S → Time → Prop) (st : started H) : process S D → process S D → Prop :=
(* the server accepts requests, and serves them *)
| main_accept r ph ds ts s c x d :
    accepting ph = true →
    main_step P st (mkProcess ph ds ts s c x d)
      (mkProcess ph ds (ts ++ [mkThread r newResponseWriter (server (st_config st) r) []]) s c x d)
| main_run ph ds ts1 t t' ts2 s s' c x d :
    alive ph = true → thread_step t s t' s' →
    main_step P st (mkProcess ph ds (ts1 ++ t :: ts2) s c x d) (mkProcess ph ds (ts1 ++ t' :: ts2) s' c x d)
(* the limiter's goroutine *)
| main_tick ph ds ts s x d now :
    alive ph = true → P s now →
    main_step P st (mkProcess ph ds ts s true x d)
      (mkProcess ph ds ts (put_limiter (cleanup (get_limiter s) now) s) true x d)
| main_cleanup_returns ph ds ts s d :
    alive ph = true → main_step P st (mkProcess ph ds ts s true true d) (mkProcess ph ds ts s false true d)
(* time passes, and the like *)
| main_outside ph ds ts s s' c x d :
    alive ph = true → outside s s' → steady s s' →
    main_step P st (mkProcess ph ds ts s c x d) (mkProcess ph ds ts s' c x d)
(* [ListenAndServe] fails: [logger.Fatal] *)
| main_listen_fails ds ts s c x d :
    main_step P st (mkProcess Serving ds ts s c x d) (mkProcess (Exited 1) ds ts s c x d)
(* SIGINT or SIGTERM: [defer cancel()] and [srv.Shutdown] *)
| main_signal ds ts s c x d :
    main_step P st (mkProcess Serving ds ts s c x d) (mkProcess ShuttingDown (Cancel :: ds) ts s c x d)
| main_shutdown_expires ds ts s c x d :
    main_step P st (mkProcess ShuttingDown ds ts s c x d) (mkProcess (Exited 1) ds ts s c x d)
| main_shutdown_returns ds ts s c x d :
    Forall ended ts →
    main_step P st (mkProcess ShuttingDown ds ts s c x d) (mkProcess Returning ds ts s c x d)
(* [main] returns *)
| main_cancel ds ts s c x d :
    main_step P st (mkProcess Returning (Cancel :: ds) ts s c x d) (mkProcess Returning ds ts s c x d)
| main_stop ds ts s c x d ls :
    stop_limiter s c x = Some ls →
    main_step P st (mkProcess Returning (LimiterStop :: ds) ts s c x d)
      (mkProcess Returning ds ts s (ls_running ls) (ls_done ls) d)
| main_stop_panics ds ts s c x d :
    stop_limiter s c x = None →
    main_step P st (mkProcess Returning (LimiterStop :: ds) ts s c x d) (mkProcess Panicked ds ts s c x d)
| main_close ds ts s c x d :
    main_step P st (mkProcess Returning (PoolClose :: ds) ts s c x d)
      (mkProcess Returning ds ts s c x (pool_Close (st_pool st) d).2)
| main_sync ds ts s c x d :
    main_step P st (mkProcess Returning (LoggerSync :: ds) ts s c x d) (mkProcess Returning ds ts s c x d)
| main_exit ts s c x d :
    main_step P st (mkProcess Returning [] ts s c x d) (mkProcess (Exited 0) [] ts s c x d).
End main.

(** ** Lemmas *)

Section lifecycle.
Context {S D H R E E' : Type} `{UuidLib} `{ServerLaws S E} `{!SteadyLaws S E} `{ChiLaws S} `{PgxPoolLaws D H R E'} (P : S → Time → Prop).

(** The start: the pool it opens is the only new one. *)
Lemma start_pool (env : Env) (d : D) :
  match start env d with
  | (Ok st, d') => open_pools d !! st_pool st = None
      ∧ (∃ c, open_pools d' = <[st_pool st := c]> (open_pools d)) ∧ Load env = Ok (st_config st)
  | (Err _, d') => open_pools d' = open_pools d
  end.
Proof.
  unfold start. destruct (Load env) as [cfg|e]; [|done]. run_program.
  pose proof (NewPool_effect (DefaultPoolConfig (DatabaseURL cfg)) d) as Hp.
  destruct (NewPool _ d) as [[h|e] d']; [|done]. destruct Hp as (parsed & _ & Hno & Ho). cbn.
  split; [done|]. split; [by eexists|done].
Qed.

(** The requests of the process follow a schedule of the server. *)
Definition requests_scheduled (st : started H) (s0 : S) (p : process S D) : Prop :=
  limited_schedule (st_config st) P s0 (p_threads p) (p_shared p).

Lemma main_step_scheduled (st : started H) (s0 : S) (p p' : process S D) :
  requests_scheduled st s0 p → main_step P st p p' → requests_scheduled st s0 p'.
Proof.
  unfold requests_scheduled, limited_schedule. intros Hs Hstep.
  destruct Hstep; cbn [p_threads p_shared] in *; try exact Hs; (eapply rtc_r; [exact Hs|]).
  - apply pool_accept.
  - by apply pool_run.
  - apply pool_env. split; [apply limiter_keeps_db|]. rewrite put_limiter_clock, get_put_limiter.
    split; [lia|]. right. by exists now.
  - apply pool_env. split; [done|].
    match goal with Hst : steady _ _ |- _ => destruct Hst as [Hl Hc] end. split; [exact Hc|by left].
Qed.

(** Where [main] is, and what it has undone. *)
Definition in_order (st : started H) (before : gmap H (PgxConfig R)) (p : process S D) : Prop :=
  let opened := ∃ c, open_pools (p_driver p) = <[st_pool st := c]> before in
  let closed := open_pools (p_driver p) = before in
  match p_phase p with
  | Serving => p_defers p = [LimiterStop; PoolClose; LoggerSync] ∧ p_done p = false ∧ opened
  | ShuttingDown => p_defers p = [Cancel; LimiterStop; PoolClose; LoggerSync] ∧ p_done p = false ∧ opened
  | Returning =>
      Forall ended (p_threads p) ∧
      ((p_defers p = [Cancel; LimiterStop; PoolClose; LoggerSync] ∨ p_defers p = [LimiterStop; PoolClose; LoggerSync])
         ∧ p_done p = false ∧ opened
       ∨ p_defers p = [PoolClose; LoggerSync] ∧ p_done p = true ∧ opened
       ∨ (p_defers p = [LoggerSync] ∨ p_defers p = []) ∧ p_done p = true ∧ closed)
  | Exited 0 => Forall ended (p_threads p) ∧ p_defers p = [] ∧ p_done p = true ∧ closed
  | Exited _ => True
  | Panicked => False
  end.

Lemma main_step_in_order (st : started H) (before : gmap H (PgxConfig R)) (p p' : process S D) :
  before !! st_pool st = None → in_order st before p → main_step P st p p' → in_order st before p'.
Proof.
  unfold in_order. intros Hfresh Hin Hstep.
  destruct Hstep as [r ph ds ts s c x d Hacc| ph ds ts1 t t' ts2 s s' c x d Ha Ht| | | | | | | |ds|ds ts s c x d ls Hstop|ds ts s c x d Hstop|ds ts s c x d|ds|];
    cbn [p_phase p_defers p_threads p_done p_driver] in *; try exact Hin; try exact I.
  - destruct ph; try discriminate Hacc; exact Hin.
  - destruct ph; try discriminate Ha; try exact Hin. destruct Hin as [Hall _].
    apply Forall_app in Hall as [_ [He _]%list.Forall_cons]. by destruct (ended_stuck t t' s s' He).
  - destruct Hin as (-> & Hx). by split.
  - destruct Hin as (-> & Hd & Ho). split; [done|]. left. split; [by left|]. by split.
  - destruct Hin as [Hall [([Hd|Hd] & Hx)|[[Hd _]|[[Hd|Hd] _]]]]; try discriminate Hd.
    injection Hd as ->. split; [done|]. left. split; [by right|done].
  - unfold stop_limiter, Stop in Hstop. cbn [ls_done] in Hstop.
    destruct Hin as [Hall [([Hd|Hd] & -> & Ho)|[[Hd _]|[[Hd|Hd] _]]]]; try discriminate Hd.
    injection Hd as ->. injection Hstop as <-. cbn [ls_running ls_done]. split; [done|]. right. left. by split.
  - unfold stop_limiter, Stop in Hstop. cbn [ls_done] in Hstop.
    destruct Hin as [Hall [([Hd|Hd] & -> & Ho)|[[Hd _]|[[Hd|Hd] _]]]]; try discriminate Hd. discriminate Hstop.
  - destruct Hin as [Hall [([Hd|Hd] & _)|[(Hd & -> & c' & Ho)|[[Hd|Hd] _]]]]; try discriminate Hd.
    injection Hd as ->. split; [done|]. right. right. split; [by left|]. split; [done|].
    rewrite Close_closes, Ho. by apply delete_insert_id.
  - destruct Hin as [Hall [([Hd|Hd] & _)|[(Hd & _)|([Hd|Hd] & Hx)]]]; try discriminate Hd.
    injection Hd as ->. split; [done|]. right. right. split; [by right|done].
  - destruct Hin as [Hall [([Hd|Hd] & _)|[(Hd & _)|([Hd|Hd] & Hx)]]]; try discriminate Hd. by split.
Qed.

Lemma boot_in_order (env : Env) (d : D) (s : S) (st : started H) (p : process S D) :
  boot env d s = (Ok st, p) →
  open_pools d !! st_pool st = None ∧ in_order st (open_pools d) p
  ∧ requests_scheduled st (put_limiter (st_limiter st) s) p.
Proof.
  unfold boot. pose proof (start_pool env d) as Hst. destruct (start env d) as [[st'|e] d']; [|done].
  intros [= -> <-]. destruct Hst as (Hfresh & Ho & _). split; [done|]. split; [by split|]. apply rtc_refl.
Qed.

Lemma run_in_order (env : Env) (d : D) (s : S) (st : started H) (p0 p : process S D) :
  boot env d s = (Ok st, p0) → rtc (main_step P st) p0 p →
  open_pools d !! st_pool st = None ∧ in_order st (open_pools d) p
  ∧ requests_scheduled st (put_limiter (st_limiter st) s) p.
Proof.
  intros Hb Hrun. apply boot_in_order in Hb as (Hfresh & Hin & Hs). split; [done|]. revert Hin Hs.
  induction Hrun as [|p1 p2 p3 Hstep _ IH]; [done|]. intros Hin Hs. apply IH.
  - by apply (main_step_in_order st _ p1).
  - by apply (main_step_scheduled st _ p1).
Qed.

(** A request is only ever added to those accepted. *)
Lemma main_step_requests (st : started H) (p p' : process S D) :
  main_step P st p p' → map th_request (p_threads p) `prefix_of` map th_request (p_threads p').
Proof.
  intros Hstep. destruct Hstep as [| ph ds ts1 t t' ts2 s s' c x d Ha Ht| | | | | | | | | | | | |]; cbn [p_threads]; try done.
  - rewrite map_app. by apply prefix_app_r.
  - rewrite !map_app. cbn [map]. by destruct Ht.
Qed.

Lemma run_requests (st : started H) (p p' : process S D) :
  rtc (main_step P st) p p' → map th_request (p_threads p) `prefix_of` map th_request (p_threads p').
Proof.
  induction 1 as [|p1 p2 p3 Hstep _ IH]; [done|]. etransitivity; [by eapply main_step_requests|exact IH].
Qed.

(** A request answered, with the effect its status tells. *)
Definition answered (t : thread S) : Prop := ended t ∧ outcome (resp_status (finish (th_writer t))) (th_trace t).

Lemma exited_answered (env : Env) (d : D) (s : S) (st : started H) (p0 p : process S D) :
  boot env d s = (Ok st, p0) → rtc (main_step P st) p0 p → p_phase p = Exited 0 → Forall answered (p_threads p).
Proof.
  intros Hb Hrun Hp. destruct (run_in_order _ _ _ _ _ _ Hb Hrun) as (_ & Hin & Hs). unfold in_order in Hin.
  rewrite Hp in Hin. destruct Hin as (Hall & _). apply list.Forall_forall. intros t Ht.
  assert (He : ended t) by by apply (proj1 (list.Forall_forall _ _) Hall). split; [done|].
  apply limited_schedule_schedule in Hs.
  destruct (schedule_thread _ _ _ _ t (λ _, True) (λ _, by_status outcome) (λ r _, any_request _ r) Hs Ht I) as [_ Hout].
  by destruct (Hout He).
Qed.

(** The limiter of the process is new. *)
Lemma boot_limiter (env : Env) (d : D) (s : S) (st : started H) (p : process S D) :
  boot env d s = (Ok st, p) → st_limiter st = NewRateLimiter DefaultRateLimitConfig.
Proof.
  unfold boot, start. destruct (Load env) as [cfg|e]; [|done]. run_program.
  by destruct (NewPool _ d) as [[h|e] d']; cbn; [intros [= <- _]|].
Qed.

(** What the scheduler does is a run of the process. *)
Lemma interleave_main (st : started H) ph ds x (d : D) (cl : bool) (picks : list nat) (c : list (thread S) * S) :
  alive ph = true →
  rtc (main_step P st) (mkProcess ph ds c.1 c.2 cl x d)
    (mkProcess ph ds (interleave picks c).1 (interleave picks c).2 cl x d).
Proof.
  intros Ha. revert c. induction picks as [|i picks IH]; intros [ts s]; [done|]. cbn [interleave fst snd].
  destruct (ts !! i) as [t|] eqn:Ei; [|apply (IH (ts, s))]. etransitivity; [|apply IH]. cbn [fst snd].
  destruct (advance_step t s) as [-> |Hstep].
  - by rewrite list_insert_id.
  - apply rtc_once. rewrite <- (take_drop_middle ts i t Ei) at 1.
    rewrite insert_take_drop by (by eapply lookup_lt_Some). by apply main_run.
Qed.

(** *** Shutting down *)

Lemma thread_finishes (st : started H) ph ds c x d (r : Request) (m : hio S unit) : ∀ w tr ts1 ts2 (s : S),
  alive ph = true →
  ∃ t s', ended t ∧ th_request t = r ∧ rtc (main_step P st)
    (mkProcess ph ds (ts1 ++ mkThread r w m tr :: ts2) s c x d) (mkProcess ph ds (ts1 ++ t :: ts2) s' c x d).
Proof.
  induction m as [[]|f m IH|B f k IH]; intros w tr ts1 ts2 s Ha.
  - exists (mkThread r w (HDone tt) tr), s. split; [done|]. split; [done|apply rtc_refl].
  - destruct (IH (f w) tr ts1 ts2 s Ha) as (t & s' & He & Hr & Hrun).
    exists t, s'. split; [done|]. split; [done|]. eapply rtc_l; [by eapply main_run, thread_write|exact Hrun].
  - destruct (IH (f s).1 w (tr ++ [(s, (f s).2)])%list ts1 ts2 (f s).2 Ha) as (t & s' & He & Hr & Hrun).
    exists t, s'. split; [done|]. split; [done|]. eapply rtc_l; [by eapply main_run, thread_state|exact Hrun].
Qed.

Lemma threads_finish (st : started H) ph ds c x d (ts2 : list (thread S)) : ∀ ts1 (s : S),
  alive ph = true → Forall ended ts1 →
  ∃ ts s', Forall ended ts ∧ map th_request ts = map th_request (ts1 ++ ts2) ∧ rtc (main_step P st)
    (mkProcess ph ds (ts1 ++ ts2) s c x d) (mkProcess ph ds ts s' c x d).
Proof.
  induction ts2 as [|[r w m tr] ts2 IH]; intros ts1 s Ha Hall.
  - exists ts1, s. by rewrite app_nil_r.
  - destruct (thread_finishes st ph ds c x d r m w tr ts1 ts2 s Ha) as (t & s1 & He & Hr & Hrun).
    destruct (IH (ts1 ++ [t])%list s1 Ha) as (ts & s' & Hts & Hmap & Hrest).
    + apply Forall_app. split; [done|]. by apply Forall_cons_2; [|apply Forall_nil_2].
    + rewrite <- app_assoc in Hmap, Hrest. exists ts, s'. split; [done|]. split.
      * rewrite Hmap, !map_app. cbn. by rewrite Hr.
      * etransitivity; [exact Hrun|exact Hrest].
Qed.

(** The deferred calls run to the end. *)
Lemma defers_run (st : started H) ts (s : S) c (d : D) :
  ∃ p', p_phase p' = Exited 0 ∧ p_threads p' = ts ∧
    rtc (main_step P st) (mkProcess Returning [Cancel; LimiterStop; PoolClose; LoggerSync] ts s c false d) p'.
Proof.
  eexists. split; [|split; [|eapply rtc_l; [apply main_cancel|]; eapply rtc_l; [by apply main_stop|];
    eapply rtc_l; [apply main_close|]; eapply rtc_l; [apply main_sync|]; apply rtc_once, main_exit]]; done.
Qed.
End lifecycle.

(** ** Properties *)

(** C1. The life of the process: a failed start ends it with code 1 and leaves no
    pool open.  Otherwise, whatever happens, it does not panic; while a request is
    unfinished the pool is open and the limiter is not stopped; and when it ends
    with code 0 every request it accepted has been answered, with the effect its
    status tells, the limiter is stopped and its pool is closed. *)
Theorem main_lifecycle {S D H R E E'} `{UuidLib} `{ServerLaws S E} `{!SteadyLaws S E} `{ChiLaws S} `{PgxPoolLaws D H R E'}
    (P : S → Time → Prop) (env : Env) (d : D) (s : S) :
  match boot env d s with
  | (Err code, p) => code = 1 ∧ p_phase p = Exited 1 ∧ open_pools (p_driver p) = open_pools d
  | (Ok st, p0) => ∀ p, rtc (main_step P st) p0 p →
      p_phase p ≠ Panicked
      ∧ (∀ t, alive (p_phase p) = true → t ∈ p_threads p → ¬ ended t →
           is_Some (open_pools (p_driver p) !! st_pool st) ∧ p_done p = false)
      ∧ (p_phase p = Exited 0 →
           (∀ t, t ∈ p_threads p → ended t ∧ outcome (resp_status (finish (th_writer t))) (th_trace t))
           ∧ p_done p = true ∧ open_pools (p_driver p) = open_pools d)
  end.
Proof.
  destruct (boot env d s) as [[st|code] p0] eqn:Hb.
  - intros p Hrun. destruct (run_in_order P _ _ _ _ _ _ Hb Hrun) as (Hfresh & Hin & Hs). unfold in_order in Hin.
    split; [by intros Hp; rewrite Hp in Hin|]. split.
    + intros t Ha Ht Hne. assert (Hno : Forall ended (p_threads p) → False).
      { intros Hall. by apply Hne, (proj1 (list.Forall_forall _ _) Hall). }
      destruct (p_phase p); try discriminate Ha; [| |by destruct Hin].
      all: destruct Hin as (_ & Hd & c & Ho); split; [|done]; rewrite Ho, lookup_insert_eq; by eexists.
    + intros Hp. split.
      * pose proof (exited_answered P env d s st p0 p Hb Hrun Hp) as Hall. by apply list.Forall_forall.
      * rewrite Hp in Hin. by destruct Hin as (_ & _ & Hd & Ho).
  - unfold boot in Hb. pose proof (start_pool env d) as Hst. destruct (start env d) as [[st|e] d']; [done|].
    by injection Hb as <- <-.
Qed.

(** C36. Shutdown can complete: once the signal has come, the process has a run
    without new requests that answers every request in flight and ends with code 0,
    whatever its requests were doing; and no run ends with code 0 before every
    request accepted until then has been answered, none of them dropped. *)
Theorem shutdown_completes {S D H R E E'} `{UuidLib} `{ServerLaws S E} `{!SteadyLaws S E} `{ChiLaws S} `{PgxPoolLaws D H R E'}
    (P : S → Time → Prop) (env : Env) (d : D) (s : S) (st : started H) (p0 p : process S D) :
  boot env d s = (Ok st, p0) → rtc (main_step P st) p0 p → p_phase p = ShuttingDown →
  (∃ p', rtc (main_step P st) p p' ∧ p_phase p' = Exited 0
     ∧ map th_request (p_threads p') = map th_request (p_threads p) ∧ Forall answered (p_threads p'))
  ∧ ∀ p', rtc (main_step P st) p p' → p_phase p' = Exited 0 →
      map th_request (p_threads p) `prefix_of` map th_request (p_threads p') ∧ Forall answered (p_threads p').
Proof.
  intros Hb Hrun Hp.
  assert (Hdone : ∀ p', rtc (main_step P st) p p' → p_phase p' = Exited 0 → Forall answered (p_threads p')).
  { intros p' Hrun'. apply (exited_answered P env d s st p0); [exact Hb|]. by etransitivity. }
  split; [|by intros p' Hrun' He; split; [by eapply run_requests|by apply Hdone]].
  destruct (run_in_order P _ _ _ _ _ _ Hb Hrun) as (_ & Hin & _). unfold in_order in Hin.
  rewrite Hp in Hin. destruct Hin as (Hd & Hx & _). destruct p as [ph ds ts s1 c x d1]. cbn in Hp, Hd, Hx. subst.
  destruct (threads_finish P st ShuttingDown [Cancel; LimiterStop; PoolClose; LoggerSync] c false d1 ts [] s1 eq_refl
    (Forall_nil_2 _)) as (ts' & s' & Hall & Hmap & Hfin).
  destruct (defers_run P st ts' s' c d1) as (p' & He & Hts & Hdef).
  match type of Hdone with ∀ p', rtc _ ?p p' → _ => assert (Hreach : rtc (main_step P st) p p') end.
  { etransitivity; [exact Hfin|]. eapply rtc_l; [by apply main_shutdown_returns|exact Hdef]. }
  exists p'. split; [exact Hreach|]. split; [exact He|]. split; [by rewrite Hts|by apply Hdone].
Qed.

(** C9. Refinement: in the process the requests and the cleanups act on the one
    limiter as a single sequence of events, whose log is what the requests were told;
    the limiter never holds more than 100000 addresses; and a request is answered
    429 exactly when the limiter has told it so. *)
Theorem process_limiter {S D H R E E'} `{UuidLib} `{ServerLaws S E} `{!SteadyLaws S E} `{ChiLaws S} `{PgxPoolLaws D H R E'}
    (P : S → Time → Prop) (env : Env) (d : D) (s : S) (st : started H) (p0 p : process S D) :
  boot env d s = (Ok st, p0) → rtc (main_step P st) p0 p →
  (∃ evs log, run (NewRateLimiter DefaultRateLimitConfig) evs = (log, get_limiter (p_shared p))
              ∧ log ≡ₚ limiter_log (p_threads p))
  ∧ Z.of_nat (size (rl_entries (get_limiter (p_shared p)))) ≤ 100000
  ∧ ∀ t, t ∈ p_threads p → ended t →
      (resp_status (finish (th_writer t)) = 429 ↔ ∃ rec, thread_record t = [rec] ∧ rec_ok rec = false).
Proof.
  intros Hb Hrun. destruct (run_in_order P _ _ _ _ _ _ Hb Hrun) as (_ & _ & Hs).
  apply (limiter_in_any_schedule _ _ _ _ _ DefaultRateLimitConfig Hs); [|done].
  rewrite get_put_limiter. apply (boot_limiter _ _ _ _ _ Hb).
Qed.

(** C14. The quota of the process: of the requests of one client address that read
    the clock in an interval of a minute, at most 199 pass the limiter when requests
    and cleanups take its lock the moment they read the clock, and at most 298 when
    they may wait for it up to a minute; whatever else happens.  (main.go asks for
    100 requests per minute.) *)
Theorem process_quota {S D H R E E'} `{UuidLib} `{ServerLaws S E} `{!SteadyLaws S E} `{ChiLaws S} `{PgxPoolLaws D H R E'}
    (late : Z) (env : Env) (d : D) (s : S) (st : started H) (p0 p : process S D) (address : string) (lo hi : Z) :
  boot env d s = (Ok st, p0) → rtc (main_step (cleans_within late) st) p0 p →
  0 ≤ late ≤ Minute → Forall (waits late) (p_threads p) →
  0 ≤ clock_of s → clock_of (p_shared p) ≤ int64_max → Z.of_nat (List.length (p_threads p)) ≤ int64_max →
  hi ≤ lo + Minute →
  admitted address lo hi (limiter_log (p_threads p)) ≤ if decide (late = 0) then 199 else 298.
Proof.
  intros Hb Hrun Hlate Hw Hpos Hmax Hn Hlen.
  destruct (run_in_order (cleans_within late) _ _ _ _ _ _ Hb Hrun) as (_ & _ & Hs).
  pose proof (schedule_quota _ _ late _ _ _ DefaultRateLimitConfig address lo hi Hs (λ _ _ HP, HP)) as Hq.
  rewrite get_put_limiter, put_limiter_clock in Hq.
  apply (λ f, Hq f eq_refl Hpos Hmax Hw Hlate eq_refl Hlen Hn). apply (boot_limiter _ _ _ _ _ Hb).
Qed.

(** ** Witnesses *)

Definition demo_boot : result (started nat) Z * process memory driver := boot sample_env (mkDriver ∅ false) m1.

Definition demo_started : started nat :=
  mkStarted sample_cfg 0%nat (NewRateLimiter DefaultRateLimitConfig) ":8085".

Lemma demo_booted : demo_boot.1 = Ok demo_started.
Proof. vm_compute. reflexivity. Qed.

(** A request is accepted and the signal comes. *)
Definition demo_stopping : process memory driver :=
  let p := demo_boot.2 in
  mkProcess ShuttingDown (Cancel :: p_defers p)
    (p_threads p ++ [mkThread (create_request "ApiKey k2") newResponseWriter
                       (server sample_cfg (create_request "ApiKey k2")) []])
    (p_shared p) (p_cleaning p) (p_done p) (p_driver p).

Lemma demo_run (P : memory → Time → Prop) : rtc (main_step P demo_started) demo_boot.2 demo_stopping.
Proof.
  unfold demo_stopping. eapply rtc_l; [by apply (main_accept P demo_started (create_request "ApiKey k2"))|].
  apply rtc_once. apply main_signal.
Qed.

Lemma demo_boot_eq : boot sample_env (mkDriver ∅ false) m1 = (Ok demo_started, demo_boot.2).
Proof. rewrite <- demo_booted. apply surjective_pairing. Qed.

Definition demo_flight : thread memory :=
  nth 0 (p_threads demo_stopping) (mkThread (create_request "") newResponseWriter (HDone tt) []).

Lemma demo_unfinished : ¬ ended demo_flight.
Proof.
  assert (H : match th_prog demo_flight with HDone _ => true | _ => false end = false) by (vm_compute; reflexivity).
  unfold ended. intros He. rewrite He in H. discriminate H.
Qed.

(** The request in flight has its pool. *)
Lemma main_lifecycle_witness : is_Some (open_pools (p_driver demo_stopping) !! st_pool demo_started).
Proof.
  pose proof (main_lifecycle (λ _ _, True) sample_env (mkDriver ∅ false) m1) as H. rewrite demo_boot_eq in H.
  destruct (H demo_stopping (demo_run _)) as (_ & Hopen & _).
  destruct (Hopen demo_flight) as [Hpool _].
  - reflexivity.
  - apply list_elem_of_In. unfold demo_flight. apply (nth_In (p_threads demo_stopping)). apply le_n.
  - apply demo_unfinished.
  - exact Hpool.
Defined.

Lemma shutdown_completes_witness :
  let P := λ (_ : memory) (_ : Time), True in
  ∃ p', rtc (main_step P demo_started) demo_stopping p' ∧ p_phase p' = Exited 0
        ∧ map th_request (p_threads p') = [create_request "ApiKey k2"] ∧ Forall answered (p_threads p').
Proof.
  exact (proj1 (shutdown_completes _ sample_env (mkDriver ∅ false) m1 demo_started demo_boot.2 demo_stopping
    demo_boot_eq (demo_run _) eq_refl)).
Defined.

(** The request in flight, run to its end, has been through the limiter once. *)
Definition demo_served : list (thread memory) * memory :=
  interleave (repeat 0%nat 40) (p_threads demo_stopping, p_shared demo_stopping).

Definition demo_answered : process memory driver :=
  mkProcess ShuttingDown (p_defers demo_stopping) demo_served.1 demo_served.2 (p_cleaning demo_stopping)
    (p_done demo_stopping) (p_driver demo_stopping).

Lemma demo_answered_run (P : memory → Time → Prop) : rtc (main_step P demo_started) demo_boot.2 demo_answered.
Proof.
  etransitivity; [apply demo_run|].
  apply (interleave_main P demo_started ShuttingDown _ _ _ _ (repeat 0%nat 40)
    (p_threads demo_stopping, p_shared demo_stopping)). reflexivity.
Qed.

Lemma demo_answered_log :
  limiter_log (p_threads demo_answered) = [mkRecord "10.0.0.1:5000" (read_clock m1).1 true].
Proof. vm_compute. reflexivity. Qed.

Lemma process_limiter_witness :
  ∃ evs log, run (NewRateLimiter DefaultRateLimitConfig) evs = (log, get_limiter (p_shared demo_answered))
    ∧ log ≡ₚ [mkRecord "10.0.0.1:5000" (read_clock m1).1 true].
Proof.
  destruct (process_limiter (λ _ _, True) sample_env (mkDriver ∅ false) m1 demo_started demo_boot.2 demo_answered
    demo_boot_eq (demo_answered_run _)) as [(evs & log & Hrun & Hlog) _].
  exists evs, log. split; [exact Hrun|]. rewrite <- demo_answered_log. exact Hlog.
Defined.

(** It waits for the lock less than ten milliseconds. *)
Lemma demo_answered_waits : Forall (waits (10 * 1000000)) (p_threads demo_answered).
Proof.
  assert (Hw : forallb (λ t : thread memory,
    match th_trace t with (a, _) :: (b, _) :: _ => m_now b - m_now a <=? 10 * 1000000 | _ => true end)
    (p_threads demo_answered) = true) by (vm_compute; reflexivity).
  apply list.Forall_forall. intros t Hin. rewrite forallb_forall in Hw.
  specialize (Hw t (proj1 (list_elem_of_In _ _) Hin)). unfold waits. cbn [clock_of memory_steady].
  destruct (th_trace t) as [|[a a'] [|[b b'] tr]]; [done|done|]. by apply Z.leb_le.
Qed.

Lemma process_quota_witness : admitted "10.0.0.1:5000" 0 Minute (limiter_log (p_threads demo_answered)) ≤ 298.
Proof.
  apply (process_quota (10 * 1000000) sample_env (mkDriver ∅ false) m1 demo_started demo_boot.2 demo_answered
    "10.0.0.1:5000" 0 Minute).
  - exact demo_boot_eq.
  - apply demo_answered_run.
  - split; vm_compute; discriminate.
  - exact demo_answered_waits.
  - vm_compute. discriminate.
  - vm_compute. discriminate.
  - vm_compute. discriminate.
  - vm_compute. discriminate.
Defined.
